(** * AIImageRenamer: name resolution, job tracker and batch pipelines

    A shallow embedding of the batch file-processing core of the
    AIImageRenamer application (TypeScript / Next.js) together with the
    properties its design document states about it.

    Conventions of the embedding.
    - A JavaScript string is a [string]; one [ascii] stands for one UTF-16
      code unit in the range 0..255.
    - [null] / [undefined] are [None].
    - The persistent layer follows the in-memory path of the services
      ([getDb()] returns [null], [isStorageConfigured()] is [false]): the
      [Map]s [inMemoryImages] and [inMemoryJobs] are insertion-ordered
      association lists.
    - A Number is a [JsNumber.number]: NaN, an infinity or a rational;
      division and multiplication round to binary64 (to nearest, ties to
      even).
    - [new Date()] reads a clock that is threaded through the operations.
    - The outcome of an external call (file read, analyzer, delete) is an
      input of the pipeline that makes the call. *)

From Stdlib Require Import Bool Arith List Ascii String ZArith Lia FinFun.
From Stdlib Require DecimalString DecimalNat.
From Stdlib Require Import QArith Qpower Qround Qabs Qreduction Lqa.
Import ListNotations.

Local Close Scope Q_scope.
Local Open Scope string_scope.
Local Open Scope list_scope.
Local Open Scope nat_scope.

(* ================================================================== *)
(** ** JavaScript strings *)
(* ================================================================== *)

Module JsString.

Definition is_digit (c : ascii) : bool :=
  let n := nat_of_ascii c in (48 <=? n) && (n <=? 57).

Definition is_lower (c : ascii) : bool :=
  let n := nat_of_ascii c in (97 <=? n) && (n <=? 122).

Definition is_upper (c : ascii) : bool :=
  let n := nat_of_ascii c in (65 <=? n) && (n <=? 90).

Definition lower_char (c : ascii) : ascii :=
  if is_upper c then ascii_of_nat (nat_of_ascii c + 32) else c.

Fixpoint map_chars (f : ascii -> ascii) (s : string) : string :=
  match s with
  | EmptyString => EmptyString
  | String c s' => String (f c) (map_chars f s')
  end.

(** [s.toLowerCase()] *)
Definition toLowerCase (s : string) : string := map_chars lower_char s.

(** [s.replace(/[^...]/g, '_')]: every code unit outside the class [keep]
    becomes an underscore. *)
Definition replace_outside (keep : ascii -> bool) (s : string) : string :=
  map_chars (fun c => if keep c then c else "_"%char) s.

(** [s.slice(0, n)] and [s.substring(0, n)] for [0 <= n]. *)
Fixpoint take (n : nat) (s : string) : string :=
  match n, s with
  | S n', String c s' => String c (take n' s')
  | _, _ => EmptyString
  end.

Fixpoint drop (n : nat) (s : string) : string :=
  match n, s with
  | S n', String _ s' => drop n' s'
  | _, _ => s
  end.

(** A non-empty string is truthy. *)
Definition truthy (s : string) : bool :=
  match s with EmptyString => false | _ => true end.

Definition truthy_opt (o : option string) : bool :=
  match o with Some s => truthy s | None => false end.

(** Template literal [`${n}`] for a non-negative integer. *)
Definition show_nat (n : nat) : string :=
  DecimalString.NilEmpty.string_of_uint (Nat.to_uint n).

End JsString.

(* ================================================================== *)
(** ** Node's [path] helpers on the names the pipelines pass to them *)
(* ================================================================== *)

Module JsPath.
Import JsString.

(** Index of the last occurrence of [c]. *)
Fixpoint rindex (c : ascii) (s : string) : option nat :=
  match s with
  | EmptyString => None
  | String a s' =>
      match rindex c s' with
      | Some i => Some (S i)
      | None => if Ascii.eqb a c then Some 0 else None
      end
  end.

(** [path.extname(name)] for a name without directory separators (the
    entries [fs.readdir] returns): the part from the last dot on, and the
    empty string when there is no dot, when the only dot leads the name,
    or when the name is [..]. *)
Definition extname (name : string) : string :=
  match rindex "."%char name with
  | None => ""
  | Some 0 => ""
  | Some i => if String.eqb name ".." then "" else drop i name
  end.

Definition ends_with (s suffix : string) : bool :=
  String.eqb (drop (String.length s - String.length suffix) s) suffix.

(** [path.basename(name, ext)] for a name without directory separators. *)
Definition basename (name ext : string) : string :=
  if negb (truthy ext) then name
  else if String.length name <? String.length ext then name
  else if String.eqb ext name then ""
  else if ends_with name ext
       then take (String.length name - String.length ext) name
       else name.

(** [path.join(dir, name)] where it has nothing to normalise: [dir] a
    path in normal form without a trailing separator, other than the root,
    and [name] a file name as [readdir] returns it.  (For a [dir] that ends
    in a separator, or the root, [path.join] gives one separator where
    this gives two; [PosixPath.join] below is the function on all inputs,
    and [PosixPathFacts.join_plain] shows that the two agree on these.) *)
Definition join (dir name : string) : string := (dir ++ "/" ++ name)%string.

(** [path.dirname(p)] for a path that has a directory part. *)
Definition dirname (p : string) : string :=
  match rindex "/"%char p with
  | None => "."
  | Some 0 => "/"
  | Some i => take i p
  end.

End JsPath.

(* ================================================================== *)
(** ** The anchored regular expressions of [PREFIX_PATTERNS] *)
(* ================================================================== *)

Module JsRegex.
Import JsString.

(** Quantifier of one atom: [c], [c?], [c+], [c*], [c{n}] (all greedy). *)
Inductive quant := One | Opt | Plus | Star | Rep (n : nat).

(** A pattern [/^a1 a2 ... an/] is a sequence of quantified character
    classes. *)
Definition item : Type := (ascii -> bool) * quant.
Definition pattern : Type := list item.

(** Greedy repetition with backtracking: take as many as possible, then
    give characters back until the continuation [k] matches. *)
Fixpoint star (c : ascii -> bool) (k : string -> option string) (s : string)
  : option string :=
  match s with
  | String a s' =>
      if c a
      then match star c k s' with
           | Some r => Some r
           | None => k s
           end
      else k s
  | EmptyString => k s
  end.

Fixpoint rep (n : nat) (c : ascii -> bool) (k : string -> option string)
  (s : string) : option string :=
  match n with
  | 0 => k s
  | S n' =>
      match s with
      | String a s' => if c a then rep n' c k s' else None
      | EmptyString => None
      end
  end.

(** [match_prefix p s] is the text that follows the match of [/^p/] in
    [s], or [None] when the pattern does not match at position 0. *)
Fixpoint match_prefix (p : pattern) (s : string) : option string :=
  match p with
  | [] => Some s
  | (c, q) :: p' =>
      let k := match_prefix p' in
      match q with
      | One => rep 1 c k s
      | Opt =>
          match s with
          | String a s' =>
              if c a
              then match k s' with Some r => Some r | None => k s end
              else k s
          | EmptyString => k s
          end
      | Plus =>
          match s with
          | String a s' => if c a then star c k s' else None
          | EmptyString => None
          end
      | Star => star c k s
      | Rep n => rep n c k s
      end
  end.

Definition test (p : pattern) (s : string) : bool :=
  match match_prefix p s with Some _ => true | None => false end.

(** [s.replace(/^p/, '')]: the match, if any, is removed. *)
Definition replace_prefix (p : pattern) (s : string) : string :=
  match match_prefix p s with
  | Some rest => rest
  | None => s
  end.

(** Character classes. *)
Definition chr (c : ascii) : ascii -> bool := fun a => Ascii.eqb a c.
Definition chr_i (c : ascii) : ascii -> bool :=
  fun a => Ascii.eqb (lower_char a) (lower_char c).
Definition digit : ascii -> bool := is_digit.

(** A literal under the [i] flag. *)
Fixpoint lit_i (s : string) : pattern :=
  match s with
  | EmptyString => []
  | String c s' => (chr_i c, One) :: lit_i s'
  end.

End JsRegex.

(* ================================================================== *)
(** ** NameResolver: [lib/helpers.ts] and [generateImageId] *)
(* ================================================================== *)

Module NameResolver.
Import JsString JsPath JsRegex.

Definition SUPPORTED_EXTENSIONS : list string :=
  [".jpg"; ".jpeg"; ".png"; ".gif"; ".webp"; ".bmp"].

Definition underscore_opt : item := (chr "_", Opt).

(** The nine entries of [PREFIX_PATTERNS], in source order. *)
Definition PREFIX_PATTERNS : list pattern :=
  [ (* /^imgi?_?\d+_?/i *)
    lit_i "img" ++ [(chr_i "i", Opt); underscore_opt; (digit, Plus); underscore_opt];
    (* /^img_?\d+_?/i *)
    lit_i "img" ++ [underscore_opt; (digit, Plus); underscore_opt];
    (* /^dsc_?\d+_?/i *)
    lit_i "dsc" ++ [underscore_opt; (digit, Plus); underscore_opt];
    (* /^photo_?\d+_?/i *)
    lit_i "photo" ++ [underscore_opt; (digit, Plus); underscore_opt];
    (* /^image_?\d+_?/i *)
    lit_i "image" ++ [underscore_opt; (digit, Plus); underscore_opt];
    (* /^pic_?\d+_?/i *)
    lit_i "pic" ++ [underscore_opt; (digit, Plus); underscore_opt];
    (* /^screenshot_?\d+_?/i *)
    lit_i "screenshot" ++ [underscore_opt; (digit, Plus); underscore_opt];
    (* /^\d{4}-\d{2}-\d{2}_?/ *)
    [(digit, Rep 4); (chr "-", One); (digit, Rep 2); (chr "-", One);
     (digit, Rep 2); underscore_opt];
    (* /^\d{8}_?\d*_?/ *)
    [(digit, Rep 8); underscore_opt; (digit, Star); underscore_opt] ].

(** The last entry, [/^\d{8}_?\d*_?/]. *)
Definition last_pattern : pattern :=
  [(digit, Rep 8); underscore_opt; (digit, Star); underscore_opt].

(** [/[^a-z0-9_]/] keeps these. *)
Definition is_name_char (c : ascii) : bool :=
  is_lower c || is_digit c || Ascii.eqb c "_".

(** [x.toLowerCase().replace(/[^a-z0-9_]/g, '_').slice(0, 50)] *)
Definition sanitize (x : string) : string :=
  take 50 (replace_outside is_name_char (toLowerCase x)).

(** The [for (const pattern of PREFIX_PATTERNS)] loop: every iteration
    assigns [nameWithoutExt.replace(pattern, '')] to [cleanName]. *)
Definition prefix_loop (patterns : list pattern) (nameWithoutExt cleanName : string)
  : string :=
  fold_left (fun _ pattern => replace_prefix pattern nameWithoutExt)
            patterns cleanName.

Definition generateCleanName (originalName : string) (aiSuggestion : option string)
  : option string :=
  let cleanName := originalName in
  let ext := extname originalName in
  let nameWithoutExt := basename originalName ext in
  let cleanName := prefix_loop PREFIX_PATTERNS nameWithoutExt cleanName in
  match aiSuggestion with
  | Some ai =>
      if truthy ai then Some (sanitize ai)
      else if (String.length cleanName <? 3) || String.eqb cleanName nameWithoutExt
           then None
           else Some (sanitize cleanName)
  | None =>
      if (String.length cleanName <? 3) || String.eqb cleanName nameWithoutExt
      then None
      else Some (sanitize cleanName)
  end.

(** The class of [sanitizeFileName]: the characters a Windows file name
    must not contain (less-than, greater-than, colon, double quote, slash,
    backslash, bar, question mark, star). *)
Definition is_reserved_char (c : ascii) : bool :=
  existsb (Ascii.eqb c)
    ["<"%char; ">"%char; ":"%char; ascii_of_nat 34; "/"%char;
     ascii_of_nat 92; "|"%char; "?"%char; "*"%char].

Definition sanitizeFileName (name : string) : string :=
  map_chars (fun c => if is_reserved_char c then "_"%char else c) name.

(** [/[^a-zA-Z0-9._-]/] keeps these. *)
Definition is_id_char (c : ascii) : bool :=
  is_lower c || is_upper c || is_digit c
  || Ascii.eqb c "." || Ascii.eqb c "_" || Ascii.eqb c "-".

(** [lib/storage.ts]:
    [`${hash.substring(0, 8)}_${originalName.replace(/[^a-zA-Z0-9._-]/g, '_').substring(0, 50)}`] *)
Definition generateImageId (hash originalName : string) : string :=
  (take 8 hash ++ "_" ++ take 50 (replace_outside is_id_char originalName))%string.

(** What the design document asks of pattern cleaning: the first pattern of
    the list that matches is applied, once. *)
Fixpoint first_match (patterns : list pattern) (s : string) : option string :=
  match patterns with
  | [] => None
  | p :: ps =>
      match match_prefix p s with
      | Some rest => Some rest
      | None => first_match ps s
      end
  end.

Definition patternClean_spec (originalName : string) : option string :=
  let nameWithoutExt := basename originalName (extname originalName) in
  match first_match PREFIX_PATTERNS nameWithoutExt with
  | None => None
  | Some base =>
      if String.length base <? 3 then None else Some (sanitize base)
  end.

End NameResolver.

(* ================================================================== *)
(** ** JavaScript [Map]: insertion-ordered, keyed by string *)
(* ================================================================== *)

Module JsMap.

Definition t (V : Type) : Type := list (string * V).

Section Ops.
Context {V : Type}.

Fixpoint get (k : string) (m : t V) : option V :=
  match m with
  | [] => None
  | (k', v) :: m' => if String.eqb k k' then Some v else get k m'
  end.

Definition has (k : string) (m : t V) : bool :=
  match get k m with Some _ => true | None => false end.

(** [m.set(k, v)]: an existing key keeps its position, a new key goes
    to the end. *)
Fixpoint set (k : string) (v : V) (m : t V) : t V :=
  match m with
  | [] => [(k, v)]
  | (k', v') :: m' =>
      if String.eqb k k' then (k', v) :: m' else (k', v') :: set k v m'
  end.

Definition delete (k : string) (m : t V) : t V :=
  filter (fun kv => negb (String.eqb k (fst kv))) m.

Definition keys (m : t V) : list string := map fst m.
Definition values (m : t V) : list V := map snd m.

End Ops.

End JsMap.

(* ================================================================== *)
(** ** JavaScript numbers: IEEE 754 binary64 over the rationals *)
(* ================================================================== *)

Module JsNumber.
Local Open Scope Q_scope.

(** A Number is NaN, an infinity, or a finite binary64 value, kept as a
    reduced fraction.  The two zeros are identified. *)
Inductive number : Type :=
| NaN
| Inf (negative : bool)
| Fin (q : Q).

Definition pow2 (e : Z) : Q := 2 ^ e.

(** [floor (log2 x)] for [0 < x]. *)
Definition ilog2 (x : Q) : Z :=
  let e0 := (Z.log2 (Qnum x) - Z.log2 (Zpos (Qden x)))%Z in
  if Qle_bool (pow2 e0) x then e0 else (e0 - 1)%Z.

(** Round to the nearest integer, ties to even. *)
Definition rne (x : Q) : Z :=
  let f := Qfloor x in
  match Qcompare (x - inject_Z f) (1 # 2) with
  | Lt => f
  | Gt => (f + 1)%Z
  | Eq => if Z.even f then f else (f + 1)%Z
  end.

(** Exponent of the last place of the binade of [x]: 53 significant bits,
    and never below [2^-1074] (gradual underflow). *)
Definition ulp_exp (x : Q) : Z := Z.max (ilog2 x - 52) (-1074).

Definition round_pos (x : Q) : Q :=
  let e := ulp_exp x in
  inject_Z (rne (x / pow2 e)) * pow2 e.

(** Round-to-nearest-even of a real value onto the binary64 grid, before
    the overflow test. *)
Definition round_fin (x : Q) : Q :=
  match Qcompare x 0 with
  | Eq => 0
  | Gt => round_pos x
  | Lt => - round_pos (- x)
  end.

(** The binary64 value of the exact result [x]; a rounded magnitude of
    [2^1024] or more overflows to an infinity. *)
Definition fl (x : Q) : number :=
  let r := round_fin x in
  if Qle_bool (pow2 1024) (Qabs r)
  then Inf (Qle_bool r 0 && negb (Qeq_bool r 0))
  else Fin (Qred r).

Definition of_Z (z : Z) : number := fl (inject_Z z).
Definition of_nat (n : nat) : number := of_Z (Z.of_nat n).

Definition is_neg (q : Q) : bool := negb (Qle_bool 0 q).

(** [a / b] *)
Definition div (a b : number) : number :=
  match a, b with
  | NaN, _ | _, NaN => NaN
  | Inf _, Inf _ => NaN
  | Inf s, Fin y => Inf (xorb s (is_neg y))
  | Fin _, Inf _ => Fin 0
  | Fin x, Fin y =>
      if Qeq_bool y 0
      then if Qeq_bool x 0 then NaN else Inf (is_neg x)
      else fl (x / y)
  end.

(** [a * b] *)
Definition mul (a b : number) : number :=
  match a, b with
  | NaN, _ | _, NaN => NaN
  | Inf s, Inf s' => Inf (xorb s s')
  | Inf s, Fin y | Fin y, Inf s =>
      if Qeq_bool y 0 then NaN else Inf (xorb s (is_neg y))
  | Fin x, Fin y => fl (x * y)
  end.

(** [Math.round(a)]: the nearest integer, ties towards [+Infinity]. *)
Definition Math_round (a : number) : number :=
  match a with
  | NaN => NaN
  | Inf s => Inf s
  | Fin x => Fin (inject_Z (Qfloor (x + (1 # 2))))
  end.

(** The integer Number [z]. *)
Definition int (z : Z) : number := Fin (inject_Z z).

(** [a <= b] as JavaScript evaluates it (false when either is NaN). *)
Definition leb (a b : number) : bool :=
  match a, b with
  | NaN, _ | _, NaN => false
  | Inf true, _ => true
  | _, Inf false => true
  | Inf false, _ => false
  | _, Inf true => false
  | Fin x, Fin y => Qle_bool x y
  end.

End JsNumber.

(* ================================================================== *)
(** ** Job tracker: [lib/jobs.ts] and the [DELETE /api/jobs/[jobId]] handler *)
(* ================================================================== *)

Module Jobs.
Import JsString JsNumber.

Inductive JobType := scan | analyze | rename | cleanup.
Inductive JobStatus := pending | running | completed | failed | cancelled.

Definition JobType_text (t : JobType) : string :=
  match t with
  | scan => "scan" | analyze => "analyze" | rename => "rename" | cleanup => "cleanup"
  end.


(** [Record<string, any>] payloads are kept as key/value text. *)
Definition payload : Type := list (string * string).

Module Target.
Record JobTarget : Type := mk {
  name : string;
  status : JobStatus;
  startedAt : option nat;
  completedAt : option nat;
  error : option string;
  data : option payload
}.
End Target.
Abbreviation JobTarget := Target.JobTarget.

(** The [currentTarget] argument of [updateJobProgress]. *)
Module Current.
Record CurrentTarget : Type := mk {
  name : string;
  status : JobStatus;
  error : option string;
  data : option payload
}.
End Current.
Abbreviation CurrentTarget := Current.CurrentTarget.

Record Job : Type := mkJob {
  id : string;
  projectId : string;
  projectName : string;
  type : JobType;
  status : JobStatus;
  progress : number;
  totalItems : nat;
  processedItems : nat;
  successCount : nat;
  errorCount : nat;
  createdAt : nat;
  startedAt : option nat;
  completedAt : option nat;
  duration : option Z;
  statusMessage : string;
  targets : list JobTarget;
  errors : list string;
  config : payload
}.

Definition set_status (v : JobStatus) (j : Job) : Job :=
  mkJob (id j) (projectId j) (projectName j) (type j) v (progress j)
    (totalItems j) (processedItems j) (successCount j) (errorCount j)
    (createdAt j) (startedAt j) (completedAt j) (duration j)
    (statusMessage j) (targets j) (errors j) (config j).

Definition set_progress (v : number) (j : Job) : Job :=
  mkJob (id j) (projectId j) (projectName j) (type j) (status j) v
    (totalItems j) (processedItems j) (successCount j) (errorCount j)
    (createdAt j) (startedAt j) (completedAt j) (duration j)
    (statusMessage j) (targets j) (errors j) (config j).

Definition set_processedItems (v : nat) (j : Job) : Job :=
  mkJob (id j) (projectId j) (projectName j) (type j) (status j) (progress j)
    (totalItems j) v (successCount j) (errorCount j)
    (createdAt j) (startedAt j) (completedAt j) (duration j)
    (statusMessage j) (targets j) (errors j) (config j).

Definition set_successCount (v : nat) (j : Job) : Job :=
  mkJob (id j) (projectId j) (projectName j) (type j) (status j) (progress j)
    (totalItems j) (processedItems j) v (errorCount j)
    (createdAt j) (startedAt j) (completedAt j) (duration j)
    (statusMessage j) (targets j) (errors j) (config j).

Definition set_errorCount (v : nat) (j : Job) : Job :=
  mkJob (id j) (projectId j) (projectName j) (type j) (status j) (progress j)
    (totalItems j) (processedItems j) (successCount j) v
    (createdAt j) (startedAt j) (completedAt j) (duration j)
    (statusMessage j) (targets j) (errors j) (config j).

Definition set_startedAt (v : option nat) (j : Job) : Job :=
  mkJob (id j) (projectId j) (projectName j) (type j) (status j) (progress j)
    (totalItems j) (processedItems j) (successCount j) (errorCount j)
    (createdAt j) v (completedAt j) (duration j)
    (statusMessage j) (targets j) (errors j) (config j).

Definition set_completedAt (v : option nat) (j : Job) : Job :=
  mkJob (id j) (projectId j) (projectName j) (type j) (status j) (progress j)
    (totalItems j) (processedItems j) (successCount j) (errorCount j)
    (createdAt j) (startedAt j) v (duration j)
    (statusMessage j) (targets j) (errors j) (config j).

Definition set_duration (v : option Z) (j : Job) : Job :=
  mkJob (id j) (projectId j) (projectName j) (type j) (status j) (progress j)
    (totalItems j) (processedItems j) (successCount j) (errorCount j)
    (createdAt j) (startedAt j) (completedAt j) v
    (statusMessage j) (targets j) (errors j) (config j).

Definition set_statusMessage (v : string) (j : Job) : Job :=
  mkJob (id j) (projectId j) (projectName j) (type j) (status j) (progress j)
    (totalItems j) (processedItems j) (successCount j) (errorCount j)
    (createdAt j) (startedAt j) (completedAt j) (duration j)
    v (targets j) (errors j) (config j).

Definition set_targets (v : list JobTarget) (j : Job) : Job :=
  mkJob (id j) (projectId j) (projectName j) (type j) (status j) (progress j)
    (totalItems j) (processedItems j) (successCount j) (errorCount j)
    (createdAt j) (startedAt j) (completedAt j) (duration j)
    (statusMessage j) v (errors j) (config j).

Definition set_errors (v : list string) (j : Job) : Job :=
  mkJob (id j) (projectId j) (projectName j) (type j) (status j) (progress j)
    (totalItems j) (processedItems j) (successCount j) (errorCount j)
    (createdAt j) (startedAt j) (completedAt j) (duration j)
    (statusMessage j) (targets j) v (config j).

(** [inMemoryJobs] *)
Definition store : Type := JsMap.t Job.

Record CreateParams : Type := mkCreate {
  c_projectId : string;
  c_projectName : string;
  c_type : JobType;
  c_totalItems : nat;
  c_config : payload
}.

(** [createJob(params)].  [newId] is the value [generateJobId()] returns
    (a timestamp and a random suffix), [now] the clock. *)
Definition createJob (now : nat) (newId : string) (params : CreateParams)
  (jobs : store) : Job * store :=
  let job :=
    mkJob newId (c_projectId params) (c_projectName params) (c_type params)
      pending (int 0) (c_totalItems params) 0 0 0 now None None None
      ("Job created: " ++ JobType_text (c_type params) ++ " "
         ++ show_nat (c_totalItems params) ++ " items")%string
      [] [] (c_config params) in
  (job, JsMap.set (id job) job jobs).

Definition started (now : nat) (job : Job) : Job :=
  let job := set_status running job in
  let job := set_startedAt (Some now) job in
  set_statusMessage ("Processing " ++ JobType_text (type job) ++ "...")%string job.

(** [startJob(jobId)] *)
Definition startJob (now : nat) (jobId : string) (jobs : store)
  : option Job * store :=
  match JsMap.get jobId jobs with
  | None => (None, jobs)
  | Some job => let job := started now job in (Some job, JsMap.set jobId job jobs)
  end.

Record Update : Type := mkUpdate {
  u_processedItems : option nat;
  u_successCount : option nat;
  u_errorCount : option nat;
  u_statusMessage : option string;
  u_currentTarget : option CurrentTarget
}.

(** [Math.round((processedItems / totalItems) * 100)] *)
Definition progress_of (processed total : nat) : number :=
  Math_round (mul (div (of_nat processed) (of_nat total)) (of_nat 100)).

(** The finite value of the Number [n], and the integer that
    [progress_of] yields when no infinity or NaN arises. *)
Definition nat_value (n : nat) : Q :=
  Qred (round_fin (inject_Z (Z.of_nat n))).

Definition percent (processed total : nat) : Z :=
  Qfloor (Qred (round_fin
                  (Qred (round_fin (nat_value processed / nat_value total)) * 100))
          + (1 # 2))%Q.

(** [Object.assign(existingTarget, currentTarget)], then the stamp of
    [completedAt] for a completed or failed target. *)
Definition merge_target (now : nat) (c : CurrentTarget) (t : JobTarget) : JobTarget :=
  Target.mk (Current.name c) (Current.status c) (Target.startedAt t)
    (match Current.status c with
     | completed | failed => Some now
     | _ => Target.completedAt t
     end)
    (match Current.error c with Some e => Some e | None => Target.error t end)
    (match Current.data c with Some d => Some d | None => Target.data t end).

(** [{ ...currentTarget, startedAt: now }] *)
Definition new_target (now : nat) (c : CurrentTarget) : JobTarget :=
  Target.mk (Current.name c) (Current.status c) (Some now) None
    (Current.error c) (Current.data c).

(** [targets.find(t => t.name === name)] followed by the update of the
    target found, or the [push] of a new one. *)
Fixpoint upsert_target (now : nat) (c : CurrentTarget) (ts : list JobTarget)
  : list JobTarget :=
  match ts with
  | [] => [new_target now c]
  | t :: ts' =>
      if String.eqb (Target.name t) (Current.name c)
      then merge_target now c t :: ts'
      else t :: upsert_target now c ts'
  end.

(** The body of [updateJobProgress] on the job found. *)
Definition updated (now : nat) (update : Update) (job : Job) : Job :=
  let job :=
    match u_processedItems update with
    | Some p => set_progress (progress_of p (totalItems job)) (set_processedItems p job)
    | None => job
    end in
  let job :=
    match u_successCount update with Some n => set_successCount n job | None => job end in
  let job :=
    match u_errorCount update with Some n => set_errorCount n job | None => job end in
  let job :=
    if truthy_opt (u_statusMessage update)
    then match u_statusMessage update with
         | Some m => set_statusMessage m job
         | None => job
         end
    else job in
  match u_currentTarget update with
  | None => job
  | Some c =>
      let job := set_targets (upsert_target now c (targets job)) job in
      if truthy_opt (Current.error c)
      then match Current.error c with
           | Some e =>
               set_errors (errors job ++ [(Current.name c ++ ": " ++ e)%string]) job
           | None => job
           end
      else job
  end.

(** [updateJobProgress(jobId, update)] *)
Definition updateJobProgress (now : nat) (jobId : string) (update : Update)
  (jobs : store) : option Job * store :=
  match JsMap.get jobId jobs with
  | None => (None, jobs)
  | Some job =>
      let job := updated now update job in (Some job, JsMap.set jobId job jobs)
  end.

(** The jobs returned by successive [updateJobProgress] calls on one job,
    the clock advancing by one between calls. *)
Fixpoint update_trace (now : nat) (jobId : string) (updates : list Update)
  (jobs : store) : list Job :=
  match updates with
  | [] => []
  | u :: rest =>
      match updateJobProgress now jobId u jobs with
      | (Some job, jobs') => job :: update_trace (S now) jobId rest jobs'
      | (None, _) => []
      end
  end.

(** The [status] of [completeJob]'s parameter: ['completed' | 'failed']. *)
Inductive Outcome := Completed | Failed.

Definition Outcome_status (o : Outcome) : JobStatus :=
  match o with Completed => completed | Failed => failed end.

Definition finished (now : nat) (outcome : Outcome) (message : option string)
  (job : Job) : Job :=
  let job := set_status (Outcome_status outcome) job in
  let job := set_completedAt (Some now) job in
  let job := set_progress (int 100) job in
  let job :=
    match startedAt job with
    | Some s => set_duration (Some (Z.of_nat now - Z.of_nat s)%Z) job
    | None => job
    end in
  set_statusMessage
    (if truthy_opt message
     then match message with Some m => m | None => "" end
     else match outcome with
          | Completed =>
              ("Completed: " ++ show_nat (successCount job) ++ " succeeded, "
                 ++ show_nat (errorCount job) ++ " failed")%string
          | Failed => ("Failed: " ++ show_nat (errorCount job) ++ " errors")%string
          end)
    job.

(** [completeJob(jobId, { status, statusMessage })] *)
Definition completeJob (now : nat) (jobId : string) (outcome : Outcome)
  (message : option string) (jobs : store) : option Job * store :=
  match JsMap.get jobId jobs with
  | None => (None, jobs)
  | Some job =>
      let job := finished now outcome message job in
      (Some job, JsMap.set jobId job jobs)
  end.

(** [getJob(jobId)] *)
Definition getJob (jobId : string) (jobs : store) : option Job :=
  JsMap.get jobId jobs.

(** The [DELETE /api/jobs/[jobId]] handler: a pending or running job is
    marked cancelled; with [?remove=true] the job is then deleted. *)
Definition cancelOrRemove (now : nat) (jobId : string) (remove : bool)
  (jobs : store) : store :=
  match getJob jobId jobs with
  | None => jobs
  | Some job =>
      let jobs :=
        match status job with
        | pending | running =>
            JsMap.set jobId
              (set_statusMessage "Job cancelled by user"
                 (set_completedAt (Some now) (set_status cancelled job)))
              jobs
        | _ => jobs
        end in
      if remove then JsMap.delete jobId jobs else jobs
  end.

Definition is_terminal (s : JobStatus) : bool :=
  match s with
  | completed | failed | cancelled => true
  | pending | running => false
  end.

End Jobs.

(* ================================================================== *)
(** ** Records and the in-memory stores: [lib/storage.ts] *)
(* ================================================================== *)

Module Storage.
Import JsString.

(** [ImageMetadata] is kept as key/value text: the operations below only
    copy and spread it. *)
Definition ImageMetadata : Type := list (string * string).

(** [ImageData].  A value of type [Omit<ImageData, 'id'>] is a record whose
    [id] is the empty string; [saveImages] fills it in. *)
Record ImageData : Type := mkImage {
  id : string;
  projectId : string;
  originalName : string;
  currentName : string;
  path : string;
  size : nat;
  hash : string;
  extension : string;
  createdAt : nat;
  modifiedAt : nat;
  scannedAt : nat;
  status : string;
  aiDescription : option string;
  suggestedName : option string;
  patternCleanName : option string;
  isDuplicate : bool;
  duplicateOf : option (list string);
  renamed : bool;
  analyzedAt : option nat;
  renamedAt : option nat;
  storageUrl : option string;
  storagePath : option string;
  metadata : ImageMetadata
}.

Record Project : Type := mkProject {
  name : string;
  folderPath : string;
  description : string;
  p_createdAt : nat;
  updatedAt : nat;
  imageCount : nat;
  analyzedCount : nat;
  renamedCount : nat;
  p_status : string
}.

(** [inMemoryImages] and [inMemoryProjects] *)
Definition images : Type := JsMap.t ImageData.
Definition projects : Type := JsMap.t Project.

Definition generateImageId := NameResolver.generateImageId.

(** [{ ...a, ...b }] on metadata objects. *)
Definition spread (a b : ImageMetadata) : ImageMetadata :=
  fold_left (fun acc kv => JsMap.set (fst kv) (snd kv) acc) b a.

Definition getProjectImages (pid : string) (m : images) : list ImageData :=
  filter (fun img => String.eqb (projectId img) pid) (JsMap.values m).

Definition getImageById (imageId : string) (m : images) : option ImageData :=
  JsMap.get imageId m.

(** [updateImage(imageId, updates)]: [Object.assign(image, updates)].  The
    [Partial<ImageData>] argument is given as the assignment it performs. *)
Definition updateImage (imageId : string) (updates : ImageData -> ImageData)
  (m : images) : option ImageData * images :=
  match JsMap.get imageId m with
  | None => (None, m)
  | Some image => let image := updates image in (Some image, JsMap.set imageId image m)
  end.

(** [clearProjectImages(projectId)]: the number of entries deleted and the
    map that is left. *)
Definition clearProjectImages (pid : string) (m : images) : nat * images :=
  (List.length (filter (fun kv => String.eqb (projectId (snd kv)) pid) m),
   filter (fun kv => negb (String.eqb (projectId (snd kv)) pid)) m).

(** The id [saveImages] stores a record under. *)
Definition key_of (i : ImageData) : string :=
  generateImageId (hash i) (originalName i).

Definition set_id_project (imageId pid : string) (i : ImageData) : ImageData :=
  mkImage imageId pid (originalName i) (currentName i) (path i) (size i)
    (hash i) (extension i) (createdAt i) (modifiedAt i) (scannedAt i)
    (status i) (aiDescription i) (suggestedName i) (patternCleanName i)
    (isDuplicate i) (duplicateOf i) (renamed i) (analyzedAt i) (renamedAt i)
    (storageUrl i) (storagePath i) (metadata i).

Definition set_duplicate (flag : bool) (names : option (list string))
  (i : ImageData) : ImageData :=
  mkImage (id i) (projectId i) (originalName i) (currentName i) (path i) (size i)
    (hash i) (extension i) (createdAt i) (modifiedAt i) (scannedAt i)
    (status i) (aiDescription i) (suggestedName i) (patternCleanName i)
    flag names (renamed i) (analyzedAt i) (renamedAt i)
    (storageUrl i) (storagePath i) (metadata i).

Definition set_suggestedName (v : option string) (i : ImageData) : ImageData :=
  mkImage (id i) (projectId i) (originalName i) (currentName i) (path i) (size i)
    (hash i) (extension i) (createdAt i) (modifiedAt i) (scannedAt i)
    (status i) (aiDescription i) v (patternCleanName i)
    (isDuplicate i) (duplicateOf i) (renamed i) (analyzedAt i) (renamedAt i)
    (storageUrl i) (storagePath i) (metadata i).

(** A record with the given names, hash and path, and nothing else set
    (used to write down concrete stores). *)
Definition plain_image (pid file filePath h : string) : ImageData :=
  mkImage (generateImageId h file) pid file file filePath 0 h
    (JsString.toLowerCase (JsPath.extname file)) 0 0 0 "scanned" None None None
    false None false None None None None [].

End Storage.

(* ================================================================== *)
(** ** [lib/services/image.service.ts] and [project.service.ts] *)
(* ================================================================== *)

Module ImageService.
Import Storage.

Definition getProjectImages (pid : string) (m : images) : list ImageData :=
  Storage.getProjectImages pid m.

Definition getImage (imageId : string) (m : images) : option ImageData :=
  Storage.getImageById imageId m.

(** [saveImages(projectId, images)]: one [inMemoryImages.set] per record,
    under the id that [generateImageId] derives from it. *)
Definition saveImages (pid : string) (imgs : list ImageData) (m : images) : images :=
  fold_left
    (fun m imageData =>
       let imageId := generateImageId (hash imageData) (originalName imageData) in
       JsMap.set imageId (set_id_project imageId pid imageData) m)
    imgs m.

(** [updateImage(projectId, imageId, updates)]; the result is [success]. *)
Definition updateImage (imageId : string) (updates : ImageData -> ImageData)
  (m : images) : bool * images :=
  match Storage.updateImage imageId updates m with
  | (Some _, m') => (true, m')
  | (None, m') => (false, m')
  end.

Definition clearProjectImages (pid : string) (m : images) : images :=
  snd (Storage.clearProjectImages pid m).

End ImageService.

Module ProjectService.
Import Storage.

Definition getProject (pid : string) (ps : projects) : option Project :=
  JsMap.get pid ps.

(** [updateProject(id, { imageCount, analyzedCount, renamedCount, status })] *)
Definition updateProject (now : nat) (pid : string)
  (count analyzed renamedN : nat) (st : string) (ps : projects) : projects :=
  match JsMap.get pid ps with
  | None => ps
  | Some p =>
      JsMap.set pid
        (mkProject (name p) (folderPath p) (description p) (p_createdAt p)
           now count analyzed renamedN st) ps
  end.

(** [updateProjectStats(id, stats)]: [imageCount] is assigned, the other two
    counters are incremented. *)
Definition updateProjectStats (now : nat) (pid : string)
  (count analyzed renamedN : option nat) (ps : projects) : projects :=
  match JsMap.get pid ps with
  | None => ps
  | Some p =>
      JsMap.set pid
        (mkProject (name p) (folderPath p) (description p) (p_createdAt p) now
           (match count with Some n => n | None => imageCount p end)
           (match analyzed with Some n => analyzedCount p + n | None => analyzedCount p end)
           (match renamedN with Some n => renamedCount p + n | None => renamedCount p end)
           (p_status p)) ps
  end.

End ProjectService.

(* ================================================================== *)
(** ** The state the route handlers run against *)
(* ================================================================== *)

Module World.

Record t : Type := mk {
  images : Storage.images;
  projects : Storage.projects;
  jobs : Jobs.store;
  (** paths of the files present on disk *)
  disk : list string;
  (** the value the next [new Date()] returns *)
  clock : nat
}.

Definition with_images (v : Storage.images) (w : t) : t :=
  mk v (projects w) (jobs w) (disk w) (clock w).
Definition with_projects (v : Storage.projects) (w : t) : t :=
  mk (images w) v (jobs w) (disk w) (clock w).
Definition with_jobs (v : Jobs.store) (w : t) : t :=
  mk (images w) (projects w) v (disk w) (clock w).
Definition with_disk (v : list string) (w : t) : t :=
  mk (images w) (projects w) (jobs w) v (clock w).
Definition tick (w : t) : t :=
  mk (images w) (projects w) (jobs w) (disk w) (S (clock w)).

(** Tracker calls made by a handler: each reads the clock once. *)
Definition createJob (newId : string) (params : Jobs.CreateParams) (w : t) : t :=
  tick (with_jobs (snd (Jobs.createJob (clock w) newId params (jobs w))) w).
Definition startJob (jobId : string) (w : t) : t :=
  tick (with_jobs (snd (Jobs.startJob (clock w) jobId (jobs w))) w).
Definition updateJobProgress (jobId : string) (u : Jobs.Update) (w : t) : t :=
  tick (with_jobs (snd (Jobs.updateJobProgress (clock w) jobId u (jobs w))) w).
Definition completeJob (jobId : string) (o : Jobs.Outcome) (message : string) (w : t) : t :=
  tick (with_jobs (snd (Jobs.completeJob (clock w) jobId o (Some message) (jobs w))) w).
Definition cancelJob (jobId : string) (w : t) : t :=
  tick (with_jobs (Jobs.cancelOrRemove (clock w) jobId false (jobs w)) w).

End World.

(* ================================================================== *)
(** ** Scan pipeline: [POST /api/projects/[projectId]/scan] *)
(* ================================================================== *)

Module ScanPipeline.
Import JsString JsPath NameResolver Storage.

(** What [fs.stat] and [fs.readFile] give for one file: its size and
    timestamps, the MD5 digest of its bytes (hex), and the metadata object
    computed from its size and header bytes. *)
Record FileInfo : Type := mkInfo {
  fi_size : nat;
  fi_birthtime : nat;
  fi_mtime : nat;
  fi_hash : string;
  fi_metadata : ImageMetadata
}.

Inductive ReadResult : Type :=
| ReadOk (info : FileInfo)
| ReadError (message : string).

(** One entry of the folder. *)
Record FileEntry : Type := mkFile {
  f_name : string;
  f_read : ReadResult
}.

(** An exception that escapes the per-file [try]: raised when the loop is
    about to start item [at_item] (or, for [at_item] equal to the number of
    files, right after the loop). *)
Record Fault : Type := mkFault {
  at_item : nat;
  fault_message : string
}.

Inductive Response : Type :=
| Error (code : nat) (message : string)
| Ok (jobId : string) (imageCount duplicateCount : nat) (images : list ImageData).

Definition supported (f : string) : bool :=
  existsb (String.eqb (toLowerCase (extname f))) SUPPORTED_EXTENSIONS.

(** [existingByHash] *)
Definition index_by_hash (existingImages : list ImageData) : JsMap.t (list ImageData) :=
  fold_left
    (fun m img =>
       if negb (truthy (hash img)) then m
       else
         let m := if JsMap.has (hash img) m then m else JsMap.set (hash img) [] m in
         match JsMap.get (hash img) m with
         | Some l => JsMap.set (hash img) (l ++ [img]) m
         | None => m
         end)
    existingImages [].

(** The prior record preferred for a file: same path, else same current or
    original name, else the first of the list. *)
Definition find_existing (existingList : list ImageData) (filePath file : string)
  : option ImageData :=
  match find (fun img => String.eqb (path img) filePath) existingList with
  | Some e => Some e
  | None =>
      match find (fun img => String.eqb (currentName img) file
                             || String.eqb (originalName img) file) existingList with
      | Some e => Some e
      | None => hd_error existingList
      end
  end.

(** [a ?? b] *)
Definition nullish {A : Type} (a b : option A) : option A :=
  match a with Some _ => a | None => b end.

(** The record built for a file that was read. *)
Definition fresh (pid filePath file ext : string) (info : FileInfo) (now : nat)
  : ImageData :=
  mkImage "" pid file file filePath (fi_size info) (fi_hash info) ext
    (fi_birthtime info) (fi_mtime info) now "scanned" None None
    (generateCleanName file None) false None false None None None None
    (fi_metadata info).

(** The merge-forward block: [{ ...imageData, aiDescription: existing.aiDescription ?? ..., ... }] *)
Definition merge_forward (existing imageData : ImageData) : ImageData :=
  mkImage (id imageData) (projectId imageData) (originalName imageData)
    (currentName imageData) (path imageData) (size imageData) (hash imageData)
    (extension imageData) (createdAt imageData) (modifiedAt imageData)
    (scannedAt imageData)
    (status existing)
    (nullish (aiDescription existing) (aiDescription imageData))
    (nullish (suggestedName existing) (suggestedName imageData))
    (nullish (patternCleanName existing) (patternCleanName imageData))
    (isDuplicate existing)
    (nullish (duplicateOf existing) (duplicateOf imageData))
    (renamed existing)
    (nullish (analyzedAt existing) (Some (scannedAt imageData)))
    (nullish (renamedAt existing) (renamedAt imageData))
    (nullish (storageUrl existing) (storageUrl imageData))
    (nullish (storagePath existing) (storagePath imageData))
    (spread (metadata existing) (metadata imageData)).

(** The record pushed onto [images] for a file that was read. *)
Definition build_image (pid folderPath : string)
  (existingByHash : JsMap.t (list ImageData)) (file : string) (info : FileInfo)
  (now : nat) : ImageData :=
  let ext := toLowerCase (extname file) in
  let filePath := join folderPath file in
  let imageData := fresh pid filePath file ext info now in
  let existingList :=
    match JsMap.get (fi_hash info) existingByHash with Some l => l | None => [] end in
  match find_existing existingList filePath file with
  | Some existing => merge_forward existing imageData
  | None => imageData
  end.

(** The variables of the file loop. *)
Record Loop : Type := mkLoop {
  images : list ImageData;
  duplicateHashes : JsMap.t (list string);
  processedCount : nat
}.

Definition track_duplicate (h file : string) (d : JsMap.t (list string))
  : JsMap.t (list string) :=
  match JsMap.get h d with
  | Some l => JsMap.set h (l ++ [file]) d
  | None => JsMap.set h [file] d
  end.

(** One iteration of [for (const file of files)]. *)
Definition scan_file (pid folderPath jobId : string)
  (existingByHash : JsMap.t (list ImageData)) (file : FileEntry)
  (st : Loop * World.t) : Loop * World.t :=
  let (l, w) := st in
  let w :=
    World.updateJobProgress jobId
      (Jobs.mkUpdate (Some (processedCount l)) None None
         (Some ("Scanning: " ++ f_name file)%string)
         (Some (Jobs.Current.mk (f_name file) Jobs.running None None))) w in
  match f_read file with
  | ReadOk info =>
      let dups := track_duplicate (fi_hash info) (f_name file) (duplicateHashes l) in
      let imageData :=
        build_image pid folderPath existingByHash (f_name file) info (World.clock w) in
      let w := World.tick w in
      let imgs := images l ++ [imageData] in
      let w :=
        World.updateJobProgress jobId
          (Jobs.mkUpdate None (Some (List.length imgs)) None None
             (Some (Jobs.Current.mk (f_name file) Jobs.completed None
                      (Some [("size", show_nat (fi_size info));
                             ("uploaded", "false"); ("skipped", "false")])))) w in
      (mkLoop imgs dups (S (processedCount l)), w)
  | ReadError message =>
      let errs :=
        match Jobs.getJob jobId (World.jobs w) with
        | Some job => Jobs.errorCount job
        | None => 0
        end in
      let w :=
        World.updateJobProgress jobId
          (Jobs.mkUpdate None None (Some (errs + 1)) None
             (Some (Jobs.Current.mk (f_name file) Jobs.failed (Some message) None))) w in
      (mkLoop (images l) (duplicateHashes l) (S (processedCount l)), w)
  end.

(** The file loop.  [inr w] is the state in which the fault was raised. *)
Fixpoint scan_loop (pid folderPath jobId : string)
  (existingByHash : JsMap.t (list ImageData)) (fault : option nat)
  (files : list FileEntry) (st : Loop * World.t) : (Loop * World.t) + World.t :=
  match fault with
  | Some 0 => inr (snd st)
  | _ =>
      match files with
      | [] => inl st
      | file :: rest =>
          scan_loop pid folderPath jobId existingByHash (option_map Nat.pred fault)
            rest (scan_file pid folderPath jobId existingByHash file st)
      end
  end.

(** The "mark duplicates" loop over [duplicateHashes.entries()]. *)
Definition mark_duplicates (dups : JsMap.t (list string)) (imgs : list ImageData)
  : nat * list ImageData :=
  fold_left
    (fun (acc : nat * list ImageData) (entry : string * list string) =>
       let (duplicateCount, imgs) := acc in
       let (h, fileNames) := entry in
       if 1 <? List.length fileNames
       then (duplicateCount + List.length fileNames,
             map (fun img =>
                    if String.eqb (hash img) h
                    then set_duplicate true
                           (Some (filter (fun f => negb (String.eqb f (originalName img)))
                                         fileNames)) img
                    else img) imgs)
       else (duplicateCount, imgs))
    dups (0, imgs).

Definition count_if {A : Type} (f : A -> bool) (l : list A) : nat :=
  List.length (filter f l).

(** What [fs.readdir(folderPath)] gives: the entries of the folder, or
    the message of the error it throws. *)
Inductive Listing : Type :=
| Entries (entries : list FileEntry)
| Unreadable (message : string).

(** The handler. *)
Definition scan (pid newJobId : string) (listing : Listing)
  (fault : option Fault) (w : World.t) : Response * World.t :=
  match ProjectService.getProject pid (World.projects w) with
  | None => (Error 404 "Project not found", w)
  | Some project =>
      match listing with
      | Unreadable message => (Error 400 ("Cannot read folder: " ++ message)%string, w)
      | Entries entries =>
          let folderPath := Storage.folderPath project in
          let files := filter (fun f => supported (f_name f)) entries in
          let w :=
            World.createJob newJobId
              (Jobs.mkCreate pid (Storage.name project) Jobs.scan (List.length files)
                 [("uploadToCloud", "false")]) w in
          let w := World.startJob newJobId w in
          let existingImages := ImageService.getProjectImages pid (World.images w) in
          let existingByHash := index_by_hash existingImages in
          let w :=
            World.with_images (ImageService.clearProjectImages pid (World.images w)) w in
          match scan_loop pid folderPath newJobId existingByHash
                  (option_map at_item fault) files (mkLoop [] [] 0, w) with
          | inr w =>
              let message :=
                match fault with Some f => fault_message f | None => "" end in
              (Error 500 message,
               World.completeJob newJobId Jobs.Failed
                 ("Scan failed: " ++ message)%string w)
          | inl (l, w) =>
              let (duplicateCount, imgs) :=
                mark_duplicates (duplicateHashes l) (images l) in
              let w :=
                World.with_images (ImageService.saveImages pid imgs (World.images w)) w in
              let analyzedCount := count_if (fun img => truthy_opt (suggestedName img)) imgs in
              let renamedCount := count_if renamed imgs in
              let w :=
                World.tick
                  (World.with_projects
                     (ProjectService.updateProject (World.clock w) pid
                        (List.length imgs) analyzedCount renamedCount "scanned"
                        (World.projects w)) w) in
              let w :=
                World.completeJob newJobId Jobs.Completed
                  ("Scanned " ++ show_nat (List.length imgs) ++ " images, "
                     ++ show_nat duplicateCount ++ " duplicates")%string w in
              (Ok newJobId (List.length imgs) duplicateCount
                 (map (fun img =>
                         set_id_project
                           (generateImageId (hash img) (originalName img))
                           (projectId img) img) imgs),
               w)
          end
      end
  end.

End ScanPipeline.

(* ================================================================== *)
(** ** Collision resolution and the rename pipeline *)
(* ================================================================== *)

Module RenamePipeline.
Import JsString JsPath Storage.

(** [fs.access(p)] succeeds when a file is present at [p]. *)
Definition access (disk : list string) (p : string) : bool :=
  existsb (String.eqb p) disk.

(** The candidate probed at round [counter]: the bare name first, then
    [name_1], [name_2], ... *)
Definition candidate (newName : string) (counter : nat) : string :=
  match counter with
  | 0 => newName
  | S _ => (newName ++ "_" ++ show_nat counter)%string
  end.

(** The path probed at round [counter]. *)
Definition probe_path (dir newName ext : string) (n : nat) : string :=
  join dir (candidate newName n ++ ext)%string.

(** The [while (true)] loop that looks for a free file name.  The state
    is [(finalName, newPath, counter)]; [fuel] bounds the number of
    rounds. *)
Fixpoint probe (fuel : nat) (disk : list string) (dir newName ext : string)
  (finalName newPath : string) (counter : nat) : option (string * string) :=
  match fuel with
  | 0 => None
  | S fuel' =>
      if access disk newPath
      then
        let finalName := (newName ++ "_" ++ show_nat counter)%string in
        let newPath := join dir (finalName ++ ext)%string in
        probe fuel' disk dir newName ext finalName newPath (S counter)
      else Some (finalName, newPath)
  end.

(** "Find unique filename": the pair [(finalName, newPath)].  One round
    more than there are files on disk always suffices. *)
Definition findUniqueName (disk : list string) (dir newName ext : string)
  : option (string * string) :=
  probe (S (List.length disk)) disk dir newName ext
    newName (join dir (newName ++ ext)%string) 1.

(** [ResolveCollision(directory, candidateBase, extension)]: the final file
    name. *)
Definition resolveCollision (disk : list string) (dir newName ext : string)
  : option string :=
  match findUniqueName disk dir newName ext with
  | Some (finalName, _) => Some (finalName ++ ext)%string
  | None => None
  end.

(** [fs.rename(oldPath, newPath)]; [None] when [oldPath] does not exist. *)
Definition fs_rename (oldPath newPath : string) (disk : list string)
  : option (list string) :=
  if access disk oldPath
  then Some (newPath :: filter (fun p => negb (String.eqb p oldPath || String.eqb p newPath)) disk)
  else None.

(** One element of the [results] array of the response. *)
Record Result : Type := mkResult {
  r_imageId : string;
  r_oldName : option string;
  r_newName : option string;
  r_success : bool;
  r_error : option string
}.

(** The assignment [updateImage] performs after a rename. *)
Definition renamed_patch (newFullName newPath : string) (now : nat)
  (i : ImageData) : ImageData :=
  mkImage (id i) (projectId i) (originalName i) newFullName newPath (size i)
    (hash i) (extension i) (createdAt i) (modifiedAt i) (scannedAt i)
    "renamed" (aiDescription i) (suggestedName i) (patternCleanName i)
    (isDuplicate i) (duplicateOf i) true (analyzedAt i) (Some now)
    (storageUrl i) (storagePath i)
    (spread (metadata i) [("lastModified", show_nat now)]).

(** The variables of the item loop. *)
Record Loop : Type := mkLoop {
  results : list Result;
  successCount : nat;
  errorCount : nat
}.

Definition failure (imageId message : string) (l : Loop) : Loop :=
  mkLoop (results l ++ [mkResult imageId None None false (Some message)])
    (successCount l) (S (errorCount l)).

(** The name the item is renamed to, if any. *)
Definition choose_name (useAiSuggestion usePatternClean : bool) (imageData : ImageData)
  : option string :=
  if useAiSuggestion && truthy_opt (suggestedName imageData)
  then suggestedName imageData
  else if usePatternClean && truthy_opt (patternCleanName imageData)
       then patternCleanName imageData
       else None.

(** One iteration of [for (let i = 0; i < targetIds.length; i++)]. *)
Definition rename_item (jobId : string) (useAiSuggestion usePatternClean : bool)
  (total i : nat) (imageId : string) (st : Loop * World.t) : Loop * World.t :=
  let (l, w) := st in
  let w :=
    World.updateJobProgress jobId
      (Jobs.mkUpdate (Some i) (Some (successCount l)) (Some (errorCount l))
         (Some ("Renaming image " ++ show_nat (i + 1) ++ "/" ++ show_nat total)%string)
         (Some (Jobs.Current.mk imageId Jobs.running None None))) w in
  match ImageService.getImage imageId (World.images w) with
  | None => (failure imageId "Image not found" l, w)
  | Some imageData =>
      match choose_name useAiSuggestion usePatternClean imageData with
      | None => (failure imageId "No suggested name available" l, w)
      | Some newName =>
          let oldPath := path imageData in
          let oldName := currentName imageData in
          let dir := dirname oldPath in
          let ext := extension imageData in
          let thrown message :=
            (failure imageId message l,
             World.updateJobProgress jobId
               (Jobs.mkUpdate None None (Some (S (errorCount l))) None
                  (Some (Jobs.Current.mk imageId Jobs.failed (Some message) None))) w) in
          match findUniqueName (World.disk w) dir newName ext with
          | None => thrown "no free name"
          | Some (finalName, newPath) =>
              let newFullName := (finalName ++ ext)%string in
              match fs_rename oldPath newPath (World.disk w) with
              | None => thrown "ENOENT: no such file or directory"
              | Some disk' =>
                  let w := World.with_disk disk' w in
                  let now := World.clock w in
                  let w := World.tick w in
                  let w :=
                    World.with_images
                      (snd (ImageService.updateImage imageId
                              (renamed_patch newFullName newPath now) (World.images w))) w in
                  let l :=
                    mkLoop (results l ++ [mkResult imageId (Some oldName)
                                            (Some newFullName) true None])
                      (S (successCount l)) (errorCount l) in
                  let w :=
                    World.updateJobProgress jobId
                      (Jobs.mkUpdate None (Some (successCount l)) None None
                         (Some (Jobs.Current.mk imageId Jobs.completed None
                                  (Some [("oldName", oldName);
                                         ("newName", newFullName)])))) w in
                  (l, w)
              end
          end
      end
  end.

(** The item loop.  [env i] is what other request handlers do to the
    state while the loop waits before item [i]. *)
Fixpoint rename_loop (jobId : string) (useAiSuggestion usePatternClean : bool)
  (env : nat -> World.t -> World.t) (total i : nat) (targetIds : list string)
  (st : Loop * World.t) : Loop * World.t :=
  match targetIds with
  | [] => st
  | imageId :: rest =>
      let st := (fst st, env i (snd st)) in
      rename_loop jobId useAiSuggestion usePatternClean env total (S i) rest
        (rename_item jobId useAiSuggestion usePatternClean total i imageId st)
  end.

Inductive Response : Type :=
| Error (code : nat) (message : string)
| NothingToDo
| Done (results : list Result) (renamedN errors : nat) (jobId : string).

(** The default target list: every record not yet renamed that has a name
    of the requested kind. *)
Definition eligible (useAiSuggestion usePatternClean : bool) (img : ImageData) : bool :=
  negb (renamed img)
  && ((useAiSuggestion && truthy_opt (suggestedName img))
      || (usePatternClean && truthy_opt (patternCleanName img))).

Definition final_outcome (errorCount total : nat) : Jobs.Outcome :=
  if errorCount =? total then Jobs.Failed else Jobs.Completed.

(** The handler [POST /api/projects/[projectId]/rename-batch]. *)
Definition rename_batch (pid newJobId : string) (imageIds : list string)
  (useAiSuggestion usePatternClean : bool) (env : nat -> World.t -> World.t)
  (w : World.t) : Response * World.t :=
  match ProjectService.getProject pid (World.projects w) with
  | None => (Error 404 "Project not found", w)
  | Some project =>
      let targetIds :=
        match imageIds with
        | [] =>
            map id (filter (eligible useAiSuggestion usePatternClean)
                      (ImageService.getProjectImages pid (World.images w)))
        | _ => imageIds
        end in
      match targetIds with
      | [] => (NothingToDo, w)
      | _ =>
          let total := List.length targetIds in
          let w :=
            World.createJob newJobId
              (Jobs.mkCreate pid (Storage.name project) Jobs.rename total
                 [("useStorage", "false")]) w in
          let w := World.startJob newJobId w in
          let (l, w) :=
            rename_loop newJobId useAiSuggestion usePatternClean env total 0 targetIds
              (mkLoop [] 0 0, w) in
          let w :=
            if 0 <? successCount l
            then World.tick
                   (World.with_projects
                      (ProjectService.updateProjectStats (World.clock w) pid None None
                         (Some (successCount l)) (World.projects w)) w)
            else w in
          let w :=
            World.completeJob newJobId (final_outcome (errorCount l) total)
              ("Renamed " ++ show_nat (successCount l) ++ " files, "
                 ++ show_nat (errorCount l) ++ " failed")%string w in
          (Done (results l) (successCount l) (errorCount l) newJobId, w)
      end
  end.

End RenamePipeline.

(* ================================================================== *)
(** ** Analyze pipeline: [POST /api/projects/[projectId]/analyze-batch] *)
(* ================================================================== *)

Module AnalyzePipeline.
Import JsString JsPath Storage.

(** What the analyzer call and the parsing of its answer give for one
    image: an exception, or the fields of [analysisResult] together with the
    metadata object built from them and from the taxonomy registry. *)
Inductive AnalyzerResult : Type :=
| AnalysisError (message : string)
| Analysis (suggestedName : option string) (description : option string)
    (metadata : ImageMetadata).

(** [s.replace(/_+/g, '_')] *)
Fixpoint collapse_underscores (s : string) : string :=
  match s with
  | EmptyString => EmptyString
  | String c s' =>
      if Ascii.eqb c "_"
      then match s' with
           | String c' _ =>
               if Ascii.eqb c' "_" then collapse_underscores s'
               else String c (collapse_underscores s')
           | EmptyString => String c EmptyString
           end
      else String c (collapse_underscores s')
  end.

(** [(analysisResult.suggestedName || 'image').toLowerCase()
      .replace(/[^a-z0-9_]/g, '_').replace(/_+/g, '_').slice(0, 40)] *)
Definition normalize_name (raw : option string) : string :=
  let s := if truthy_opt raw then match raw with Some r => r | None => "" end else "image" in
  take 40 (collapse_underscores
             (replace_outside NameResolver.is_name_char (toLowerCase s))).

Record Result : Type := mkResult {
  r_imageId : string;
  r_suggestedName : option string;
  r_success : bool;
  r_error : option string
}.

Record Loop : Type := mkLoop {
  results : list Result;
  successCount : nat;
  errorCount : nat
}.

Definition analyzed_patch (suggested : string) (description : option string)
  (meta : ImageMetadata) (now : nat) (i : ImageData) : ImageData :=
  mkImage (id i) (projectId i) (originalName i) (currentName i) (path i) (size i)
    (hash i) (extension i) (createdAt i) (modifiedAt i) (scannedAt i)
    "analyzed" description (Some suggested) (patternCleanName i)
    (isDuplicate i) (duplicateOf i) (renamed i) (Some now) (renamedAt i)
    (storageUrl i) (storagePath i) meta.

Definition error_patch (message model : string) (now : nat) (i : ImageData)
  : ImageData :=
  mkImage (id i) (projectId i) (originalName i) (currentName i) (path i) (size i)
    (hash i) (extension i) (createdAt i) (modifiedAt i) (scannedAt i)
    "error" (aiDescription i) (suggestedName i) (patternCleanName i)
    (isDuplicate i) (duplicateOf i) (renamed i) (analyzedAt i) (renamedAt i)
    (storageUrl i) (storagePath i)
    [("analysisError", message); ("analysisModel", model);
     ("lastModified", show_nat now)].

(** The tracker functions are [async], and this route calls them without
    [await]: [job = createJob({...})] binds the promise that [createJob]
    returns, so [job.id] is [undefined] in every call that follows.
    [createJob] has registered the job by the time it returns the promise
    (its [inMemoryJobs.set] comes before its first [await]).  [startJob],
    [updateJobProgress] and [completeJob] begin with
    [inMemoryJobs.get(jobId)]; for [undefined] that finds no job, and they
    return [null] before they read the clock or write anything. *)
Definition id_of_promise : option string := None.

Definition startJob (jobId : option string) (w : World.t) : World.t :=
  match jobId with
  | Some jobId => World.startJob jobId w
  | None => w
  end.

Definition updateJobProgress (jobId : option string) (u : Jobs.Update)
  (w : World.t) : World.t :=
  match jobId with
  | Some jobId => World.updateJobProgress jobId u w
  | None => w
  end.

Definition completeJob (jobId : option string) (o : Jobs.Outcome)
  (message : string) (w : World.t) : World.t :=
  match jobId with
  | Some jobId => World.completeJob jobId o message w
  | None => w
  end.

(** The early [continue] of an item that cannot be analyzed. *)
Definition skipped (jobId : option string) (imageId resultError targetError : string)
  (l : Loop) (w : World.t) : Loop * World.t :=
  (mkLoop (results l ++ [mkResult imageId None false (Some resultError)])
     (successCount l) (S (errorCount l)),
   updateJobProgress jobId
     (Jobs.mkUpdate None None (Some (S (errorCount l))) None
        (Some (Jobs.Current.mk imageId Jobs.failed (Some targetError) None))) w).

(** One iteration of the item loop; [jobId] is the value of [job.id]. *)
Definition analyze_item (jobId : option string) (model : string)
  (analyzer : string -> AnalyzerResult)
  (total i : nat) (imageId : string) (st : Loop * World.t) : Loop * World.t :=
  let (l, w) := st in
  let w :=
    updateJobProgress jobId
      (Jobs.mkUpdate (Some i) (Some (successCount l)) (Some (errorCount l))
         (Some ("Analyzing image " ++ show_nat (i + 1) ++ "/" ++ show_nat total)%string)
         (Some (Jobs.Current.mk imageId Jobs.running None None))) w in
  match ImageService.getImage imageId (World.images w) with
  | None => skipped jobId imageId "Image not found" "Image not found" l w
  | Some imageData =>
      let imagePath := path imageData in
      if negb (RenamePipeline.access (World.disk w) imagePath)
      then skipped jobId imageId ("File not found: " ++ imagePath)%string
             "File not found" l w
      else
        match analyzer imagePath with
        | Analysis raw description meta =>
            let suggested := normalize_name raw in
            let now := World.clock w in
            let w := World.tick w in
            let w :=
              World.with_images
                (snd (ImageService.updateImage imageId
                        (analyzed_patch suggested description
                           (spread (metadata imageData) meta) now)
                        (World.images w))) w in
            let l :=
              mkLoop (results l ++ [mkResult imageId (Some suggested) true None])
                (S (successCount l)) (errorCount l) in
            (l,
             updateJobProgress jobId
               (Jobs.mkUpdate None (Some (successCount l)) None None
                  (Some (Jobs.Current.mk imageId Jobs.completed None
                           (Some [("suggestedName", suggested)])))) w)
        | AnalysisError message =>
            let now := World.clock w in
            let w := World.tick w in
            let w :=
              World.with_images
                (snd (ImageService.updateImage imageId
                        (error_patch message model now) (World.images w))) w in
            (mkLoop (results l ++ [mkResult imageId None false (Some message)])
               (successCount l) (S (errorCount l)),
             updateJobProgress jobId
               (Jobs.mkUpdate None None (Some (S (errorCount l))) None
                  (Some (Jobs.Current.mk imageId Jobs.failed (Some message) None))) w)
        end
  end.

Fixpoint analyze_loop (jobId : option string) (model : string)
  (analyzer : string -> AnalyzerResult)
  (env : nat -> World.t -> World.t) (total i : nat) (imageIds : list string)
  (st : Loop * World.t) : Loop * World.t :=
  match imageIds with
  | [] => st
  | imageId :: rest =>
      let st := (fst st, env i (snd st)) in
      analyze_loop jobId model analyzer env total (S i) rest
        (analyze_item jobId model analyzer total i imageId st)
  end.

(** [jobId: job.id] of the answer is [undefined], and [JSON.stringify]
    leaves such a field out: [jobId] is [None]. *)
Inductive Response : Type :=
| Error (code : nat) (message : string)
| NothingToDo
| Done (results : list Result) (analyzed errors : nat) (jobId : option string).

Definition unanalyzed (img : ImageData) : bool :=
  String.eqb (status img) "scanned" || negb (truthy_opt (suggestedName img)).

Definition final_outcome (errorCount total : nat) : Jobs.Outcome :=
  if errorCount =? total then Jobs.Failed else Jobs.Completed.

(** The handler, for a configured analyzer whose default model is
    [model]; [newJobId] is the id [generateJobId] gives the job. *)
Definition analyze_batch (pid newJobId model : string) (imageIds : list string)
  (analyzer : string -> AnalyzerResult) (env : nat -> World.t -> World.t)
  (w : World.t) : Response * World.t :=
  match ProjectService.getProject pid (World.projects w) with
  | None => (Error 404 "Project not found", w)
  | Some project =>
      let imageIds :=
        match imageIds with
        | [] => map id (filter unanalyzed
                          (ImageService.getProjectImages pid (World.images w)))
        | _ => imageIds
        end in
      match imageIds with
      | [] => (NothingToDo, w)
      | _ =>
          let total := List.length imageIds in
          let w :=
            World.createJob newJobId
              (Jobs.mkCreate pid (Storage.name project) Jobs.analyze total
                 [("model", model)]) w in
          let jobId := id_of_promise in
          let w := startJob jobId w in
          let (l, w) :=
            analyze_loop jobId model analyzer env total 0 imageIds
              (mkLoop [] 0 0, w) in
          let w :=
            if 0 <? successCount l
            then World.tick
                   (World.with_projects
                      (ProjectService.updateProjectStats (World.clock w) pid None
                         (Some (successCount l)) None (World.projects w)) w)
            else w in
          let w :=
            completeJob jobId (final_outcome (errorCount l) total)
              ("Analyzed " ++ show_nat (successCount l) ++ " images, "
                 ++ show_nat (errorCount l) ++ " failed")%string w in
          (Done (results l) (successCount l) (errorCount l) jobId, w)
      end
  end.

End AnalyzePipeline.

(* ================================================================== *)
(** ** Duplicate cleanup: [POST /api/projects/[projectId]/cleanup-duplicates] *)
(* ================================================================== *)

Module CleanupPipeline.
Import JsString Storage.

(** [deleteImage(projectId, imageId, projectName, true, true)].
    [rejects imageId] is the error with which the backing store rejects the
    delete, if it does; nothing is removed in that case. *)
Definition deleteImage (rejects : string -> option string) (imageId : string)
  (w : World.t) : option string * World.t :=
  match rejects imageId with
  | Some message => (Some message, w)
  | None =>
      let found := ImageService.getImage imageId (World.images w) in
      let w := World.with_images (JsMap.delete imageId (World.images w)) w in
      match found with
      | Some image =>
          (None,
           World.with_disk
             (filter (fun p => negb (String.eqb p (path image))) (World.disk w)) w)
      | None => (None, w)
      end
  end.

(** [group.sort((a, b) => a.originalName.localeCompare(b.originalName))]:
    a stable sort by the collation order [localeCompare] of the runtime. *)
Fixpoint insert_sorted (localeCompare : string -> string -> Z) (x : ImageData)
  (l : list ImageData) : list ImageData :=
  match l with
  | [] => [x]
  | y :: l' =>
      if (localeCompare (originalName x) (originalName y) <=? 0)%Z
      then x :: y :: l'
      else y :: insert_sorted localeCompare x l'
  end.

Definition sort_by_name (localeCompare : string -> string -> Z)
  (l : list ImageData) : list ImageData :=
  fold_right (insert_sorted localeCompare) [] l.

(** [primaries] and [duplicatesToDelete] *)
Definition split_groups (localeCompare : string -> string -> Z)
  (groups : JsMap.t (list ImageData)) : list ImageData * list ImageData :=
  fold_left
    (fun (acc : list ImageData * list ImageData) (entry : string * list ImageData) =>
       let (primaries, duplicatesToDelete) := acc in
       if List.length (snd entry) <=? 1 then acc
       else
         match sort_by_name localeCompare (snd entry) with
         | primary :: dups => (primaries ++ [primary], duplicatesToDelete ++ dups)
         | [] => acc
         end)
    groups ([], []).

Record Loop : Type := mkLoop {
  successCount : nat;
  errorCount : nat
}.

(** One iteration of the delete loop. *)
Definition cleanup_item (jobId : string) (rejects : string -> option string)
  (total i : nat) (img : ImageData) (st : Loop * World.t) : Loop * World.t :=
  let (l, w) := st in
  let w :=
    World.updateJobProgress jobId
      (Jobs.mkUpdate (Some i) (Some (successCount l)) (Some (errorCount l))
         (Some ("Removing duplicate " ++ show_nat (i + 1) ++ "/" ++ show_nat total)%string)
         (Some (Jobs.Current.mk (id img) Jobs.running None None))) w in
  match deleteImage rejects (id img) w with
  | (None, w) =>
      let l := mkLoop (S (successCount l)) (errorCount l) in
      (l,
       World.updateJobProgress jobId
         (Jobs.mkUpdate None (Some (successCount l)) None None
            (Some (Jobs.Current.mk (id img) Jobs.completed None
                     (Some [("originalName", originalName img);
                            ("currentName", currentName img)])))) w)
  | (Some message, w) =>
      let l := mkLoop (successCount l) (S (errorCount l)) in
      (l,
       World.updateJobProgress jobId
         (Jobs.mkUpdate None None (Some (errorCount l)) None
            (Some (Jobs.Current.mk (id img) Jobs.failed (Some message) None))) w)
  end.

Fixpoint cleanup_loop (jobId : string) (rejects : string -> option string)
  (total i : nat) (duplicatesToDelete : list ImageData) (st : Loop * World.t)
  : Loop * World.t :=
  match duplicatesToDelete with
  | [] => st
  | img :: rest =>
      cleanup_loop jobId rejects total (S i) rest
        (cleanup_item jobId rejects total i img st)
  end.

Definition clear_flags_patch (primary : ImageData) (now : nat) (i : ImageData)
  : ImageData :=
  mkImage (id i) (projectId i) (originalName i) (currentName i) (path i) (size i)
    (hash i) (extension i) (createdAt i) (modifiedAt i) (scannedAt i)
    (status i) (aiDescription i) (suggestedName i) (patternCleanName i)
    false None (renamed i) (analyzedAt i) (renamedAt i)
    (storageUrl i) (storagePath i)
    (spread (metadata primary) [("lastModified", show_nat now)]).

Inductive Response : Type :=
| Error (code : nat) (message : string)
| NoDuplicates (kept : nat)
| Done (success : bool) (removed errors kept : nat) (jobId : string).

(** [status: errorCount > 0 ? 'failed' : 'completed'] *)
Definition final_outcome (errorCount : nat) : Jobs.Outcome :=
  if 0 <? errorCount then Jobs.Failed else Jobs.Completed.

(** The handler. *)
Definition cleanup_duplicates (pid newJobId : string)
  (localeCompare : string -> string -> Z) (rejects : string -> option string)
  (w : World.t) : Response * World.t :=
  match ProjectService.getProject pid (World.projects w) with
  | None => (Error 404 "Project not found", w)
  | Some project =>
      match ImageService.getProjectImages pid (World.images w) with
      | [] => (Error 400 "No images found for this project", w)
      | imgs =>
          let groups := ScanPipeline.index_by_hash imgs in
          let (primaries, duplicatesToDelete) := split_groups localeCompare groups in
          match duplicatesToDelete with
          | [] => (NoDuplicates (List.length imgs), w)
          | _ =>
              let total := List.length duplicatesToDelete in
              let w :=
                World.createJob newJobId
                  (Jobs.mkCreate pid (Storage.name project) Jobs.cleanup total
                     [("mode", "duplicates")]) w in
              let w := World.startJob newJobId w in
              let (l, w) :=
                cleanup_loop newJobId rejects total 0 duplicatesToDelete
                  (mkLoop 0 0, w) in
              let now := World.clock w in
              let w := World.tick w in
              let w :=
                fold_left
                  (fun w primary =>
                     World.with_images
                       (snd (ImageService.updateImage (id primary)
                               (clear_flags_patch primary now) (World.images w))) w)
                  primaries w in
              let removed := successCount l in
              let remaining := List.length imgs - removed in
              let w :=
                World.tick
                  (World.with_projects
                     (ProjectService.updateProjectStats (World.clock w) pid
                        (Some remaining) None None (World.projects w)) w) in
              let w :=
                World.completeJob newJobId (final_outcome (errorCount l))
                  ("Removed " ++ show_nat removed ++ " duplicates, "
                     ++ show_nat (errorCount l) ++ " failed")%string w in
              (Done (errorCount l =? 0) removed (errorCount l) remaining newJobId, w)
          end
      end
  end.

End CleanupPipeline.

(* ================================================================== *)
(** ** Concrete states used in examples *)
(* ================================================================== *)

Module Samples.
Import Storage.

(** Two files whose hashes share their first 8 characters and whose names
    differ only in a character that the id replaces. *)
Definition imageA : ImageData :=
  plain_image "p1" "my photo.jpg" "/pics/my photo.jpg" "0123456789abcdef0123456789abcdef".
Definition imageB : ImageData :=
  plain_image "p1" "my_photo.jpg" "/pics/my_photo.jpg" "01234567ffffffffffffffffffffffff".


(** A rename job for two items that was created, started and completed. *)
Definition jobs_created : Jobs.store :=
  snd (Jobs.createJob 0 "job_1" (Jobs.mkCreate "p1" "Pics" Jobs.rename 2 []) []).
Definition jobs_started : Jobs.store := snd (Jobs.startJob 1 "job_1" jobs_created).
Definition jobs_completed : Jobs.store :=
  snd (Jobs.completeJob 2 "job_1" Jobs.Completed None jobs_started).

(** A job with no items. *)
Definition jobs_empty_batch : Jobs.store :=
  snd (Jobs.createJob 0 "job_0" (Jobs.mkCreate "p1" "Pics" Jobs.scan 0 []) []).

(** A running job of forty items, and three progress reports for it. *)
Definition jobs_batch_40 : Jobs.store :=
  snd (Jobs.startJob 1 "job_4"
         (snd (Jobs.createJob 0 "job_4" (Jobs.mkCreate "p1" "Pics" Jobs.analyze 40 []) []))).

Definition job_40 : Jobs.Job :=
  Jobs.started 1
    (fst (Jobs.createJob 0 "job_4" (Jobs.mkCreate "p1" "Pics" Jobs.analyze 40 []) [])).

Definition report (processed : nat) : Jobs.Update :=
  Jobs.mkUpdate (Some processed) (Some processed) (Some 0) (Some "Processing") None.

Definition reports_0_23_40 : list Jobs.Update := [report 0; report 23; report 40].

Definition project1 : Project :=
  mkProject "Pics" "/pics" "" 0 0 0 0 0 "created".

(** Three analyzed images of project [p1], present on disk. *)
Definition img1 : ImageData :=
  set_suggestedName (Some "beach")
    (plain_image "p1" "a.jpg" "/pics/a.jpg" "aaaaaaaaaaaaaaaaaaaaaaaaaaaaaaaa").
Definition img2 : ImageData :=
  set_suggestedName (Some "forest")
    (plain_image "p1" "b.jpg" "/pics/b.jpg" "bbbbbbbbbbbbbbbbbbbbbbbbbbbbbbbb").
Definition img3 : ImageData :=
  set_suggestedName (Some "city")
    (plain_image "p1" "c.jpg" "/pics/c.jpg" "cccccccccccccccccccccccccccccccc").

Definition world3 : World.t :=
  World.mk [(id img1, img1); (id img2, img2); (id img3, img3)]
    [("p1", project1)] [] ["/pics/a.jpg"; "/pics/b.jpg"; "/pics/c.jpg"] 0.

(** Another request cancels job [jobId] while the loop waits before item
    [k]. *)
Definition cancel_before (k : nat) (jobId : string) : nat -> World.t -> World.t :=
  fun i w => if i =? k then World.cancelJob jobId w else w.

Definition no_interference : nat -> World.t -> World.t := fun _ w => w.

(** The rename run of [world3], cancelled before its second item. *)
Definition cancelled_run : RenamePipeline.Response * World.t :=
  RenamePipeline.rename_batch "p1" "job_1" [id img1; id img2; id img3] true false
    (cancel_before 1 "job_1") world3.

(** The analyzer answers every image with the same suggestion. *)
Definition constant_analyzer (path : string) : AnalyzePipeline.AnalyzerResult :=
  AnalyzePipeline.Analysis (Some "Sunny Beach") None [].

(** The analyze run of [world3], cancelled before its second item. *)
Definition cancelled_analysis : AnalyzePipeline.Response * World.t :=
  AnalyzePipeline.analyze_batch "p1" "job_1" "gemini-3-flash-preview"
    [id img1; id img2; id img3] constant_analyzer (cancel_before 1 "job_1") world3.

(** The state in which that run starts its second item. *)
Definition cancelled_run_at_item_1 : World.t :=
  let w := World.createJob "job_1" (Jobs.mkCreate "p1" "Pics" Jobs.rename 3
                                      [("useStorage", "false")]) world3 in
  let w := World.startJob "job_1" w in
  let st := RenamePipeline.rename_item "job_1" true false 3 0 (id img1)
              (RenamePipeline.mkLoop [] 0 0, w) in
  cancel_before 1 "job_1" 1 (snd st).

(** The folder of [world3], as the scan reads it. *)
Definition folder3 : list ScanPipeline.FileEntry :=
  [ScanPipeline.mkFile "a.jpg"
     (ScanPipeline.ReadOk (ScanPipeline.mkInfo 10 0 0 "aaaaaaaaaaaaaaaaaaaaaaaaaaaaaaaa" []));
   ScanPipeline.mkFile "b.jpg"
     (ScanPipeline.ReadOk (ScanPipeline.mkInfo 20 0 0 "bbbbbbbbbbbbbbbbbbbbbbbbbbbbbbbb" []));
   ScanPipeline.mkFile "c.jpg"
     (ScanPipeline.ReadOk (ScanPipeline.mkInfo 30 0 0 "cccccccccccccccccccccccccccccccc" []))].

(** A rescan of [world3] in which an exception escapes before the second
    file. *)
Definition interrupted_scan : ScanPipeline.Response * World.t :=
  ScanPipeline.scan "p1" "job_3" (ScanPipeline.Entries folder3)
    (Some (ScanPipeline.mkFault 1 "connection reset")) world3.

(** A folder in which [a.jpg] and [b.jpg] have the same bytes and [c.jpg]
    differs, and the same folder with a copy [d.jpg] of [c.jpg]. *)
Definition fileA : ScanPipeline.FileEntry :=
  ScanPipeline.mkFile "a.jpg"
    (ScanPipeline.ReadOk (ScanPipeline.mkInfo 10 0 0 "11111111111111111111111111111111" [])).
Definition fileB : ScanPipeline.FileEntry :=
  ScanPipeline.mkFile "b.jpg"
    (ScanPipeline.ReadOk (ScanPipeline.mkInfo 10 0 0 "11111111111111111111111111111111" [])).
Definition fileC : ScanPipeline.FileEntry :=
  ScanPipeline.mkFile "c.jpg"
    (ScanPipeline.ReadOk (ScanPipeline.mkInfo 30 0 0 "22222222222222222222222222222222" [])).
Definition fileD : ScanPipeline.FileEntry :=
  ScanPipeline.mkFile "d.jpg"
    (ScanPipeline.ReadOk (ScanPipeline.mkInfo 30 0 0 "22222222222222222222222222222222" [])).

Definition folderABC : list ScanPipeline.FileEntry := [fileA; fileB; fileC].
Definition folderABCD : list ScanPipeline.FileEntry := [fileA; fileB; fileC; fileD].

(** Project [p1] before its first scan. *)
Definition world_new : World.t := World.mk [] [("p1", project1)] [] [] 0.

Definition first_scan_ABC : ScanPipeline.Response * World.t :=
  ScanPipeline.scan "p1" "job_1" (ScanPipeline.Entries folderABC) None world_new.

(** After the first scan, analysis names [a.jpg]. *)
Definition analyzed_ABC : World.t :=
  World.with_images
    (snd (ImageService.updateImage "11111111_a.jpg" (set_suggestedName (Some "beach"))
            (World.images (snd first_scan_ABC))))
    (snd first_scan_ABC).

Definition project_after_scan : Project :=
  match ProjectService.getProject "p1" (World.projects analyzed_ABC) with
  | Some p => p
  | None => project1
  end.

Definition rescan_analyzed_ABC : ScanPipeline.Response * World.t :=
  ScanPipeline.scan "p1" "job_2" (ScanPipeline.Entries folderABC) None analyzed_ABC.

(** The folder is scanned while it holds [d.jpg], [d.jpg] is deleted, and
    the folder is scanned again. *)
Definition scan_ABCD : ScanPipeline.Response * World.t :=
  ScanPipeline.scan "p1" "job_1" (ScanPipeline.Entries folderABCD) None world_new.
Definition rescan_ABC : ScanPipeline.Response * World.t :=
  ScanPipeline.scan "p1" "job_2" (ScanPipeline.Entries folderABC) None (snd scan_ABCD).

(** Three byte-identical files of project [p1]. *)
Definition dupX : ImageData :=
  plain_image "p1" "x.jpg" "/pics/x.jpg" "dddddddddddddddddddddddddddddddd".
Definition dupY : ImageData :=
  plain_image "p1" "y.jpg" "/pics/y.jpg" "dddddddddddddddddddddddddddddddd".
Definition dupZ : ImageData :=
  plain_image "p1" "z.jpg" "/pics/z.jpg" "dddddddddddddddddddddddddddddddd".

Definition world_dups : World.t :=
  World.mk [(id dupX, dupX); (id dupY, dupY); (id dupZ, dupZ)]
    [("p1", project1)] [] ["/pics/x.jpg"; "/pics/y.jpg"; "/pics/z.jpg"] 0.

(** Comparison of names by code units. *)
Definition codeUnitCompare (a b : string) : Z :=
  match String.compare a b with Lt => (-1)%Z | Eq => 0%Z | Gt => 1%Z end.

(** The backing store rejects the delete of [z.jpg] only. *)
Definition rejects_z (imageId : string) : option string :=
  if String.eqb imageId (id dupZ) then Some "backing store unavailable" else None.

Definition cleanup_run : CleanupPipeline.Response * World.t :=
  CleanupPipeline.cleanup_duplicates "p1" "job_2" codeUnitCompare rejects_z world_dups.

End Samples.

(* ================================================================== *)
(** ** Invariants of the item loops *)
(* ================================================================== *)

Module Invariants.

(** The two counters of the rename loop count the results recorded so
    far. *)
(** The files of a folder that were read, with what was read. *)
Definition readable (files : list ScanPipeline.FileEntry)
  : list (string * ScanPipeline.FileInfo) :=
  flat_map (fun f => match ScanPipeline.f_read f with
                     | ScanPipeline.ReadOk info => [(ScanPipeline.f_name f, info)]
                     | ScanPipeline.ReadError _ => []
                     end) files.

(** The key the record of a file is stored under. *)
Definition file_key (ni : string * ScanPipeline.FileInfo) : string :=
  NameResolver.generateImageId (ScanPipeline.fi_hash (snd ni)) (fst ni).

(** [duplicateHashes] after the files [rs] were tracked. *)
Definition track_all (rs : list (string * ScanPipeline.FileInfo))
  (d : JsMap.t (list string)) : JsMap.t (list string) :=
  fold_left (fun d ni => ScanPipeline.track_duplicate
                           (ScanPipeline.fi_hash (snd ni)) (fst ni) d) rs d.

(** What the "mark duplicates" loop does to one record. *)
Definition mark_one (dups : JsMap.t (list string)) (img : Storage.ImageData)
  : Storage.ImageData :=
  match JsMap.get (Storage.hash img) dups with
  | Some fileNames =>
      if 1 <? List.length fileNames
      then Storage.set_duplicate true
             (Some (filter (fun f => negb (String.eqb f (Storage.originalName img)))
                      fileNames)) img
      else img
  | None => img
  end.

(** The names of the files read with digest [h], in folder order. *)
Definition names_with (h : string) (rs : list (string * ScanPipeline.FileInfo))
  : list string :=
  map fst (filter (fun ni => String.eqb (ScanPipeline.fi_hash (snd ni)) h) rs).

(** Two stores hold records of the same files under the same keys: what
    analysis may change between two scans is everything else. *)
Definition same_identity (m m' : Storage.images) : Prop :=
  Forall2 (fun kv kv' =>
             fst kv = fst kv'
             /\ Storage.projectId (snd kv) = Storage.projectId (snd kv')
             /\ Storage.hash (snd kv) = Storage.hash (snd kv')
             /\ Storage.path (snd kv) = Storage.path (snd kv')) m m'.

Definition rename_ok (l : RenamePipeline.Loop) : Prop :=
  RenamePipeline.successCount l
  = List.length (filter RenamePipeline.r_success (RenamePipeline.results l))
  /\ RenamePipeline.errorCount l
     = List.length (filter (fun r => negb (RenamePipeline.r_success r))
                      (RenamePipeline.results l)).

Definition analyze_ok (l : AnalyzePipeline.Loop) : Prop :=
  AnalyzePipeline.successCount l
  = List.length (filter AnalyzePipeline.r_success (AnalyzePipeline.results l))
  /\ AnalyzePipeline.errorCount l
     = List.length (filter (fun r => negb (AnalyzePipeline.r_success r))
                      (AnalyzePipeline.results l)).

(** [l] is non-decreasing for the order [leb]. *)
Fixpoint ascending {A : Type} (leb : A -> A -> bool) (l : list A) : bool :=
  match l with
  | a :: (b :: _) as rest => leb a b && ascending leb rest
  | _ => true
  end.

(** The documented formula, [round(100 * processedItems / totalItems)], over
    the rationals. *)
Definition progress_formula (processed total : nat) : Z :=
  Qfloor (100 * inject_Z (Z.of_nat processed) / inject_Z (Z.of_nat total)
          + (1 # 2))%Q.

End Invariants.

From Stdlib Require Import Permutation Sorting.Sorted.

(* ================================================================== *)
(** ** Character classes of a whole string *)
(* ================================================================== *)

Module Chars.

(** Every character of [s] is in the class [p]. *)
Fixpoint all_chars (p : ascii -> bool) (s : string) : bool :=
  match s with
  | EmptyString => true
  | String c s' => p c && all_chars p s'
  end.

(** [s] holds two underscores in a row. *)
Fixpoint has_double_underscore (s : string) : bool :=
  match s with
  | String a (String b _ as s') =>
      (Ascii.eqb a "_" && Ascii.eqb b "_") || has_double_underscore s'
  | _ => false
  end.

End Chars.

(* ================================================================== *)
(** ** Storage paths: [lib/services/storage.service.ts] *)
(* ================================================================== *)

Module StorageService.
Import JsString.

(** [/[^a-z0-9_-]/] keeps these. *)
Definition is_segment_char (c : ascii) : bool :=
  is_lower c || is_digit c || Ascii.eqb c "_" || Ascii.eqb c "-".

(** [name.toLowerCase().replace(/[^a-z0-9_-]/g, '_').replace(/_+/g, '_').slice(0, 50)] *)
Definition sanitizePathSegment (name : string) : string :=
  take 50 (AnalyzePipeline.collapse_underscores
             (replace_outside is_segment_char (toLowerCase name))).

(** [`projects/${sanitizedProject}/images/${filename}`] *)
Definition getStoragePath (projectName filename : string) : string :=
  ("projects/" ++ sanitizePathSegment projectName ++ "/images/" ++ filename)%string.

End StorageService.

(* ================================================================== *)
(** ** [Array.prototype.sort] and [slice] as the handlers use them *)
(* ================================================================== *)

Module JsArray.

(** [arr.sort((a, b) => time(b) - time(a))].  The sort is stable; [x]
    stays in front of [y] when the comparator is not positive, that is
    when [time y <= time x]. *)
Fixpoint insert_newest {A : Type} (time : A -> nat) (x : A) (l : list A) : list A :=
  match l with
  | [] => [x]
  | y :: l' =>
      if time y <=? time x then x :: y :: l' else y :: insert_newest time x l'
  end.

Definition sort_newest_first {A : Type} (time : A -> nat) (l : list A) : list A :=
  fold_right (insert_newest time) [] l.

(** The order of a listing sorted latest first. *)
Definition newest_first {A : Type} (time : A -> nat) (a b : A) : Prop :=
  time b <= time a.


End JsArray.

(* ================================================================== *)
(** ** Job queries: [getProjectJobs], [getAllJobs] and [GET /api/jobs] *)
(* ================================================================== *)

Module JobQueries.
Import JsString Jobs.


(** [getProjectJobs(projectId)] on the in-memory path. *)
Definition getProjectJobs (pid : string) (jobs : store) : list Job :=
  JsArray.sort_newest_first createdAt
    (filter (fun job => String.eqb (projectId job) pid) (JsMap.values jobs)).

(** [getAllJobs()] *)
Definition getAllJobs (jobs : store) : list Job :=
  JsArray.sort_newest_first createdAt (JsMap.values jobs).




(** The line [updateJobProgress] pushes onto [job.errors] for an update:
    [`${currentTarget.name}: ${currentTarget.error}`] when the update names
    a target with a non-empty error, nothing otherwise. *)
Definition error_line (u : Update) : list string :=
  match u_currentTarget u with
  | Some c =>
      if truthy_opt (Current.error c)
      then match Current.error c with
           | Some e => [(Current.name c ++ ": " ++ e)%string]
           | None => []
           end
      else []
  | None => []
  end.

Definition target_names (job : Job) : list string :=
  map Target.name (targets job).

End JobQueries.

(* ================================================================== *)
(** ** Projects: the rest of [lib/services/project.service.ts] *)
(* ================================================================== *)

Module ProjectOps.
Import Storage.

(** [createProject(name, folderPath, description)]: [newId] is what
    [generateProjectId()] returns, [now] and [now'] are the two readings of
    the clock. *)
Definition createProject (now now' : nat) (newId name folderPath description : string)
  (ps : projects) : (string * Project) * projects :=
  let projectData := mkProject name folderPath description now now' 0 0 0 "created" in
  ((newId, projectData), JsMap.set newId projectData ps).

(** [getProjects()]: the entries of [inMemoryProjects], sorted by
    [updatedAt], latest first. *)
Definition getProjects (ps : projects) : list (string * Project) :=
  JsArray.sort_newest_first (fun p => updatedAt (snd p)) ps.

(** [deleteProject(projectId)]: the project's entry and its image records
    go; the calls to cloud storage do nothing when storage is not
    configured.  The result is [success]. *)
Definition deleteProject (pid : string) (w : World.t) : bool * World.t :=
  let w := World.with_projects (JsMap.delete pid (World.projects w)) w in
  let w := World.with_images (snd (Storage.clearProjectImages pid (World.images w))) w in
  (true, w).

End ProjectOps.

(* ================================================================== *)
(** ** [lib/utils/firestore.utils.ts] *)
(* ================================================================== *)

Module FirestoreUtils.
Import JsString.

(** The objects the functions below leave alone. *)
Inductive special : Type := Date | Buffer | Uint8Array.

(** A JavaScript value as these functions see it.  [VPrimitive] stands
    for any number, string or boolean; the entries of a [VObject] are its
    own properties in [Object.entries] order, so their keys are
    distinct. *)
#[warnings="-register-all"]
Inductive value : Type :=
| VUndefined
| VNull
| VPrimitive (text : string)
| VSpecial (kind : special)
| VArray (items : list value)
| VObject (entries : list (string * value)).

(** [typeof item === 'object' && item !== null && !(item instanceof Date)] *)
Definition array_item_is_cleaned (item : value) : bool :=
  match item with
  | VSpecial Date => false
  | VSpecial _ | VArray _ | VObject _ => true
  | VUndefined | VNull | VPrimitive _ => false
  end.

(** [Object.keys(v).length > 0]; an array counts its indices, a [Buffer]
    or [Uint8Array] its bytes, which are not modelled (see
    [removeUndefined]: the test is only made on plain objects and arrays
    returned by the recursive call). *)
Definition has_keys (v : value) : bool :=
  match v with
  | VObject (_ :: _) => true
  | VArray (_ :: _) => true
  | _ => false
  end.

(** [removeUndefined(obj)] *)
Fixpoint removeUndefined (obj : value) : value :=
  match obj with
  | VUndefined | VNull => obj
  | VPrimitive _ => obj
  | VSpecial _ => obj
  | VArray items =>
      VArray (map (fun item => if array_item_is_cleaned item
                               then removeUndefined item else item) items)
  | VObject entries =>
      VObject
        ((fix clean (es : list (string * value)) : list (string * value) :=
            match es with
            | [] => []
            | (key, v) :: rest =>
                match v with
                | VUndefined => clean rest
                | VNull => (key, VNull) :: clean rest
                | VArray items =>
                    (key, VArray (map (fun item => if array_item_is_cleaned item
                                                   then removeUndefined item
                                                   else item) items))
                      :: clean rest
                | VObject _ =>
                    let cleanedNested := removeUndefined v in
                    if has_keys cleanedNested
                    then (key, cleanedNested) :: clean rest
                    else clean rest
                | VPrimitive _ | VSpecial _ => (key, v) :: clean rest
                end
            end) entries)
  end.

(** [`${path}[${i}]`] and [path ? `${path}.${key}` : key] *)
Definition index_path (path : string) (i : nat) : string :=
  (path ++ "[" ++ show_nat i ++ "]")%string.

Definition key_path (path key : string) : string :=
  if truthy path then (path ++ "." ++ key)%string else key.

(** [hasUndefinedValue(obj, path)]: the path of the first undefined value
    found, [None] for [null].  A result is passed on by the callers only
    when it is truthy. *)
Fixpoint hasUndefinedValue (obj : value) (path : string) : option string :=
  match obj with
  | VUndefined => Some (if truthy path then path else "root")
  | VNull | VPrimitive _ | VSpecial _ => None
  | VArray items =>
      (fix scan (l : list value) (i : nat) : option string :=
         match l with
         | [] => None
         | item :: rest =>
             let result := hasUndefinedValue item (index_path path i) in
             if truthy_opt result then result else scan rest (S i)
         end) items 0
  | VObject entries =>
      (fix scan (es : list (string * value)) : option string :=
         match es with
         | [] => None
         | (key, v) :: rest =>
             let currentPath := key_path path key in
             match v with
             | VUndefined => Some currentPath
             | _ =>
                 let nested := hasUndefinedValue v currentPath in
                 if truthy_opt nested then nested else scan rest
             end
         end) entries
  end.

(** [prepareForFirestore(data)]: the cleaned data, and the path named in
    the warning that is logged when the check still finds an undefined
    value. *)
Definition prepareForFirestore (data : value) : value * option string :=
  match data with
  | VArray _ | VObject _ | VSpecial _ =>
      let cleaned := removeUndefined data in
      let undefinedPath := hasUndefinedValue cleaned "" in
      (cleaned, if truthy_opt undefinedPath then undefinedPath else None)
  | _ => (data, None)
  end.

(** No array of [v], at any depth, holds [undefined]. *)
Fixpoint arrays_defined (v : value) : bool :=
  match v with
  | VArray items =>
      forallb (fun item => match item with
                           | VUndefined => false
                           | _ => arrays_defined item
                           end) items
  | VObject entries => forallb (fun kv => arrays_defined (snd kv)) entries
  | _ => true
  end.

(** A job document as [createJob] hands it to [prepareForFirestore]: two
    optional fields unset, an empty [config], one target without error. *)
Definition job_document : value :=
  VObject
    [("id", VPrimitive "job_1");
     ("startedAt", VUndefined);
     ("config", VObject []);
     ("targets",
      VArray [VObject [("name", VPrimitive "a.jpg"); ("error", VUndefined)]]);
     ("completedAt", VNull)].

End FirestoreUtils.

(* ================================================================== *)
(** ** Image headers: [lib/utils/image.utils.ts] *)
(* ================================================================== *)

Module ImageUtils.
Import JsString.

(** A [Buffer]: one [ascii] per byte. *)
Definition Buffer : Type := list ascii.

Definition u8 (b : ascii) : Z := Z.of_N (N_of_ascii b).

(** [buffer[i]]; [None] is [undefined]. *)
Definition byte_at (buffer : Buffer) (i : nat) : option Z :=
  option_map u8 (nth_error buffer i).

(** The [read*] methods of [Buffer]; [None] is the [RangeError] thrown
    for an offset out of range. *)
Definition readUInt16BE (buffer : Buffer) (offset : nat) : option Z :=
  match byte_at buffer offset, byte_at buffer (offset + 1) with
  | Some a, Some b => Some (a * 256 + b)%Z
  | _, _ => None
  end.

Definition readUInt16LE (buffer : Buffer) (offset : nat) : option Z :=
  match byte_at buffer offset, byte_at buffer (offset + 1) with
  | Some a, Some b => Some (a + b * 256)%Z
  | _, _ => None
  end.

Definition readUInt32BE (buffer : Buffer) (offset : nat) : option Z :=
  match readUInt16BE buffer offset, readUInt16BE buffer (offset + 2) with
  | Some hi, Some lo => Some (hi * 65536 + lo)%Z
  | _, _ => None
  end.

Definition readUInt32LE (buffer : Buffer) (offset : nat) : option Z :=
  match readUInt16LE buffer offset, readUInt16LE buffer (offset + 2) with
  | Some lo, Some hi => Some (lo + hi * 65536)%Z
  | _, _ => None
  end.

(** Two's complement. *)
Definition readInt32LE (buffer : Buffer) (offset : nat) : option Z :=
  match readUInt32LE buffer offset with
  | Some u => Some (if (u <? 2 ^ 31)%Z then u else u - 2 ^ 32)%Z
  | None => None
  end.

Fixpoint Z_list_eqb (a b : list Z) : bool :=
  match a, b with
  | [], [] => true
  | x :: a', y :: b' => (x =? y)%Z && Z_list_eqb a' b'
  | _, _ => false
  end.

(** [buffer.toString('hex', 0, n) === hex], with [bytes] the bytes that
    the [n] pairs of hex digits name. *)
Definition hex_is (buffer : Buffer) (bytes : list Z) : bool :=
  Z_list_eqb (map u8 (firstn (List.length bytes) buffer)) bytes.

(** [buffer.toString('ascii', 0, n) === text]: the ['ascii'] decoding
    clears the highest bit of every byte. *)
Definition ascii_is (buffer : Buffer) (text : string) : bool :=
  Z_list_eqb
    (map (fun b => (u8 b mod 128)%Z) (firstn (String.length text) buffer))
    (map u8 (list_ascii_of_string text)).

Fixpoint starts_with (needle : list Z) (l : Buffer) : bool :=
  match needle, l with
  | [], _ => true
  | x :: needle', b :: l' => (u8 b =? x)%Z && starts_with needle' l'
  | _ :: _, [] => false
  end.

(** [buffer.indexOf(text)]: the first index at which the bytes of [text]
    occur; [None] is [-1]. *)
Fixpoint indexOf (needle : list Z) (l : Buffer) : option nat :=
  match l with
  | [] => if starts_with needle [] then Some 0 else None
  | _ :: l' =>
      if starts_with needle l then Some 0
      else option_map S (indexOf needle l')
  end.

(** What the [try] block of [getImageDimensions] comes to: the value it
    returns, its end without a [return], or an exception. *)
Inductive attempt : Type :=
| Dimensions (width height : Z)
| Nothing
| Thrown.

(** The [while (i < buffer.length - 9)] loop over the JPEG markers;
    [fuel] bounds the number of rounds.  Every round adds at least 1 to
    [i], so [buffer.length] rounds are enough; [None] is returned only when
    [fuel] runs out. *)
Fixpoint jpeg_scan (fuel : nat) (buffer : Buffer) (i : nat) : option attempt :=
  if i + 9 <? List.length buffer
  then
    match fuel with
    | 0 => None
    | S fuel' =>
        if match byte_at buffer i with Some b => (b =? 255)%Z | None => false end
        then
          let marker := byte_at buffer (i + 1) in
          let marker_is (m : Z) :=
            match marker with Some b => (b =? m)%Z | None => false end in
          if marker_is 192%Z || marker_is 194%Z
          then
            match readUInt16BE buffer (i + 5), readUInt16BE buffer (i + 7) with
            | Some height, Some width => Some (Dimensions width height)
            | _, _ => Some Thrown
            end
          else if marker_is 216%Z || marker_is 217%Z
               then jpeg_scan fuel' buffer (i + 2)
               else
                 match readUInt16BE buffer (i + 2) with
                 | Some length => jpeg_scan fuel' buffer (i + 2 + Z.to_nat length)
                 | None => Some Thrown
                 end
        else jpeg_scan fuel' buffer (i + 1)
    end
  else Some Nothing.

Definition PNG_SIGNATURE : list Z := [137; 80; 78; 71; 13; 10; 26; 10]%Z.

(** The bytes of ['VP8 ']. *)
Definition VP8 : list Z := [86; 80; 56; 32]%Z.

Definition try_block (buffer : Buffer) (ext : string) : attempt :=
  let length := List.length buffer in
  if String.eqb ext ".png" then
    if (24 <? length) && hex_is buffer PNG_SIGNATURE
    then match readUInt32BE buffer 16, readUInt32BE buffer 20 with
         | Some width, Some height => Dimensions width height
         | _, _ => Thrown
         end
    else Nothing
  else if String.eqb ext ".jpg" || String.eqb ext ".jpeg" then
    match jpeg_scan length buffer 2 with
    | Some result => result
    | None => Nothing
    end
  else if String.eqb ext ".gif" then
    if (10 <? length) && ascii_is buffer "GIF"
    then match readUInt16LE buffer 6, readUInt16LE buffer 8 with
         | Some width, Some height => Dimensions width height
         | _, _ => Thrown
         end
    else Nothing
  else if String.eqb ext ".webp" then
    if (30 <? length) && ascii_is buffer "RIFF"
    then match indexOf VP8 buffer with
         | Some vp8Index =>
             if (0 <? vp8Index) && (vp8Index + 14 <? length)
             then match readUInt16LE buffer (vp8Index + 10),
                        readUInt16LE buffer (vp8Index + 12) with
                  | Some a, Some b =>
                      let width := Z.land a 16383 in
                      let height := Z.land b 16383 in
                      if (0 <? width)%Z && (0 <? height)%Z
                      then Dimensions width height
                      else Nothing
                  | _, _ => Thrown
                  end
             else Nothing
         | None => Nothing
         end
    else Nothing
  else if String.eqb ext ".bmp" then
    if (26 <? length) && ascii_is buffer "BM"
    then match readUInt32LE buffer 18, readInt32LE buffer 22 with
         | Some width, Some height => Dimensions width (Z.abs height)
         | _, _ => Thrown
         end
    else Nothing
  else Nothing.

(** [getImageDimensions(buffer, ext)]: the [catch] turns an exception
    into [null]. *)
Definition getImageDimensions (buffer : Buffer) (ext : string) : option (Z * Z) :=
  match try_block buffer ext with
  | Dimensions width height => Some (width, height)
  | Nothing | Thrown => None
  end.

(** The place the dimensions of a JPEG are read from: a byte [0xFF] at
    an offset [i] the loop can reach, followed by the marker SOF0 or SOF2,
    with the height at [i + 5] and the width at [i + 7]. *)
Definition sof_at (buffer : Buffer) (i : nat) (w h : Z) : Prop :=
  2 <= i /\ i + 9 < List.length buffer
  /\ byte_at buffer i = Some 255%Z
  /\ (byte_at buffer (i + 1) = Some 192%Z \/ byte_at buffer (i + 1) = Some 194%Z)
  /\ readUInt16BE buffer (i + 5) = Some h
  /\ readUInt16BE buffer (i + 7) = Some w
  /\ (0 <= w < 65536)%Z /\ (0 <= h < 65536)%Z.

(** [getMimeType(ext)] *)
Definition getMimeType (ext : string) : string :=
  let e := toLowerCase ext in
  if String.eqb e ".jpg" then "image/jpeg"
  else if String.eqb e ".jpeg" then "image/jpeg"
  else if String.eqb e ".png" then "image/png"
  else if String.eqb e ".gif" then "image/gif"
  else if String.eqb e ".webp" then "image/webp"
  else if String.eqb e ".bmp" then "image/bmp"
  else if String.eqb e ".svg" then "image/svg+xml"
  else "application/octet-stream".

(** Big-endian bytes, and the layout of a JPEG stream up to its first
    frame header: the SOI marker, marker segments (a marker byte and the
    payload), then the SOF segment with the sample precision, the height
    and the width, and the bytes that follow. *)
Definition byte_of (n : nat) : ascii := ascii_of_nat n.

Definition be16 (n : nat) : Buffer := [byte_of (n / 256); byte_of (n mod 256)].

Definition segment (s : nat * Buffer) : Buffer :=
  [byte_of 255; byte_of (fst s)] ++ be16 (List.length (snd s) + 2) ++ snd s.

(** A marker segment the loop steps over: its marker is a byte other
    than SOF0, SOF2, SOI and EOI, and its length fits the two length
    bytes. *)
Definition valid_segment (s : nat * Buffer) : Prop :=
  fst s < 256 /\ fst s <> 192 /\ fst s <> 194 /\ fst s <> 216 /\ fst s <> 217
  /\ (Z.of_nat (List.length (snd s)) + 2 < 65536)%Z.

Definition jpeg_stream (segments : list (nat * Buffer))
  (sof lengthField precision height width : nat) (rest : Buffer) : Buffer :=
  [byte_of 255; byte_of 216] ++ List.concat (map segment segments)
    ++ [byte_of 255; byte_of sof] ++ be16 lengthField
    ++ [byte_of precision] ++ be16 height ++ be16 width ++ rest.

End ImageUtils.

(* ================================================================== *)
(** ** More sample data *)
(* ================================================================== *)

Module MoreSamples.
Import Storage Samples.

(** Two images of one folder for which the analyzer suggested the same
    name. *)
Definition imgX : ImageData :=
  set_suggestedName (Some "beach")
    (plain_image "p1" "x.jpg" "/pics/x.jpg" "dddddddddddddddddddddddddddddddd").

Definition world_same_names : World.t :=
  World.mk [(id img1, img1); (id imgX, imgX)]
    [("p1", project1)] [] ["/pics/a.jpg"; "/pics/x.jpg"] 0.

End MoreSamples.

(* ================================================================== *)
(** ** The job record during a rename run *)
(* ================================================================== *)

Module RunInvariants.

(** The job record right after item [i] of the rename loop: it carries
    the success counter of the loop and the index of the item; its error
    counter may be behind the loop's. *)
Definition job_follows (jobId : string) (total : nat) (l : RenamePipeline.Loop)
  (i : nat) (w : World.t) : Prop :=
  exists job,
    Jobs.getJob jobId (World.jobs w) = Some job
    /\ Jobs.successCount job = RenamePipeline.successCount l
    /\ Jobs.errorCount job <= RenamePipeline.errorCount l
    /\ Jobs.processedItems job = i
    /\ Jobs.totalItems job = total.

End RunInvariants.

(* ================================================================== *)
(** ** The shape of the image store *)
(* ================================================================== *)

Module StoreShape.

(** Every record is filed under its own id, once: what [saveImages]
    establishes. *)
Definition keyed_by_id (m : Storage.images) : Prop :=
  NoDup (JsMap.keys m) /\ forall k r, In (k, r) m -> Storage.id r = k.

(** No two ids hold records of project [pid] with the same non-empty
    hash. *)
Definition one_record_per_hash (pid : string) (m : Storage.images) : Prop :=
  forall ka kb a b,
    JsMap.get ka m = Some a -> JsMap.get kb m = Some b ->
    Storage.projectId a = pid -> Storage.projectId b = pid ->
    JsString.truthy (Storage.hash a) = true -> Storage.hash a = Storage.hash b ->
    ka = kb.

(** The parts of a hash group the cleanup keeps and deletes. *)
Definition kept_of (localeCompare : string -> string -> Z)
  (entry : string * list Storage.ImageData) : list Storage.ImageData :=
  if List.length (snd entry) <=? 1 then []
  else firstn 1 (CleanupPipeline.sort_by_name localeCompare (snd entry)).

Definition deleted_of (localeCompare : string -> string -> Z)
  (entry : string * list Storage.ImageData) : list Storage.ImageData :=
  if List.length (snd entry) <=? 1 then []
  else tl (CleanupPipeline.sort_by_name localeCompare (snd entry)).

End StoreShape.

(* ================================================================== *)
(** ** [path.join] on all inputs (POSIX) *)
(* ================================================================== *)

Module PosixPath.
Import JsString.

(** [s.split('/')] *)
Fixpoint split_sep (s : string) : list string :=
  match s with
  | EmptyString => [EmptyString]
  | String c s' =>
      if Ascii.eqb c "/" then EmptyString :: split_sep s'
      else match split_sep s' with
           | seg :: rest => String c seg :: rest
           | [] => [String c EmptyString]
           end
  end.

(** One step of [normalizeString]: what a segment does to the segments
    kept so far.  Empty segments and [.] are dropped; [..] removes the
    last segment kept, unless there is none or it is [..] itself, in which
    case it is kept only for a relative path. *)
Definition push_segment (allowAboveRoot : bool) (res : list string) (seg : string)
  : list string :=
  if String.eqb seg "" || String.eqb seg "." then res
  else if String.eqb seg ".." then
    match List.rev res with
    | last :: _ =>
        if String.eqb last ".."
        then (if allowAboveRoot then res ++ [".."] else res)
        else removelast res
    | [] => if allowAboveRoot then [".."] else []
    end
  else res ++ [seg].

Definition normalizeString (allowAboveRoot : bool) (p : string) : string :=
  String.concat "/" (fold_left (push_segment allowAboveRoot) (split_sep p) []).

Definition is_absolute (p : string) : bool :=
  match p with
  | String c _ => Ascii.eqb c "/"
  | EmptyString => false
  end.

Fixpoint trailing_separator (p : string) : bool :=
  match p with
  | EmptyString => false
  | String c EmptyString => Ascii.eqb c "/"
  | String _ p' => trailing_separator p'
  end.

(** [path.normalize(p)] *)
Definition normalize (p : string) : string :=
  if negb (truthy p) then "."
  else
    let body := normalizeString (negb (is_absolute p)) p in
    if negb (truthy body)
    then (if is_absolute p then "/" else if trailing_separator p then "./" else ".")
    else
      let body := if trailing_separator p then (body ++ "/")%string else body in
      if is_absolute p then ("/" ++ body)%string else body.

(** [path.join(dir, name)]: the non-empty arguments joined by [/], then
    normalised. *)
Definition join (dir name : string) : string :=
  match truthy dir, truthy name with
  | false, false => "."
  | true, false => normalize dir
  | false, true => normalize name
  | true, true => normalize (dir ++ "/" ++ name)
  end.

Definition no_sep (c : ascii) : bool := negb (Ascii.eqb c "/").

(** A file name as [readdir] returns it. *)
Definition plain_name (name : string) : bool :=
  negb (String.eqb name "" || String.eqb name "." || String.eqb name "..")
  && Chars.all_chars no_sep name.

(** A normalised path of plain segments, absolute or relative. *)
Definition of_segments (absolute : bool) (segs : list string) : string :=
  ((if absolute then "/" else "") ++ String.concat "/" segs)%string.

End PosixPath.

(* ================================================================== *)
(** * Properties *)
(* ================================================================== *)

(** ** Strings and maps *)

Module JsStringFacts.
Import JsString.

Lemma map_chars_length f s : String.length (map_chars f s) = String.length s.
Proof. induction s as [|c s IH]; simpl; congruence. Qed.

Lemma take_length n s : String.length (take n s) = Nat.min n (String.length s).
Proof.
  revert s; induction n as [|n IH]; intros [|c s]; simpl; auto.
Qed.

Lemma take_map_chars f n s : take n (map_chars f s) = map_chars f (take n s).
Proof.
  revert s; induction n as [|n IH]; intros [|c s]; simpl; auto.
  now rewrite IH.
Qed.

Lemma append_inj_l (a b c : string) : (a ++ b = a ++ c)%string -> b = c.
Proof. induction a as [|x a IH]; simpl; intros H; [assumption|]. inversion H; auto. Qed.

Lemma append_assoc (a b c : string) : ((a ++ b) ++ c = a ++ (b ++ c))%string.
Proof. induction a as [|x a IH]; simpl; congruence. Qed.

Lemma append_length (a b : string) :
  String.length (a ++ b)%string = String.length a + String.length b.
Proof. induction a as [|x a IH]; simpl; congruence. Qed.

Lemma append_inj_r (a b c : string) : (a ++ c = b ++ c)%string -> a = b.
Proof.
  revert b; induction a as [|x a IH]; intros [|y b] H; simpl in *; auto.
  - apply (f_equal String.length) in H. simpl in H. rewrite append_length in H. lia.
  - apply (f_equal String.length) in H. simpl in H. rewrite append_length in H. lia.
  - inversion H; subst. f_equal. auto.
Qed.

Lemma show_nat_inj n m : show_nat n = show_nat m -> n = m.
Proof.
  unfold show_nat. intros H.
  apply (f_equal DecimalString.NilEmpty.uint_of_string) in H.
  rewrite !DecimalString.NilEmpty.usu in H.
  inversion H as [H']. now apply DecimalNat.Unsigned.to_uint_inj.
Qed.

End JsStringFacts.

Module JsPathFacts.
Import JsString JsStringFacts JsPath.

Lemma join_inj dir a b : join dir a = join dir b -> a = b.
Proof.
  unfold join. intros H. apply append_inj_l in H. simpl in H.
  now inversion H.
Qed.

End JsPathFacts.

Module JsMapFacts.
Import JsMap.

Section Facts.
Context {V : Type}.
Implicit Types (m : JsMap.t V) (v : V).

Lemma get_set_same k v m : get k (set k v m) = Some v.
Proof.
  induction m as [|[k' v'] m IH]; simpl.
  - now rewrite String.eqb_refl.
  - destruct (String.eqb k k') eqn:E; simpl; rewrite E; auto.
Qed.

Lemma get_set_other k k' v m : k <> k' -> get k' (set k v m) = get k' m.
Proof.
  intros Hne. induction m as [|[k0 v0] m IH]; simpl.
  - destruct (String.eqb k' k) eqn:E; auto.
    apply String.eqb_eq in E. congruence.
  - destruct (String.eqb k k0) eqn:E; simpl.
    + apply String.eqb_eq in E. subst k0.
      destruct (String.eqb k' k) eqn:E'; auto.
      apply String.eqb_eq in E'. congruence.
    + now rewrite IH.
Qed.

Lemma get_In k v m : get k m = Some v -> In (k, v) m.
Proof.
  induction m as [|[k' v'] m IH]; simpl; [discriminate|].
  destruct (String.eqb k k') eqn:E.
  - apply String.eqb_eq in E. intros H; inversion H; subst. now left.
  - intros H. right. auto.
Qed.

Lemma In_get k v m : NoDup (keys m) -> In (k, v) m -> get k m = Some v.
Proof.
  induction m as [|[k' v'] m IH]; simpl; [tauto|].
  intros Hnd [H|H].
  - inversion H; subst. now rewrite String.eqb_refl.
  - inversion Hnd as [|? ? Hnotin Hnd']; subst.
    destruct (String.eqb k k') eqn:E.
    + apply String.eqb_eq in E. subst k'. exfalso. apply Hnotin.
      change k with (fst (k, v)). now apply in_map.
    + auto.
Qed.

Lemma keys_set_In k v m k' : In k' (keys (set k v m)) <-> k' = k \/ In k' (keys m).
Proof.
  induction m as [|[k0 v0] m IH]; simpl.
  - intuition.
  - destruct (String.eqb k k0) eqn:E; simpl.
    + apply String.eqb_eq in E. subst. intuition.
    + rewrite IH. intuition.
Qed.

Lemma NoDup_keys_set k v m : NoDup (keys m) -> NoDup (keys (set k v m)).
Proof.
  induction m as [|[k0 v0] m IH]; simpl; intros Hnd.
  - constructor; [intros []|constructor].
  - inversion Hnd as [|? ? Hnotin Hnd']; subst.
    destruct (String.eqb k k0) eqn:E; simpl.
    + now constructor.
    + constructor; auto.
      rewrite keys_set_In. intros [->|H]; [|contradiction].
      now rewrite String.eqb_refl in E.
Qed.

Lemma NoDup_keys_filter (f : string * V -> bool) m :
  NoDup (keys m) -> NoDup (keys (filter f m)).
Proof.
  induction m as [|[k0 v0] m IH]; simpl; intros Hnd; [constructor|].
  inversion Hnd as [|? ? Hnotin Hnd']; subst.
  destruct (f (k0, v0)); simpl; auto.
  constructor; auto.
  intros Hin. apply Hnotin. unfold keys in *.
  apply in_map_iff in Hin. destruct Hin as [[k1 v1] [Hk Hin]].
  apply filter_In in Hin. destruct Hin as [Hin _]. simpl in Hk. subst.
  change k0 with (fst (k0, v1)). now apply in_map.
Qed.

Lemma get_filter_true (f : string * V -> bool) k v m :
  get k m = Some v -> f (k, v) = true -> get k (filter f m) = Some v.
Proof.
  induction m as [|[k0 v0] m IH]; simpl; [discriminate|].
  destruct (String.eqb k k0) eqn:E.
  - apply String.eqb_eq in E. subst k0. intros H Hf. inversion H; subst.
    rewrite Hf. simpl. now rewrite String.eqb_refl.
  - intros H Hf. destruct (f (k0, v0)); simpl; [rewrite E|]; auto.
Qed.

End Facts.

End JsMapFacts.

(* ================================================================== *)
(** ** Pattern cleaning *)
(* ================================================================== *)

Module NameResolverFacts.
Import JsString JsPath JsRegex NameResolver.

(** The loop keeps the result of its last iteration only. *)
Lemma prefix_loop_last patterns p nameWithoutExt cleanName :
  prefix_loop (patterns ++ [p]) nameWithoutExt cleanName
  = replace_prefix p nameWithoutExt.
Proof.
  unfold prefix_loop. now rewrite fold_left_app.
Qed.

Lemma prefix_loop_PREFIX_PATTERNS nameWithoutExt cleanName :
  prefix_loop PREFIX_PATTERNS nameWithoutExt cleanName
  = replace_prefix last_pattern nameWithoutExt.
Proof. reflexivity. Qed.

Lemma digit_is_no_letter (c x : ascii) :
  is_digit c = true -> is_lower (lower_char x) = true -> chr_i x c = false.
Proof.
  destruct c as [[|] [|] [|] [|] [|] [|] [|] [|]]; try discriminate;
    intros _; destruct x as [[|] [|] [|] [|] [|] [|] [|] [|]]; vm_compute;
    congruence.
Qed.

Lemma digit_is_no_dash (c : ascii) : is_digit c = true -> chr "-" c = false.
Proof.
  destruct c as [[|] [|] [|] [|] [|] [|] [|] [|]]; vm_compute; congruence.
Qed.

(** What is left after a match is a suffix of the text, and a pattern that
    needs a character leaves less than the whole text. *)
Lemma rep_digits_shape n k s r :
  rep n digit k s = Some r ->
  exists pre rest, s = (pre ++ rest)%string /\ String.length pre = n /\ k rest = Some r
                   /\ (forall c rest', pre = String c rest' -> is_digit c = true).
Proof.
  revert s; induction n as [|n IH]; intros s H; simpl in H.
  - exists "", s. repeat split; auto. discriminate.
  - destruct s as [|a s]; [discriminate|].
    unfold digit in H at 1. destruct (is_digit a) eqn:Ha; [|discriminate].
    destruct (IH _ H) as (pre & rest & -> & Hlen & Hk & _).
    exists (String a pre), rest. simpl. repeat split; auto.
    intros c rest' E. now inversion E; subst.
Qed.

Lemma first_match_app l p s :
  first_match (l ++ [p]) s
  = match first_match l s with Some r => Some r | None => match_prefix p s end.
Proof.
  induction l as [|q l IH]; simpl.
  - now destruct (match_prefix p s).
  - destruct (match_prefix q s); auto.
Qed.

Lemma last_pattern_first base rest :
  match_prefix last_pattern base = Some rest ->
  first_match PREFIX_PATTERNS base = Some rest.
Proof.
  intros H.
  assert (Hshape : exists c1 c2 c3 c4 c5 t,
             base = String c1 (String c2 (String c3 (String c4 (String c5 t))))
             /\ is_digit c1 = true /\ is_digit c5 = true).
  { unfold last_pattern in H. cbn [match_prefix rep] in H.
    destruct base as [|c1 base]; [discriminate|]. unfold digit in H at 1.
    destruct (is_digit c1) eqn:H1; [|discriminate].
    destruct base as [|c2 base]; [discriminate|]. unfold digit in H at 1.
    destruct (is_digit c2) eqn:H2; [|discriminate].
    destruct base as [|c3 base]; [discriminate|]. unfold digit in H at 1.
    destruct (is_digit c3) eqn:H3; [|discriminate].
    destruct base as [|c4 base]; [discriminate|]. unfold digit in H at 1.
    destruct (is_digit c4) eqn:H4; [|discriminate].
    destruct base as [|c5 base]; [discriminate|]. unfold digit in H at 1.
    destruct (is_digit c5) eqn:H5; [|discriminate].
    now exists c1, c2, c3, c4, c5, base. }
  change PREFIX_PATTERNS with (removelast PREFIX_PATTERNS ++ [last_pattern])%list.
  rewrite first_match_app, H.
  destruct Hshape as (c1 & c2 & c3 & c4 & c5 & t & -> & H1 & H5).
  unfold PREFIX_PATTERNS.
  cbn [removelast first_match lit_i List.app match_prefix rep].
  rewrite !(digit_is_no_letter c1) by (assumption || reflexivity).
  unfold digit at 1 2 3 4.
  rewrite (digit_is_no_dash c5 H5).
  now destruct (is_digit c1), (is_digit c2), (is_digit c3), (is_digit c4).
Qed.


Lemma generateCleanName_sound name r :
  generateCleanName name None = Some r -> patternClean_spec name = Some r.
Proof.
  unfold generateCleanName, patternClean_spec.
  rewrite prefix_loop_PREFIX_PATTERNS. unfold replace_prefix.
  set (base := basename name (extname name)).
  destruct (match_prefix last_pattern base) as [rest|] eqn:Hm.
  - rewrite (last_pattern_first _ _ Hm).
    destruct (String.length rest <? 3); simpl; [discriminate|].
    destruct (String.eqb rest base); [discriminate|]. auto.
  - rewrite String.eqb_refl, orb_true_r. discriminate.
Qed.

Lemma first_match_none patterns s :
  (forall p, In p patterns -> match_prefix p s = None) -> first_match patterns s = None.
Proof.
  induction patterns as [|p ps IH]; simpl; intros H; auto.
  rewrite (H p) by now left. apply IH. intros q Hq. apply H. now right.
Qed.

(** The slip of the prefix loop, seen on the name the source comment uses:
    the first pattern would strip [imgi_65_], the loop as written keeps only
    the result of the last pattern, which does not match. *)
Example imgi_65_sunset_not_cleaned :
  patternClean_spec "imgi_65_sunset.jpg" = Some "sunset"
  /\ generateCleanName "imgi_65_sunset.jpg" None = None.
Proof. split; reflexivity. Qed.

Example date_prefix_cleaned :
  generateCleanName "20240101_123456_beach.JPG" None = Some "beach"
  /\ generateCleanName "20240101_ab.jpg" None = None
  /\ generateCleanName "sunset.jpg" None = None
  /\ generateCleanName "whatever.jpg" (Some "Golden Gate!") = Some "golden_gate_".
Proof. repeat split; reflexivity. Qed.

(** C1 does not hold as documented: for [IMG_2045.jpg] pattern cleaning
    returns [null], not the base [2045]; every pattern that matches the
    prefix [IMG_] also consumes the digits that follow it. *)
Lemma generateCleanName_IMG_2045 :
  generateCleanName "IMG_2045.jpg" None = None
  /\ patternClean_spec "IMG_2045.jpg" = None
  /\ first_match PREFIX_PATTERNS "IMG_2045" = Some "".
Proof. repeat split; reflexivity. Qed.

(** C1: [generateCleanName name null] is either [null] or the
    sanitized text left by one application of the first pattern of
    [PREFIX_PATTERNS] that matches the name without its extension; it is
    [null] whenever no pattern matches, and whenever the text left by the
    first matching pattern has fewer than 3 characters. *)
Theorem generateCleanName_pattern_clean (name : string) :
  let base := basename name (extname name) in
  (generateCleanName name None = None
   \/ generateCleanName name None = patternClean_spec name)
  /\ ((forall p, In p PREFIX_PATTERNS -> match_prefix p base = None) ->
      generateCleanName name None = None)
  /\ (forall rest, first_match PREFIX_PATTERNS base = Some rest ->
       String.length rest < 3 -> generateCleanName name None = None).
Proof.
  intros base. split; [|split].
  - destruct (generateCleanName name None) as [r|] eqn:E; [right|now left].
    symmetry. now apply generateCleanName_sound.
  - intros Hno. destruct (generateCleanName name None) as [r|] eqn:E; auto.
    apply generateCleanName_sound in E. unfold patternClean_spec in E.
    fold base in E. rewrite (first_match_none _ _ Hno) in E. discriminate.
  - intros rest Hfirst Hlen.
    destruct (generateCleanName name None) as [r|] eqn:E; auto.
    apply generateCleanName_sound in E. unfold patternClean_spec in E.
    fold base in E. rewrite Hfirst in E.
    apply Nat.ltb_lt in Hlen. rewrite Hlen in E. discriminate.
Qed.

End NameResolverFacts.

(* ================================================================== *)
(** ** Collision resolution *)
(* ================================================================== *)

Module RenameFacts.
Import JsString JsStringFacts JsPath JsPathFacts RenamePipeline.

Lemma candidate_inj newName i j : candidate newName i = candidate newName j -> i = j.
Proof.
  destruct i as [|i], j as [|j]; simpl; intros H; auto.
  - apply (f_equal String.length) in H. rewrite append_length in H. simpl in H. lia.
  - apply (f_equal String.length) in H. rewrite append_length in H. simpl in H. lia.
  - apply append_inj_l in H. inversion H as [H']. now apply show_nat_inj.
Qed.

Lemma probe_path_inj dir newName ext i j :
  probe_path dir newName ext i = probe_path dir newName ext j -> i = j.
Proof.
  unfold probe_path. intros H. apply join_inj in H. apply append_inj_r in H.
  now apply candidate_inj in H.
Qed.

Lemma access_In disk p : access disk p = true <-> In p disk.
Proof.
  unfold access. rewrite existsb_exists. split.
  - intros (x & Hin & E). apply String.eqb_eq in E. now subst.
  - intros Hin. exists p. split; auto. apply String.eqb_refl.
Qed.

(** At most [length disk] candidates can be taken. *)
Lemma taken_bound disk dir newName ext n :
  (forall j, j < n -> access disk (probe_path dir newName ext j) = true) ->
  n <= List.length disk.
Proof.
  intros Htaken.
  assert (Hincl : incl (map (probe_path dir newName ext) (seq 0 n)) disk).
  { intros p Hp. apply in_map_iff in Hp. destruct Hp as (j & <- & Hj).
    apply in_seq in Hj. apply access_In, Htaken. lia. }
  assert (Hnd : NoDup (map (probe_path dir newName ext) (seq 0 n))).
  { apply Injective_map_NoDup; [|apply seq_NoDup].
    intros i j. apply probe_path_inj. }
  pose proof (NoDup_incl_length Hnd Hincl) as Hlen.
  now rewrite length_map, length_seq in Hlen.
Qed.

Lemma probe_finds fuel disk dir newName ext n :
  fuel + n = S (List.length disk) ->
  (forall j, j < n -> access disk (probe_path dir newName ext j) = true) ->
  exists k,
    probe fuel disk dir newName ext (candidate newName n)
      (probe_path dir newName ext n) (S n)
    = Some (candidate newName k, probe_path dir newName ext k)
    /\ n <= k
    /\ access disk (probe_path dir newName ext k) = false
    /\ (forall j, j < k -> access disk (probe_path dir newName ext j) = true).
Proof.
  revert n. induction fuel as [|fuel IH]; intros n Hfuel Htaken.
  - pose proof (taken_bound _ _ _ _ _ Htaken). simpl in Hfuel. lia.
  - simpl. destruct (access disk (probe_path dir newName ext n)) eqn:Hacc.
    + destruct (IH (S n)) as (k & Hk & Hle & Hfree & Hall).
      * lia.
      * intros j Hj. destruct (Nat.eq_dec j n) as [->|Hne]; auto.
        apply Htaken. lia.
      * exists k. repeat split; auto. lia.
    + exists n. repeat split; auto.
Qed.

(** C7: collision resolution returns the first of [base+ext],
    [base_1+ext], [base_2+ext], ... that is not present in the target
    directory, after finding every earlier candidate present; with
    [photo.jpg] and [photo_1.jpg] present, base [photo] resolves to
    [photo_2.jpg]. *)
Theorem resolveCollision_first_free :
  (forall disk dir newName ext,
     exists k,
       resolveCollision disk dir newName ext = Some (candidate newName k ++ ext)%string
       /\ findUniqueName disk dir newName ext
          = Some (candidate newName k, join dir (candidate newName k ++ ext)%string)
       /\ access disk (join dir (candidate newName k ++ ext)%string) = false
       /\ (forall j, j < k ->
             access disk (join dir (candidate newName j ++ ext)%string) = true)
       /\ k <= List.length disk)
  /\ candidate "photo" 0 = "photo"
  /\ candidate "photo" 1 = "photo_1"
  /\ candidate "photo" 2 = "photo_2"
  /\ resolveCollision [join "/pics" "photo.jpg"; join "/pics" "photo_1.jpg"]
       "/pics" "photo" ".jpg" = Some "photo_2.jpg".
Proof.
  split; [|repeat split; reflexivity].
  intros disk dir newName ext.
  destruct (probe_finds (S (List.length disk)) disk dir newName ext 0)
    as (k & Hk & _ & Hfree & Hall); [lia | intros j Hj; lia |].
  exists k. unfold resolveCollision, findUniqueName.
  change (probe (S (List.length disk)) disk dir newName ext newName
            (join dir (newName ++ ext)%string) 1)
    with (probe (S (List.length disk)) disk dir newName ext (candidate newName 0)
            (probe_path dir newName ext 0) 1).
  rewrite Hk. repeat split; auto. now apply (taken_bound disk dir newName ext).
Qed.

End RenameFacts.

(* ================================================================== *)
(** ** Image ids and the record store *)
(* ================================================================== *)

Module StorageFacts.
Import JsString JsStringFacts JsMap JsMapFacts NameResolver Storage ImageService Samples.

Lemma saveImages_snoc pid imgs x m :
  saveImages pid (imgs ++ [x]) m
  = JsMap.set (key_of x) (set_id_project (key_of x) pid x) (saveImages pid imgs m).
Proof. unfold saveImages. now rewrite fold_left_app. Qed.

Lemma NoDup_keys_saveImages pid imgs m :
  NoDup (keys m) -> NoDup (keys (saveImages pid imgs m)).
Proof.
  revert m. induction imgs as [|x imgs IH]; intros m Hnd; simpl; auto.
  apply IH. now apply NoDup_keys_set.
Qed.

(** After [saveImages] a key holds the last record of the list that has
    this id, and what it held before when there is none. *)
Lemma get_saveImages pid imgs m k :
  get k (saveImages pid imgs m)
  = match find (fun i => String.eqb (key_of i) k) (rev imgs) with
    | Some i => Some (set_id_project k pid i)
    | None => get k m
    end.
Proof.
  induction imgs as [|x imgs IH] using rev_ind; [reflexivity|].
  rewrite saveImages_snoc, rev_app_distr.
  change (rev [x] ++ rev imgs) with (x :: rev imgs). cbn [find].
  destruct (String.eqb (key_of x) k) eqn:E.
  - apply String.eqb_eq in E. subst k. apply get_set_same.
  - rewrite get_set_other; auto. intros Heq. rewrite Heq in E.
    now rewrite String.eqb_refl in E.
Qed.

Lemma keys_saveImages_In pid imgs m k :
  In k (keys (saveImages pid imgs m))
  <-> In k (keys m) \/ exists i, In i imgs /\ key_of i = k.
Proof.
  induction imgs as [|x imgs IH] using rev_ind.
  - simpl. split; [now left|]. intros [H|(i & [] & _)]; auto.
  - rewrite saveImages_snoc, keys_set_In, IH. split.
    + intros [->|[H|(i & Hi & E)]]; auto.
      * right. exists x. split; auto. apply in_or_app. right. now left.
      * right. exists i. split; auto. apply in_or_app. now left.
    + intros [H|(i & Hi & E)]; auto.
      apply in_app_or in Hi. destruct Hi as [Hi|[->|[]]]; auto.
      right. right. now exists i.
Qed.

Lemma one_entry_per_key {V : Type} (m : JsMap.t V) k :
  NoDup (keys m) -> In k (keys m) ->
  List.length (filter (fun kv => String.eqb (fst kv) k) m) = 1.
Proof.
  induction m as [|[k0 v0] m IH]; simpl; intros Hnd Hin; [contradiction|].
  inversion Hnd as [|? ? Hnotin Hnd']; subst.
  destruct (String.eqb k0 k) eqn:E.
  - apply String.eqb_eq in E. subst k0. simpl. f_equal.
    apply length_zero_iff_nil.
    destruct (filter _ m) as [|[k1 v1] l] eqn:F; auto.
    assert (Hin1 : In (k1, v1) (filter (fun kv => String.eqb (fst kv) k) m))
      by (rewrite F; now left).
    apply filter_In in Hin1. destruct Hin1 as [Hin1 E1]. simpl in E1.
    apply String.eqb_eq in E1. subst k1. exfalso. apply Hnotin.
    change k with (fst (k, v1)). now apply in_map.
  - destruct Hin as [->|Hin]; [now rewrite String.eqb_refl in E|]. auto.
Qed.

Lemma replace_outside_keeps keep s :
  replace_outside keep s
  = map_chars (fun c => if keep c then c else "_"%char) s.
Proof. reflexivity. Qed.

(** C9: the id is the first 8 characters of the hash, an underscore, and the
    first 50 characters of the original name in which every character
    outside [a-zA-Z0-9._-] is an underscore; two records whose hashes agree
    on 8 characters and whose names agree after this replacement on 50
    characters get the same id, and [saveImages] leaves one record under
    it: the one saved last. *)
Theorem generateImageId_collision pid (imgs : list ImageData) (m : images)
  (a b : ImageData) :
  NoDup (keys m) ->
  In a imgs -> In b imgs ->
  take 8 (hash a) = take 8 (hash b) ->
  take 50 (replace_outside is_id_char (originalName a))
  = take 50 (replace_outside is_id_char (originalName b)) ->
  generateImageId (hash a) (originalName a)
  = (take 8 (hash a) ++ "_"
       ++ take 50 (map_chars (fun c => if is_id_char c then c else "_"%char)
                     (originalName a)))%string
  /\ generateImageId (hash a) (originalName a)
     = generateImageId (hash b) (originalName b)
  /\ List.length
       (filter (fun kv => String.eqb (fst kv)
                            (generateImageId (hash a) (originalName a)))
               (saveImages pid imgs m)) = 1
  /\ exists last,
       In last imgs
       /\ key_of last = generateImageId (hash a) (originalName a)
       /\ get (generateImageId (hash a) (originalName a)) (saveImages pid imgs m)
          = Some (set_id_project (key_of last) pid last).
Proof.
  intros Hnd Ha Hb Hh Hn.
  assert (Hsame : generateImageId (hash a) (originalName a)
                  = generateImageId (hash b) (originalName b)).
  { unfold generateImageId, NameResolver.generateImageId. now rewrite Hh, Hn. }
  split; [reflexivity|]. split; [assumption|]. split.
  - apply one_entry_per_key.
    + now apply NoDup_keys_saveImages.
    + apply keys_saveImages_In. right. now exists a.
  - rewrite get_saveImages.
    destruct (find _ (rev imgs)) as [i|] eqn:F.
    + apply find_some in F. destruct F as [Hi E]. apply String.eqb_eq in E.
      exists i. rewrite E. repeat split; auto. now apply in_rev.
    + exfalso. apply in_rev in Ha. pose proof (find_none _ _ F a Ha) as Hf.
      unfold key_of in Hf. now rewrite String.eqb_refl in Hf.
Qed.

Lemma generateImageId_collision_witness :
  generateImageId (hash imageA) (originalName imageA) = "01234567_my_photo.jpg"
  /\ generateImageId (hash imageB) (originalName imageB) = "01234567_my_photo.jpg"
  /\ List.length
       (filter (fun kv => String.eqb (fst kv) "01234567_my_photo.jpg")
               (saveImages "p1" [imageA; imageB] [])) = 1.
Proof.
  pose proof (generateImageId_collision "p1" [imageA; imageB] [] imageA imageB
                (NoDup_nil _) (or_introl eq_refl) (or_intror (or_introl eq_refl))
                eq_refl eq_refl) as (_ & H1 & H2 & _).
  split; [reflexivity|]. split; [reflexivity|]. exact H2.
Defined.

End StorageFacts.

(* ================================================================== *)
(** ** Job tracker *)
(* ================================================================== *)

Module JobsFacts.
Import JsString JsMap JsMapFacts JsNumber Jobs Samples.

Lemma updated_status now u j : status (updated now u j) = status j.
Proof.
  unfold updated.
  destruct (u_processedItems u), (u_successCount u), (u_errorCount u),
    (u_statusMessage u) as [[|? ?]|], (u_currentTarget u) as [c|]; simpl;
    try reflexivity;
    destruct (Current.error c) as [[|? ?]|]; reflexivity.
Qed.

Lemma updated_completedAt now u j : completedAt (updated now u j) = completedAt j.
Proof.
  unfold updated.
  destruct (u_processedItems u), (u_successCount u), (u_errorCount u),
    (u_statusMessage u) as [[|? ?]|], (u_currentTarget u) as [c|]; simpl;
    try reflexivity;
    destruct (Current.error c) as [[|? ?]|]; reflexivity.
Qed.

Lemma updated_totalItems now u j : totalItems (updated now u j) = totalItems j.
Proof.
  unfold updated.
  destruct (u_processedItems u), (u_successCount u), (u_errorCount u),
    (u_statusMessage u) as [[|? ?]|], (u_currentTarget u) as [c|]; simpl;
    try reflexivity;
    destruct (Current.error c) as [[|? ?]|]; reflexivity.
Qed.

Lemma updated_progress now u j :
  progress (updated now u j)
  = match u_processedItems u with
    | Some p => progress_of p (totalItems j)
    | None => progress j
    end.
Proof.
  unfold updated.
  destruct (u_processedItems u), (u_successCount u), (u_errorCount u),
    (u_statusMessage u) as [[|? ?]|], (u_currentTarget u) as [c|]; simpl;
    try reflexivity;
    destruct (Current.error c) as [[|? ?]|]; reflexivity.
Qed.

Lemma updated_processedItems now u j :
  processedItems (updated now u j)
  = match u_processedItems u with Some p => p | None => processedItems j end.
Proof.
  unfold updated.
  destruct (u_processedItems u), (u_successCount u), (u_errorCount u),
    (u_statusMessage u) as [[|? ?]|], (u_currentTarget u) as [c|]; simpl;
    try reflexivity;
    destruct (Current.error c) as [[|? ?]|]; reflexivity.
Qed.

Lemma getJob_updateJobProgress now jobId u jobs k :
  getJob k (snd (updateJobProgress now jobId u jobs))
  = if String.eqb k jobId then option_map (updated now u) (getJob jobId jobs)
    else getJob k jobs.
Proof.
  unfold updateJobProgress, getJob.
  destruct (String.eqb k jobId) eqn:E.
  - apply String.eqb_eq in E. subst k.
    destruct (get jobId jobs) eqn:G; simpl; [apply get_set_same|assumption].
  - destruct (get jobId jobs) eqn:G; simpl; auto.
    apply get_set_other. intros ->. now rewrite String.eqb_refl in E.
Qed.

Lemma getJob_completeJob now jobId o message jobs k :
  getJob k (snd (completeJob now jobId o message jobs))
  = if String.eqb k jobId then option_map (finished now o message) (getJob jobId jobs)
    else getJob k jobs.
Proof.
  unfold completeJob, getJob.
  destruct (String.eqb k jobId) eqn:E.
  - apply String.eqb_eq in E. subst k.
    destruct (get jobId jobs) eqn:G; simpl; [apply get_set_same|assumption].
  - destruct (get jobId jobs) eqn:G; simpl; auto.
    apply get_set_other. intros ->. now rewrite String.eqb_refl in E.
Qed.

Lemma getJob_startJob now jobId jobs k :
  getJob k (snd (startJob now jobId jobs))
  = if String.eqb k jobId then option_map (started now) (getJob jobId jobs)
    else getJob k jobs.
Proof.
  unfold startJob, getJob.
  destruct (String.eqb k jobId) eqn:E.
  - apply String.eqb_eq in E. subst k.
    destruct (get jobId jobs) eqn:G; simpl; [apply get_set_same|assumption].
  - destruct (get jobId jobs) eqn:G; simpl; auto.
    apply get_set_other. intros ->. now rewrite String.eqb_refl in E.
Qed.

Lemma finished_status now o message j :
  status (finished now o message j) = Outcome_status o.
Proof. unfold finished. destruct (startedAt _); reflexivity. Qed.

Lemma finished_progress now o message j :
  progress (finished now o message j) = int 100.
Proof. unfold finished. destruct (startedAt _); reflexivity. Qed.

Lemma finished_completedAt now o message j :
  completedAt (finished now o message j) = Some now.
Proof. unfold finished. destruct (startedAt _); reflexivity. Qed.

(** C3 does not hold as documented: on a job that [completeJob] has
    completed, a later [startJob] sets the status back to running, and a
    later [updateJobProgress] that carries [processedItems] replaces the
    progress of 100 (here by 50). *)
Lemma terminal_job_is_mutable :
  option_map status (getJob "job_1" jobs_completed) = Some completed
  /\ option_map progress (getJob "job_1" jobs_completed) = Some (int 100)
  /\ option_map status (getJob "job_1" (snd (startJob 3 "job_1" jobs_completed)))
     = Some running
  /\ option_map progress
       (getJob "job_1"
          (snd (updateJobProgress 3 "job_1" (mkUpdate (Some 1) None None None None)
                  jobs_completed)))
     = Some (int 50).
Proof. repeat split; vm_compute; reflexivity. Qed.

(** C3: [updateJobProgress] never changes the status or the
    [completedAt] of a job, so after [completeJob] both stay as
    [completeJob] set them; the progress stays at 100 when the update
    carries no [processedItems] and is recomputed from it otherwise;
    [startJob] sets the status to running whatever it was. *)
Theorem updateJobProgress_keeps_terminal_status
  (now now' : nat) (jobId : string) (outcome : Outcome) (message : option string)
  (update : Update) (jobs : store) :
  let done := snd (completeJob now jobId outcome message jobs) in
  let later := snd (updateJobProgress now' jobId update done) in
  option_map status (getJob jobId done)
  = option_map (fun _ => Outcome_status outcome) (getJob jobId jobs)
  /\ option_map status (getJob jobId later) = option_map status (getJob jobId done)
  /\ option_map completedAt (getJob jobId later)
     = option_map completedAt (getJob jobId done)
  /\ (u_processedItems update = None ->
      option_map progress (getJob jobId later)
      = option_map progress (getJob jobId done))
  /\ (forall p, u_processedItems update = Some p ->
      option_map progress (getJob jobId later)
      = option_map (fun j => progress_of p (totalItems j)) (getJob jobId done))
  /\ option_map status (getJob jobId (snd (startJob now' jobId done)))
     = option_map (fun _ => running) (getJob jobId done).
Proof.
  intros done later. unfold later, done.
  rewrite getJob_updateJobProgress, getJob_startJob, !getJob_completeJob,
    !String.eqb_refl.
  destruct (getJob jobId jobs) as [j|]; cbn [option_map]; [|repeat split; auto].
  rewrite updated_status, updated_completedAt, updated_progress, finished_status.
  repeat split; auto.
  - intros ->. reflexivity.
  - intros p ->. reflexivity.
Qed.

End JobsFacts.

(* ================================================================== *)
(** ** The item loops: cancellation and the terminal status *)
(* ================================================================== *)

Module LoopFacts.
Import JsString Storage Jobs JobsFacts Samples Invariants.

Ltac loop_cases :=
  repeat match goal with
         | |- context [match ?x with _ => _ end] => destruct x eqn:?
         | |- context [if ?x then _ else _] => destruct x eqn:?
         end.

(** One iteration records one result, for the item it was given. *)
Lemma rename_item_results jobId ai pc total i imageId l w :
  exists r,
    RenamePipeline.results
      (fst (RenamePipeline.rename_item jobId ai pc total i imageId (l, w)))
    = RenamePipeline.results l ++ [r]
    /\ RenamePipeline.r_imageId r = imageId
    /\ (rename_ok l ->
        rename_ok (fst (RenamePipeline.rename_item jobId ai pc total i imageId (l, w)))).
Proof.
  unfold RenamePipeline.rename_item, RenamePipeline.failure, rename_ok.
  loop_cases; cbn [fst RenamePipeline.results RenamePipeline.successCount
                     RenamePipeline.errorCount];
    eexists; (split; [reflexivity|]); (split; [reflexivity|]);
    intros [Hs He]; rewrite !filter_app, !length_app; simpl; lia.
Qed.

Lemma rename_loop_results jobId ai pc env total ids : forall i l w,
  map RenamePipeline.r_imageId
    (RenamePipeline.results
       (fst (RenamePipeline.rename_loop jobId ai pc env total i ids (l, w))))
  = map RenamePipeline.r_imageId (RenamePipeline.results l) ++ ids
  /\ (rename_ok l ->
      rename_ok (fst (RenamePipeline.rename_loop jobId ai pc env total i ids (l, w)))).
Proof.
  induction ids as [|imageId ids IH]; intros i l w;
    cbn [RenamePipeline.rename_loop fst snd].
  - now rewrite app_nil_r.
  - destruct (rename_item_results jobId ai pc total i imageId l (env i w))
      as (r & Hr & Hid & Hok).
    destruct (RenamePipeline.rename_item jobId ai pc total i imageId (l, env i w))
      as [l' w'] eqn:E.
    simpl in Hr, Hok. destruct (IH (S i) l' w') as [IH1 IH2].
    rewrite IH1, Hr, map_app. simpl. rewrite Hid, <- app_assoc. simpl.
    split; auto.
Qed.

Lemma analyze_item_results jobId model analyzer total i imageId l w :
  exists r,
    AnalyzePipeline.results
      (fst (AnalyzePipeline.analyze_item jobId model analyzer total i imageId (l, w)))
    = AnalyzePipeline.results l ++ [r]
    /\ AnalyzePipeline.r_imageId r = imageId
    /\ (analyze_ok l ->
        analyze_ok
          (fst (AnalyzePipeline.analyze_item jobId model analyzer total i imageId (l, w)))).
Proof.
  unfold AnalyzePipeline.analyze_item, AnalyzePipeline.skipped, analyze_ok.
  loop_cases; cbn [fst AnalyzePipeline.results AnalyzePipeline.successCount
                     AnalyzePipeline.errorCount];
    eexists; (split; [reflexivity|]); (split; [reflexivity|]);
    intros [Hs He]; rewrite !filter_app, !length_app; simpl; lia.
Qed.

Lemma analyze_loop_results jobId model analyzer env total ids : forall i l w,
  map AnalyzePipeline.r_imageId
    (AnalyzePipeline.results
       (fst (AnalyzePipeline.analyze_loop jobId model analyzer env total i ids (l, w))))
  = map AnalyzePipeline.r_imageId (AnalyzePipeline.results l) ++ ids
  /\ (analyze_ok l ->
      analyze_ok
        (fst (AnalyzePipeline.analyze_loop jobId model analyzer env total i ids (l, w)))).
Proof.
  induction ids as [|imageId ids IH]; intros i l w;
    cbn [AnalyzePipeline.analyze_loop fst snd].
  - now rewrite app_nil_r.
  - destruct (analyze_item_results jobId model analyzer total i imageId l (env i w))
      as (r & Hr & Hid & Hok).
    destruct (AnalyzePipeline.analyze_item jobId model analyzer total i imageId
                (l, env i w)) as [l' w'] eqn:E.
    simpl in Hr, Hok. destruct (IH (S i) l' w') as [IH1 IH2].
    rewrite IH1, Hr, map_app. simpl. rewrite Hid, <- app_assoc. simpl.
    split; auto.
Qed.

Lemma filter_all_length {A : Type} (f : A -> bool) (l : list A) :
  List.length (filter f l) = List.length l <-> Forall (fun x => f x = true) l.
Proof.
  induction l as [|x l IH]; simpl.
  - split; auto.
  - pose proof (filter_length_le f l) as Hle.
    destruct (f x) eqn:E; simpl.
    + split.
      * intros H. constructor; auto. apply IH. lia.
      * intros H. inversion H; subst. f_equal. now apply IH.
    + split; [lia|]. intros H. inversion H; subst. congruence.
Qed.

(** The sibling pipelines: the rename job is completed as failed exactly
    when no item succeeded. *)
Lemma rename_outcome_failed_iff jobId ai pc env ids w :
  let l := fst (RenamePipeline.rename_loop jobId ai pc env (List.length ids) 0 ids
                  (RenamePipeline.mkLoop [] 0 0, w)) in
  RenamePipeline.final_outcome (RenamePipeline.errorCount l) (List.length ids) = Failed
  <-> Forall (fun r => RenamePipeline.r_success r = false) (RenamePipeline.results l).
Proof.
  intros l.
  destruct (rename_loop_results jobId ai pc env (List.length ids) ids 0
              (RenamePipeline.mkLoop [] 0 0) w) as [Hids Hok].
  fold l in Hids, Hok. simpl in Hids.
  assert (Hlen : List.length (RenamePipeline.results l) = List.length ids)
    by (rewrite <- Hids; now rewrite length_map).
  destruct Hok as [_ He]; [split; reflexivity|].
  unfold RenamePipeline.final_outcome.
  destruct (Nat.eqb_spec (RenamePipeline.errorCount l) (List.length ids)) as [E|E].
  - split; auto. intros _. rewrite He, <- Hlen in E.
    apply filter_all_length in E. revert E. apply Forall_impl.
    intros r Hr. now apply negb_true_iff.
  - split; [discriminate|]. intros Hall. exfalso. apply E.
    rewrite He, <- Hlen. apply filter_all_length. revert Hall. apply Forall_impl.
    intros r Hr. now apply negb_true_iff.
Qed.

Lemma analyze_outcome_failed_iff jobId model analyzer env ids w :
  let l := fst (AnalyzePipeline.analyze_loop jobId model analyzer env
                  (List.length ids) 0 ids (AnalyzePipeline.mkLoop [] 0 0, w)) in
  AnalyzePipeline.final_outcome (AnalyzePipeline.errorCount l) (List.length ids) = Failed
  <-> Forall (fun r => AnalyzePipeline.r_success r = false) (AnalyzePipeline.results l).
Proof.
  intros l.
  destruct (analyze_loop_results jobId model analyzer env (List.length ids) ids 0
              (AnalyzePipeline.mkLoop [] 0 0) w) as [Hids Hok].
  fold l in Hids, Hok. simpl in Hids.
  assert (Hlen : List.length (AnalyzePipeline.results l) = List.length ids)
    by (rewrite <- Hids; now rewrite length_map).
  destruct Hok as [_ He]; [split; reflexivity|].
  unfold AnalyzePipeline.final_outcome.
  destruct (Nat.eqb_spec (AnalyzePipeline.errorCount l) (List.length ids)) as [E|E].
  - split; auto. intros _. rewrite He, <- Hlen in E.
    apply filter_all_length in E. revert E. apply Forall_impl.
    intros r Hr. now apply negb_true_iff.
  - split; [discriminate|]. intros Hall. exfalso. apply E.
    rewrite He, <- Hlen. apply filter_all_length. revert Hall. apply Forall_impl.
    intros r Hr. now apply negb_true_iff.
Qed.

(** C2, at the input where the cleanup route departs from it: two
    duplicates are to be removed, the first delete succeeds and the second
    is rejected; the job ends as failed although one item succeeded. *)
Theorem cleanup_partial_failure_status :
  fst cleanup_run = CleanupPipeline.Done false 1 1 2 "job_2"
  /\ option_map status (getJob "job_2" (World.jobs (snd cleanup_run))) = Some failed
  /\ option_map successCount (getJob "job_2" (World.jobs (snd cleanup_run))) = Some 1
  /\ option_map errorCount (getJob "job_2" (World.jobs (snd cleanup_run))) = Some 1
  /\ option_map totalItems (getJob "job_2" (World.jobs (snd cleanup_run))) = Some 2
  /\ CleanupPipeline.final_outcome 1 = Failed
  /\ RenamePipeline.final_outcome 1 2 = Completed
  /\ AnalyzePipeline.final_outcome 1 2 = Completed.
Proof. repeat split; vm_compute; reflexivity. Qed.

(** C8 does not hold as documented: the job of this rename run is
    cancelled before the second of its three items starts, and the loop
    still renames the second and the third file; the final [completeJob]
    then replaces the cancelled status. *)
Lemma cancelled_rename_still_runs :
  option_map status (getJob "job_1" (World.jobs cancelled_run_at_item_1))
  = Some cancelled
  /\ fst cancelled_run
     = RenamePipeline.Done
         [RenamePipeline.mkResult (Storage.id img1) (Some "a.jpg") (Some "beach.jpg") true None;
          RenamePipeline.mkResult (Storage.id img2) (Some "b.jpg") (Some "forest.jpg") true None;
          RenamePipeline.mkResult (Storage.id img3) (Some "c.jpg") (Some "city.jpg") true None]
         3 0 "job_1"
  /\ World.disk (snd cancelled_run)
     = ["/pics/city.jpg"; "/pics/forest.jpg"; "/pics/beach.jpg"]
  /\ option_map status (getJob "job_1" (World.jobs (snd cancelled_run)))
     = Some completed.
Proof. repeat split; vm_compute; reflexivity. Qed.

(** With [job.id] undefined, an iteration of the analyze loop leaves the
    tracker as it is. *)
Lemma analyze_item_jobs model analyzer total i imageId l w :
  World.jobs (snd (AnalyzePipeline.analyze_item None model analyzer total i imageId (l, w)))
  = World.jobs w.
Proof.
  unfold AnalyzePipeline.analyze_item, AnalyzePipeline.skipped,
    AnalyzePipeline.updateJobProgress.
  loop_cases; reflexivity.
Qed.

(** So what holds of the tracker at the start of the loop and is kept by
    the other requests holds at its end. *)
Lemma analyze_loop_jobs (P : Jobs.store -> Prop) model analyzer env total ids :
  (forall i w0, P (World.jobs w0) -> P (World.jobs (env i w0))) ->
  forall i l w,
    P (World.jobs w) ->
    P (World.jobs
         (snd (AnalyzePipeline.analyze_loop None model analyzer env total i ids (l, w)))).
Proof.
  intros Henv. induction ids as [|imageId ids IH]; intros i l w HP;
    cbn [AnalyzePipeline.analyze_loop fst snd]; auto.
  pose proof (analyze_item_jobs model analyzer total i imageId l (env i w)) as Hj.
  destruct (AnalyzePipeline.analyze_item None model analyzer total i imageId (l, env i w))
    as [l' w'].
  cbn [snd] in Hj. apply IH. rewrite Hj. now apply Henv.
Qed.

(** C8: the item loops of the rename and analyze pipelines never read
    the job's status.  Whatever other requests do between two items
    (cancelling the job included), the loop attempts every target in order
    and records one result for each.  A rename run ends with [completeJob]
    on its job: a job still in the tracker ends completed or failed, as
    the counters say, whatever its status was.  An analyze run calls the
    tracker without [await]: the answer has no [jobId], and after
    [createJob] the run itself changes nothing in the tracker, so its job
    stays pending when no other request touches it and stays cancelled,
    with every image still analyzed, when it is cancelled during the
    run. *)
Theorem loops_attempt_every_item :
  (forall jobId ai pc env total i ids l w,
     map RenamePipeline.r_imageId
       (RenamePipeline.results
          (fst (RenamePipeline.rename_loop jobId ai pc env total i ids (l, w))))
     = map RenamePipeline.r_imageId (RenamePipeline.results l) ++ ids)
  /\ (forall jobId model analyzer env total i ids l w,
       map AnalyzePipeline.r_imageId
         (AnalyzePipeline.results
            (fst (AnalyzePipeline.analyze_loop jobId model analyzer env total i ids
                    (l, w))))
       = map AnalyzePipeline.r_imageId (AnalyzePipeline.results l) ++ ids)
  /\ (forall pid jobId imageId rest ai pc env w,
       let run := RenamePipeline.rename_batch pid jobId (imageId :: rest) ai pc env w in
       match fst run with
       | RenamePipeline.Done results _ errors _ =>
           map RenamePipeline.r_imageId results = imageId :: rest
           /\ (forall job,
                 getJob jobId (World.jobs (snd run)) = Some job ->
                 status job
                 = Outcome_status
                     (RenamePipeline.final_outcome errors (List.length results)))
       | RenamePipeline.Error _ _ =>
           ProjectService.getProject pid (World.projects w) = None
       | RenamePipeline.NothingToDo => False
       end)
  /\ (forall pid newJobId model imageId rest analyzer env w,
       let run :=
         AnalyzePipeline.analyze_batch pid newJobId model (imageId :: rest)
           analyzer env w in
       match fst run with
       | AnalyzePipeline.Done results _ _ jobId =>
           map AnalyzePipeline.r_imageId results = imageId :: rest
           /\ jobId = None
           /\ exists project,
                ProjectService.getProject pid (World.projects w) = Some project
                /\ let created :=
                     World.jobs
                       (World.createJob newJobId
                          (mkCreate pid (Storage.name project) analyze
                             (List.length (imageId :: rest)) [("model", model)]) w) in
                   (forall P : Jobs.store -> Prop,
                      (forall i w0, P (World.jobs w0) -> P (World.jobs (env i w0))) ->
                      P created -> P (World.jobs (snd run)))
                   /\ ((forall i w0, World.jobs (env i w0) = World.jobs w0) ->
                       option_map
                         (fun job => (status job, startedAt job, completedAt job,
                                      processedItems job))
                         (getJob newJobId (World.jobs (snd run)))
                       = Some (pending, None, None, 0))
       | AnalyzePipeline.Error _ _ =>
           ProjectService.getProject pid (World.projects w) = None
       | AnalyzePipeline.NothingToDo => False
       end)
  /\ (fst cancelled_analysis
      = AnalyzePipeline.Done
          [AnalyzePipeline.mkResult (Storage.id img1) (Some "sunny_beach") true None;
           AnalyzePipeline.mkResult (Storage.id img2) (Some "sunny_beach") true None;
           AnalyzePipeline.mkResult (Storage.id img3) (Some "sunny_beach") true None]
          3 0 None
      /\ option_map status (getJob "job_1" (World.jobs (snd cancelled_analysis)))
         = Some cancelled
      /\ map (fun img => (Storage.status img, Storage.suggestedName img))
           (ImageService.getProjectImages "p1" (World.images (snd cancelled_analysis)))
         = [("analyzed", Some "sunny_beach"); ("analyzed", Some "sunny_beach");
            ("analyzed", Some "sunny_beach")]).
Proof.
  split; [|split; [|split; [|split]]].
  - intros. apply rename_loop_results.
  - intros. apply analyze_loop_results.
  - intros. unfold run, RenamePipeline.rename_batch.
    destruct (ProjectService.getProject pid (World.projects w)); cbn [fst]; auto.
    match goal with
    | |- context [RenamePipeline.rename_loop ?a ?b ?c ?d ?e ?f ?g (?l, ?w')] =>
        destruct (rename_loop_results a b c d e g f l w') as [H _];
        destruct (RenamePipeline.rename_loop a b c d e f g (l, w')) as [l1 w1]
    end.
    cbn [fst snd]. cbn [fst snd RenamePipeline.results map app] in H.
    split; [exact H|].
    intros job Hjob.
    assert (Hlen : List.length (RenamePipeline.results l1) = List.length (imageId :: rest))
      by (rewrite <- H; now rewrite length_map).
    rewrite Hlen.
    unfold World.completeJob in Hjob.
    cbn [World.jobs World.tick World.with_jobs] in Hjob.
    rewrite getJob_completeJob, String.eqb_refl in Hjob.
    match type of Hjob with
    | option_map _ ?g = _ => destruct g; [|discriminate]
    end.
    cbn [option_map] in Hjob. inversion Hjob. apply finished_status.
  - intros. unfold run, AnalyzePipeline.analyze_batch.
    destruct (ProjectService.getProject pid (World.projects w)) as [project|] eqn:P;
      cbn [fst]; auto.
    cbv zeta. unfold AnalyzePipeline.id_of_promise, AnalyzePipeline.startJob,
      AnalyzePipeline.completeJob.
    set (w0 := World.createJob newJobId _ w).
    destruct (analyze_loop_results None model analyzer env
                (List.length (imageId :: rest)) (imageId :: rest) 0
                (AnalyzePipeline.mkLoop [] 0 0) w0) as [H _].
    assert (Hinv : forall Q : Jobs.store -> Prop,
              (forall i w1, Q (World.jobs w1) -> Q (World.jobs (env i w1))) ->
              Q (World.jobs w0) ->
              Q (World.jobs
                   (snd (AnalyzePipeline.analyze_loop None model analyzer env
                           (List.length (imageId :: rest)) 0 (imageId :: rest)
                           (AnalyzePipeline.mkLoop [] 0 0, w0)))))
      by (intros Q HQ; apply analyze_loop_jobs; exact HQ).
    destruct (AnalyzePipeline.analyze_loop None model analyzer env
                (List.length (imageId :: rest)) 0 (imageId :: rest)
                (AnalyzePipeline.mkLoop [] 0 0, w0)) as [l1 w1].
    cbn [fst snd] in *. cbn [AnalyzePipeline.results map app] in H.
    split; [exact H|]. split; [reflexivity|].
    exists project. split; [reflexivity|].
    assert (Hend : forall Q : Jobs.store -> Prop,
              (forall i w2, Q (World.jobs w2) -> Q (World.jobs (env i w2))) ->
              Q (World.jobs w0) ->
              Q (World.jobs
                   (if 0 <? AnalyzePipeline.successCount l1
                    then World.tick
                           (World.with_projects
                              (ProjectService.updateProjectStats (World.clock w1) pid
                                 None (Some (AnalyzePipeline.successCount l1)) None
                                 (World.projects w1)) w1)
                    else w1))).
    { intros Q HQ H0. destruct (0 <? AnalyzePipeline.successCount l1);
        cbn [World.jobs World.tick World.with_projects]; now apply Hinv. }
    split; [exact Hend|].
    intros Henv.
    apply (Hend (fun js =>
                   option_map
                     (fun job => (status job, startedAt job, completedAt job,
                                  processedItems job))
                     (getJob newJobId js) = Some (pending, None, None, 0))).
    + intros i w2 HQ. now rewrite Henv.
    + unfold w0, World.createJob, Jobs.createJob, getJob.
      cbn [World.jobs World.tick World.with_jobs snd Jobs.id].
      now rewrite JsMapFacts.get_set_same.
  - repeat split; vm_compute; reflexivity.
Qed.

End LoopFacts.

(* ================================================================== *)
(** ** Scan: the store during the file loop *)
(* ================================================================== *)

Module ScanFaultFacts.
Import JsString JsMap JsMapFacts Storage JobsFacts ScanPipeline Samples.

Lemma getProjectImages_clear pid (m : Storage.images) :
  ImageService.getProjectImages pid (ImageService.clearProjectImages pid m) = [].
Proof.
  unfold ImageService.getProjectImages, ImageService.clearProjectImages,
    Storage.getProjectImages, Storage.clearProjectImages, values. simpl.
  induction m as [|[k v] m IH]; simpl; auto.
  destruct (String.eqb (projectId v) pid) eqn:E; simpl; auto.
  now rewrite E.
Qed.

Lemma has_job_updateJobProgress jobId u w :
  Jobs.getJob jobId (World.jobs w) <> None ->
  Jobs.getJob jobId (World.jobs (World.updateJobProgress jobId u w)) <> None.
Proof.
  unfold World.updateJobProgress. simpl.
  rewrite getJob_updateJobProgress, String.eqb_refl.
  destruct (Jobs.getJob jobId (World.jobs w)); simpl; congruence.
Qed.

(** The file loop touches the job store and the clock only. *)
Lemma scan_file_frame pid folderPath jobId existingByHash file l w :
  let w' := snd (scan_file pid folderPath jobId existingByHash file (l, w)) in
  World.images w' = World.images w
  /\ World.projects w' = World.projects w
  /\ (Jobs.getJob jobId (World.jobs w) <> None -> Jobs.getJob jobId (World.jobs w') <> None).
Proof.
  unfold scan_file. destruct (f_read file); cbn [snd]; repeat split; auto;
    intros H; repeat (apply has_job_updateJobProgress || exact H).
Qed.

Lemma scan_loop_fault pid folderPath jobId existingByHash files : forall k l w,
  k <= List.length files ->
  exists w',
    scan_loop pid folderPath jobId existingByHash (Some k) files (l, w) = inr w'
    /\ World.images w' = World.images w
    /\ World.projects w' = World.projects w
    /\ (Jobs.getJob jobId (World.jobs w) <> None -> Jobs.getJob jobId (World.jobs w') <> None).
Proof.
  induction files as [|file files IH]; intros k l w Hk.
  - simpl in Hk. assert (k = 0) by lia. subst. exists w. simpl. auto.
  - destruct k as [|k].
    + exists w. simpl. auto.
    + cbn [scan_loop option_map Nat.pred].
      destruct (scan_file_frame pid folderPath jobId existingByHash file l w)
        as (Hi & Hp & Hj).
      destruct (scan_file pid folderPath jobId existingByHash file (l, w))
        as [l1 w1]. cbn [snd] in Hi, Hp, Hj.
      destruct (IH k l1 w1) as (w' & Hloop & Hi' & Hp' & Hj');
        [simpl in Hk; lia|].
      exists w'. repeat split; auto; congruence.
Qed.

(** An exception that escapes between the clear and the save (before any
    item, between two items, or right after the last): the handler answers
    500, the job is completed as failed, and the project has no stored
    record left, whatever it had before. *)
Lemma failed_scan_leaves_no_records
  (pid newJobId : string) (entries : list FileEntry) (fault : Fault)
  (w : World.t) (project : Project) :
  ProjectService.getProject pid (World.projects w) = Some project ->
  at_item fault <= List.length (filter (fun f => supported (f_name f)) entries) ->
  let run := scan pid newJobId (Entries entries) (Some fault) w in
  fst run = Error 500 (fault_message fault)
  /\ ImageService.getProjectImages pid (World.images (snd run)) = []
  /\ option_map Jobs.status (Jobs.getJob newJobId (World.jobs (snd run))) = Some Jobs.failed.
Proof.
  intros Hproject Hk run. unfold run, scan. rewrite Hproject.
  cbn [option_map].
  match goal with
  | |- context [scan_loop ?a ?b ?c ?d (Some ?k) ?f (?l, ?w0)] =>
      destruct (scan_loop_fault a b c d f k l w0 Hk) as (w' & Hloop & Hi & _ & Hj);
      rewrite Hloop
  end.
  cbn [fst snd]. split; [reflexivity|]. split.
  - unfold World.completeJob. cbn [World.images World.tick World.with_jobs].
    rewrite Hi. cbn [World.images World.with_images]. apply getProjectImages_clear.
  - unfold World.completeJob. cbn [World.jobs World.tick World.with_jobs].
    rewrite getJob_completeJob, String.eqb_refl.
    assert (Hhas : Jobs.getJob newJobId (World.jobs w') <> None).
    { apply Hj.
      cbn [World.jobs World.with_images World.startJob World.tick World.with_jobs
             World.createJob].
      rewrite getJob_startJob, String.eqb_refl.
      unfold Jobs.createJob. cbn [snd Jobs.id]. unfold Jobs.getJob.
      rewrite get_set_same. discriminate. }
    destruct (Jobs.getJob newJobId (World.jobs w')) as [j|]; [|congruence].
    cbn [option_map]. now rewrite finished_status.
Qed.

End ScanFaultFacts.

(* ================================================================== *)
(** ** Scan: what a complete run builds and stores *)
(* ================================================================== *)

Module ScanFacts.
Import JsString JsStringFacts JsPath JsPathFacts JsMap JsMapFacts.
Import Storage StorageFacts JobsFacts ScanPipeline ScanFaultFacts Invariants Samples.

(** The record built for a file, whatever prior record is merged into it. *)
Lemma build_image_identity pid folderPath ebh file info t :
  let img := build_image pid folderPath ebh file info t in
  originalName img = file /\ hash img = fi_hash info
  /\ path img = join folderPath file /\ projectId img = pid
  /\ currentName img = file.
Proof.
  unfold build_image.
  destruct (find_existing _ _ _); cbn; auto.
Qed.

Lemma scan_loop_complete pid folderPath jobId ebh files : forall l w,
  exists imgs w',
    scan_loop pid folderPath jobId ebh None files (l, w)
    = inl (mkLoop (ScanPipeline.images l ++ imgs)
             (track_all (readable files) (duplicateHashes l))
             (processedCount l + List.length files), w')
    /\ Forall2 (fun ni img =>
                  exists t, img = build_image pid folderPath ebh (fst ni) (snd ni) t)
         (readable files) imgs
    /\ World.images w' = World.images w
    /\ World.projects w' = World.projects w
    /\ (Jobs.getJob jobId (World.jobs w) <> None ->
        Jobs.getJob jobId (World.jobs w') <> None).
Proof.
  induction files as [|file files IH]; intros l w.
  - exists [], w. cbn. rewrite app_nil_r, Nat.add_0_r. destruct l; cbn.
    repeat split; auto.
  - cbn [scan_loop option_map].
    destruct (scan_file_frame pid folderPath jobId ebh file l w) as (Hi & Hp & Hj).
    destruct (scan_file pid folderPath jobId ebh file (l, w)) as [l1 w1] eqn:E.
    cbn [snd] in Hi, Hp, Hj.
    destruct (IH l1 w1) as (imgs & w' & Hloop & Hall & Hi' & Hp' & Hj').
    rewrite Hloop. clear Hloop.
    unfold scan_file in E. unfold readable. cbn [flat_map].
    destruct (f_read file) as [info|message] eqn:R.
    + inversion E; subst l1. clear E.
      eexists (_ :: imgs), w'.
      cbn [app track_all fold_left fst snd ScanPipeline.images duplicateHashes
             processedCount List.length].
      rewrite <- app_assoc. cbn [app].
      rewrite Nat.add_succ_r. split; [reflexivity|].
      split; [constructor; [eexists; reflexivity|exact Hall]|].
      repeat split; try congruence. auto.
    + inversion E; subst l1. clear E.
      exists imgs, w'.
      cbn [app List.length ScanPipeline.images duplicateHashes processedCount].
      rewrite Nat.add_succ_r. split; [reflexivity|].
      split; [exact Hall|]. repeat split; try congruence. auto.
Qed.

Lemma mark_one_fields dups img :
  let img' := mark_one dups img in
  hash img' = hash img /\ originalName img' = originalName img
  /\ path img' = path img /\ projectId img' = projectId img
  /\ suggestedName img' = suggestedName img /\ renamed img' = renamed img
  /\ key_of img' = key_of img.
Proof.
  unfold mark_one, key_of.
  destruct (get (hash img) dups) as [names|]; [|repeat split].
  destruct (1 <? List.length names); repeat split.
Qed.

(** The nested loops of "mark duplicates" act on each record through the
    entry of its own hash. *)
Lemma mark_duplicates_map dups : forall n imgs,
  NoDup (keys dups) ->
  snd (fold_left
         (fun (acc : nat * list ImageData) (entry : string * list string) =>
            let (duplicateCount, imgs) := acc in
            let (h, fileNames) := entry in
            if 1 <? List.length fileNames
            then (duplicateCount + List.length fileNames,
                  map (fun img =>
                         if String.eqb (hash img) h
                         then set_duplicate true
                                (Some (filter (fun f => negb (String.eqb f (originalName img)))
                                         fileNames)) img
                         else img) imgs)
            else (duplicateCount, imgs))
         dups (n, imgs))
  = map (mark_one dups) imgs.
Proof.
  induction dups as [|[h names] dups IH]; intros n imgs Hnd.
  - cbn. unfold mark_one. cbn. now rewrite map_id.
  - inversion Hnd as [|? ? Hnotin Hnd']; subst. cbn [fold_left].
    assert (Hnone : get h dups = None).
    { destruct (get h dups) eqn:G; auto. apply get_In in G.
      exfalso. apply Hnotin. change h with (fst (h, l)). now apply in_map. }
    destruct (1 <? List.length names) eqn:Hlen.
    + rewrite IH by assumption. rewrite map_map. apply map_ext. intros img.
      unfold mark_one at 2. cbn [get]. destruct (String.eqb (hash img) h) eqn:E.
      * rewrite Hlen. unfold mark_one. cbn [hash set_duplicate].
        apply String.eqb_eq in E. rewrite E, Hnone. reflexivity.
      * reflexivity.
    + rewrite IH by assumption. apply map_ext. intros img.
      unfold mark_one at 2. cbn [get]. destruct (String.eqb (hash img) h) eqn:E.
      * rewrite Hlen. unfold mark_one.
        apply String.eqb_eq in E. rewrite E, Hnone. reflexivity.
      * reflexivity.
Qed.

Lemma mark_duplicates_spec dups imgs :
  NoDup (keys dups) -> snd (mark_duplicates dups imgs) = map (mark_one dups) imgs.
Proof. apply mark_duplicates_map. Qed.

Lemma NoDup_keys_track_all rs : forall d,
  NoDup (keys d) -> NoDup (keys (track_all rs d)).
Proof.
  induction rs as [|[name info] rs IH]; intros d Hnd; cbn; auto.
  apply IH. unfold track_duplicate.
  destruct (get (fi_hash info) d); now apply NoDup_keys_set.
Qed.

(** [duplicateHashes] maps a digest to the names of the files read with
    it, in folder order. *)
Lemma get_track_all h rs : forall d,
  get h (track_all rs d)
  = match names_with h rs with
    | [] => get h d
    | ns => Some (match get h d with Some l => l | None => [] end ++ ns)
    end.
Proof.
  induction rs as [|[name info] rs IH]; intros d; cbn [track_all fold_left].
  - reflexivity.
  - fold (track_all rs). rewrite IH. unfold names_with. cbn [filter fst snd].
    unfold track_duplicate.
    destruct (String.eqb (fi_hash info) h) eqn:E.
    + apply String.eqb_eq in E. subst h. cbn [map fst].
      destruct (get (fi_hash info) d) as [l|] eqn:G; rewrite get_set_same.
      * destruct (map fst _); [reflexivity|now rewrite <- app_assoc].
      * destruct (map fst _); reflexivity.
    + assert (Hne : fi_hash info <> h)
        by (intros Heq; rewrite Heq, String.eqb_refl in E; discriminate).
      destruct (get (fi_hash info) d) as [l|] eqn:G;
        rewrite (get_set_other _ _ _ _ Hne); reflexivity.
Qed.

(** [existingByHash] maps a non-empty digest to the prior records that
    carry it, in store order. *)
Lemma get_index_by_hash_acc h imgs : forall m,
  truthy h = true ->
  get h (fold_left
           (fun m img =>
              if negb (truthy (hash img)) then m
              else
                let m := if has (hash img) m then m else set (hash img) [] m in
                match get (hash img) m with
                | Some l => set (hash img) (l ++ [img]) m
                | None => m
                end) imgs m)
  = match filter (fun img => String.eqb (hash img) h) imgs with
    | [] => get h m
    | l => Some (match get h m with Some l0 => l0 | None => [] end ++ l)
    end.
Proof.
  intros m Hh. revert m.
  induction imgs as [|img imgs IH]; intros m; cbn [fold_left filter].
  - reflexivity.
  - rewrite IH. clear IH.
    destruct (String.eqb (hash img) h) eqn:E.
    + apply String.eqb_eq in E. rewrite E, Hh. cbn [negb]. unfold has.
      destruct (get h m) as [l0|] eqn:G.
      * rewrite G, get_set_same.
        destruct (filter _ imgs); [reflexivity|now rewrite <- app_assoc].
      * rewrite get_set_same, get_set_same. cbn [app].
        destruct (filter _ imgs); reflexivity.
    + assert (Hne : hash img <> h)
        by (intros Heq; rewrite Heq, String.eqb_refl in E; discriminate).
      destruct (negb (truthy (hash img))); [reflexivity|].
      unfold has. destruct (get (hash img) m) as [l0|] eqn:G.
      * rewrite G. now rewrite (get_set_other _ _ _ _ Hne).
      * rewrite get_set_same. rewrite !(get_set_other _ _ _ _ Hne). reflexivity.
Qed.

Lemma get_index_by_hash h imgs :
  truthy h = true ->
  get h (index_by_hash imgs)
  = match filter (fun img => String.eqb (hash img) h) imgs with
    | [] => None
    | l => Some l
    end.
Proof.
  intros Hh. unfold index_by_hash. rewrite get_index_by_hash_acc by assumption.
  reflexivity.
Qed.

Lemma getProject_updateProject now pid n a r st ps :
  ProjectService.getProject pid (ProjectService.updateProject now pid n a r st ps)
  = option_map (fun p => mkProject (name p) (folderPath p) (description p)
                           (p_createdAt p) now n a r st)
      (ProjectService.getProject pid ps).
Proof.
  unfold ProjectService.updateProject, ProjectService.getProject.
  destruct (get pid ps) eqn:G; cbn [option_map]; [apply get_set_same|assumption].
Qed.

(** A scan that is not interrupted: the records it builds, the store and
    the project counters it leaves. *)
Lemma scan_complete pid jobId entries w project :
  ProjectService.getProject pid (World.projects w) = Some project ->
  let files := filter (fun f => supported (f_name f)) entries in
  let ebh := index_by_hash (ImageService.getProjectImages pid (World.images w)) in
  let dups := track_all (readable files) [] in
  exists built w',
    Forall2 (fun ni img =>
               exists t, img = build_image pid (folderPath project) ebh
                                 (fst ni) (snd ni) t)
      (readable files) built
    /\ scan pid jobId (Entries entries) None w
       = (Ok jobId (List.length built) (fst (mark_duplicates dups built))
            (map (fun img => set_id_project (key_of img) (projectId img) img)
               (map (mark_one dups) built)), w')
    /\ World.images w'
       = ImageService.saveImages pid (map (mark_one dups) built)
           (ImageService.clearProjectImages pid (World.images w))
    /\ option_map imageCount (ProjectService.getProject pid (World.projects w'))
       = Some (List.length built)
    /\ option_map folderPath (ProjectService.getProject pid (World.projects w'))
       = Some (folderPath project).
Proof.
  intros Hproject files ebh dups. unfold scan. rewrite Hproject.
  cbn [option_map].
  match goal with
  | |- context [scan_loop ?a ?b ?c ?d None ?f (?l, ?w0)] =>
      destruct (scan_loop_complete a b c d f l w0)
        as (built & w1 & Hloop & Hbuilt & Hi & Hp & _);
      rewrite Hloop
  end.
  cbn [ScanPipeline.images duplicateHashes app].
  subst files ebh dups.
  match goal with
  | |- context [mark_duplicates ?d built] => set (dups := d) in *
  end.
  destruct (mark_duplicates dups built) as [count imgs] eqn:M.
  cbn [fst].
  assert (Himgs : imgs = map (mark_one dups) built).
  { change imgs with (snd (count, imgs)). rewrite <- M.
    apply mark_duplicates_spec. apply NoDup_keys_track_all. constructor. }
  subst imgs. exists built. eexists. split; [exact Hbuilt|].
  rewrite !length_map, ?M. cbn [fst]. split; [reflexivity|].
  unfold World.completeJob.
  cbn [World.images World.projects World.tick World.with_jobs World.with_projects
         World.with_images World.clock World.jobs].
  rewrite Hi, Hp. cbn [World.images World.projects World.with_images World.startJob
                         World.createJob World.tick World.with_jobs].
  split; [reflexivity|].
  rewrite getProject_updateProject, Hproject. cbn [option_map imageCount folderPath].
  split; reflexivity.
Qed.

Lemma Forall2_In_l {A B : Type} (R : A -> B -> Prop) l1 l2 x :
  Forall2 R l1 l2 -> In x l1 -> exists y, In y l2 /\ R x y.
Proof.
  induction 1 as [|a b l1 l2 Hab _ IH]; intros Hin; [contradiction|].
  destruct Hin as [->|Hin].
  - exists b. split; [now left|assumption].
  - destruct (IH Hin) as (y & Hy & Hr). exists y. split; [now right|assumption].
Qed.

Lemma Forall2_In_r {A B : Type} (R : A -> B -> Prop) l1 l2 y :
  Forall2 R l1 l2 -> In y l2 -> exists x, In x l1 /\ R x y.
Proof.
  induction 1 as [|a b l1 l2 Hab _ IH]; intros Hin; [contradiction|].
  destruct Hin as [->|Hin].
  - exists a. split; [now left|assumption].
  - destruct (IH Hin) as (x & Hx & Hr). exists x. split; [now right|assumption].
Qed.

Lemma Forall2_map_eq {A B C : Type} (R : A -> B -> Prop) (f : A -> C) (g : B -> C)
  l1 l2 :
  (forall x y, R x y -> f x = g y) -> Forall2 R l1 l2 -> map f l1 = map g l2.
Proof.
  intros Hfg. induction 1 as [|a b l1 l2 Hab _ IH]; cbn; [reflexivity|].
  now rewrite (Hfg _ _ Hab), IH.
Qed.

Lemma NoDup_map_In_eq {A B : Type} (f : A -> B) l a b :
  NoDup (map f l) -> In a l -> In b l -> f a = f b -> a = b.
Proof.
  induction l as [|x l IH]; cbn; intros Hnd Ha Hb Hf; [contradiction|].
  inversion Hnd as [|? ? Hnotin Hnd']; subst.
  destruct Ha as [->|Ha], Hb as [->|Hb]; auto.
  - exfalso. apply Hnotin. rewrite Hf. now apply in_map.
  - exfalso. apply Hnotin. rewrite <- Hf. now apply in_map.
Qed.

Lemma NoDup_map_filter {A B : Type} (f : A -> B) (p : A -> bool) l :
  NoDup (map f l) -> NoDup (map f (filter p l)).
Proof.
  induction l as [|x l IH]; cbn; intros Hnd; [constructor|].
  inversion Hnd as [|? ? Hnotin Hnd']; subst.
  destruct (p x); cbn; auto. constructor; auto.
  intros Hin. apply Hnotin. apply in_map_iff in Hin.
  destruct Hin as (y & Hy & Hin). apply filter_In in Hin.
  rewrite <- Hy. apply in_map. tauto.
Qed.

Lemma readable_In files n info :
  In (n, info) (readable files)
  <-> exists file, In file files /\ f_name file = n /\ f_read file = ReadOk info.
Proof.
  unfold readable. rewrite in_flat_map. split.
  - intros (file & Hin & H). exists file. split; auto.
    destruct (f_read file); [|contradiction].
    destruct H as [H|[]]. now inversion H.
  - intros (file & Hin & Hn & Hr). exists file. split; auto.
    rewrite Hr, Hn. now left.
Qed.

Lemma NoDup_readable files :
  NoDup (map f_name files) -> NoDup (map fst (readable files)).
Proof.
  induction files as [|file files IH]; cbn; intros Hnd; [constructor|].
  inversion Hnd as [|? ? Hnotin Hnd']; subst.
  destruct (f_read file) eqn:R; cbn; auto.
  constructor; auto. intros Hin. apply Hnotin.
  apply in_map_iff in Hin. destruct Hin as ([n i] & Hn & Hin).
  apply readable_In in Hin. destruct Hin as (f & Hf & Hfn & _).
  cbn in Hn. rewrite <- Hn, <- Hfn. now apply in_map.
Qed.

(** Every list of [existingByHash] holds prior records with the digest it
    is filed under. *)
Lemma index_by_hash_sound imgs h l :
  get h (index_by_hash imgs) = Some l ->
  forall e, In e l -> In e imgs /\ hash e = h.
Proof.
  destruct (truthy h) eqn:Hh.
  - rewrite get_index_by_hash by assumption.
    destruct (filter _ imgs) as [|x l0] eqn:F; [discriminate|].
    intros H e He. inversion H; subst l. rewrite <- F in He.
    apply filter_In in He. destruct He as [He E]. apply String.eqb_eq in E. auto.
  - intros H. exfalso. revert H. unfold index_by_hash.
    assert (Hgen : forall m, get h m = None ->
              get h (fold_left
                       (fun m img =>
                          if negb (truthy (hash img)) then m
                          else
                            let m := if has (hash img) m then m
                                     else set (hash img) [] m in
                            match get (hash img) m with
                            | Some l => set (hash img) (l ++ [img]) m
                            | None => m
                            end) imgs m) = None).
    { induction imgs as [|img imgs IH]; intros m Hm; cbn [fold_left]; auto.
      apply IH. destruct (truthy (hash img)) eqn:T; cbn [negb]; auto.
      assert (Hne : hash img <> h) by (intros Heq; congruence).
      unfold has. destruct (get (hash img) m) eqn:G.
      - rewrite G. now rewrite (get_set_other _ _ _ _ Hne).
      - rewrite get_set_same. now rewrite !(get_set_other _ _ _ _ Hne). }
    rewrite Hgen; [discriminate|reflexivity].
Qed.

Lemma find_existing_In l filePath file e :
  find_existing l filePath file = Some e -> In e l.
Proof.
  unfold find_existing.
  destruct (find (fun img => String.eqb (path img) filePath) l) as [e1|] eqn:F1.
  - intros H. assert (e1 = e) by congruence. subst e1.
    apply find_some in F1. apply F1.
  - clear F1. destruct (find _ l) as [e2|] eqn:F2.
    + intros H. assert (e2 = e) by congruence. subst e2.
      apply find_some in F2. apply F2.
    + destruct l as [|x l']; cbn; [discriminate|]. intros H.
      inversion H. now left.
Qed.

Lemma two_distinct_length {A : Type} (l : list A) x y :
  In x l -> In y l -> x <> y -> 2 <= List.length l.
Proof.
  destruct l as [|a [|b l]]; cbn; intros Hx Hy Hne; try contradiction; [|lia].
  destruct Hx as [<-|[]], Hy as [<-|[]]. congruence.
Qed.

Lemma constant_NoDup_length {A : Type} (l : list A) x :
  NoDup l -> (forall y, In y l -> y = x) -> List.length l <= 1.
Proof.
  destruct l as [|a [|b l]]; cbn; intros Hnd Hall; try lia.
  exfalso. inversion Hnd as [|? ? Hnotin _]; subst. apply Hnotin.
  rewrite (Hall a), (Hall b); auto. now left.
Qed.

Lemma filter_nil_all {A : Type} (p : A -> bool) (l : list A) :
  filter p l = [] -> forall y, In y l -> p y = false.
Proof.
  intros H y Hy. destruct (p y) eqn:E; auto.
  assert (Hin : In y (filter p l)) by (apply filter_In; auto).
  rewrite H in Hin. contradiction.
Qed.

Lemma names_with_In h rs n info :
  In (n, info) rs -> fi_hash info = h -> In n (names_with h rs).
Proof.
  intros Hin Hh. unfold names_with. change n with (fst (n, info)).
  apply in_map. apply filter_In. split; auto. cbn. rewrite Hh. apply String.eqb_refl.
Qed.

(** How the scan flags the record of one file that was read. *)
Lemma mark_one_built pid folderPath ebh (rs : list (string * FileInfo)) n info t :
  NoDup (map fst rs) -> In (n, info) rs ->
  let img := mark_one (track_all rs [])
               (build_image pid folderPath ebh n info t) in
  let siblings :=
    filter (fun f => negb (String.eqb f n)) (names_with (fi_hash info) rs) in
  (siblings <> [] -> isDuplicate img = true /\ duplicateOf img = Some siblings)
  /\ (siblings = [] -> img = build_image pid folderPath ebh n info t).
Proof.
  intros Hnd Hin img siblings.
  destruct (build_image_identity pid folderPath ebh n info t)
    as (Hname & Hhash & _).
  set (b := build_image pid folderPath ebh n info t) in *.
  assert (Hn : In n (names_with (fi_hash info) rs))
    by now apply (names_with_In _ _ _ info).
  assert (Hget : get (hash b) (track_all rs []) = Some (names_with (fi_hash info) rs)).
  { rewrite Hhash, get_track_all.
    destruct (names_with (fi_hash info) rs); [contradiction|reflexivity]. }
  unfold img, mark_one. rewrite Hget, Hname. fold siblings. split.
  - intros Hne. destruct siblings as [|y ys] eqn:S; [congruence|].
    assert (Hy : In y (filter (fun f => negb (String.eqb f n))
                         (names_with (fi_hash info) rs)))
      by (fold siblings; rewrite S; now left).
    apply filter_In in Hy. destruct Hy as [Hy Hyn].
    apply negb_true_iff in Hyn.
    assert (Hlen : 2 <= List.length (names_with (fi_hash info) rs)).
    { apply (two_distinct_length _ n y); auto.
      intros ->. now rewrite String.eqb_refl in Hyn. }
    destruct (Nat.ltb_spec 1 (List.length (names_with (fi_hash info) rs)));
      [|lia].
    cbn. split; reflexivity.
  - intros Hnil.
    assert (Hlen : List.length (names_with (fi_hash info) rs) <= 1).
    { apply (constant_NoDup_length _ n).
      - unfold names_with. now apply NoDup_map_filter.
      - intros y Hy. pose proof (filter_nil_all _ _ Hnil y Hy) as Hf.
        apply negb_false_iff in Hf. now apply String.eqb_eq in Hf. }
    destruct (Nat.ltb_spec 1 (List.length (names_with (fi_hash info) rs)));
      [lia|reflexivity].
Qed.

Lemma build_image_isDuplicate pid folderPath prior n info t :
  (forall old, In old prior -> hash old = fi_hash info -> isDuplicate old = false) ->
  isDuplicate (build_image pid folderPath (index_by_hash prior) n info t) = false.
Proof.
  intros Hold. unfold build_image.
  destruct (get (fi_hash info) (index_by_hash prior)) as [l|] eqn:G.
  - destruct (find_existing l _ _) as [e|] eqn:F; [|reflexivity].
    apply find_existing_In in F.
    destruct (index_by_hash_sound _ _ _ G e F) as [He Hh].
    cbn. now apply Hold.
  - reflexivity.
Qed.

(** C6 does not hold as documented on a rescan: [c.jpg] was flagged as a
    duplicate of [d.jpg] by an earlier scan; after [d.jpg] is gone, the
    rescan of a folder in which no file shares the bytes of [c.jpg] merges
    the old flag forward and stores [c.jpg] as a duplicate of [d.jpg]. *)
Lemma stale_duplicate_flag :
  option_map (fun r => (isDuplicate r, duplicateOf r))
    (get (generateImageId "22222222222222222222222222222222" "c.jpg")
       (World.images (snd rescan_ABC)))
  = Some (true, Some ["d.jpg"])
  /\ option_map (fun r => (isDuplicate r, duplicateOf r))
       (get (generateImageId "11111111111111111111111111111111" "a.jpg")
          (World.images (snd rescan_ABC)))
     = Some (true, Some ["b.jpg"])
  /\ keys (World.images (snd rescan_ABC))
     = ["11111111_a.jpg"; "11111111_b.jpg"; "22222222_c.jpg"].
Proof. repeat split; vm_compute; reflexivity. Qed.

(** C6: after a scan, the record of a file that was read is
    flagged [isDuplicate] with [duplicateOf] equal to the names of the other
    files read with the same digest, in folder order, whenever there is such
    a file (so for byte-identical [A] and [B], and no third copy,
    [A.duplicateOf = [B]]).  The record of a file whose digest no other
    file shares has [isDuplicate = false] provided no record stored for the
    project before the scan carried that digest with the flag set (as on a
    first scan).  When prior records carry the digest, the merge picks one
    of them (same path, else same name, else the first) and the record of
    such a file gets exactly the flag of the record picked.  The record is
    the one stored under the file's id unless another file read in the same
    scan gets the same id. *)
Theorem scan_marks_duplicates
  (pid jobId : string) (entries : list FileEntry) (w : World.t)
  (project : Project) (file : FileEntry) (info : FileInfo) :
  ProjectService.getProject pid (World.projects w) = Some project ->
  NoDup (map f_name entries) ->
  In file entries -> supported (f_name file) = true -> f_read file = ReadOk info ->
  let files := filter (fun f => supported (f_name f)) entries in
  let siblings :=
    filter (fun f => negb (String.eqb f (f_name file)))
      (names_with (fi_hash info) (readable files)) in
  exists n d imgs w' img,
    scan pid jobId (Entries entries) None w = (Ok jobId n d imgs, w')
    /\ In img imgs
    /\ originalName img = f_name file
    /\ hash img = fi_hash info
    /\ id img = generateImageId (fi_hash info) (f_name file)
    /\ (siblings <> [] -> isDuplicate img = true /\ duplicateOf img = Some siblings)
    /\ (siblings = [] ->
        (forall old, In old (ImageService.getProjectImages pid (World.images w)) ->
                     hash old = fi_hash info -> isDuplicate old = false) ->
        isDuplicate img = false)
    /\ (siblings = [] ->
        forall existing,
          find_existing
            (match get (fi_hash info)
                     (index_by_hash
                        (ImageService.getProjectImages pid (World.images w))) with
             | Some l => l
             | None => []
             end)
            (join (folderPath project) (f_name file)) (f_name file)
          = Some existing ->
          isDuplicate img = isDuplicate existing)
    /\ ((forall other info',
           In other files -> f_read other = ReadOk info' ->
           generateImageId (fi_hash info') (f_name other)
           = generateImageId (fi_hash info) (f_name file) ->
           f_name other = f_name file) ->
        get (id img) (World.images w') = Some img).
Proof.
  intros Hproject Hnd Hin Hsup Hread files siblings.
  destruct (scan_complete pid jobId entries w project Hproject)
    as (built & w' & Hbuilt & Hscan & Himages & _).
  fold files in Hbuilt, Hscan, Himages.
  set (rs := readable files) in *.
  set (ebh := index_by_hash (ImageService.getProjectImages pid (World.images w))) in *.
  set (dups := track_all rs []) in *.
  assert (Hfile : In file files) by (apply filter_In; auto).
  assert (Hrs : In (f_name file, info) rs)
    by (apply readable_In; exists file; auto).
  assert (Hndrs : NoDup (map fst rs))
    by (apply NoDup_readable; now apply NoDup_map_filter).
  destruct (Forall2_In_l _ _ _ _ Hbuilt Hrs) as (b & Hb & t & Hbt).
  cbn [fst snd] in Hbt.
  destruct (build_image_identity pid (folderPath project) ebh (f_name file) info t)
    as (Hname & Hhash & _ & Hpid & _).
  rewrite <- Hbt in Hname, Hhash, Hpid.
  destruct (mark_one_fields dups b) as (Hmh & Hmn & _ & Hmp & _ & _ & Hmk).
  destruct (mark_one_built pid (folderPath project) ebh rs (f_name file) info t
              Hndrs Hrs) as [Hdup Hsingle].
  rewrite <- Hbt in Hdup, Hsingle. fold dups in Hdup, Hsingle.
  fold siblings in Hdup, Hsingle.
  set (img0 := mark_one dups b) in *.
  exists (List.length built), (fst (mark_duplicates dups built)),
    (map (fun img => set_id_project (key_of img) (projectId img) img)
       (map (mark_one dups) built)), w',
    (set_id_project (key_of img0) (projectId img0) img0).
  split; [exact Hscan|].
  split; [apply in_map_iff; exists img0; split;
          [reflexivity|apply in_map; exact Hb]|].
  cbn [originalName hash id isDuplicate duplicateOf set_id_project].
  split; [congruence|]. split; [congruence|].
  split; [rewrite Hmk; unfold key_of; congruence|].
  split; [exact Hdup|]. split; [|split].
  - intros Hnil Hold. rewrite (Hsingle Hnil), Hbt.
    now apply build_image_isDuplicate.
  - intros Hnil existing Hfind. rewrite (Hsingle Hnil), Hbt.
    unfold build_image. cbv zeta. now rewrite Hfind.
  - intros Hunique. rewrite Himages, get_saveImages.
    destruct (find _ (List.rev (map (mark_one dups) built))) as [last|] eqn:F.
    + apply find_some in F. destruct F as [Hlast Hk].
      apply in_rev in Hlast. apply String.eqb_eq in Hk.
      apply in_map_iff in Hlast. destruct Hlast as (b' & Hb' & Hinb').
      destruct (Forall2_In_r _ _ _ _ Hbuilt Hinb') as ([n' info'] & Hrs' & t' & Hbt').
      cbn [fst snd] in Hbt'.
      destruct (build_image_identity pid (folderPath project) ebh n' info' t')
        as (Hname' & Hhash' & _).
      rewrite <- Hbt' in Hname', Hhash'.
      destruct (mark_one_fields dups b') as (_ & _ & _ & _ & _ & _ & Hmk').
      apply readable_In in Hrs'. destruct Hrs' as (other & Hother & Hon & Hor).
      assert (Hnn : n' = f_name file).
      { rewrite <- Hon. apply (Hunique other info'); auto.
        rewrite Hon, <- Hname', <- Hhash', <- Hname, <- Hhash.
        change (key_of b' = key_of b). rewrite <- Hmk', <- Hmk.
        fold img0. rewrite Hb'. exact Hk. }
      assert (Hbb : b' = b).
      { assert (Hmap : map fst rs = map originalName built).
        { revert Hbuilt. apply Forall2_map_eq. intros x y (t0 & ->).
          symmetry. apply build_image_identity. }
        apply (NoDup_map_In_eq originalName built); auto; [|congruence].
        now rewrite <- Hmap. }
      rewrite Hbb in Hb'. rewrite <- Hb'. fold img0. now rewrite Hmp, Hpid.
    + exfalso.
      assert (Hin0 : In img0 (List.rev (map (mark_one dups) built)))
        by (apply in_rev; rewrite rev_involutive; now apply in_map).
      pose proof (find_none _ _ F img0 Hin0) as Hf. cbn in Hf.
      now rewrite String.eqb_refl in Hf.
Qed.

Lemma scan_marks_duplicates_witness :
  exists n d imgs w' img,
    first_scan_ABC = (Ok "job_1" n d imgs, w')
    /\ In img imgs /\ originalName img = "a.jpg"
    /\ isDuplicate img = true /\ duplicateOf img = Some ["b.jpg"].
Proof.
  assert (Hnd : NoDup (map f_name folderABC)).
  { cbn. repeat constructor; cbn; intuition discriminate. }
  destruct (scan_marks_duplicates "p1" "job_1" folderABC world_new project1 fileA
              (mkInfo 10 0 0 "11111111111111111111111111111111" [])
              eq_refl Hnd (or_introl eq_refl) eq_refl eq_refl)
    as (n & d & imgs & w' & img & Hscan & Hin & Hname & _ & _ & Hdup & _).
  exists n, d, imgs, w', img. split; [exact Hscan|]. split; [exact Hin|].
  split; [exact Hname|]. apply Hdup. discriminate.
Defined.

End ScanFacts.

(* ================================================================== *)
(** ** Scan: rescanning an unchanged folder *)
(* ================================================================== *)

Module RescanFacts.
Import JsString JsStringFacts JsPath JsPathFacts JsMap JsMapFacts.
Import Storage StorageFacts JobsFacts ScanPipeline ScanFaultFacts ScanFacts.
Import Invariants Samples.

Lemma Forall2_rev {A B : Type} (R : A -> B -> Prop) l1 l2 :
  Forall2 R l1 l2 -> Forall2 R (List.rev l1) (List.rev l2).
Proof.
  induction 1 as [|a b l1 l2 Hab _ IH]; cbn; [constructor|].
  apply Forall2_app; auto.
Qed.

(** Searching two lists that are related position by position. *)
Lemma Forall2_find {A B : Type} (R : A -> B -> Prop) (p : A -> bool) (q : B -> bool)
  l1 l2 :
  Forall2 R l1 l2 -> (forall x y, R x y -> p x = q y) ->
  match find p l1, find q l2 with
  | Some x, Some y => R x y
  | None, None => True
  | _, _ => False
  end.
Proof.
  intros H Hpq. induction H as [|a b l1 l2 Hab _ IH]; cbn; auto.
  rewrite <- (Hpq _ _ Hab). destruct (p a); auto.
Qed.

Lemma find_map {A B : Type} (g : A -> B) (p : B -> bool) l :
  find p (map g l) = option_map g (find (fun x => p (g x)) l).
Proof.
  induction l as [|x l IH]; cbn; auto. destruct (p (g x)); auto.
Qed.

Lemma get_clear_other pid (m : Storage.images) k r :
  get k (ImageService.clearProjectImages pid m) = Some r -> projectId r <> pid.
Proof.
  intros H. apply get_In in H.
  unfold ImageService.clearProjectImages, Storage.clearProjectImages in H.
  cbn [snd] in H. apply filter_In in H. destruct H as [_ H]. cbn in H.
  apply negb_true_iff in H. intros Heq. now rewrite Heq, String.eqb_refl in H.
Qed.

(** The store a complete scan leaves: a key holds the record built for
    the last file read that has this id; other keys hold what survived
    the clear. *)
Lemma stored_after_scan pid folderPath ebh (rs : list (string * FileInfo))
  built (m : Storage.images) k :
  Forall2 (fun ni img =>
             exists t, img = build_image pid folderPath ebh (fst ni) (snd ni) t)
    rs built ->
  match find (fun ni => String.eqb (file_key ni) k) (List.rev rs) with
  | Some ni =>
      exists t,
        get k (ImageService.saveImages pid (map (mark_one (track_all rs [])) built) m)
        = Some (set_id_project k pid
                  (mark_one (track_all rs [])
                     (build_image pid folderPath ebh (fst ni) (snd ni) t)))
  | None =>
      get k (ImageService.saveImages pid (map (mark_one (track_all rs [])) built) m)
      = get k m
  end.
Proof.
  intros Hbuilt. rewrite get_saveImages, <- map_rev, find_map.
  pose proof (Forall2_find _ (fun ni => String.eqb (file_key ni) k)
                (fun img => String.eqb (key_of (mark_one (track_all rs []) img)) k)
                _ _ (Forall2_rev _ _ _ Hbuilt)) as Hfind.
  cbn beta in Hfind.
  destruct (find _ (List.rev rs)) as [ni|];
    destruct (find _ (List.rev built)) as [b|]; cbn [option_map].
  - destruct Hfind as (t & ->).
    + intros x y (t & ->).
      destruct (mark_one_fields (track_all rs [])
                  (build_image pid folderPath ebh (fst x) (snd x) t))
        as (_ & _ & _ & _ & _ & _ & ->).
      unfold key_of, file_key.
      destruct (build_image_identity pid folderPath ebh (fst x) (snd x) t)
        as (-> & -> & _). reflexivity.
    + now exists t.
  - exfalso. apply Hfind.
    intros x y (t & ->).
    destruct (mark_one_fields (track_all rs [])
                (build_image pid folderPath ebh (fst x) (snd x) t))
      as (_ & _ & _ & _ & _ & _ & ->).
    unfold key_of, file_key.
    destruct (build_image_identity pid folderPath ebh (fst x) (snd x) t)
      as (-> & -> & _). reflexivity.
  - exfalso. apply Hfind.
    intros x y (t & ->).
    destruct (mark_one_fields (track_all rs [])
                (build_image pid folderPath ebh (fst x) (snd x) t))
      as (_ & _ & _ & _ & _ & _ & ->).
    unfold key_of, file_key.
    destruct (build_image_identity pid folderPath ebh (fst x) (snd x) t)
      as (-> & -> & _). reflexivity.
  - reflexivity.
Qed.

Lemma same_identity_keys m m' : same_identity m m' -> keys m = keys m'.
Proof.
  induction 1 as [|[k v] [k' v'] m m' (Hk & _) _ IH]; cbn; [reflexivity|].
  cbn in Hk. unfold keys in IH. now rewrite Hk, IH.
Qed.

Lemma same_identity_get m m' k r' :
  same_identity m m' -> get k m' = Some r' ->
  exists r, get k m = Some r /\ projectId r = projectId r'
            /\ hash r = hash r' /\ path r = path r'.
Proof.
  induction 1 as [|[k0 v] [k0' v'] m m' (Hk & Hp & Hh & Hpa) _ IH]; cbn;
    [discriminate|].
  cbn in Hk, Hp, Hh, Hpa. subst k0'.
  destruct (String.eqb k k0); auto.
  intros H. assert (v' = r') by congruence. subst. now exists v.
Qed.

Lemma same_identity_get_inv m m' k r :
  same_identity m m' -> get k m = Some r ->
  exists r', get k m' = Some r' /\ projectId r = projectId r'
             /\ hash r = hash r' /\ path r = path r'.
Proof.
  induction 1 as [|[k0 v] [k0' v'] m m' (Hk & Hp & Hh & Hpa) _ IH]; cbn;
    [discriminate|].
  cbn in Hk, Hp, Hh, Hpa. subst k0'.
  destruct (String.eqb k k0); auto.
  intros H. assert (v = r) by congruence. subst. now exists v'.
Qed.

Lemma getProjectImages_In pid (m : Storage.images) r :
  In r (ImageService.getProjectImages pid m)
  <-> (exists k, In (k, r) m) /\ projectId r = pid.
Proof.
  unfold ImageService.getProjectImages, Storage.getProjectImages, values.
  rewrite filter_In, in_map_iff. split.
  - intros (([k v] & Hv & Hin) & Hp). cbn in Hv. subst v.
    apply String.eqb_eq in Hp. split; eauto.
  - intros ((k & Hin) & Hp). split.
    + exists (k, r). auto.
    + rewrite Hp. apply String.eqb_refl.
Qed.

Lemma find_file_key_In (rs : list (string * FileInfo)) k ni :
  find (fun ni => String.eqb (file_key ni) k) (List.rev rs) = Some ni ->
  In ni rs /\ file_key ni = k.
Proof.
  intros H. apply find_some in H. destruct H as [Hin Hk].
  apply in_rev in Hin. apply String.eqb_eq in Hk. auto.
Qed.

(** The keys a complete scan leaves for the project are the ids of the
    files read. *)
Lemma project_keys_after_scan pid folderPath ebh (rs : list (string * FileInfo))
  built (m : Storage.images) k :
  Forall2 (fun ni img =>
             exists t, img = build_image pid folderPath ebh (fst ni) (snd ni) t)
    rs built ->
  (exists r,
     get k (ImageService.saveImages pid (map (mark_one (track_all rs [])) built)
              (ImageService.clearProjectImages pid m)) = Some r
     /\ projectId r = pid)
  <-> In k (map file_key rs).
Proof.
  intros Hbuilt.
  pose proof (stored_after_scan pid folderPath ebh rs built
                (ImageService.clearProjectImages pid m) k Hbuilt) as Hst.
  destruct (find _ (List.rev rs)) as [ni|] eqn:F.
  - destruct Hst as (t & Hget). apply find_file_key_In in F.
    destruct F as [Hin Hk]. split.
    + intros _. rewrite <- Hk. now apply in_map.
    + intros _. eexists. split; [exact Hget|reflexivity].
  - split.
    + intros (r & Hget & Hp). rewrite Hst in Hget.
      now apply get_clear_other in Hget.
    + intros Hin. exfalso. apply in_map_iff in Hin.
      destruct Hin as (ni & Hk & Hin). apply in_rev in Hin.
      pose proof (find_none _ _ F ni Hin) as Hf. cbn beta in Hf.
      now rewrite Hk, String.eqb_refl in Hf.
Qed.

Lemma response_ids pid folderPath ebh (rs : list (string * FileInfo)) built :
  Forall2 (fun ni img =>
             exists t, img = build_image pid folderPath ebh (fst ni) (snd ni) t)
    rs built ->
  map id (map (fun img => set_id_project (key_of img) (projectId img) img)
            (map (mark_one (track_all rs [])) built))
  = map file_key rs.
Proof.
  intros Hbuilt. rewrite !map_map. symmetry. revert Hbuilt.
  apply Forall2_map_eq. intros x y (t & ->). cbn [id set_id_project].
  destruct (mark_one_fields (track_all rs [])
              (build_image pid folderPath ebh (fst x) (snd x) t))
    as (_ & _ & _ & _ & _ & _ & ->).
  unfold key_of, file_key.
  destruct (build_image_identity pid folderPath ebh (fst x) (snd x) t)
    as (-> & -> & _). reflexivity.
Qed.

(** The prior record the rescan merges into the record of a file: the one
    stored for that very file. *)
Lemma rescan_finds_own_record pid folderPath ebh1 (rs : list (string * FileInfo))
  built1 (m0 m1' : Storage.images) k r n info :
  NoDup (map fst rs) ->
  (forall n info, In (n, info) rs -> fi_hash info <> "") ->
  Forall2 (fun ni img =>
             exists t, img = build_image pid folderPath ebh1 (fst ni) (snd ni) t)
    rs built1 ->
  NoDup (keys m1') ->
  same_identity
    (ImageService.saveImages pid (map (mark_one (track_all rs [])) built1)
       (ImageService.clearProjectImages pid m0)) m1' ->
  get k m1' = Some r -> projectId r = pid ->
  find (fun ni => String.eqb (file_key ni) k) (List.rev rs) = Some (n, info) ->
  find_existing
    (match get (fi_hash info)
             (index_by_hash (ImageService.getProjectImages pid m1')) with
     | Some l => l
     | None => []
     end) (join folderPath n) n = Some r.
Proof.
  intros Hndrs Hhash Hbuilt Hnd1 Hsame Hget Hpid Hfind.
  set (m1 := ImageService.saveImages pid (map (mark_one (track_all rs [])) built1)
               (ImageService.clearProjectImages pid m0)) in *.
  (* what a record of the project in [m1'] looks like *)
  assert (Hshape : forall k0 r0,
             get k0 m1' = Some r0 -> projectId r0 = pid ->
             exists n0 info0,
               find (fun ni => String.eqb (file_key ni) k0) (List.rev rs)
               = Some (n0, info0)
               /\ hash r0 = fi_hash info0 /\ path r0 = join folderPath n0).
  { intros k0 r0 Hget0 Hpid0.
    destruct (same_identity_get _ _ _ _ Hsame Hget0) as (r1 & Hget1 & Hp1 & Hh1 & Hpa1).
    pose proof (stored_after_scan pid folderPath ebh1 rs built1
                  (ImageService.clearProjectImages pid m0) k0 Hbuilt) as Hst.
    fold m1 in Hst.
    destruct (find (fun ni => String.eqb (file_key ni) k0) (List.rev rs))
      as [[n0 info0]|] eqn:F0.
    - destruct Hst as (t & Hst). rewrite Hst in Hget1.
      exists n0, info0. split; [reflexivity|].
      assert (Hr1 : r1 = set_id_project k0 pid
                          (mark_one (track_all rs [])
                             (build_image pid folderPath ebh1 n0 info0 t)))
        by (cbn [fst snd] in Hget1; congruence).
      destruct (mark_one_fields (track_all rs [])
                  (build_image pid folderPath ebh1 n0 info0 t))
        as (Hmh & _ & Hmp & _).
      destruct (build_image_identity pid folderPath ebh1 n0 info0 t)
        as (_ & Hbh & Hbp & _).
      rewrite <- Hh1, <- Hpa1, Hr1. cbn [hash path set_id_project].
      rewrite Hmh, Hmp, Hbh, Hbp. auto.
    - rewrite Hst in Hget1. apply get_clear_other in Hget1. congruence. }
  destruct (Hshape k r Hget Hpid) as (n0 & info0 & F0 & Hrh & Hrp).
  rewrite Hfind in F0. assert (n0 = n /\ info0 = info) as [-> ->]
    by (split; congruence). clear F0.
  apply find_file_key_In in Hfind. destruct Hfind as [Hin Hk].
  assert (Htruthy : truthy (fi_hash info) = true).
  { pose proof (Hhash _ _ Hin) as Hne. destruct (fi_hash info); [congruence|reflexivity]. }
  assert (Hrin : In r (ImageService.getProjectImages pid m1')).
  { apply getProjectImages_In. split; auto. exists k. now apply get_In. }
  rewrite get_index_by_hash by assumption.
  set (l := filter (fun img => String.eqb (hash img) (fi_hash info))
              (ImageService.getProjectImages pid m1')).
  assert (Hrl : In r l).
  { apply filter_In. split; auto. rewrite Hrh. apply String.eqb_refl. }
  destruct l as [|x l'] eqn:L; [contradiction|]. rewrite <- L in *. clear L x l'.
  unfold find_existing.
  destruct (find (fun img => String.eqb (path img) (join folderPath n)) l)
    as [e|] eqn:F.
  - f_equal. apply find_some in F. destruct F as [Hel Hep].
    apply String.eqb_eq in Hep. apply filter_In in Hel. destruct Hel as [Hel _].
    apply getProjectImages_In in Hel. destruct Hel as ((ke & Hke) & Hpe).
    apply (In_get _ _ _ Hnd1) in Hke.
    destruct (Hshape ke e Hke Hpe) as (ne & infoe & Fe & _ & Hpath).
    rewrite Hep in Hpath. apply join_inj in Hpath. subst ne.
    apply find_file_key_In in Fe. destruct Fe as [Hine Hkey].
    assert (Heq : (n, infoe) = (n, info))
      by (apply (NoDup_map_In_eq fst rs); auto).
    assert (ke = k) by (rewrite <- Hkey, <- Hk, Heq; reflexivity).
    subst ke. congruence.
  - exfalso. pose proof (find_none _ _ F r Hrl) as Hf. cbn beta in Hf.
    now rewrite Hrp, String.eqb_refl in Hf.
Qed.

(** C5: a folder is scanned, the stored records are changed in any way
    that keeps their keys, project, hash and path (as analysis does), and
    the unchanged folder is scanned again.  Both scans report the same
    [imageCount] and the same ids, each id being [generateImageId] of the
    file's digest and name; the project has the same set of record ids after
    the rescan as before it; and every [suggestedName] and every [renamed]
    flag that a record of the project carried before the rescan is carried
    by the record stored under the same id after it. *)
Theorem rescan_idempotent
  (pid jobId1 jobId2 : string) (entries : list FileEntry) (w0 w1' : World.t)
  (project project' : Project) :
  ProjectService.getProject pid (World.projects w0) = Some project ->
  NoDup (keys (World.images w0)) ->
  NoDup (map f_name entries) ->
  (forall file info, In file entries -> f_read file = ReadOk info ->
                     fi_hash info <> "") ->
  let first := scan pid jobId1 (Entries entries) None w0 in
  same_identity (World.images (snd first)) (World.images w1') ->
  ProjectService.getProject pid (World.projects w1') = Some project' ->
  folderPath project' = folderPath project ->
  let second := scan pid jobId2 (Entries entries) None w1' in
  let ids := map file_key
               (readable (filter (fun f => supported (f_name f)) entries)) in
  exists d1 d2 imgs1 imgs2,
    fst first = Ok jobId1 (List.length ids) d1 imgs1
    /\ fst second = Ok jobId2 (List.length ids) d2 imgs2
    /\ map id imgs1 = ids /\ map id imgs2 = ids
    /\ option_map imageCount
         (ProjectService.getProject pid (World.projects (snd first)))
       = Some (List.length ids)
    /\ option_map imageCount
         (ProjectService.getProject pid (World.projects (snd second)))
       = Some (List.length ids)
    /\ (forall k,
          (exists r, get k (World.images (snd second)) = Some r /\ projectId r = pid)
          <-> (exists r, get k (World.images w1') = Some r /\ projectId r = pid))
    /\ (forall k r,
          get k (World.images w1') = Some r -> projectId r = pid ->
          exists r2,
            get k (World.images (snd second)) = Some r2
            /\ projectId r2 = pid
            /\ (forall s, suggestedName r = Some s -> suggestedName r2 = Some s)
            /\ (renamed r = true -> renamed r2 = true)).
Proof.
  intros Hproject0 Hnd0 Hnames Hhash first Hsame Hproject1 Hfolder second ids.
  destruct (scan_complete pid jobId1 entries w0 project Hproject0)
    as (built1 & w1 & Hb1 & Hscan1 & Himg1 & Hcount1 & _).
  destruct (scan_complete pid jobId2 entries w1' project' Hproject1)
    as (built2 & w2 & Hb2 & Hscan2 & Himg2 & Hcount2 & _).
  rewrite Hfolder in Hb2.
  set (rs := readable (filter (fun f => supported (f_name f)) entries)) in *.
  set (fp := folderPath project) in *.
  subst first second. rewrite Hscan1 in *. rewrite Hscan2. cbn [fst snd] in *.
  assert (Hlen1 : List.length built1 = List.length ids)
    by (unfold ids; rewrite length_map; symmetry; eapply Forall2_length; eauto).
  assert (Hlen2 : List.length built2 = List.length ids)
    by (unfold ids; rewrite length_map; symmetry; eapply Forall2_length; eauto).
  rewrite Hlen1 in *. rewrite Hlen2 in *.
  assert (Hndrs : NoDup (map fst rs))
    by (apply NoDup_readable; now apply NoDup_map_filter).
  assert (Hhashrs : forall n info, In (n, info) rs -> fi_hash info <> "").
  { intros n info Hin. apply readable_In in Hin.
    destruct Hin as (file & Hfile & _ & Hread). apply filter_In in Hfile.
    now apply (Hhash file info). }
  assert (Hnd1 : NoDup (keys (World.images w1'))).
  { rewrite <- (same_identity_keys _ _ Hsame), Himg1.
    apply NoDup_keys_saveImages.
    unfold ImageService.clearProjectImages, Storage.clearProjectImages. cbn [snd].
    now apply NoDup_keys_filter. }
  rewrite Himg1 in Hsame.
  do 4 eexists.
  split; [reflexivity|]. split; [reflexivity|].
  split; [eapply response_ids; eauto|]. split; [eapply response_ids; eauto|].
  split; [assumption|]. split; [assumption|].
  assert (Hkeys : forall k,
             (exists r, get k (World.images w1') = Some r /\ projectId r = pid)
             <-> In k ids).
  { intros k. unfold ids.
    rewrite <- (project_keys_after_scan pid fp _ rs built1
                  (World.images w0) k Hb1). split.
    - intros (r & Hget & Hp).
      destruct (same_identity_get _ _ _ _ Hsame Hget) as (r1 & Hget1 & Hp1 & _).
      exists r1. split; congruence.
    - intros (r1 & Hget1 & Hp1).
      destruct (same_identity_get_inv _ _ _ _ Hsame Hget1) as (r & Hget & Hp & _).
      exists r. split; congruence. }
  split.
  - intros k. rewrite Hkeys, Himg2. unfold ids.
    eapply project_keys_after_scan; eauto.
  - intros k r Hget Hp.
    assert (Hin : In k ids) by (apply Hkeys; eauto).
    pose proof (stored_after_scan pid fp _ rs built2
                  (ImageService.clearProjectImages pid (World.images w1')) k Hb2)
      as Hst.
    destruct (find (fun ni => String.eqb (file_key ni) k) (List.rev rs))
      as [[n info]|] eqn:F.
    + destruct Hst as (t & Hst). cbn [fst snd] in Hst.
      rewrite Himg2, Hst. eexists. split; [reflexivity|].
      pose proof (rescan_finds_own_record pid fp _ rs built1 (World.images w0)
                    (World.images w1') k r n info Hndrs Hhashrs Hb1 Hnd1 Hsame
                    Hget Hp F) as Hown.
      cbn [projectId suggestedName renamed set_id_project].
      destruct (mark_one_fields (track_all rs [])
                  (build_image pid fp
                     (index_by_hash
                        (ImageService.getProjectImages pid (World.images w1')))
                     n info t))
        as (_ & _ & _ & _ & Hs & Hr & _).
      rewrite Hs, Hr. unfold build_image. rewrite Hown.
      cbn [suggestedName renamed merge_forward].
      split; [reflexivity|]. split; [|auto].
      intros s Hsome. now rewrite Hsome.
    + exfalso. unfold ids in Hin. apply in_map_iff in Hin.
      destruct Hin as (ni & Hk & Hin). apply in_rev in Hin.
      pose proof (find_none _ _ F ni Hin) as Hf. cbn beta in Hf.
      now rewrite Hk, String.eqb_refl in Hf.
Qed.

Lemma rescan_idempotent_witness :
  option_map suggestedName (get "11111111_a.jpg" (World.images analyzed_ABC))
  = Some (Some "beach")
  /\ exists r2,
       get "11111111_a.jpg" (World.images (snd rescan_analyzed_ABC)) = Some r2
       /\ suggestedName r2 = Some "beach".
Proof.
  split; [vm_compute; reflexivity|].
  assert (Hnames : NoDup (map f_name folderABC)).
  { cbn. repeat constructor; cbn; intuition discriminate. }
  assert (Hhash : forall file info, In file folderABC -> f_read file = ReadOk info ->
                                    fi_hash info <> "").
  { intros file info [<-|[<-|[<-|[]]]] Hread; inversion Hread; discriminate. }
  assert (Hsame : same_identity (World.images (snd first_scan_ABC))
                    (World.images analyzed_ABC)).
  { vm_compute. repeat constructor. }
  assert (Hp0 : ProjectService.getProject "p1" (World.projects world_new)
                = Some project1) by (vm_compute; reflexivity).
  assert (Hp1 : ProjectService.getProject "p1" (World.projects analyzed_ABC)
                = Some project_after_scan) by (vm_compute; reflexivity).
  assert (Hf : folderPath project_after_scan = folderPath project1)
    by (vm_compute; reflexivity).
  destruct (rescan_idempotent "p1" "job_1" "job_2" folderABC world_new analyzed_ABC
              project1 project_after_scan Hp0 (NoDup_nil _) Hnames Hhash
              Hsame Hp1 Hf)
    as (_ & _ & _ & _ & _ & _ & _ & _ & _ & _ & _ & Hkeep).
  set (r := set_suggestedName (Some "beach")
              (set_id_project "11111111_a.jpg" "p1"
                 (set_duplicate true (Some ["b.jpg"])
                    (ScanPipeline.fresh "p1" "/pics/a.jpg" "a.jpg" ".jpg"
                       (mkInfo 10 0 0 "11111111111111111111111111111111" []) 3)))).
  assert (Hr : get "11111111_a.jpg" (World.images analyzed_ABC) = Some r)
    by (vm_compute; reflexivity).
  assert (Hpid : projectId r = "p1") by (vm_compute; reflexivity).
  destruct (Hkeep "11111111_a.jpg" r Hr Hpid) as (r2 & Hget & _ & Hs & _).
  exists r2. split; [exact Hget|]. apply Hs. vm_compute. reflexivity.
Defined.

End RescanFacts.

(* ================================================================== *)
(** ** Scan: the records are cleared first and persisted last *)
(* ================================================================== *)

Module ScanStoreFacts.
Import JsString JsMap JsMapFacts Storage StorageFacts ScanPipeline ScanFacts
  ScanFaultFacts Invariants Samples.

Lemma In_set {V : Type} k (v : V) m k' v' :
  In (k', v') (set k v m) -> (k' = k /\ v' = v) \/ In (k', v') m.
Proof.
  induction m as [|[k0 v0] m IH]; cbn [set].
  - intros [H|[]]. inversion H. auto.
  - destruct (String.eqb k k0) eqn:E.
    + apply String.eqb_eq in E. subst k0.
      intros [H|H]; [inversion H; auto|right; now right].
    + intros [H|H]; [right; now left|].
      destruct (IH H) as [H'|H']; [auto|right; now right].
Qed.

(** An entry of the store after [saveImages] was there before or was
    written for a record of the batch. *)
Lemma saveImages_In pid imgs : forall (m : Storage.images) k r,
  In (k, r) (ImageService.saveImages pid imgs m) ->
  In (k, r) m
  \/ exists src, In src imgs /\ k = key_of src /\ r = set_id_project k pid src.
Proof.
  unfold ImageService.saveImages.
  induction imgs as [|x imgs IH]; intros m k r H; cbn [fold_left] in H; auto.
  apply IH in H. destruct H as [H|(src & Hs & Hk & Hr)].
  - apply In_set in H. destruct H as [[Hk Hr]|H]; auto.
    right. exists x. split; [now left|]. split; [exact Hk|].
    rewrite Hr, Hk. reflexivity.
  - right. exists src. split; [now right|]. auto.
Qed.

(** C10: the scan clears the project's records before the file loop and
    saves the rebuilt records only after it.  When an exception escapes
    between the two (before any item, between two items, or right after the
    last), the handler answers 500, the job is completed as failed, and the
    project has no stored record left, whatever it had before.  A run that
    no exception interrupts answers with one rebuilt record per file read
    and has persisted them: the id of every rebuilt record holds the last
    rebuilt record with that id (the record itself when no other has its
    id), and the project has no stored record besides the rebuilt ones. *)
Theorem scan_clears_then_persists
  (pid newJobId : string) (entries : list FileEntry) (w : World.t)
  (project : Project) :
  ProjectService.getProject pid (World.projects w) = Some project ->
  let files := filter (fun f => supported (f_name f)) entries in
  (forall fault, at_item fault <= List.length files ->
     let run := scan pid newJobId (Entries entries) (Some fault) w in
     fst run = Error 500 (fault_message fault)
     /\ ImageService.getProjectImages pid (World.images (snd run)) = []
     /\ option_map Jobs.status (Jobs.getJob newJobId (World.jobs (snd run)))
        = Some Jobs.failed)
  /\ exists n d imgs w',
       scan pid newJobId (Entries entries) None w = (Ok newJobId n d imgs, w')
       /\ n = List.length imgs
       /\ List.length imgs = List.length (readable files)
       /\ (forall img, In img imgs ->
             exists last, In last imgs /\ id last = id img
                          /\ get (id img) (World.images w') = Some last)
       /\ (forall img, In img imgs ->
             (forall other, In other imgs -> id other = id img -> other = img) ->
             get (id img) (World.images w') = Some img)
       /\ (forall r, In r (ImageService.getProjectImages pid (World.images w')) ->
                     In r imgs).
Proof.
  intros Hproject files. split.
  - intros fault Hk. now apply failed_scan_leaves_no_records with (project := project).
  - destruct (scan_complete pid newJobId entries w project Hproject)
      as (built & w' & Hbuilt & Hscan & Himages & _).
    fold files in Hbuilt, Hscan, Himages.
    set (dups := track_all (readable files) []) in *.
    set (ebh := index_by_hash (ImageService.getProjectImages pid (World.images w))) in *.
    set (marked := map (mark_one dups) built) in *.
    set (stamp := fun img : ImageData => set_id_project (key_of img) (projectId img) img) in *.
    assert (Hpid : forall src, In src marked -> projectId src = pid).
    { intros src Hsrc. apply in_map_iff in Hsrc. destruct Hsrc as (b & <- & Hb).
      destruct (mark_one_fields dups b) as (_ & _ & _ & -> & _).
      destruct (Forall2_In_r _ _ _ _ Hbuilt Hb) as (ni & _ & t & ->).
      apply build_image_identity. }
    assert (Hlast : forall img, In img (map stamp marked) ->
              exists last, In last (map stamp marked) /\ id last = id img
                           /\ get (id img) (World.images w') = Some last).
    { intros img Himg. apply in_map_iff in Himg. destruct Himg as (b & <- & Hb).
      cbn [stamp id set_id_project]. rewrite Himages, get_saveImages.
      destruct (find _ (List.rev marked)) as [src|] eqn:F.
      - apply find_some in F. destruct F as [Hsrc Hk].
        apply in_rev in Hsrc. apply String.eqb_eq in Hk.
        exists (stamp src). split; [now apply in_map|]. split; [exact Hk|].
        unfold stamp. now rewrite Hk, (Hpid src Hsrc).
      - apply in_rev in Hb. pose proof (find_none _ _ F b Hb) as Hf.
        cbn beta in Hf. now rewrite String.eqb_refl in Hf. }
    exists (List.length built), (fst (mark_duplicates dups built)),
      (map stamp marked), w'.
    split; [exact Hscan|]. split; [unfold marked; now rewrite !length_map|].
    split; [unfold marked; rewrite !length_map; symmetry;
            eapply Forall2_length; exact Hbuilt|].
    split; [exact Hlast|]. split.
    + intros img Himg Hunique.
      destruct (Hlast img Himg) as (last & Hin & Hid & Hget).
      rewrite (Hunique last Hin Hid) in Hget. exact Hget.
    + intros r Hr.
      unfold ImageService.getProjectImages, getProjectImages, values in Hr.
      apply filter_In in Hr. destruct Hr as [Hr Hp]. apply String.eqb_eq in Hp.
      apply in_map_iff in Hr. destruct Hr as ([k r'] & E & Hin). cbn in E. subst r'.
      rewrite Himages in Hin. apply saveImages_In in Hin.
      destruct Hin as [Hin|(src & Hsrc & -> & ->)].
      * exfalso. unfold ImageService.clearProjectImages, clearProjectImages in Hin.
        cbn [snd] in Hin. apply filter_In in Hin. destruct Hin as [_ Hn].
        cbn [snd] in Hn. now rewrite Hp, String.eqb_refl in Hn.
      * apply in_map_iff. exists src. split; [|exact Hsrc].
        unfold stamp. now rewrite (Hpid src Hsrc).
Qed.

Lemma scan_clears_then_persists_witness :
  ImageService.getProjectImages "p1" (World.images world3) = [img1; img2; img3]
  /\ fst interrupted_scan = Error 500 "connection reset"
  /\ ImageService.getProjectImages "p1" (World.images (snd interrupted_scan)) = []
  /\ option_map Jobs.status (Jobs.getJob "job_3" (World.jobs (snd interrupted_scan)))
     = Some Jobs.failed
  /\ exists n d imgs w',
       scan "p1" "job_3" (Entries folder3) None world3 = (Ok "job_3" n d imgs, w')
       /\ n = List.length imgs
       /\ (forall img, In img imgs ->
             exists last, In last imgs /\ id last = id img
                          /\ get (id img) (World.images w') = Some last)
       /\ (forall r, In r (ImageService.getProjectImages "p1" (World.images w')) ->
                     In r imgs).
Proof.
  destruct (scan_clears_then_persists "p1" "job_3" folder3 world3 project1 eq_refl)
    as [Hfault Hcomplete].
  split; [reflexivity|].
  destruct (Hfault (mkFault 1 "connection reset") (le_S _ _ (le_S _ _ (le_n 1))))
    as (H1 & H2 & H3).
  split; [exact H1|]. split; [exact H2|]. split; [exact H3|].
  destruct Hcomplete as (n & d & imgs & w' & Hscan & Hn & _ & Hlast & _ & Hall).
  exists n, d, imgs, w'. auto.
Defined.

End ScanStoreFacts.

(* ================================================================== *)
(** ** Numbers: rounding to binary64 is monotone *)
(* ================================================================== *)

Module JsNumberFacts.
Import JsNumber.
Local Open Scope Q_scope.

Lemma pow2_pos e : 0 < pow2 e.
Proof. apply Qpower_0_lt. reflexivity. Qed.

Lemma pow2_plus a b : pow2 (a + b) == pow2 a * pow2 b.
Proof. apply Qpower_plus. discriminate. Qed.

Lemma pow2_le a b : (a <= b)%Z -> pow2 a <= pow2 b.
Proof. intros H. apply Qpower_le_compat_l; [assumption|discriminate]. Qed.

Lemma pow2_lt_inv a b : pow2 a < pow2 b -> (a < b)%Z.
Proof. intros H. apply (Qpower_lt_compat_l_inv 2); [assumption|reflexivity]. Qed.

Lemma pow2_succ a : pow2 (a + 1) == 2 * pow2 a.
Proof. rewrite pow2_plus. change (pow2 1) with 2. ring. Qed.

Lemma pow2_inject a : (0 <= a)%Z -> inject_Z (2 ^ a) == pow2 a.
Proof. intros H. unfold pow2. now rewrite Zpower_Qpower. Qed.

(** An integer lies between two consecutive powers of two. *)
Lemma log2_bounds n :
  (0 < n)%Z ->
  pow2 (Z.log2 n) <= inject_Z n /\ inject_Z n < 2 * pow2 (Z.log2 n).
Proof.
  intros Hn. destruct (Z.log2_spec n Hn) as [Hlo Hhi].
  pose proof (Z.log2_nonneg n) as Hnn.
  rewrite <- pow2_succ, <- !pow2_inject by lia.
  rewrite <- Zle_Qle, <- Zlt_Qlt. replace (Z.log2 n + 1)%Z with (Z.succ (Z.log2 n)) by lia.
  auto.
Qed.

(** [ilog2 x] is the exponent of the binade of [x]. *)
Lemma ilog2_spec x :
  0 < x -> pow2 (ilog2 x) <= x /\ x < 2 * pow2 (ilog2 x).
Proof.
  intros Hx. unfold ilog2.
  destruct x as [n d]. cbn [Qnum Qden].
  assert (Hn : (0 < n)%Z).
  { unfold Qlt in Hx. cbn in Hx. lia. }
  destruct (log2_bounds n Hn) as [Hn1 Hn2].
  destruct (log2_bounds (Zpos d) eq_refl) as [Hd1 Hd2].
  set (a := Z.log2 n) in *. set (b := Z.log2 (Zpos d)) in *.
  assert (Hx' : n # d == inject_Z n / inject_Z (Zpos d)) by apply Qmake_Qdiv.
  assert (HA : 0 < pow2 a) by apply pow2_pos.
  assert (HB : 0 < pow2 b) by apply pow2_pos.
  assert (HD : 0 < inject_Z (Zpos d)) by reflexivity.
  assert (Hab : pow2 (a - b) * pow2 b == pow2 a).
  { rewrite <- pow2_plus. now replace (a - b + b)%Z with a by lia. }
  assert (Hab1 : pow2 (a - b - 1) * (2 * pow2 b) == pow2 a).
  { rewrite <- Hab. replace (a - b)%Z with ((a - b - 1) + 1)%Z at 2 by lia.
    rewrite pow2_succ. ring. }
  assert (HE : 0 < pow2 (a - b)) by apply pow2_pos.
  assert (HE1 : 0 < pow2 (a - b - 1)) by apply pow2_pos.
  set (N := inject_Z n) in *. set (D := inject_Z (Zpos d)) in *.
  set (A := pow2 a) in *. set (B := pow2 b) in *.
  set (E := pow2 (a - b)) in *. set (E1 := pow2 (a - b - 1)) in *.
  assert (Hmul : (n # d) * D == N).
  { rewrite Hx'. field. intros H0. rewrite H0 in HD. discriminate. }
  destruct (Qle_bool E (n # d)) eqn:Hb.
  - apply Qle_bool_iff in Hb. split; [assumption|].
    fold E.
    apply (Qmult_lt_r _ _ D HD). rewrite Hmul.
    (* N < 2A = 2 E B <= 2 E D *)
    apply (Qlt_le_trans _ (2 * A)); [assumption|].
    rewrite <- Hab. nra.
  - assert (Hlt : (n # d) < E).
    { apply Qnot_le_lt. intros H. apply Qle_bool_iff in H. congruence. }
    fold E1. split.
    + apply (Qmult_le_r _ _ D HD). rewrite Hmul.
      (* E1 * D <= E1 * 2B = A <= N *)
      apply (Qle_trans _ A); [|assumption].
      rewrite <- Hab1. nra.
    + assert (HEE : E == 2 * E1).
      { unfold E, E1. replace (a - b)%Z with ((a - b - 1) + 1)%Z at 1 by lia.
        apply pow2_succ. }
      now rewrite <- HEE.
Qed.

Lemma ilog2_mono x y : 0 < x -> x <= y -> (ilog2 x <= ilog2 y)%Z.
Proof.
  intros Hx Hxy.
  destruct (ilog2_spec x Hx) as [Hx1 _].
  destruct (ilog2_spec y (Qlt_le_trans _ _ _ Hx Hxy)) as [_ Hy2].
  rewrite <- pow2_succ in Hy2.
  assert (H : pow2 (ilog2 x) < pow2 (ilog2 y + 1)).
  { apply (Qle_lt_trans _ x); [assumption|].
    now apply (Qle_lt_trans _ y). }
  apply pow2_lt_inv in H. lia.
Qed.

Lemma rne_bounds x :
  (Qfloor x <= rne x <= Qfloor x + 1)%Z.
Proof.
  unfold rne. destruct (Qcompare _ _); [destruct (Z.even _)| |]; lia.
Qed.

Lemma rne_ge_int x k : inject_Z k <= x -> (k <= rne x)%Z.
Proof.
  intros H. apply Qfloor_resp_le in H. rewrite Qfloor_Z in H.
  pose proof (rne_bounds x). lia.
Qed.

Lemma rne_le_int x k : x <= inject_Z k -> (rne x <= k)%Z.
Proof.
  intros H. pose proof (Qfloor_resp_le _ _ H) as Hf. rewrite Qfloor_Z in Hf.
  destruct (Z.eq_dec (Qfloor x) k) as [E|E].
  - unfold rne. rewrite E.
    pose proof (Qlt_floor x) as Hlt. rewrite E in Hlt.
    rewrite inject_Z_plus in Hlt.
    destruct (Qcompare (x - inject_Z k) (1 # 2)) eqn:C; [| lia |].
    + apply Qeq_alt in C. lra.
    + apply Qgt_alt in C. lra.
  - pose proof (rne_bounds x). lia.
Qed.

Lemma rne_mono x y : x <= y -> (rne x <= rne y)%Z.
Proof.
  intros H. pose proof (Qfloor_resp_le _ _ H) as Hf.
  pose proof (rne_bounds x) as Hx. pose proof (rne_bounds y) as Hy.
  destruct (Z.eq_dec (Qfloor x) (Qfloor y)) as [E|E]; [|lia].
  unfold rne in *. rewrite <- E in *.
  set (f := Qfloor x) in *.
  destruct (Qcompare (x - inject_Z f) (1 # 2)) eqn:Cx;
    destruct (Qcompare (y - inject_Z f) (1 # 2)) eqn:Cy;
    try (destruct (Z.even f)); try lia;
    repeat match goal with
           | C : Qcompare _ _ = Eq |- _ => apply Qeq_alt in C
           | C : Qcompare _ _ = Lt |- _ => apply Qlt_alt in C
           | C : Qcompare _ _ = Gt |- _ => apply Qgt_alt in C
           end; lra.
Qed.

Lemma ulp_exp_mono x y : 0 < x -> x <= y -> (ulp_exp x <= ulp_exp y)%Z.
Proof.
  intros Hx Hxy. unfold ulp_exp. pose proof (ilog2_mono x y Hx Hxy). lia.
Qed.

Lemma scale_le x y e : x <= y -> x / pow2 e <= y / pow2 e.
Proof.
  intros H. pose proof (pow2_pos e) as He.
  unfold Qdiv. apply Qmult_le_compat_r; [assumption|].
  apply Qinv_le_0_compat. lra.
Qed.

(** The result of rounding stays in the binade of its argument. *)
Lemma round_pos_upper x :
  0 < x -> round_pos x <= pow2 (ulp_exp x + 53).
Proof.
  intros Hx. unfold round_pos. set (e := ulp_exp x).
  pose proof (pow2_pos e) as He.
  destruct (ilog2_spec x Hx) as [_ Hhi]. rewrite <- pow2_succ in Hhi.
  assert (Hle : pow2 (ilog2 x + 1) <= pow2 (e + 53))
    by (apply pow2_le; unfold e, ulp_exp; lia).
  assert (Hq : x / pow2 e <= inject_Z (2 ^ 53)).
  { apply Qle_shift_div_r; [assumption|].
    rewrite pow2_inject by lia. rewrite Qmult_comm, <- pow2_plus. lra. }
  apply rne_le_int in Hq. rewrite Zle_Qle in Hq.
  rewrite pow2_inject in Hq by lia.
  rewrite Z.add_comm, pow2_plus.
  apply Qmult_le_compat_r; [exact Hq|lra].
Qed.

Lemma round_pos_lower x :
  0 < x -> (-1074 < ilog2 x - 52)%Z -> pow2 (ulp_exp x + 52) <= round_pos x.
Proof.
  intros Hx Hnormal. unfold round_pos. set (e := ulp_exp x).
  pose proof (pow2_pos e) as He.
  assert (Ee : e = (ilog2 x - 52)%Z) by (unfold e, ulp_exp; lia).
  destruct (ilog2_spec x Hx) as [Hlo _].
  assert (Hq : inject_Z (2 ^ 52) <= x / pow2 e).
  { apply Qle_shift_div_l; [assumption|].
    rewrite pow2_inject by lia. rewrite <- pow2_plus.
    replace (52 + e)%Z with (ilog2 x) by lia. exact Hlo. }
  apply rne_ge_int in Hq. rewrite Zle_Qle in Hq.
  rewrite pow2_inject in Hq by lia.
  rewrite Z.add_comm, pow2_plus.
  apply Qmult_le_compat_r; [exact Hq|lra].
Qed.

Lemma round_pos_mono x y : 0 < x -> x <= y -> round_pos x <= round_pos y.
Proof.
  intros Hx Hxy. assert (Hy : 0 < y) by lra.
  pose proof (ulp_exp_mono x y Hx Hxy) as He.
  destruct (Z.eq_dec (ulp_exp x) (ulp_exp y)) as [E|E].
  - unfold round_pos. rewrite <- E. set (e := ulp_exp x).
    pose proof (pow2_pos e). apply Qmult_le_compat_r; [|lra].
    rewrite <- Zle_Qle. apply rne_mono. now apply scale_le.
  - apply (Qle_trans _ (pow2 (ulp_exp x + 53))); [now apply round_pos_upper|].
    apply (Qle_trans _ (pow2 (ulp_exp y + 52))).
    + apply pow2_le. lia.
    + apply round_pos_lower; [assumption|]. unfold ulp_exp in *. lia.
Qed.

Lemma round_pos_nonneg x : 0 < x -> 0 <= round_pos x.
Proof.
  intros Hx. unfold round_pos. pose proof (pow2_pos (ulp_exp x)) as He.
  apply Qmult_le_0_compat; [|lra].
  change 0 with (inject_Z 0). rewrite <- Zle_Qle. apply rne_ge_int.
  apply Qle_shift_div_l; [assumption|].
  change (inject_Z 0) with 0. rewrite Qmult_0_l. lra.
Qed.

Lemma round_fin_pos x : 0 < x -> round_fin x = round_pos x.
Proof. intros Hx. unfold round_fin. apply Qgt_alt in Hx. now rewrite Hx. Qed.

Lemma round_fin_zero x : x == 0 -> round_fin x = 0.
Proof. intros Hx. unfold round_fin. apply Qeq_alt in Hx. now rewrite Hx. Qed.

(** Rounding is monotone on the non-negative numbers. *)
Lemma round_fin_mono x y : 0 <= x -> x <= y -> round_fin x <= round_fin y.
Proof.
  intros Hx Hxy.
  destruct (Qlt_le_dec 0 x) as [Hpos|Hzero].
  - rewrite !round_fin_pos by lra. now apply round_pos_mono.
  - rewrite (round_fin_zero x) by lra.
    destruct (Qlt_le_dec 0 y) as [Hy|Hy].
    + rewrite round_fin_pos by assumption. now apply round_pos_nonneg.
    + rewrite (round_fin_zero y) by lra. lra.
Qed.

Lemma round_fin_nonneg x : 0 <= x -> 0 <= round_fin x.
Proof.
  intros Hx. rewrite <- (round_fin_zero 0) at 1 by reflexivity.
  now apply round_fin_mono.
Qed.

(** No overflow below [2^1024]. *)
Lemma fl_finite x :
  0 <= x -> round_fin x < pow2 1024 -> fl x = Fin (Qred (round_fin x)).
Proof.
  intros Hx Hlt. unfold fl.
  destruct (Qle_bool (pow2 1024) (Qabs (round_fin x))) eqn:E; [|reflexivity].
  apply Qle_bool_iff in E. rewrite Qabs_pos in E by now apply round_fin_nonneg.
  exfalso. apply (Qlt_not_le _ _ Hlt E).
Qed.

Lemma round_fin_1 : round_fin 1 == 1.
Proof. vm_compute. reflexivity. Qed.

Lemma round_fin_100 : round_fin 100 == 100.
Proof. vm_compute. reflexivity. Qed.

Lemma round_fin_2_53 : round_fin (inject_Z (2 ^ 53)) == inject_Z (2 ^ 53).
Proof. vm_compute. reflexivity. Qed.

Lemma small_below_overflow : inject_Z (2 ^ 53) < pow2 1024.
Proof. vm_compute. reflexivity. Qed.

Lemma Qred_le a b : a <= b -> Qred a <= Qred b.
Proof. intros H. now rewrite !Qred_correct. Qed.

Lemma round_fin_le_1 q : 0 <= q -> q <= 1 -> round_fin q <= 1.
Proof.
  intros H0 H1. pose proof (round_fin_mono q 1 H0 H1) as H.
  now rewrite round_fin_1 in H.
Qed.

Lemma round_fin_le_100 q : 0 <= q -> q <= 100 -> round_fin q <= 100.
Proof.
  intros H0 H1. pose proof (round_fin_mono q 100 H0 H1) as H.
  now rewrite round_fin_100 in H.
Qed.

End JsNumberFacts.

(* ================================================================== *)
(** ** Progress of a job *)
(* ================================================================== *)

Module ProgressFacts.
Import JsNumber JsNumberFacts Jobs JobsFacts Samples Invariants.
Local Open Scope Q_scope.

Lemma nat_value_bounds n :
  (Z.of_nat n <= 2 ^ 53)%Z ->
  0 <= nat_value n <= inject_Z (2 ^ 53)
  /\ of_nat n = Fin (nat_value n).
Proof.
  intros Hn. unfold nat_value, of_nat, of_Z.
  assert (H0 : 0 <= inject_Z (Z.of_nat n))
    by (change 0 with (inject_Z 0); rewrite <- Zle_Qle; lia).
  assert (Hle : inject_Z (Z.of_nat n) <= inject_Z (2 ^ 53))
    by now rewrite <- Zle_Qle.
  pose proof (round_fin_mono _ _ H0 Hle) as Hr. rewrite round_fin_2_53 in Hr.
  pose proof (round_fin_nonneg _ H0) as Hr0.
  split; [split; rewrite Qred_correct; assumption|].
  apply fl_finite; [assumption|].
  apply (Qle_lt_trans _ _ _ Hr). apply small_below_overflow.
Qed.

Lemma nat_value_mono n m :
  (n <= m)%nat -> nat_value n <= nat_value m.
Proof.
  intros H. unfold nat_value. rewrite !Qred_correct.
  apply round_fin_mono.
  - change 0 with (inject_Z 0). rewrite <- Zle_Qle. lia.
  - rewrite <- Zle_Qle. lia.
Qed.

Lemma nat_value_pos n : (0 < n)%nat -> 1 <= nat_value n.
Proof.
  intros H. unfold nat_value. rewrite Qred_correct, <- round_fin_1.
  apply round_fin_mono; [lra|].
  change 1 with (inject_Z 1). rewrite <- Zle_Qle. lia.
Qed.

(** The ratio after rounding, and the percentage after rounding. *)
Lemma ratio_bounds p t :
  (0 < t)%nat -> (p <= t)%nat -> (Z.of_nat t <= 2 ^ 53)%Z ->
  0 <= nat_value p / nat_value t <= 1.
Proof.
  intros Ht Hpt Hbig.
  pose proof (nat_value_pos t Ht) as HT.
  assert (Hp : (Z.of_nat p <= 2 ^ 53)%Z) by lia.
  destruct (nat_value_bounds p Hp) as [[HP _] _].
  pose proof (nat_value_mono p t Hpt) as Hle.
  split.
  - apply Qle_shift_div_l; lra.
  - apply Qle_shift_div_r; lra.
Qed.

Lemma scaled_bounds q :
  0 <= q <= 1 ->
  0 <= Qred (round_fin q) * 100 <= 100.
Proof.
  intros [H0 H1]. rewrite Qred_correct.
  pose proof (round_fin_nonneg q H0) as Hr0.
  pose proof (round_fin_le_1 q H0 H1) as Hr1.
  lra.
Qed.

Lemma progress_of_percent p t :
  (0 < t)%nat -> (p <= t)%nat -> (Z.of_nat t <= 2 ^ 53)%Z ->
  progress_of p t = int (percent p t).
Proof.
  intros Ht Hpt Hbig. unfold progress_of, percent.
  assert (Hp : (Z.of_nat p <= 2 ^ 53)%Z) by lia.
  destruct (nat_value_bounds p Hp) as [_ ->].
  destruct (nat_value_bounds t Hbig) as [_ ->].
  change (of_nat 100) with (Fin 100).
  pose proof (nat_value_pos t Ht) as HT.
  pose proof (ratio_bounds p t Ht Hpt Hbig) as [Hq0 Hq1].
  unfold div.
  destruct (Qeq_bool (nat_value t) 0) eqn:E.
  { apply Qeq_bool_iff in E. lra. }
  rewrite fl_finite.
  2: assumption.
  2: { apply (Qle_lt_trans _ 1); [|reflexivity].
       now apply round_fin_le_1. }
  unfold mul.
  pose proof (scaled_bounds _ (conj Hq0 Hq1)) as [Hs0 Hs1].
  rewrite fl_finite.
  2: assumption.
  2: { apply (Qle_lt_trans _ 100); [|reflexivity].
       now apply round_fin_le_100. }
  reflexivity.
Qed.

Lemma percent_bounds p t :
  (0 < t)%nat -> (p <= t)%nat -> (Z.of_nat t <= 2 ^ 53)%Z ->
  (0 <= percent p t <= 100)%Z.
Proof.
  intros Ht Hpt Hbig. unfold percent.
  pose proof (ratio_bounds p t Ht Hpt Hbig) as Hq.
  pose proof (scaled_bounds _ Hq) as [Hs0 Hs1].
  set (s := Qred (round_fin (nat_value p / nat_value t)) * 100) in *.
  pose proof (round_fin_nonneg s Hs0) as Hr0.
  pose proof (round_fin_le_100 s Hs0 Hs1) as Hr1.
  split.
  - change 0%Z with (Qfloor 0). apply Qfloor_resp_le. rewrite Qred_correct. lra.
  - change 100%Z with (Qfloor (100 + (1 # 2))). apply Qfloor_resp_le.
    rewrite Qred_correct. lra.
Qed.

Lemma percent_mono p p' t :
  (0 < t)%nat -> (p <= p')%nat -> (p' <= t)%nat -> (Z.of_nat t <= 2 ^ 53)%Z ->
  (percent p t <= percent p' t)%Z.
Proof.
  intros Ht Hpp Hpt Hbig. unfold percent.
  assert (Hp : (p <= t)%nat) by lia.
  pose proof (ratio_bounds p t Ht Hp Hbig) as Hq.
  pose proof (ratio_bounds p' t Ht Hpt Hbig) as Hq'.
  pose proof (nat_value_pos t Ht) as HT.
  pose proof (nat_value_mono p p' Hpp) as Hle.
  assert (Hqq : nat_value p / nat_value t <= nat_value p' / nat_value t).
  { unfold Qdiv. apply Qmult_le_compat_r; [assumption|].
    apply Qinv_le_0_compat. lra. }
  pose proof (round_fin_mono _ _ (proj1 Hq) Hqq) as Hr.
  pose proof (scaled_bounds _ Hq) as [Hs0 _].
  apply Qfloor_resp_le, Qplus_le_l, Qred_le.
  apply round_fin_mono; [assumption|].
  apply Qmult_le_compat_r; [|lra]. now apply Qred_le.
Qed.

Lemma leb_int a b : leb (int a) (int b) = true <-> (a <= b)%Z.
Proof.
  unfold leb, int. rewrite Qle_bool_iff, <- Zle_Qle. reflexivity.
Qed.

Lemma ascending_progress t ps :
  (0 < t)%nat -> (Z.of_nat t <= 2 ^ 53)%Z ->
  Forall (fun p => (p <= t)%nat) ps ->
  ascending Nat.leb ps = true ->
  ascending leb (map (fun p => int (percent p t)) ps) = true.
Proof.
  intros Ht Hbig. induction ps as [|p [|p' ps] IH]; intros Hall Hasc;
    [reflexivity|reflexivity|].
  cbn [ascending] in Hasc. apply andb_prop in Hasc as [Hpp Hasc].
  apply Nat.leb_le in Hpp.
  change (leb (int (percent p t)) (int (percent p' t))
          && ascending leb (map (fun p => int (percent p t)) (p' :: ps)) = true).
  inversion Hall as [|? ? Hp Hall']; subst.
  inversion Hall' as [|? ? Hp' _]; subst.
  apply andb_true_intro. split.
  - apply leb_int. now apply percent_mono.
  - now apply IH.
Qed.

Lemma update_trace_cons now jobId u rest jobs job :
  getJob jobId jobs = Some job ->
  update_trace now jobId (u :: rest) jobs
  = updated now u job
    :: update_trace (S now) jobId rest (JsMap.set jobId (updated now u job) jobs)
  /\ getJob jobId (JsMap.set jobId (updated now u job) jobs)
     = Some (updated now u job).
Proof.
  intros Hjob. unfold getJob in *. cbn [update_trace]. unfold updateJobProgress.
  rewrite Hjob. split; [reflexivity|]. apply JsMapFacts.get_set_same.
Qed.

Lemma update_trace_progress now jobId jobs job updates ps :
  getJob jobId jobs = Some job ->
  map u_processedItems updates = map Some ps ->
  let trace := update_trace now jobId updates jobs in
  map processedItems trace = ps
  /\ map progress trace = map (fun p => progress_of p (totalItems job)) ps
  /\ Forall (fun j => totalItems j = totalItems job) trace.
Proof.
  revert now jobs job ps.
  induction updates as [|u rest IH]; intros now jobs job ps Hjob Hps trace.
  - destruct ps; [|discriminate]. repeat split. constructor.
  - destruct ps as [|p ps]; [discriminate|].
    cbn [map] in Hps. injection Hps as Hu Hrest.
    destruct (update_trace_cons now jobId u rest jobs job Hjob) as [Hcons Hnext].
    subst trace. rewrite Hcons.
    destruct (IH (S now) _ _ ps Hnext Hrest) as (IH1 & IH2 & IH3).
    rewrite updated_totalItems in IH2, IH3.
    cbn [map]. rewrite updated_processedItems, updated_progress, Hu.
    rewrite IH1, IH2. repeat split.
    constructor; [apply updated_totalItems|exact IH3].
Qed.

(** C4: on a job with a positive [totalItems] (at most [2^53]), a sequence
    of [updateJobProgress] calls whose [processedItems] are non-decreasing
    and at most [totalItems] sets [progress], at each call, to
    [Math.round((processedItems / totalItems) * 100)] of that call; every
    such value is an integer between 0 and 100, and the values are
    non-decreasing along the sequence. *)
Theorem progress_of_update_sequence
  (now : nat) (jobId : string) (jobs : store) (job : Job)
  (updates : list Update) (ps : list nat) :
  getJob jobId jobs = Some job ->
  (0 < totalItems job)%nat ->
  (Z.of_nat (totalItems job) <= 2 ^ 53)%Z ->
  map u_processedItems updates = map Some ps ->
  Forall (fun p => (p <= totalItems job)%nat) ps ->
  ascending Nat.leb ps = true ->
  let trace := update_trace now jobId updates jobs in
  map processedItems trace = ps
  /\ map progress trace = map (fun p => progress_of p (totalItems job)) ps
  /\ (exists zs,
        map progress trace = map int zs
        /\ Forall (fun z => (0 <= z <= 100)%Z) zs)
  /\ ascending leb (map progress trace) = true.
Proof.
  intros Hjob Ht Hbig Hps Hall Hasc trace.
  destruct (update_trace_progress now jobId jobs job updates ps Hjob Hps)
    as (H1 & H2 & _).
  fold trace in H1, H2.
  assert (Hpercent : map (fun p => progress_of p (totalItems job)) ps
                     = map (fun p => int (percent p (totalItems job))) ps).
  { apply map_ext_in. intros p Hp. apply progress_of_percent; try assumption.
    rewrite Forall_forall in Hall. now apply Hall. }
  split; [exact H1|]. split; [exact H2|]. split.
  - exists (map (fun p => percent p (totalItems job)) ps). split.
    + now rewrite H2, Hpercent, map_map.
    + apply Forall_map. eapply Forall_impl; [|exact Hall].
      intros p Hp. now apply percent_bounds.
  - rewrite H2, Hpercent. now apply ascending_progress.
Qed.

Lemma progress_of_update_sequence_witness :
  map progress (update_trace 2 "job_4" reports_0_23_40 jobs_batch_40)
  = [int 0; int 57; int 100]
  /\ ascending leb
       (map progress (update_trace 2 "job_4" reports_0_23_40 jobs_batch_40))
     = true.
Proof.
  assert (Hjob : getJob "job_4" jobs_batch_40 = Some job_40)
    by (vm_compute; reflexivity).
  assert (Hall : Forall (fun p => (p <= totalItems job_40)%nat) [0; 23; 40]%nat).
  { repeat constructor; vm_compute; lia. }
  assert (Hpos : (0 < totalItems job_40)%nat) by (vm_compute; lia).
  assert (Hbig : (Z.of_nat (totalItems job_40) <= 2 ^ 53)%Z)
    by (vm_compute; discriminate).
  destruct (progress_of_update_sequence 2 "job_4" jobs_batch_40 job_40
              reports_0_23_40 [0; 23; 40]%nat Hjob Hpos Hbig eq_refl Hall eq_refl)
    as (_ & H2 & _ & H4).
  split; [|exact H4].
  rewrite H2. vm_compute. reflexivity.
Defined.

(** C4 does not hold as documented: with [totalItems = 0] the first
    report stores NaN and any later one Infinity; a report above
    [totalItems] stores more than 100; and 23 of 40 stores 57 where the
    documented formula gives 58. *)
Lemma progress_without_clamp :
  map progress
      (update_trace 1 "job_0"
         [mkUpdate (Some 0%nat) None None None None;
          mkUpdate (Some 1%nat) None None None None] jobs_empty_batch)
  = [NaN; Inf false]
  /\ map progress
        (update_trace 2 "job_4" [mkUpdate (Some 41%nat) None None None None]
           jobs_batch_40)
     = [int 102]
  /\ map progress (update_trace 2 "job_4" [report 23] jobs_batch_40) = [int 57]
  /\ progress_formula 23 40 = 58%Z.
Proof. vm_compute. repeat split. Qed.

End ProgressFacts.
(* ================================================================== *)
(** ** Sanitized names *)
(* ================================================================== *)

Module SanitizeFacts.
Import JsString JsStringFacts JsPath JsRegex NameResolver NameResolverFacts Chars.
Import AnalyzePipeline StorageService.

Lemma all_chars_take p n s : all_chars p s = true -> all_chars p (take n s) = true.
Proof.
  revert s; induction n as [|n IH]; intros [|c s]; simpl; auto.
  intros H. apply andb_prop in H as [Hc Hs]. now rewrite Hc, IH.
Qed.

Lemma all_chars_replace_outside keep s :
  keep "_"%char = true -> all_chars keep (replace_outside keep s) = true.
Proof.
  intros Hu. unfold replace_outside. induction s as [|c s IH]; simpl; auto.
  rewrite IH, andb_true_r. destruct (keep c) eqn:E; assumption.
Qed.

Lemma all_chars_collapse p s :
  all_chars p s = true -> all_chars p (collapse_underscores s) = true.
Proof.
  induction s as [|c s IH]; simpl; auto.
  intros H. apply andb_prop in H as [Hc Hs]. specialize (IH Hs).
  destruct (Ascii.eqb c "_").
  - destruct s as [|c' s']; [simpl; now rewrite Hc|].
    destruct (Ascii.eqb c' "_"); [assumption|].
    cbn [all_chars]. now rewrite Hc, IH.
  - cbn [all_chars]. now rewrite Hc, IH.
Qed.

Lemma collapse_head c s :
  exists t, collapse_underscores (String c s) = String c t.
Proof.
  revert c; induction s as [|c' s IH]; intros c; simpl.
  - destruct (Ascii.eqb c "_"); eauto.
  - destruct (Ascii.eqb c "_") eqn:E; [|eauto].
    destruct (Ascii.eqb c' "_") eqn:E'; [|eauto].
    apply Ascii.eqb_eq in E, E'. subst. apply (IH "_"%char).
Qed.

Lemma has_double_cons a b s :
  has_double_underscore (String a (String b s))
  = (Ascii.eqb a "_" && Ascii.eqb b "_") || has_double_underscore (String b s).
Proof. reflexivity. Qed.

Lemma collapse_no_double s : has_double_underscore (collapse_underscores s) = false.
Proof.
  induction s as [|c s IH]; [reflexivity|].
  cbn [collapse_underscores].
  destruct (Ascii.eqb c "_") eqn:E.
  - destruct s as [|c' s']; [reflexivity|].
    destruct (Ascii.eqb c' "_") eqn:E'; [assumption|].
    destruct (collapse_head c' s') as [t Ht]. rewrite Ht in *.
    now rewrite has_double_cons, E', andb_false_r, IH.
  - destruct s as [|c' s']; [reflexivity|].
    destruct (collapse_head c' s') as [t Ht]. rewrite Ht in *.
    now rewrite has_double_cons, E, IH.
Qed.

Lemma collapse_fixed s : has_double_underscore s = false -> collapse_underscores s = s.
Proof.
  induction s as [|c s IH]; [reflexivity|].
  destruct s as [|c' s'].
  - intros _. simpl. now destruct (Ascii.eqb c "_").
  - intros H. rewrite has_double_cons in H.
    apply orb_false_elim in H as [Hcc Hs].
    change (collapse_underscores (String c (String c' s')))
      with (if Ascii.eqb c "_"
            then if Ascii.eqb c' "_" then collapse_underscores (String c' s')
                 else String c (collapse_underscores (String c' s'))
            else String c (collapse_underscores (String c' s'))).
    rewrite (IH Hs).
    destruct (Ascii.eqb c "_"); [|reflexivity].
    simpl in Hcc. now rewrite Hcc.
Qed.

Lemma take_no_double n s :
  has_double_underscore s = false -> has_double_underscore (take n s) = false.
Proof.
  revert s; induction n as [|n IH]; intros [|c s] H; try reflexivity.
  cbn [take]. destruct s as [|c' s']; [now destruct n|].
  rewrite has_double_cons in H. apply orb_false_elim in H as [Hcc Hs].
  specialize (IH _ Hs). destruct n as [|n]; [reflexivity|].
  cbn [take] in *. now rewrite has_double_cons, Hcc, IH.
Qed.

Lemma take_all n s : String.length s <= n -> take n s = s.
Proof.
  revert s; induction n as [|n IH]; intros [|c s] H; simpl in *; auto; try lia.
  f_equal. apply IH. lia.
Qed.

Lemma map_chars_fixed f p s :
  (forall c, p c = true -> f c = c) -> all_chars p s = true -> map_chars f s = s.
Proof.
  intros Hf. induction s as [|c s IH]; simpl; auto.
  intros H. apply andb_prop in H as [Hc Hs]. now rewrite (Hf c Hc), IH.
Qed.

Lemma all_chars_impl (p q : ascii -> bool) s :
  (forall c, p c = true -> q c = true) -> all_chars p s = true -> all_chars q s = true.
Proof.
  intros Hpq. induction s as [|c s IH]; simpl; auto.
  intros H. apply andb_prop in H as [Hc Hs]. now rewrite (Hpq c Hc), IH.
Qed.

Lemma lower_char_fixed c : is_upper c = false -> lower_char c = c.
Proof. unfold lower_char. now intros ->. Qed.

Lemma segment_char_not_upper c : is_segment_char c = true -> is_upper c = false.
Proof.
  destruct c as [[|] [|] [|] [|] [|] [|] [|] [|]]; vm_compute; congruence.
Qed.

Lemma name_char_is_segment_char c : is_name_char c = true -> is_segment_char c = true.
Proof.
  destruct c as [[|] [|] [|] [|] [|] [|] [|] [|]]; vm_compute; congruence.
Qed.

(** A text over [a-z0-9_-] passes unchanged through [toLowerCase] and
    through the replacement of the characters outside a class that
    contains it. *)
Lemma lower_replace_fixed keep s :
  (forall c, keep c = true -> is_segment_char c = true) ->
  all_chars keep s = true ->
  replace_outside keep (toLowerCase s) = s.
Proof.
  intros Hk Hs.
  assert (Hl : toLowerCase s = s).
  { apply (map_chars_fixed _ keep); [|assumption].
    intros c Hc. apply lower_char_fixed, segment_char_not_upper. auto. }
  rewrite Hl. apply (map_chars_fixed _ keep); [|assumption].
  intros c Hc. now rewrite Hc.
Qed.

Lemma sanitize_chars x : all_chars is_name_char (sanitize x) = true.
Proof. unfold sanitize. now apply all_chars_take, all_chars_replace_outside. Qed.

Lemma sanitize_length x : String.length (sanitize x) = Nat.min 50 (String.length x).
Proof.
  unfold sanitize, replace_outside, toLowerCase.
  now rewrite take_length, !map_chars_length.
Qed.

Lemma rep_all_digits n k s r :
  rep n digit k s = Some r ->
  exists pre rest, s = (pre ++ rest)%string /\ String.length pre = n
                   /\ all_chars is_digit pre = true /\ k rest = Some r.
Proof.
  revert s; induction n as [|n IH]; intros s H; simpl in H.
  - exists "", s. repeat split; auto.
  - destruct s as [|a s]; [discriminate|].
    unfold digit in H at 1. destruct (is_digit a) eqn:Ha; [|discriminate].
    destruct (IH _ H) as (pre & rest & -> & Hlen & Hd & Hk).
    exists (String a pre), rest. simpl. rewrite Ha, Hd. repeat split; auto.
Qed.

(** X1: the name [generateCleanName] returns, through either branch, is made
    of at most 50 characters of [a-z0-9_]; without a suggestion it has at
    least 3 of them. *)
Theorem generateCleanName_result_shape (name : string) (ai : option string) (r : string) :
  generateCleanName name ai = Some r ->
  all_chars is_name_char r = true
  /\ String.length r <= 50
  /\ (truthy_opt ai = false -> 3 <= String.length r).
Proof.
  unfold generateCleanName. rewrite prefix_loop_PREFIX_PATTERNS.
  set (base := basename name (extname name)).
  set (clean := replace_prefix last_pattern base).
  assert (Hpattern :
            (if (String.length clean <? 3) || String.eqb clean base
             then None else Some (sanitize clean)) = Some r ->
            all_chars is_name_char r = true /\ String.length r <= 50
            /\ 3 <= String.length r).
  { destruct (String.length clean <? 3) eqn:L3; [discriminate|].
    destruct (String.eqb clean base); [discriminate|].
    cbn [orb]. intros E. inversion E; subst r.
    apply Nat.ltb_ge in L3. rewrite sanitize_chars, sanitize_length.
    repeat split; lia. }
  destruct ai as [ai|].
  - destruct (truthy ai) eqn:T.
    + intros E. inversion E; subst r. rewrite sanitize_chars, sanitize_length.
      cbn [truthy_opt]. rewrite T. repeat split; try lia; discriminate.
    + intros E. destruct (Hpattern E) as (H1 & H2 & H3). auto.
  - intros E. destruct (Hpattern E) as (H1 & H2 & H3). auto.
Qed.

Lemma generateCleanName_result_shape_witness :
  generateCleanName "20240101_123456_Sunny Beach.JPG" None = Some "sunny_beach"
  /\ all_chars is_name_char "sunny_beach" = true.
Proof.
  assert (H : generateCleanName "20240101_123456_Sunny Beach.JPG" None
              = Some "sunny_beach") by reflexivity.
  split; [exact H|].
  exact (proj1 (generateCleanName_result_shape _ _ _ H)).
Defined.

(** X2: without a suggestion [generateCleanName] yields a name only for a
    file whose name (without extension) starts with eight digits: the
    prefix loop keeps the result of the last pattern of the list only, so
    the [IMG_], [DSC_], [photo_], ... prefixes are never removed. *)
Theorem generateCleanName_needs_eight_digits
  (name : string) (ai : option string) (r : string) :
  truthy_opt ai = false ->
  generateCleanName name ai = Some r ->
  let base := basename name (extname name) in
  exists digits tail rest,
    base = (digits ++ tail)%string
    /\ String.length digits = 8
    /\ all_chars is_digit digits = true
    /\ match_prefix last_pattern base = Some rest
    /\ r = sanitize rest.
Proof.
  intros Hai E base.
  assert (E' : (if (String.length (replace_prefix last_pattern base) <? 3)
                   || String.eqb (replace_prefix last_pattern base) base
                then None else Some (sanitize (replace_prefix last_pattern base)))
               = Some r).
  { unfold generateCleanName in E. rewrite prefix_loop_PREFIX_PATTERNS in E.
    fold base in E. destruct ai as [ai|]; [|exact E].
    cbn [truthy_opt] in Hai. now rewrite Hai in E. }
  unfold replace_prefix in E'.
  destruct (match_prefix last_pattern base) as [rest|] eqn:Hm.
  - destruct ((String.length rest <? 3) || String.eqb rest base); [discriminate|].
    inversion E'; subst r.
    unfold last_pattern in Hm. cbn [match_prefix] in Hm.
    destruct (rep_all_digits _ _ _ _ Hm) as (pre & tl & Hb & Hlen & Hd & _).
    exists pre, tl, rest. repeat split; auto.
  - rewrite String.eqb_refl, orb_true_r in E'. discriminate.
Qed.

Lemma generateCleanName_needs_eight_digits_witness :
  generateCleanName "20240101_beach.jpg" None = Some "beach"
  /\ exists digits tail,
       "20240101_beach" = (digits ++ tail)%string /\ String.length digits = 8.
Proof.
  assert (H : generateCleanName "20240101_beach.jpg" None = Some "beach")
    by reflexivity.
  split; [exact H|].
  destruct (generateCleanName_needs_eight_digits "20240101_beach.jpg" None "beach"
              eq_refl H) as (digits & tl & rest & Hb & Hlen & _).
  exists digits, tl. split; [exact Hb|exact Hlen].
Defined.

(** X3: [sanitizeFileName] keeps the length of the name, leaves none of the
    nine reserved characters, changes nothing in a name that has none, and
    applying it twice is the same as applying it once. *)
Theorem sanitizeFileName_spec (name : string) :
  let clean := fun c => negb (is_reserved_char c) in
  String.length (sanitizeFileName name) = String.length name
  /\ all_chars clean (sanitizeFileName name) = true
  /\ (all_chars clean name = true -> sanitizeFileName name = name)
  /\ sanitizeFileName (sanitizeFileName name) = sanitizeFileName name.
Proof.
  intros clean.
  assert (Hfix : forall s, all_chars clean s = true -> sanitizeFileName s = s).
  { intros s. apply map_chars_fixed. intros c Hc. unfold clean in Hc.
    apply negb_true_iff in Hc. now rewrite Hc. }
  assert (Hclean : all_chars clean (sanitizeFileName name) = true).
  { unfold sanitizeFileName. induction name as [|c s IH]; simpl; auto.
    rewrite IH, andb_true_r. unfold clean.
    destruct (is_reserved_char c) eqn:E; [reflexivity|now rewrite E]. }
  split; [apply map_chars_length|]. split; [exact Hclean|].
  split; [apply Hfix|]. now apply Hfix.
Qed.

(** X4: the suggestion the analyze pipeline stores is never empty, has at
    most 40 characters of [a-z0-9_] and no two underscores in a row;
    normalising it again gives the same text. *)
Theorem normalize_name_spec (raw : option string) :
  let n := normalize_name raw in
  truthy n = true
  /\ String.length n <= 40
  /\ all_chars is_name_char n = true
  /\ has_double_underscore n = false
  /\ normalize_name (Some n) = n.
Proof.
  intros n.
  set (s := if truthy_opt raw then match raw with Some r => r | None => "" end
            else "image").
  assert (Hs : truthy s = true).
  { unfold s. destruct raw as [r|]; cbn [truthy_opt]; [|reflexivity].
    destruct (truthy r) eqn:T; [exact T|reflexivity]. }
  assert (Hn : n = take 40 (collapse_underscores
                              (replace_outside is_name_char (toLowerCase s))))
    by reflexivity.
  assert (Htruthy : truthy n = true).
  { rewrite Hn. destruct s as [|c s']; [discriminate|].
    cbn [toLowerCase replace_outside map_chars].
    destruct (collapse_head (if is_name_char (lower_char c) then lower_char c else "_"%char)
                (map_chars (fun c0 => if is_name_char c0 then c0 else "_"%char)
                   (map_chars lower_char s'))) as [t Ht].
    unfold toLowerCase, replace_outside. cbn [map_chars]. now rewrite Ht. }
  assert (Hchars : all_chars is_name_char n = true).
  { rewrite Hn. now apply all_chars_take, all_chars_collapse, all_chars_replace_outside. }
  assert (Hdouble : has_double_underscore n = false).
  { rewrite Hn. apply take_no_double, collapse_no_double. }
  assert (Hlen : String.length n <= 40).
  { rewrite Hn, take_length. lia. }
  repeat split; auto.
  unfold normalize_name. cbn [truthy_opt]. rewrite Htruthy.
  rewrite (lower_replace_fixed is_name_char n name_char_is_segment_char Hchars).
  rewrite (collapse_fixed n Hdouble). now apply take_all.
Qed.

(** X5: the folder name a project gets in cloud storage has at most 50
    characters of [a-z0-9_-] and no two underscores in a row, and
    sanitising it again gives the same text. *)
Theorem sanitizePathSegment_spec (name : string) :
  let seg := sanitizePathSegment name in
  String.length seg <= 50
  /\ all_chars is_segment_char seg = true
  /\ has_double_underscore seg = false
  /\ sanitizePathSegment seg = seg
  /\ (forall filename, getStoragePath seg filename = getStoragePath name filename).
Proof.
  intros seg.
  assert (Hchars : all_chars is_segment_char seg = true).
  { unfold seg, sanitizePathSegment.
    now apply all_chars_take, all_chars_collapse, all_chars_replace_outside. }
  assert (Hdouble : has_double_underscore seg = false).
  { unfold seg, sanitizePathSegment. apply take_no_double, collapse_no_double. }
  assert (Hlen : String.length seg <= 50).
  { unfold seg, sanitizePathSegment. rewrite take_length. lia. }
  assert (Hidem : sanitizePathSegment seg = seg).
  { unfold sanitizePathSegment at 1.
    rewrite (lower_replace_fixed is_segment_char seg (fun c H => H) Hchars).
    rewrite (collapse_fixed seg Hdouble). now apply take_all. }
  repeat split; auto. intros filename. unfold getStoragePath. now rewrite Hidem.
Qed.

End SanitizeFacts.

(* ================================================================== *)
(** ** The in-memory stores *)
(* ================================================================== *)

Module StoreFacts.
Import JsString JsMap JsMapFacts Storage StorageFacts.

Lemma get_delete_same {V : Type} k (m : JsMap.t V) : get k (delete k m) = None.
Proof.
  unfold delete. induction m as [|[k' v] m IH]; simpl; auto.
  destruct (String.eqb k k') eqn:E; simpl; auto. now rewrite E.
Qed.

Lemma get_delete_other {V : Type} k k' (m : JsMap.t V) :
  k <> k' -> get k' (delete k m) = get k' m.
Proof.
  intros Hne. unfold delete. induction m as [|[k0 v] m IH]; simpl; auto.
  destruct (String.eqb k k0) eqn:E; simpl.
  - apply String.eqb_eq in E. subst k0.
    destruct (String.eqb k' k) eqn:E'; auto.
    apply String.eqb_eq in E'. congruence.
  - now rewrite IH.
Qed.

Lemma getProjectImages_clear_other pid q (m : images) :
  q <> pid ->
  getProjectImages q (snd (clearProjectImages pid m)) = getProjectImages q m.
Proof.
  intros Hne. unfold getProjectImages, clearProjectImages, values. cbn [snd].
  induction m as [|[k v] m IH]; simpl; auto.
  destruct (String.eqb (projectId v) pid) eqn:E; simpl.
  - apply String.eqb_eq in E.
    destruct (String.eqb (projectId v) q) eqn:E'; auto.
    apply String.eqb_eq in E'. congruence.
  - now rewrite IH.
Qed.

Lemma get_clear_kept pid (m : images) k r :
  get k m = Some r -> projectId r <> pid ->
  get k (snd (clearProjectImages pid m)) = Some r.
Proof.
  intros Hget Hne. unfold clearProjectImages. cbn [snd].
  apply get_filter_true; auto. cbn.
  destruct (String.eqb (projectId r) pid) eqn:E; auto.
  apply String.eqb_eq in E. contradiction.
Qed.

Lemma filter_split_length {A : Type} (f : A -> bool) (l : list A) :
  List.length (filter (fun x => negb (f x)) l) + List.length (filter f l)
  = List.length l.
Proof.
  induction l as [|x l IH]; simpl; auto.
  destruct (f x); simpl; lia.
Qed.

(** X6: [clearProjectImages] returns the number of records the project had,
    leaves the project without records, and leaves every record of another
    project where it was. *)
Theorem clearProjectImages_spec (pid : string) (m : images) :
  let cleared := clearProjectImages pid m in
  fst cleared = List.length (getProjectImages pid m)
  /\ getProjectImages pid (snd cleared) = []
  /\ (forall q, q <> pid -> getProjectImages q (snd cleared) = getProjectImages q m)
  /\ (forall k r, get k m = Some r -> projectId r <> pid ->
                  get k (snd cleared) = Some r)
  /\ List.length (snd cleared) + fst cleared = List.length m.
Proof.
  intros cleared. split; [|split; [|split; [|split]]].
  - unfold cleared, clearProjectImages, getProjectImages, values. cbn [fst].
    induction m as [|[k v] m IH]; simpl; auto.
    destruct (String.eqb (projectId v) pid); simpl; now rewrite IH.
  - apply ScanFaultFacts.getProjectImages_clear.
  - intros q Hq. now apply getProjectImages_clear_other.
  - intros k r. apply get_clear_kept.
  - unfold cleared, clearProjectImages. cbn [fst snd].
    apply (filter_split_length (fun kv => String.eqb (projectId (snd kv)) pid)).
Qed.

Lemma keys_set_present {V : Type} k (v v' : V) m :
  get k m = Some v' -> keys (set k v m) = keys m.
Proof.
  induction m as [|[k0 v0] m IH]; simpl; [discriminate|].
  destruct (String.eqb k k0) eqn:E; simpl; auto.
  intros H. now rewrite IH.
Qed.

(** [updateImage] on an id the store does not hold returns [null] and
    changes nothing; on an id it holds, the record is replaced by the
    updated one in place: a lookup gives the updated record, every other
    id keeps its record, and the order of the ids is unchanged. *)
Theorem updateImage_spec (imageId : string) (updates : ImageData -> ImageData)
  (m : images) :
  (get imageId m = None -> updateImage imageId updates m = (None, m))
  /\ (forall image, get imageId m = Some image ->
        fst (updateImage imageId updates m) = Some (updates image)
        /\ get imageId (snd (updateImage imageId updates m)) = Some (updates image)
        /\ (forall k, k <> imageId ->
                      get k (snd (updateImage imageId updates m)) = get k m)
        /\ keys (snd (updateImage imageId updates m)) = keys m).
Proof.
  unfold updateImage. split.
  - now intros ->.
  - intros image Hget. rewrite Hget. cbn [fst snd]. repeat split.
    + apply get_set_same.
    + intros k Hk. apply get_set_other. congruence.
    + now apply (keys_set_present _ _ image).
Qed.

(** The first match from the end of a list is its last match. *)
Lemma find_rev_last {A : Type} (p : A -> bool) (l : list A) (x : A) :
  find p (rev l) = Some x ->
  exists l1 l2, l = l1 ++ x :: l2 /\ p x = true /\ forall y, In y l2 -> p y = false.
Proof.
  induction l as [|a l IH] using rev_ind; [discriminate|].
  rewrite rev_app_distr. cbn [rev app find].
  destruct (p a) eqn:E.
  - intros H. inversion H; subst a. exists l, []. split; [reflexivity|].
    split; [exact E|]. intros y [].
  - intros H. destruct (IH H) as (l1 & l2 & -> & Hx & Hl2).
    exists l1, (l2 ++ [a]). split; [now rewrite <- app_assoc|].
    split; [exact Hx|]. intros y Hy. apply in_app_or in Hy.
    destruct Hy as [Hy|[<-|[]]]; auto.
Qed.

(** X7: [saveImages] files every record of the batch under the id derived
    from its hash and name, stamped with the project id; what a lookup
    gives afterwards is the last record of the batch with that id: the one
    that no later record of the batch shares its id with.  The id space is
    shared by all projects: a record that another project held under one
    of these ids is replaced, and ids outside the batch keep their
    records. *)
Theorem saveImages_spec (pid : string) (imgs : list ImageData) (m : images) :
  let saved := ImageService.saveImages pid imgs m in
  (forall img, In img imgs ->
     exists before last after,
       imgs = before ++ last :: after
       /\ key_of last = key_of img
       /\ (forall later, In later after -> key_of later <> key_of img)
       /\ get (key_of img) saved = Some (set_id_project (key_of img) pid last))
  /\ (forall k r, get k saved = Some r ->
        (exists img, In img imgs /\ key_of img = k) -> projectId r = pid /\ id r = k)
  /\ (forall k, (forall img, In img imgs -> key_of img <> k) ->
                get k saved = get k m)
  /\ (forall k, In k (keys m) -> In k (keys saved))
  /\ (NoDup (keys m) -> NoDup (keys saved)).
Proof.
  intros saved. split; [|split; [|split; [|split]]].
  - intros img Hin. unfold saved. rewrite get_saveImages.
    destruct (find (fun i => String.eqb (key_of i) (key_of img)) (rev imgs))
      as [src|] eqn:F.
    + apply find_rev_last in F. destruct F as (l1 & l2 & Himgs & Hk & Hl2).
      apply String.eqb_eq in Hk. exists l1, src, l2.
      split; [exact Himgs|]. split; [exact Hk|]. split; [|reflexivity].
      intros later Hlater E. specialize (Hl2 later Hlater). cbn beta in Hl2.
      now rewrite E, String.eqb_refl in Hl2.
    + apply in_rev in Hin. pose proof (find_none _ _ F img Hin) as Hf.
      cbn beta in Hf. now rewrite String.eqb_refl in Hf.
  - intros k r Hget (img & Hin & Hk). unfold saved in Hget.
    rewrite get_saveImages in Hget.
    destruct (find (fun i => String.eqb (key_of i) k) (rev imgs)) as [src|] eqn:F.
    + inversion Hget; subst r. split; reflexivity.
    + apply in_rev in Hin. pose proof (find_none _ _ F img Hin) as Hf.
      cbn beta in Hf. now rewrite Hk, String.eqb_refl in Hf.
  - intros k Hno. unfold saved. rewrite get_saveImages.
    destruct (find (fun i => String.eqb (key_of i) k) (rev imgs)) as [src|] eqn:F;
      [|reflexivity].
    apply find_some in F. destruct F as [Hsrc Hk]. apply String.eqb_eq in Hk.
    exfalso. apply (Hno src); [now apply in_rev|assumption].
  - intros k Hk. unfold saved. apply keys_saveImages_In. now left.
  - apply NoDup_keys_saveImages.
Qed.

End StoreFacts.

(* ================================================================== *)
(** ** Sorted listings *)
(* ================================================================== *)

Module SortFacts.
Import JsArray.


Section Sort.
Context {A : Type} (time : A -> nat).

Lemma insert_newest_perm x l : Permutation (insert_newest time x l) (x :: l).
Proof.
  induction l as [|y l IH]; simpl; auto.
  destruct (time y <=? time x); auto.
  rewrite IH. apply perm_swap.
Qed.

Lemma sort_newest_first_perm l : Permutation (sort_newest_first time l) l.
Proof.
  induction l as [|x l IH]; simpl; auto.
  rewrite insert_newest_perm. now constructor.
Qed.

Lemma insert_newest_sorted x l :
  StronglySorted (newest_first time) l -> StronglySorted (newest_first time) (insert_newest time x l).
Proof.
  induction l as [|y l IH]; intros Hs; simpl.
  - repeat constructor.
  - inversion Hs as [|? ? Hs' Hall]; subst.
    destruct (time y <=? time x) eqn:E.
    + apply Nat.leb_le in E. constructor; auto.
      constructor; auto. eapply Forall_impl; [|exact Hall].
      unfold newest_first. intros; lia.
    + apply Nat.leb_gt in E. constructor; auto.
      eapply Permutation_Forall; [symmetry; apply insert_newest_perm|].
      constructor; auto. unfold newest_first. lia.
Qed.

Lemma sort_newest_first_sorted l :
  StronglySorted (newest_first time) (sort_newest_first time l).
Proof.
  induction l as [|x l IH]; simpl; [constructor|].
  now apply insert_newest_sorted.
Qed.

(** Stability: elements with the same time keep their order. *)
Lemma insert_newest_stable t x l :
  filter (fun y => time y =? t) (insert_newest time x l)
  = filter (fun y => time y =? t) (x :: l).
Proof.
  induction l as [|y l IH]; [reflexivity|].
  cbn [insert_newest]. destruct (time y <=? time x) eqn:E; [reflexivity|].
  apply Nat.leb_gt in E. cbn [filter] in *.
  destruct (time y =? t) eqn:Ey, (time x =? t) eqn:Ex;
    try apply Nat.eqb_eq in Ey; try apply Nat.eqb_eq in Ex; try lia;
    rewrite IH; reflexivity.
Qed.

Lemma sort_newest_first_stable t l :
  filter (fun y => time y =? t) (sort_newest_first time l)
  = filter (fun y => time y =? t) l.
Proof.
  induction l as [|x l IH]; [reflexivity|].
  cbn [sort_newest_first fold_right].
  fold (sort_newest_first time l). rewrite insert_newest_stable.
  cbn [filter]. now rewrite IH.
Qed.



End Sort.

End SortFacts.

(* ================================================================== *)
(** ** Job listings *)
(* ================================================================== *)

Module JobQueryFacts.
Import JsString JsMap JsArray Jobs JobQueries SortFacts.

Lemma getProjectJobs_In pid jobs j :
  In j (getProjectJobs pid jobs) <-> In j (values jobs) /\ projectId j = pid.
Proof.
  unfold getProjectJobs.
  set (mine := filter (fun job => String.eqb (projectId job) pid) (values jobs)).
  split.
  - intros Hin.
    apply (Permutation_in _ (sort_newest_first_perm createdAt mine)) in Hin.
    apply filter_In in Hin. destruct Hin as [Hin Hp].
    apply String.eqb_eq in Hp. now split.
  - intros [Hin Hp].
    apply (Permutation_in _ (Permutation_sym (sort_newest_first_perm createdAt mine))).
    apply filter_In. split; auto. now apply String.eqb_eq.
Qed.

(** X8: [getProjectJobs] returns exactly the jobs of the project, and
    [getAllJobs] every job, latest [createdAt] first; jobs created at the
    same instant keep the order in which they were added to the tracker. *)
Theorem getProjectJobs_spec (pid : string) (jobs : store) :
  let mine := filter (fun job => String.eqb (projectId job) pid) (values jobs) in
  Permutation (getProjectJobs pid jobs) mine
  /\ StronglySorted (newest_first createdAt) (getProjectJobs pid jobs)
  /\ (forall t, filter (fun j => createdAt j =? t) (getProjectJobs pid jobs)
                = filter (fun j => createdAt j =? t) mine)
  /\ (forall j, In j (getProjectJobs pid jobs)
                <-> In j (values jobs) /\ projectId j = pid)
  /\ Permutation (getAllJobs jobs) (values jobs)
  /\ StronglySorted (newest_first createdAt) (getAllJobs jobs)
  /\ (forall t, filter (fun j => createdAt j =? t) (getAllJobs jobs)
                = filter (fun j => createdAt j =? t) (values jobs)).
Proof.
  intros mine. unfold getProjectJobs, getAllJobs. fold mine.
  split; [apply sort_newest_first_perm|].
  split; [apply sort_newest_first_sorted|].
  split; [intros t; apply sort_newest_first_stable|].
  split; [apply getProjectJobs_In|].
  - split; [apply sort_newest_first_perm|].
    split; [apply sort_newest_first_sorted|].
    intros t; apply sort_newest_first_stable.
Qed.





End JobQueryFacts.

(* ================================================================== *)
(** ** The job tracker beyond progress *)
(* ================================================================== *)

Module TrackerFacts.
Import JsString JsMap JsMapFacts JsNumber Jobs JobsFacts JobQueries StoreFacts.

(** X10: every tracker operation on one job id leaves the jobs under all
    other ids as they were, and on an id the tracker does not hold it
    returns [null] and leaves the whole store unchanged. *)
Theorem tracker_operations_frame (now : nat) (jobId : string) (jobs : store) :
  (forall k u outcome message remove, k <> jobId ->
     getJob k (snd (startJob now jobId jobs)) = getJob k jobs
     /\ getJob k (snd (updateJobProgress now jobId u jobs)) = getJob k jobs
     /\ getJob k (snd (completeJob now jobId outcome message jobs)) = getJob k jobs
     /\ getJob k (cancelOrRemove now jobId remove jobs) = getJob k jobs)
  /\ (getJob jobId jobs = None ->
      forall u outcome message remove,
        startJob now jobId jobs = (None, jobs)
        /\ updateJobProgress now jobId u jobs = (None, jobs)
        /\ completeJob now jobId outcome message jobs = (None, jobs)
        /\ cancelOrRemove now jobId remove jobs = jobs).
Proof.
  split.
  - intros k u outcome message remove Hk.
    assert (E : String.eqb k jobId = false).
    { destruct (String.eqb k jobId) eqn:E; auto. apply String.eqb_eq in E. contradiction. }
    rewrite getJob_startJob, getJob_updateJobProgress, getJob_completeJob, E.
    repeat split. unfold cancelOrRemove, getJob.
    destruct (get jobId jobs) as [job|] eqn:G; [|reflexivity].
    assert (Hset : forall j, get k (set jobId j jobs) = get k jobs)
      by (intros j; apply get_set_other; congruence).
    destruct remove.
    + rewrite get_delete_other by congruence.
      destruct (status job); auto.
    + destruct (status job); auto.
  - intros Hnone u outcome message remove.
    unfold startJob, updateJobProgress, completeJob, cancelOrRemove.
    unfold getJob in *. now rewrite Hnone.
Qed.

Lemma upsert_target_names now c ts :
  map Target.name (upsert_target now c ts)
  = if existsb (String.eqb (Current.name c)) (map Target.name ts)
    then map Target.name ts
    else (map Target.name ts ++ [Current.name c])%list.
Proof.
  induction ts as [|t ts IH]; [reflexivity|].
  cbn [upsert_target map existsb].
  destruct (String.eqb (Target.name t) (Current.name c)) eqn:E.
  - apply String.eqb_eq in E. rewrite <- E, String.eqb_refl. cbn [orb map].
    now rewrite E.
  - rewrite String.eqb_sym, E. cbn [orb map]. rewrite IH.
    now destruct (existsb _ _).
Qed.

Lemma upsert_target_holds now c ts :
  exists t, In t (upsert_target now c ts)
            /\ Target.name t = Current.name c
            /\ Target.status t = Current.status c.
Proof.
  induction ts as [|t ts IH]; cbn [upsert_target].
  - exists (new_target now c). repeat split. now left.
  - destruct (String.eqb (Target.name t) (Current.name c)).
    + exists (merge_target now c t). repeat split. now left.
    + destruct IH as (t' & Hin & Hn & Hs). exists t'. repeat split; auto. now right.
Qed.

Lemma updated_targets now u j :
  targets (updated now u j)
  = match u_currentTarget u with
    | Some c => upsert_target now c (targets j)
    | None => targets j
    end.
Proof.
  unfold updated.
  destruct (u_processedItems u), (u_successCount u), (u_errorCount u),
    (u_statusMessage u) as [[|? ?]|], (u_currentTarget u) as [c|]; simpl;
    try reflexivity;
    destruct (Current.error c) as [[|? ?]|]; reflexivity.
Qed.

Lemma updated_errors now u j :
  errors (updated now u j) = (errors j ++ error_line u)%list.
Proof.
  unfold updated, error_line.
  destruct (u_processedItems u), (u_successCount u), (u_errorCount u),
    (u_statusMessage u) as [[|? ?]|], (u_currentTarget u) as [c|]; simpl;
    try (now rewrite app_nil_r);
    destruct (Current.error c) as [[|? ?]|]; simpl; try reflexivity;
    now rewrite app_nil_r.
Qed.

Lemma NoDup_snoc {A : Type} (l : list A) x : NoDup l -> ~ In x l -> NoDup (l ++ [x]).
Proof.
  intros Hnd Hx. apply NoDup_app; auto.
  - repeat constructor. intros [].
  - intros y Hy [<-|[]]. contradiction.
Qed.

(** X11: the targets of a job are keyed by name: an update that names a
    target already listed changes that entry in place, one that names a
    new target appends one entry, and in both cases the entry of that name
    carries the status of the update; so names that are distinct stay
    distinct.  The error list only grows: the update appends its one error
    line, if it has one, and keeps every line that was there. *)
Theorem updateJobProgress_targets_and_errors (now : nat) (u : Update) (job : Job) :
  (u_currentTarget u = None -> target_names (updated now u job) = target_names job)
  /\ (forall c, u_currentTarget u = Some c ->
        (In (Current.name c) (target_names job) ->
         target_names (updated now u job) = target_names job)
        /\ (~ In (Current.name c) (target_names job) ->
            target_names (updated now u job)
            = (target_names job ++ [Current.name c])%list)
        /\ exists t, In t (targets (updated now u job))
                     /\ Target.name t = Current.name c
                     /\ Target.status t = Current.status c)
  /\ (NoDup (target_names job) -> NoDup (target_names (updated now u job)))
  /\ errors (updated now u job) = (errors job ++ error_line u)%list
  /\ List.length (error_line u) <= 1.
Proof.
  unfold target_names. rewrite updated_targets.
  assert (Hex : forall c,
             existsb (String.eqb (Current.name c)) (map Target.name (targets job)) = true
             <-> In (Current.name c) (map Target.name (targets job))).
  { intros c. rewrite existsb_exists. split.
    - intros (x & Hin & E). apply String.eqb_eq in E. now subst.
    - intros Hin. exists (Current.name c). split; auto. apply String.eqb_refl. }
  split; [now intros ->|]. split; [|split; [|split]].
  - intros c ->. rewrite upsert_target_names. split; [|split].
    + intros Hin. apply Hex in Hin. now rewrite Hin.
    + intros Hnot.
      destruct (existsb _ _) eqn:E; [|reflexivity].
      apply Hex in E. contradiction.
    + apply upsert_target_holds.
  - intros Hnd. destruct (u_currentTarget u) as [c|]; [|assumption].
    rewrite upsert_target_names.
    destruct (existsb _ _) eqn:E; [assumption|].
    apply NoDup_snoc; auto. intros Hin. apply Hex in Hin. congruence.
  - apply updated_errors.
  - unfold error_line. destruct (u_currentTarget u) as [c|]; simpl; auto.
    destruct (Current.error c) as [[|? ?]|]; simpl; auto.
Qed.

Lemma update_trace_errors now jobId updates : forall jobs job,
  getJob jobId jobs = Some job ->
  map errors (update_trace now jobId updates jobs)
  = map (fun k => (errors job ++ flat_map error_line (firstn k updates))%list)
        (seq 1 (List.length updates)).
Proof.
  revert now. induction updates as [|u rest IH]; intros now jobs job Hjob;
    [reflexivity|].
  destruct (ProgressFacts.update_trace_cons now jobId u rest jobs job Hjob)
    as [Hcons Hnext].
  rewrite Hcons. cbn [map List.length seq]. apply (f_equal2 cons).
  - cbn [firstn flat_map]. rewrite updated_errors. now rewrite app_nil_r.
  - rewrite (IH (S now) _ _ Hnext). rewrite <- (seq_shift _ 1), map_map.
    apply map_ext. intros k. cbn [firstn flat_map].
    now rewrite updated_errors, app_assoc.
Qed.

(** X12: along any sequence of [updateJobProgress] calls on a job the tracker
    holds, every call returns the job, the error list after the k-th call
    is the initial list followed by the error lines of the first k
    updates, and target names that were distinct stay distinct. *)
Theorem update_sequence_keeps_history
  (now : nat) (jobId : string) (jobs : store) (job : Job) (updates : list Update) :
  getJob jobId jobs = Some job ->
  let trace := update_trace now jobId updates jobs in
  List.length trace = List.length updates
  /\ map errors trace
     = map (fun k => (errors job ++ flat_map error_line (firstn k updates))%list)
           (seq 1 (List.length updates))
  /\ (NoDup (target_names job) ->
      Forall (fun j => NoDup (target_names j)) trace).
Proof.
  intros Hjob trace. split; [|split].
  - pose proof (update_trace_errors now jobId updates jobs job Hjob) as H.
    apply (f_equal (@List.length _)) in H.
    now rewrite !length_map, length_seq in H.
  - now apply update_trace_errors.
  - unfold trace. clear trace. revert now jobs job Hjob.
    induction updates as [|u rest IH]; intros now jobs job Hjob Hnd; [constructor|].
    destruct (ProgressFacts.update_trace_cons now jobId u rest jobs job Hjob)
      as [Hcons Hnext].
    rewrite Hcons.
    assert (Hnd' : NoDup (target_names (updated now u job))).
    { unfold target_names in *. rewrite updated_targets.
      destruct (u_currentTarget u) as [c|]; [|assumption].
      rewrite upsert_target_names.
      destruct (existsb _ _) eqn:E; [assumption|].
      apply NoDup_snoc; auto. intros Hin.
      assert (Ht : existsb (String.eqb (Current.name c))
                     (map Target.name (targets job)) = true).
      { apply existsb_exists. exists (Current.name c). split; auto.
        apply String.eqb_refl. }
      congruence. }
    constructor; [exact Hnd'|]. now apply (IH (S now) _ _ Hnext).
Qed.

Lemma update_sequence_keeps_history_witness :
  map errors
    (update_trace 2 "job_4"
       [mkUpdate None None (Some 1) None
          (Some (Current.mk "a.jpg" failed (Some "ENOENT") None));
        mkUpdate (Some 1) None None None
          (Some (Current.mk "b.jpg" running None None))]
       Samples.jobs_batch_40)
  = [["a.jpg: ENOENT"]; ["a.jpg: ENOENT"]].
Proof.
  assert (Hjob : getJob "job_4" Samples.jobs_batch_40 = Some Samples.job_40)
    by (vm_compute; reflexivity).
  destruct (update_sequence_keeps_history 2 "job_4" Samples.jobs_batch_40
              Samples.job_40
              [mkUpdate None None (Some 1) None
                 (Some (Current.mk "a.jpg" failed (Some "ENOENT") None));
               mkUpdate (Some 1) None None None
                 (Some (Current.mk "b.jpg" running None None))] Hjob)
    as (_ & H & _).
  rewrite H. vm_compute. reflexivity.
Defined.

(** X13: A job that is created, started and completed: after [createJob] it
    is pending with progress 0 and all counters 0; [startJob] makes it
    running; [completeJob] gives it the status asked for, progress 100 and
    [duration = completedAt - startedAt].  The message given is stored; a
    missing or empty message is replaced by the default summary.  A job
    completed without having been started gets no duration. *)
Theorem job_lifecycle
  (t0 t1 t2 : nat) (newId : string) (params : CreateParams) (jobs : store)
  (outcome : Outcome) (message : option string) :
  let jobs1 := snd (createJob t0 newId params jobs) in
  let jobs2 := snd (startJob t1 newId jobs1) in
  let jobs3 := snd (completeJob t2 newId outcome message jobs2) in
  (exists j, getJob newId jobs1 = Some j
             /\ j = fst (createJob t0 newId params jobs)
             /\ status j = pending /\ progress j = int 0
             /\ totalItems j = c_totalItems params
             /\ processedItems j = 0 /\ successCount j = 0 /\ errorCount j = 0
             /\ createdAt j = t0 /\ startedAt j = None /\ targets j = []
             /\ errors j = [])
  /\ (exists j, getJob newId jobs2 = Some j
                /\ status j = running /\ startedAt j = Some t1
                /\ progress j = int 0 /\ createdAt j = t0)
  /\ (exists j, getJob newId jobs3 = Some j
                /\ status j = Outcome_status outcome
                /\ progress j = int 100
                /\ completedAt j = Some t2
                /\ duration j = Some (Z.of_nat t2 - Z.of_nat t1)%Z
                /\ totalItems j = c_totalItems params
                /\ statusMessage j
                   = if truthy_opt message
                     then match message with Some m => m | None => "" end
                     else match outcome with
                          | Completed => "Completed: 0 succeeded, 0 failed"
                          | Failed => "Failed: 0 errors"
                          end)
  /\ (exists j, getJob newId (snd (completeJob t2 newId outcome message jobs1)) = Some j
                /\ status j = Outcome_status outcome
                /\ duration j = None).
Proof.
  intros jobs1 jobs2 jobs3.
  assert (H1 : getJob newId jobs1 = Some (fst (createJob t0 newId params jobs))).
  { unfold jobs1, createJob, getJob. cbn [fst snd id]. apply get_set_same. }
  assert (H2 : getJob newId jobs2
               = Some (started t1 (fst (createJob t0 newId params jobs)))).
  { unfold jobs2. rewrite getJob_startJob, String.eqb_refl, H1. reflexivity. }
  split; [|split; [|split]].
  - eexists. split; [exact H1|]. repeat split.
  - eexists. split; [exact H2|]. repeat split.
  - eexists. split.
    + unfold jobs3. rewrite getJob_completeJob, String.eqb_refl, H2. reflexivity.
    + repeat split.
  - eexists. split.
    + rewrite getJob_completeJob, String.eqb_refl, H1. reflexivity.
    + split; reflexivity.
Qed.

(** X14: the [DELETE /api/jobs/[jobId]] handler on a job the tracker holds:
    without [remove], a pending or running job becomes cancelled (with
    [completedAt] set and its progress and counters kept) and a job in a
    terminal state is left exactly as it is; with [remove=true] the job is
    gone afterwards, whatever its state was. *)
Theorem cancelOrRemove_spec (now : nat) (jobId : string) (jobs : store) (job : Job) :
  getJob jobId jobs = Some job ->
  getJob jobId (cancelOrRemove now jobId true jobs) = None
  /\ (is_terminal (status job) = true -> cancelOrRemove now jobId false jobs = jobs)
  /\ (is_terminal (status job) = false ->
      exists j, getJob jobId (cancelOrRemove now jobId false jobs) = Some j
                /\ status j = cancelled
                /\ completedAt j = Some now
                /\ statusMessage j = "Job cancelled by user"
                /\ progress j = progress job
                /\ processedItems j = processedItems job
                /\ successCount j = successCount job
                /\ errorCount j = errorCount job
                /\ targets j = targets job
                /\ keys (cancelOrRemove now jobId false jobs) = keys jobs).
Proof.
  intros Hjob. unfold cancelOrRemove. rewrite Hjob. split; [|split].
  - apply get_delete_same.
  - destruct (status job); cbn; congruence.
  - intros Hrun. unfold getJob in *.
    assert (Hk : forall j, keys (set jobId j jobs) = keys jobs)
      by (intros j; now apply (keys_set_present _ _ job)).
    destruct (status job); try discriminate;
      (eexists; split; [apply get_set_same|]; repeat split; apply Hk).
Qed.

Lemma cancelOrRemove_spec_witness :
  option_map status (getJob "job_4" (cancelOrRemove 5 "job_4" false Samples.jobs_batch_40))
  = Some cancelled
  /\ getJob "job_4" (cancelOrRemove 5 "job_4" true Samples.jobs_batch_40) = None.
Proof.
  assert (Hjob : getJob "job_4" Samples.jobs_batch_40 = Some Samples.job_40)
    by (vm_compute; reflexivity).
  destruct (cancelOrRemove_spec 5 "job_4" Samples.jobs_batch_40 Samples.job_40 Hjob)
    as (Hgone & _ & Hcancel).
  split; [|exact Hgone].
  destruct (Hcancel eq_refl) as (j & Hj & Hs & _). now rewrite Hj, <- Hs.
Defined.

End TrackerFacts.

(* ================================================================== *)
(** ** Projects *)
(* ================================================================== *)

Module ProjectFacts.
Import JsString JsMap JsMapFacts JsArray Storage ProjectService ProjectOps.
Import SortFacts StoreFacts.

(** X15: [createProject] stores a project with all counters at 0 and status
    [created] under the new id and leaves the other projects alone;
    [getProjects] lists every entry of any store once, latest [updatedAt]
    first, entries updated at the same instant in insertion order. *)
Theorem createProject_and_listing
  (now now' : nat) (newId name folderPath description : string) (ps : projects) :
  let created := createProject now now' newId name folderPath description ps in
  getProject newId (snd created) = Some (snd (fst created))
  /\ fst (fst created) = newId
  /\ imageCount (snd (fst created)) = 0
  /\ analyzedCount (snd (fst created)) = 0
  /\ renamedCount (snd (fst created)) = 0
  /\ p_status (snd (fst created)) = "created"
  /\ (forall q, q <> newId -> getProject q (snd created) = getProject q ps)
  /\ (forall store : projects,
        Permutation (getProjects store) store
        /\ StronglySorted (newest_first (fun p => updatedAt (snd p)))
             (getProjects store)
        /\ (forall t, filter (fun p => updatedAt (snd p) =? t) (getProjects store)
                      = filter (fun p => updatedAt (snd p) =? t) store)).
Proof.
  intros created. unfold created, createProject, getProject, getProjects.
  cbn [fst snd]. repeat split.
  - apply get_set_same.
  - intros q Hq. apply get_set_other. congruence.
  - apply sort_newest_first_perm.
  - apply sort_newest_first_sorted.
  - intros t. apply sort_newest_first_stable.
Qed.

(** X16: [deleteProject] always reports success; afterwards the project is
    unknown and has no image records, every other project and its records
    are as before, and neither the jobs of the deleted project nor any
    file on disk are touched. *)
Theorem deleteProject_spec (pid : string) (w : World.t) :
  let deleted := deleteProject pid w in
  fst deleted = true
  /\ getProject pid (World.projects (snd deleted)) = None
  /\ getProjectImages pid (World.images (snd deleted)) = []
  /\ (forall q, q <> pid ->
        getProject q (World.projects (snd deleted)) = getProject q (World.projects w)
        /\ getProjectImages q (World.images (snd deleted))
           = getProjectImages q (World.images w))
  /\ World.jobs (snd deleted) = World.jobs w
  /\ World.disk (snd deleted) = World.disk w.
Proof.
  intros deleted. unfold deleted, deleteProject. cbn. repeat split.
  - apply get_delete_same.
  - apply ScanFaultFacts.getProjectImages_clear.
  - apply get_delete_other. congruence.
  - now apply getProjectImages_clear_other.
Qed.

(** X17: [updateProjectStats] adds to [analyzedCount] and [renamedCount] and
    overwrites [imageCount]: after two calls the two increments have
    accumulated, the image count is the one given last, and [updatedAt] is
    the time of the second call.  On an unknown project it changes
    nothing. *)
Theorem updateProjectStats_accumulates
  (t1 t2 : nat) (pid : string) (c1 a1 r1 c2 a2 r2 : option nat) (ps : projects) :
  let add (o : option nat) := match o with Some n => n | None => 0 end in
  let ps' := updateProjectStats t2 pid c2 a2 r2 (updateProjectStats t1 pid c1 a1 r1 ps) in
  (getProject pid ps = None -> ps' = ps)
  /\ (forall p, getProject pid ps = Some p ->
        exists p', getProject pid ps' = Some p'
                   /\ analyzedCount p' = analyzedCount p + add a1 + add a2
                   /\ renamedCount p' = renamedCount p + add r1 + add r2
                   /\ imageCount p'
                      = match c2, c1 with
                        | Some n, _ => n
                        | None, Some n => n
                        | None, None => imageCount p
                        end
                   /\ updatedAt p' = t2
                   /\ name p' = name p /\ folderPath p' = folderPath p
                   /\ p_status p' = p_status p
                   /\ keys ps' = keys ps)
  /\ (forall q, q <> pid -> getProject q ps' = getProject q ps).
Proof.
  intros add ps'. unfold ps', updateProjectStats, getProject.
  split; [|split].
  - intros Hnone. now rewrite !Hnone.
  - intros p Hp. rewrite Hp, get_set_same.
    eexists. split; [apply get_set_same|].
    cbn [analyzedCount renamedCount imageCount updatedAt name folderPath p_status].
    split; [destruct a1, a2; cbn; lia|].
    split; [destruct r1, r2; cbn; lia|].
    split; [destruct c1, c2; reflexivity|].
    do 4 (split; [reflexivity|]).
    rewrite (keys_set_present pid _ _ _ (get_set_same pid _ ps)).
    now apply (keys_set_present _ _ p).
  - intros q Hq.
    destruct (get pid ps) as [p|] eqn:Hp.
    + rewrite get_set_same, !get_set_other by congruence. reflexivity.
    + rewrite Hp. reflexivity.
Qed.

End ProjectFacts.

(* ================================================================== *)
(** ** Cleaning data for Firestore *)
(* ================================================================== *)

Module FirestoreFacts.
Import JsString FirestoreUtils.

(** Induction on values, with the hypothesis for every item of an array
    and every field of an object. *)
Lemma value_nested_ind (P : value -> Prop) :
  P VUndefined -> P VNull -> (forall t, P (VPrimitive t)) ->
  (forall k, P (VSpecial k)) ->
  (forall items, Forall P items -> P (VArray items)) ->
  (forall entries, Forall (fun kv => P (snd kv)) entries -> P (VObject entries)) ->
  forall v, P v.
Proof.
  intros Hu Hn Hp Hs Ha Ho.
  fix IH 1. intros [| |t|k|items|entries].
  - exact Hu.
  - exact Hn.
  - apply Hp.
  - apply Hs.
  - apply Ha. induction items as [|x l IHl]; constructor; [apply IH|exact IHl].
  - apply Ho. induction entries as [|[k v] l IHl]; constructor; [apply IH|exact IHl].
Qed.

(** The map over the items of an array, and the loop over the entries of
    an object, as [removeUndefined] runs them. *)
Lemma removeUndefined_array items :
  removeUndefined (VArray items)
  = VArray (map (fun item => if array_item_is_cleaned item
                             then removeUndefined item else item) items).
Proof. reflexivity. Qed.

Lemma removeUndefined_object_nil : removeUndefined (VObject []) = VObject [].
Proof. reflexivity. Qed.

Lemma removeUndefined_is_object entries :
  exists es, removeUndefined (VObject entries) = VObject es.
Proof. eexists. reflexivity. Qed.

Lemma removeUndefined_object_cons key v rest es :
  removeUndefined (VObject rest) = VObject es ->
  removeUndefined (VObject ((key, v) :: rest))
  = VObject
      match v with
      | VUndefined => es
      | VNull => (key, VNull) :: es
      | VArray _ => (key, removeUndefined v) :: es
      | VObject _ =>
          if has_keys (removeUndefined v) then (key, removeUndefined v) :: es else es
      | VPrimitive _ | VSpecial _ => (key, v) :: es
      end.
Proof.
  intros H. cbn [removeUndefined] in H. inversion H as [Hes].
  cbn [removeUndefined]. rewrite Hes.
  destruct v as [| |t|k|items|entries]; reflexivity.
Qed.

Lemma clean_item_kind item :
  array_item_is_cleaned (removeUndefined item) = array_item_is_cleaned item.
Proof. destruct item as [| |t|[| |]|items|entries]; reflexivity. Qed.

(** X18: cleaning is idempotent: [removeUndefined] applied to its own result
    changes nothing, and so does [prepareForFirestore]. *)
Theorem removeUndefined_idempotent (v : value) :
  removeUndefined (removeUndefined v) = removeUndefined v
  /\ fst (prepareForFirestore (fst (prepareForFirestore v)))
     = fst (prepareForFirestore v).
Proof.
  assert (Htwice : forall v, removeUndefined (removeUndefined v) = removeUndefined v).
  { clear v. intros v.
  induction v as [| |t|k|items IH|entries IH] using value_nested_ind;
    try reflexivity.
    - rewrite removeUndefined_array, removeUndefined_array, map_map. f_equal.
      apply map_ext_in. intros item Hin. rewrite Forall_forall in IH.
      destruct (array_item_is_cleaned item) eqn:E.
      + now rewrite clean_item_kind, E, IH.
      + now rewrite E.
    - induction entries as [|[key v] rest IHrest]; [reflexivity|].
    inversion IH as [|? ? Hv Hrest]; subst. cbn [snd] in Hv.
    specialize (IHrest Hrest).
    destruct (removeUndefined_is_object rest) as [es Hes].
    rewrite Hes in IHrest.
    rewrite (removeUndefined_object_cons key v rest es Hes).
    destruct v as [| |t|k|items|nested].
    + exact IHrest.
    + now rewrite (removeUndefined_object_cons key VNull es es IHrest).
    + now rewrite (removeUndefined_object_cons key (VPrimitive t) es es IHrest).
    + now rewrite (removeUndefined_object_cons key (VSpecial k) es es IHrest).
    + rewrite removeUndefined_array in *.
      rewrite (removeUndefined_object_cons key _ es es IHrest).
      rewrite removeUndefined_array in Hv |- *. now rewrite Hv.
    + destruct (removeUndefined_is_object nested) as [ns Hns].
      rewrite Hns in *. destruct (has_keys (VObject ns)) eqn:K; [|exact IHrest].
      rewrite (removeUndefined_object_cons key (VObject ns) es es IHrest).
      now rewrite Hv, K. }
  split; [apply Htwice|].
  destruct v as [| |t|k|items|entries]; try reflexivity.
  - unfold prepareForFirestore. cbn [fst]. rewrite removeUndefined_array.
    cbn [fst]. rewrite <- removeUndefined_array. apply Htwice.
  - unfold prepareForFirestore at 2 3. cbn [fst].
    destruct (removeUndefined_is_object entries) as [es Hes].
    rewrite Hes. unfold prepareForFirestore. cbn [fst]. rewrite <- Hes. apply Htwice.
Qed.

Lemma array_scan_none path items :
  Forall (fun item => forall p, hasUndefinedValue item p = None) items ->
  forall i,
    (fix scan (l : list value) (i : nat) : option string :=
       match l with
       | [] => None
       | item :: rest =>
           let result := hasUndefinedValue item (index_path path i) in
           if truthy_opt result then result else scan rest (S i)
       end) items i = None.
Proof.
  induction 1 as [|item rest Hitem _ IH]; intros i; [reflexivity|].
  cbn zeta. rewrite Hitem. cbn [truthy_opt]. apply IH.
Qed.

Lemma hasUndefinedValue_object_cons path key v rest :
  hasUndefinedValue (VObject ((key, v) :: rest)) path
  = match v with
    | VUndefined => Some (key_path path key)
    | _ =>
        if truthy_opt (hasUndefinedValue v (key_path path key))
        then hasUndefinedValue v (key_path path key)
        else hasUndefinedValue (VObject rest) path
    end.
Proof. destruct v; reflexivity. Qed.

Lemma object_scan_none path es :
  Forall (fun kv => snd kv <> VUndefined
                    /\ forall p, hasUndefinedValue (snd kv) p = None) es ->
  hasUndefinedValue (VObject es) path = None.
Proof.
  induction 1 as [|[key v] rest [Hdef Hv] _ IH]; [reflexivity|].
  cbn [snd] in *. rewrite hasUndefinedValue_object_cons, Hv. cbn [truthy_opt].
  destruct v; try contradiction; exact IH.
Qed.

(** After cleaning, the check of [prepareForFirestore] finds nothing,
    provided no array of the data holds [undefined]. *)
Lemma cleaned_has_no_undefined v :
  arrays_defined v = true -> v <> VUndefined ->
  forall path, hasUndefinedValue (removeUndefined v) path = None.
Proof.
  induction v as [| |t|k|items IH|entries IH] using value_nested_ind;
    intros Harr Hdef path; try reflexivity; try contradiction.
  - rewrite removeUndefined_array. cbn [hasUndefinedValue].
    apply array_scan_none. apply Forall_map.
    cbn [arrays_defined] in Harr. rewrite forallb_forall in Harr.
    rewrite Forall_forall in *. intros item Hin p.
    specialize (Harr item Hin). specialize (IH item Hin).
    destruct item as [| |t|[| |]|its|ens]; try discriminate; try reflexivity;
      cbn [array_item_is_cleaned]; apply IH; auto; discriminate.
  - destruct (removeUndefined_is_object entries) as [es0 Hes0]. rewrite Hes0.
    apply object_scan_none. revert es0 Hes0.
    induction entries as [|[key v] rest IHrest]; intros es0 Hes0.
    + rewrite removeUndefined_object_nil in Hes0. inversion Hes0. constructor.
    + inversion IH as [|? ? Hv Hrest]; subst. cbn [snd] in Hv.
      cbn [arrays_defined forallb snd] in Harr. apply andb_prop in Harr as [Hv' Hrest'].
      destruct (removeUndefined_is_object rest) as [es Hes].
      assert (Htail : Forall (fun kv => snd kv <> VUndefined
                                        /\ forall p, hasUndefinedValue (snd kv) p = None)
                        es).
      { apply IHrest; auto. discriminate. }
      rewrite (removeUndefined_object_cons key v rest es Hes) in Hes0.
      inversion Hes0 as [Hes0']. clear Hes0.
      destruct v as [| |t|k|items|nested]; try exact Htail.
      * constructor; [|exact Htail]. cbn. split; [discriminate|reflexivity].
      * constructor; [|exact Htail]. cbn. split; [discriminate|reflexivity].
      * constructor; [|exact Htail]. cbn. split; [discriminate|reflexivity].
      * constructor; [|exact Htail]. cbn [snd].
        split; [rewrite removeUndefined_array; discriminate|].
        apply Hv; auto. discriminate.
      * destruct (has_keys (removeUndefined (VObject nested))); [|exact Htail].
        constructor; [|exact Htail]. cbn [snd].
        destruct (removeUndefined_is_object nested) as [ns Hns].
        split; [rewrite Hns; discriminate|].
        apply Hv; auto. discriminate.
Qed.

(** X19: when no array of the data holds [undefined], the data
    [prepareForFirestore] returns has no undefined value left at any depth:
    its own check finds nothing and no warning is logged.  An [undefined]
    inside an array is not removed, and is what the warning reports. *)
Theorem prepareForFirestore_leaves_no_undefined (v : value) :
  arrays_defined v = true ->
  snd (prepareForFirestore v) = None
  /\ (v <> VUndefined ->
      forall path, hasUndefinedValue (fst (prepareForFirestore v)) path = None)
  /\ prepareForFirestore (VObject [("tags", VArray [VPrimitive "a"; VUndefined])])
     = (VObject [("tags", VArray [VPrimitive "a"; VUndefined])], Some "tags[1]").
Proof.
  intros Harr. split; [|split; [|reflexivity]].
  - destruct v as [| |t|k|items|entries]; try reflexivity;
      unfold prepareForFirestore; cbn [snd];
      rewrite cleaned_has_no_undefined; auto; discriminate.
  - intros Hdef path.
    destruct v as [| |t|k|items|entries]; try reflexivity; try contradiction;
      unfold prepareForFirestore; cbn [fst];
      apply cleaned_has_no_undefined; auto.
Qed.

Lemma prepareForFirestore_leaves_no_undefined_witness :
  prepareForFirestore job_document
  = (VObject
       [("id", VPrimitive "job_1");
        ("targets", VArray [VObject [("name", VPrimitive "a.jpg")]]);
        ("completedAt", VNull)],
     None).
Proof.
  assert (Harr : arrays_defined job_document = true) by reflexivity.
  destruct (prepareForFirestore_leaves_no_undefined job_document Harr) as [Hwarn _].
  rewrite (surjective_pairing (prepareForFirestore job_document)), Hwarn.
  reflexivity.
Defined.

(** X20: what [removeUndefined] does to the fields of an object: no field of
    the result is [undefined] or an empty plain object; every field of the
    result comes from a field of the same name; fields holding [null], a
    primitive, a date or a buffer are all kept as they are.  An array
    keeps its length. *)
Theorem removeUndefined_fields (entries : list (string * value)) (items : list value) :
  (exists es,
     removeUndefined (VObject entries) = VObject es
     /\ Forall (fun kv => snd kv <> VUndefined /\ snd kv <> VObject []) es
     /\ (forall key v', In (key, v') es ->
           exists v, In (key, v) entries /\ v' = removeUndefined v)
     /\ (forall key v, In (key, v) entries ->
           array_item_is_cleaned v = false \/ v = VSpecial Buffer
           \/ v = VSpecial Uint8Array ->
           v <> VUndefined -> In (key, v) es))
  /\ (exists its, removeUndefined (VArray items) = VArray its
                  /\ List.length its = List.length items).
Proof.
  split.
  - induction entries as [|[key v] rest IH].
    + exists []. repeat split; try constructor; intros ? ? [].
    + destruct IH as (es & Hes & Hclean & Hfrom & Hkept).
      rewrite (removeUndefined_object_cons key v rest es Hes).
      assert (Hfrom' : forall k v', In (k, v') es ->
                 exists v0, In (k, v0) ((key, v) :: rest) /\ v' = removeUndefined v0).
      { intros k v' Hin. destruct (Hfrom k v' Hin) as (v0 & Hin0 & E).
        exists v0. split; [now right|exact E]. }
      assert (Hcons : forall v1,
                 v1 = removeUndefined v -> v1 <> VUndefined -> v1 <> VObject [] ->
                 (v <> VUndefined ->
                  array_item_is_cleaned v = false \/ v = VSpecial Buffer
                  \/ v = VSpecial Uint8Array -> v1 = v) ->
                 Forall (fun kv => snd kv <> VUndefined /\ snd kv <> VObject [])
                   ((key, v1) :: es)
                 /\ (forall k v', In (k, v') ((key, v1) :: es) ->
                       exists v0, In (k, v0) ((key, v) :: rest)
                                  /\ v' = removeUndefined v0)
                 /\ (forall k v0, In (k, v0) ((key, v) :: rest) ->
                       array_item_is_cleaned v0 = false \/ v0 = VSpecial Buffer
                       \/ v0 = VSpecial Uint8Array ->
                       v0 <> VUndefined -> In (k, v0) ((key, v1) :: es))).
      { intros v1 E1 Hu Ho Hsame. split; [|split].
        - constructor; auto.
        - intros k v' [E|Hin]; [|now apply Hfrom'].
          inversion E; subst. exists v. split; [now left|reflexivity].
        - intros k v0 [E|Hin] Hkind Hdef.
          + inversion E; subst. left. f_equal. now apply Hsame.
          + right. now apply Hkept. }
      assert (Hskip : (v = VUndefined \/ exists n, v = VObject n) ->
                 Forall (fun kv => snd kv <> VUndefined /\ snd kv <> VObject []) es
                 /\ (forall k v', In (k, v') es ->
                       exists v0, In (k, v0) ((key, v) :: rest)
                                  /\ v' = removeUndefined v0)
                 /\ (forall k v0, In (k, v0) ((key, v) :: rest) ->
                       array_item_is_cleaned v0 = false \/ v0 = VSpecial Buffer
                       \/ v0 = VSpecial Uint8Array ->
                       v0 <> VUndefined -> In (k, v0) es)).
      { intros Hv. split; [exact Hclean|]. split; [exact Hfrom'|].
        intros k v0 [E|Hin] Hkind Hdef; [|now apply Hkept].
        inversion E; subst. exfalso.
        destruct Hv as [->|[n ->]]; [now apply Hdef|].
        destruct Hkind as [H|[H|H]]; discriminate. }
      destruct v as [| |t|k|its|nested].
      * exists es. split; [reflexivity|]. apply Hskip. now left.
      * eexists. split; [reflexivity|]. apply Hcons; auto; discriminate.
      * eexists. split; [reflexivity|]. apply Hcons; auto; discriminate.
      * eexists. split; [reflexivity|]. apply Hcons; auto; discriminate.
      * eexists. split; [reflexivity|]. apply Hcons; auto;
          try (rewrite removeUndefined_array; discriminate).
        intros _ [H|[H|H]]; discriminate.
      * destruct (removeUndefined_is_object nested) as [ns Hns].
        rewrite Hns. destruct ns as [|n ns]; cbn [has_keys].
        -- exists es. split; [reflexivity|]. apply Hskip. right. now exists nested.
        -- eexists. split; [reflexivity|]. apply Hcons; auto; try discriminate.
           intros _ [H|[H|H]]; discriminate.
  - exists (map (fun item => if array_item_is_cleaned item
                             then removeUndefined item else item) items).
    split; [reflexivity|apply length_map].
Qed.

End FirestoreFacts.

(* ================================================================== *)
(** ** Image headers *)
(* ================================================================== *)

Module ImageFacts.
Import JsString ImageUtils.
Local Open Scope Z_scope.

Lemma u8_range b : 0 <= u8 b < 256.
Proof.
  unfold u8. destruct b as [[|] [|] [|] [|] [|] [|] [|] [|]]; vm_compute;
    split; congruence.
Qed.

Lemma byte_at_in buffer i :
  (i < List.length buffer)%nat -> exists b, byte_at buffer i = Some b /\ 0 <= b < 256.
Proof.
  intros Hi. unfold byte_at.
  destruct (nth_error buffer i) as [a|] eqn:E.
  - exists (u8 a). split; [reflexivity|apply u8_range].
  - apply nth_error_None in E. lia.
Qed.

Lemma readUInt16BE_in buffer offset :
  (offset + 1 < List.length buffer)%nat ->
  exists v, readUInt16BE buffer offset = Some v /\ 0 <= v < 65536.
Proof.
  intros H. unfold readUInt16BE.
  destruct (byte_at_in buffer offset) as (a & -> & Ha); [lia|].
  destruct (byte_at_in buffer (offset + 1)) as (b & -> & Hb); [lia|].
  eexists. split; [reflexivity|lia].
Qed.

Lemma readUInt16LE_in buffer offset :
  (offset + 1 < List.length buffer)%nat ->
  exists v, readUInt16LE buffer offset = Some v /\ 0 <= v < 65536.
Proof.
  intros H. unfold readUInt16LE.
  destruct (byte_at_in buffer offset) as (a & -> & Ha); [lia|].
  destruct (byte_at_in buffer (offset + 1)) as (b & -> & Hb); [lia|].
  eexists. split; [reflexivity|lia].
Qed.

Lemma readUInt32BE_in buffer offset :
  (offset + 3 < List.length buffer)%nat ->
  exists v, readUInt32BE buffer offset = Some v /\ 0 <= v < 2 ^ 32.
Proof.
  intros H. unfold readUInt32BE.
  destruct (readUInt16BE_in buffer offset) as (a & -> & Ha); [lia|].
  destruct (readUInt16BE_in buffer (offset + 2)) as (b & -> & Hb); [lia|].
  eexists. split; [reflexivity|]. change (2 ^ 32) with 4294967296. lia.
Qed.

Lemma readUInt32LE_in buffer offset :
  (offset + 3 < List.length buffer)%nat ->
  exists v, readUInt32LE buffer offset = Some v /\ 0 <= v < 2 ^ 32.
Proof.
  intros H. unfold readUInt32LE.
  destruct (readUInt16LE_in buffer offset) as (a & -> & Ha); [lia|].
  destruct (readUInt16LE_in buffer (offset + 2)) as (b & -> & Hb); [lia|].
  eexists. split; [reflexivity|]. change (2 ^ 32) with 4294967296. lia.
Qed.

Lemma readInt32LE_in buffer offset :
  (offset + 3 < List.length buffer)%nat ->
  exists v, readInt32LE buffer offset = Some v /\ - 2 ^ 31 <= v < 2 ^ 31.
Proof.
  intros H. unfold readInt32LE.
  destruct (readUInt32LE_in buffer offset) as (u & -> & Hu); [lia|].
  eexists. split; [reflexivity|].
  change (2 ^ 32) with 4294967296 in *. change (2 ^ 31) with 2147483648.
  destruct (u <? 2147483648) eqn:E; [apply Z.ltb_lt in E|apply Z.ltb_ge in E]; lia.
Qed.

Lemma marker_test (m : option Z) (x : Z) :
  match m with Some b => (b =? x) | None => false end = true <-> m = Some x.
Proof.
  destruct m as [b|]; [|split; discriminate].
  rewrite Z.eqb_eq. split; [now intros ->|now inversion 1].
Qed.

(** With at least [length - i] rounds the loop ends, without an
    exception, and dimensions it returns were read at a frame marker. *)
Lemma jpeg_scan_enough buffer : forall fuel i,
  (2 <= i)%nat -> (List.length buffer <= fuel + i + 9)%nat ->
  exists result,
    jpeg_scan fuel buffer i = Some result
    /\ result <> Thrown
    /\ (forall w h, result = Dimensions w h ->
          exists k, (i <= k)%nat /\ sof_at buffer k w h).
Proof.
  induction fuel as [|fuel IH]; intros i Hi Hfuel.
  - exists Nothing. cbn [jpeg_scan].
    destruct (i + 9 <? List.length buffer)%nat eqn:E.
    + apply Nat.ltb_lt in E. lia.
    + split; [reflexivity|]. split; discriminate.
  - cbn [jpeg_scan].
    destruct (i + 9 <? List.length buffer)%nat eqn:E.
    2:{ exists Nothing. split; [reflexivity|]. split; discriminate. }
    apply Nat.ltb_lt in E.
    assert (Hnext : forall j, (i < j)%nat ->
               exists result,
                 jpeg_scan fuel buffer j = Some result /\ result <> Thrown
                 /\ (forall w h, result = Dimensions w h ->
                       exists k, (i <= k)%nat /\ sof_at buffer k w h)).
    { intros j Hj. destruct (IH j) as (r & Hr & Hn & Hd); [lia|lia|].
      exists r. repeat split; auto. intros w h Hwh.
      destruct (Hd w h Hwh) as (k & Hk & Hs). exists k. split; [lia|exact Hs]. }
    destruct (match byte_at buffer i with Some b => b =? 255 | None => false end)
      eqn:Hff; [|apply Hnext; lia].
    apply marker_test in Hff.
    destruct ((match byte_at buffer (i + 1) with Some b => b =? 192 | None => false end)
              || (match byte_at buffer (i + 1) with Some b => b =? 194 | None => false end))
      eqn:Hsof.
    + destruct (readUInt16BE_in buffer (i + 5)) as (h & Hh & Hhr); [lia|].
      destruct (readUInt16BE_in buffer (i + 7)) as (w & Hw & Hwr); [lia|].
      rewrite Hh, Hw. exists (Dimensions w h).
      split; [reflexivity|]. split; [discriminate|].
      intros w' h' Eq. inversion Eq; subst. exists i. split; [lia|].
      apply orb_prop in Hsof. unfold sof_at.
      repeat split; auto; try lia.
      destruct Hsof as [H|H]; apply marker_test in H; auto.
    + destruct ((match byte_at buffer (i + 1) with Some b => b =? 216 | None => false end)
                || (match byte_at buffer (i + 1) with Some b => b =? 217 | None => false end));
        [apply Hnext; lia|].
      destruct (readUInt16BE_in buffer (i + 2)) as (len & Hlen & Hlr); [lia|].
      rewrite Hlen. apply Hnext. lia.
Qed.

Lemma jpeg_scan_short fuel buffer i :
  (List.length buffer <= i + 9)%nat -> jpeg_scan fuel buffer i = Some Nothing.
Proof.
  intros H. assert (E : (i + 9 <? List.length buffer)%nat = false)
    by (apply Nat.ltb_ge; lia).
  destruct fuel; cbn [jpeg_scan]; now rewrite E.
Qed.

Lemma jpeg_scan_more_fuel buffer : forall fuel i result,
  jpeg_scan fuel buffer i = Some result ->
  forall fuel', (fuel <= fuel')%nat -> jpeg_scan fuel' buffer i = Some result.
Proof.
  induction fuel as [|fuel IH]; intros i result H fuel' Hle.
  - cbn [jpeg_scan] in H. destruct fuel' as [|fuel']; [exact H|].
    cbn [jpeg_scan]. destruct (i + 9 <? List.length buffer)%nat; [discriminate|exact H].
  - destruct fuel' as [|fuel']; [lia|].
  cbn [jpeg_scan] in *.
  destruct (i + 9 <? List.length buffer)%nat; [|exact H].
  destruct (match byte_at buffer i with Some b => b =? 255 | None => false end);
    [|apply (IH _ _ H); lia].
  destruct ((match byte_at buffer (i + 1) with Some b => b =? 192 | None => false end)
            || (match byte_at buffer (i + 1) with Some b => b =? 194 | None => false end));
    [exact H|].
  destruct ((match byte_at buffer (i + 1) with Some b => b =? 216 | None => false end)
            || (match byte_at buffer (i + 1) with Some b => b =? 217 | None => false end));
    [apply (IH _ _ H); lia|].
  destruct (readUInt16BE buffer (i + 2)); [apply (IH _ _ H); lia|exact H].
Qed.

(** X21: the marker loop of the JPEG branch always ends: run with
    [buffer.length] rounds it returns a result, the same for any larger
    number of rounds.  It never throws, and dimensions it returns were read
    behind a byte [0xFF] followed by the marker SOF0 or SOF2; both are
    below 65536. *)
Theorem jpeg_scan_terminates (buffer : Buffer) :
  exists result,
    jpeg_scan (List.length buffer) buffer 2 = Some result
    /\ (forall fuel, (List.length buffer <= fuel)%nat ->
                     jpeg_scan fuel buffer 2 = Some result)
    /\ result <> Thrown
    /\ (forall w h, result = Dimensions w h -> exists i, sof_at buffer i w h).
Proof.
  destruct (jpeg_scan_enough buffer (List.length buffer) 2) as (r & Hr & Hn & Hd);
    [lia|lia|].
  exists r. split; [exact Hr|]. split; [|split; [exact Hn|]].
  - intros fuel Hfuel. now apply (jpeg_scan_more_fuel buffer _ _ _ Hr).
  - intros w h Hwh. destruct (Hd w h Hwh) as (k & _ & Hs). now exists k.
Qed.

Lemma land_14_bits a : 0 <= Z.land a 16383 <= 16383.
Proof.
  assert (E : Z.land a 16383 = a mod 16384).
  { change 16383 with (Z.ones 14). now rewrite Z.land_ones by lia. }
  rewrite E. pose proof (Z.mod_pos_bound a 16384 eq_refl) as H. lia.
Qed.

Ltac ext_cases :=
  repeat match goal with
         | |- _ /\ _ => split
         | |- _ -> _ => let H := fresh "Hx" in intro H
         end;
  try lia; try discriminate;
  repeat match goal with H : _ \/ _ |- _ => destruct H end;
  try discriminate; try lia.

(** X22: [getImageDimensions] never reads outside the buffer: no branch of
    its [try] block can throw.  The dimensions it returns are integers
    from 0 to [2^32 - 1]: below 65536 for JPEG and GIF, from 1 to 16383 for
    WebP, and for BMP a height of at most [2^31] (the absolute value of the
    signed field).  A buffer of 10 bytes or fewer and an extension other
    than the six lower-case ones give [null]. *)
Theorem getImageDimensions_safe (buffer : Buffer) (ext : string) :
  try_block buffer ext <> Thrown
  /\ (forall w h, getImageDimensions buffer ext = Some (w, h) ->
        (0 <= w < 2 ^ 32 /\ 0 <= h < 2 ^ 32)
        /\ (ext = ".jpg" \/ ext = ".jpeg" \/ ext = ".gif" -> w < 65536 /\ h < 65536)
        /\ (ext = ".webp" -> 1 <= w <= 16383 /\ 1 <= h <= 16383)
        /\ (ext = ".bmp" -> h <= 2 ^ 31))
  /\ ((List.length buffer <= 10)%nat -> getImageDimensions buffer ext = None)
  /\ (~ In ext [".png"; ".jpg"; ".jpeg"; ".gif"; ".webp"; ".bmp"] ->
      getImageDimensions buffer ext = None).
Proof.
  assert (Hcase :
    forall a, try_block buffer ext = a ->
      a <> Thrown
      /\ (forall w h, a = Dimensions w h ->
            (0 <= w < 2 ^ 32 /\ 0 <= h < 2 ^ 32)
            /\ (ext = ".jpg" \/ ext = ".jpeg" \/ ext = ".gif" -> w < 65536 /\ h < 65536)
            /\ (ext = ".webp" -> 1 <= w <= 16383 /\ 1 <= h <= 16383)
            /\ (ext = ".bmp" -> h <= 2 ^ 31))
      /\ ((List.length buffer <= 10)%nat -> a = Nothing)
      /\ (~ In ext [".png"; ".jpg"; ".jpeg"; ".gif"; ".webp"; ".bmp"] -> a = Nothing)).
  { intros a Ha. unfold try_block in Ha.
    change (2 ^ 32) with 4294967296. change (2 ^ 31) with 2147483648.
    assert (Hnothing :
      a = Nothing ->
      a <> Thrown
      /\ (forall w h, a = Dimensions w h ->
            (0 <= w < 4294967296 /\ 0 <= h < 4294967296)
            /\ (ext = ".jpg" \/ ext = ".jpeg" \/ ext = ".gif" -> w < 65536 /\ h < 65536)
            /\ (ext = ".webp" -> 1 <= w <= 16383 /\ 1 <= h <= 16383)
            /\ (ext = ".bmp" -> h <= 2147483648))
      /\ ((List.length buffer <= 10)%nat -> a = Nothing)
      /\ (~ In ext [".png"; ".jpg"; ".jpeg"; ".gif"; ".webp"; ".bmp"] -> a = Nothing)).
    { intros ->. repeat split; try discriminate; reflexivity. }
    destruct (String.eqb ext ".png") eqn:Epng.
    { apply String.eqb_eq in Epng. subst ext.
      destruct (24 <? List.length buffer)%nat eqn:L; cbn [andb] in Ha;
        [|now apply Hnothing].
      apply Nat.ltb_lt in L.
      destruct (hex_is buffer PNG_SIGNATURE); [|now apply Hnothing].
      destruct (readUInt32BE_in buffer 16) as (w & Hw & Hwr); [lia|].
      destruct (readUInt32BE_in buffer 20) as (h & Hh & Hhr); [lia|].
      rewrite Hw, Hh in Ha. subst a.
      change (2 ^ 32) with 4294967296 in *.
      split; [discriminate|]. split; [|split].
      - intros w' h' E. inversion E; subst. ext_cases.
      - intros; lia.
      - intros Hnot. exfalso. apply Hnot. now left. }
    destruct (String.eqb ext ".jpg" || String.eqb ext ".jpeg") eqn:Ejpg.
    { destruct (jpeg_scan_enough buffer (List.length buffer) 2) as (r & Hr & Hn & Hd);
        [lia|lia|].
      rewrite Hr in Ha. subst a.
      split; [exact Hn|]. split; [|split].
      - intros w h E.
        destruct (Hd w h E) as (i & _ & (_ & _ & _ & _ & _ & _ & Hw & Hh)).
        ext_cases; subst ext; discriminate.
      - intros Hlen. rewrite jpeg_scan_short in Hr by lia. congruence.
      - intros Hnot. exfalso. apply Hnot. apply orb_prop in Ejpg.
        destruct Ejpg as [E|E]; apply String.eqb_eq in E; subst; cbn; auto. }
    destruct (String.eqb ext ".gif") eqn:Egif.
    { apply String.eqb_eq in Egif. subst ext.
      destruct (10 <? List.length buffer)%nat eqn:L; cbn [andb] in Ha;
        [|now apply Hnothing].
      apply Nat.ltb_lt in L.
      destruct (ascii_is buffer "GIF"); [|now apply Hnothing].
      destruct (readUInt16LE_in buffer 6) as (w & Hw & Hwr); [lia|].
      destruct (readUInt16LE_in buffer 8) as (h & Hh & Hhr); [lia|].
      rewrite Hw, Hh in Ha. subst a.
      split; [discriminate|]. split; [|split].
      - intros w' h' E. inversion E; subst. ext_cases.
      - intros; lia.
      - intros Hnot. exfalso. apply Hnot. cbn. auto. }
    destruct (String.eqb ext ".webp") eqn:Ewebp.
    { apply String.eqb_eq in Ewebp. subst ext.
      destruct (30 <? List.length buffer)%nat eqn:L; cbn [andb] in Ha;
        [|now apply Hnothing].
      apply Nat.ltb_lt in L.
      destruct (ascii_is buffer "RIFF"); [|now apply Hnothing].
      destruct (indexOf VP8 buffer) as [vp8Index|]; [|now apply Hnothing].
      destruct (0 <? vp8Index)%nat; cbn [andb] in Ha; [|now apply Hnothing].
      destruct (vp8Index + 14 <? List.length buffer)%nat eqn:L2; [|now apply Hnothing].
      apply Nat.ltb_lt in L2.
      destruct (readUInt16LE_in buffer (vp8Index + 10)) as (x & Hx & _); [lia|].
      destruct (readUInt16LE_in buffer (vp8Index + 12)) as (y & Hy & _); [lia|].
      rewrite Hx, Hy in Ha. cbn zeta in Ha.
      pose proof (land_14_bits x) as Bx. pose proof (land_14_bits y) as By.
      destruct (0 <? Z.land x 16383) eqn:Px; cbn [andb] in Ha; [|now apply Hnothing].
      destruct (0 <? Z.land y 16383) eqn:Py; [|now apply Hnothing].
      apply Z.ltb_lt in Px, Py. subst a.
      split; [discriminate|]. split; [|split].
      - intros w' h' E. inversion E; subst. ext_cases.
      - intros; lia.
      - intros Hnot. exfalso. apply Hnot. cbn. auto 10. }
    destruct (String.eqb ext ".bmp") eqn:Ebmp.
    { apply String.eqb_eq in Ebmp. subst ext.
      destruct (26 <? List.length buffer)%nat eqn:L; cbn [andb] in Ha;
        [|now apply Hnothing].
      apply Nat.ltb_lt in L.
      destruct (ascii_is buffer "BM"); [|now apply Hnothing].
      destruct (readUInt32LE_in buffer 18) as (w & Hw & Hwr); [lia|].
      destruct (readInt32LE_in buffer 22) as (h & Hh & Hhr); [lia|].
      rewrite Hw, Hh in Ha. subst a.
      change (2 ^ 32) with 4294967296 in *. change (2 ^ 31) with 2147483648 in *.
      split; [discriminate|]. split; [|split].
      - intros w' h' E. inversion E; subst. ext_cases.
      - intros; lia.
      - intros Hnot. exfalso. apply Hnot. cbn. auto 10. }
    now apply Hnothing. }
  destruct (Hcase _ eq_refl) as (Hn & Hd & Hshort & Hother).
  split; [exact Hn|]. unfold getImageDimensions.
  split; [|split].
  - intros w h E. apply Hd.
    destruct (try_block buffer ext); try discriminate. now inversion E.
  - intros Hlen. now rewrite (Hshort Hlen).
  - intros Hnot. now rewrite (Hother Hnot).
Qed.

Lemma u8_byte_of n : (n < 256)%nat -> u8 (byte_of n) = Z.of_nat n.
Proof.
  intros H. unfold u8, byte_of.
  pose proof (nat_ascii_embedding n H) as E. unfold nat_of_ascii in E.
  rewrite <- E at 2. now rewrite N_nat_Z.
Qed.

Lemma byte_at_app pre l k :
  byte_at (pre ++ l) (List.length pre + k) = byte_at l k.
Proof.
  unfold byte_at. rewrite nth_error_app2 by lia.
  now replace (List.length pre + k - List.length pre)%nat with k by lia.
Qed.

Lemma readUInt16BE_app pre l k :
  readUInt16BE (pre ++ l) (List.length pre + k) = readUInt16BE l k.
Proof.
  unfold readUInt16BE.
  now rewrite <- Nat.add_assoc, !byte_at_app.
Qed.

Lemma readUInt16BE_be16 n post :
  Z.of_nat n < 65536 -> readUInt16BE (be16 n ++ post) 0 = Some (Z.of_nat n).
Proof.
  intros H. assert (H' : (n < 256 * 256)%nat) by lia.
  unfold readUInt16BE, be16, byte_at. cbn [List.app nth_error Nat.add option_map].
  rewrite !u8_byte_of.
  - f_equal. rewrite (Nat.div_mod_eq n 256) at 3. lia.
  - apply Nat.mod_upper_bound. lia.
  - apply Nat.Div0.div_lt_upper_bound. lia.
Qed.

Lemma scan_step_segment fuel buffer i m len :
  (i + 9 < List.length buffer)%nat ->
  byte_at buffer i = Some 255 ->
  byte_at buffer (i + 1) = Some m ->
  m <> 192 -> m <> 194 -> m <> 216 -> m <> 217 ->
  readUInt16BE buffer (i + 2) = Some len ->
  jpeg_scan (S fuel) buffer i = jpeg_scan fuel buffer (i + 2 + Z.to_nat len).
Proof.
  intros Hlen H0 H1 Ha Hb Hc Hd Hr. cbn [jpeg_scan].
  apply Nat.ltb_lt in Hlen. rewrite Hlen, H0, H1, Hr.
  apply Z.eqb_neq in Ha, Hb, Hc, Hd. now rewrite Ha, Hb, Hc, Hd.
Qed.

Lemma scan_step_sof fuel buffer i m w h :
  (i + 9 < List.length buffer)%nat ->
  byte_at buffer i = Some 255 ->
  byte_at buffer (i + 1) = Some m ->
  m = 192 \/ m = 194 ->
  readUInt16BE buffer (i + 5) = Some h ->
  readUInt16BE buffer (i + 7) = Some w ->
  jpeg_scan (S fuel) buffer i = Some (Dimensions w h).
Proof.
  intros Hlen H0 H1 Hm Hh Hw. cbn [jpeg_scan].
  apply Nat.ltb_lt in Hlen. rewrite Hlen, H0, H1, Hh, Hw.
  destruct Hm as [->| ->]; reflexivity.
Qed.

Lemma segment_length s : List.length (segment s) = (4 + List.length (snd s))%nat.
Proof. reflexivity. Qed.

Lemma jpeg_scan_segments sof lengthField precision height width rest :
  (sof = 192 \/ sof = 194)%nat ->
  Z.of_nat height < 65536 -> Z.of_nat width < 65536 -> rest <> [] ->
  forall segments pre fuel,
    Forall valid_segment segments ->
    (List.length segments < fuel)%nat ->
    jpeg_scan fuel
      (pre ++ List.concat (map segment segments)
         ++ [byte_of 255; byte_of sof] ++ be16 lengthField
         ++ [byte_of precision] ++ be16 height ++ be16 width ++ rest)
      (List.length pre)
    = Some (Dimensions (Z.of_nat width) (Z.of_nat height)).
Proof.
  intros Hsof Hh Hw Hrest.
  set (frame := ([byte_of 255; byte_of sof] ++ be16 lengthField
                   ++ [byte_of precision] ++ be16 height ++ be16 width ++ rest)%list).
  assert (Hframe : (10 <= List.length frame)%nat).
  { unfold frame. cbn [List.app List.length be16].
    destruct rest; [contradiction|]. cbn [List.length]. lia. }
  induction segments as [|s segments IH]; intros pre fuel Hvalid Hfuel.
  - destruct fuel as [|fuel]; [cbn in Hfuel; lia|].
    cbn [map List.concat List.app].
    rewrite <- (Nat.add_0_r (List.length pre)) at 1.
    apply (scan_step_sof fuel _ _ (Z.of_nat sof)).
    + rewrite length_app. lia.
    + rewrite byte_at_app. unfold frame, byte_at. cbn [List.app nth_error option_map].
      now rewrite u8_byte_of by lia.
    + rewrite <- Nat.add_assoc, byte_at_app. unfold frame, byte_at.
      cbn [List.app nth_error option_map Nat.add].
      rewrite u8_byte_of; [reflexivity|]. destruct Hsof; subst; lia.
    + destruct Hsof; subst; [left|right]; reflexivity.
    + rewrite <- Nat.add_assoc, readUInt16BE_app.
      change frame with (([byte_of 255; byte_of sof] ++ be16 lengthField
                            ++ [byte_of precision])
                           ++ be16 height ++ be16 width ++ rest)%list.
      change (0 + 5)%nat
        with (List.length ([byte_of 255; byte_of sof] ++ be16 lengthField
                             ++ [byte_of precision]) + 0)%nat.
      rewrite readUInt16BE_app. now apply readUInt16BE_be16.
    + rewrite <- Nat.add_assoc, readUInt16BE_app.
      change frame with (([byte_of 255; byte_of sof] ++ be16 lengthField
                            ++ [byte_of precision] ++ be16 height)
                           ++ be16 width ++ rest)%list.
      change (0 + 7)%nat
        with (List.length ([byte_of 255; byte_of sof] ++ be16 lengthField
                             ++ [byte_of precision] ++ be16 height) + 0)%nat.
      rewrite readUInt16BE_app. now apply readUInt16BE_be16.
  - destruct fuel as [|fuel]; [cbn in Hfuel; lia|].
    inversion Hvalid as [|? ? (Hm & H192 & H194 & H216 & H217 & Hlen) Hvalid']; subst.
    cbn [map List.concat]. rewrite <- (app_assoc (segment s)).
    set (tail := (List.concat (map segment segments) ++ frame)%list).
    rewrite <- (Nat.add_0_r (List.length pre)) at 1.
    rewrite (scan_step_segment fuel _ _ (Z.of_nat (fst s))
               (Z.of_nat (List.length (snd s) + 2))).
    + rewrite Nat2Z.id.
      replace (List.length pre + 0 + 2 + (List.length (snd s) + 2))%nat
        with (List.length (pre ++ segment s)).
      2:{ rewrite length_app, segment_length. lia. }
      rewrite (app_assoc pre). unfold tail. apply IH; auto.
      cbn [List.length] in Hfuel. lia.
    + rewrite !length_app, segment_length. unfold tail. rewrite length_app. lia.
    + rewrite byte_at_app. unfold segment, byte_at.
      cbn [List.app nth_error option_map]. now rewrite u8_byte_of by lia.
    + rewrite <- Nat.add_assoc, byte_at_app. unfold segment, byte_at.
      cbn [List.app nth_error option_map Nat.add]. now rewrite u8_byte_of by lia.
    + lia.
    + lia.
    + lia.
    + lia.
    + rewrite <- Nat.add_assoc, readUInt16BE_app.
      unfold segment.
      change (([byte_of 255; byte_of (fst s)] ++ be16 (List.length (snd s) + 2) ++ snd s)
                ++ tail)%list
        with ([byte_of 255; byte_of (fst s)]
                ++ be16 (List.length (snd s) + 2) ++ (snd s ++ tail))%list.
      change (0 + 2)%nat with (List.length [byte_of 255; byte_of (fst s)] + 0)%nat.
      rewrite readUInt16BE_app. apply readUInt16BE_be16. lia.
Qed.

(** X23: A JPEG stream that starts with SOI, continues with any number of
    marker segments (whatever their payload holds) and then has a SOF0 or
    SOF2 frame header followed by at least one more byte: the function
    returns the height and width of that frame header, for both spellings
    of the extension. *)
Theorem getImageDimensions_jpeg_stream
  (segments : list (nat * Buffer)) (sof lengthField precision height width : nat)
  (rest : Buffer) :
  Forall valid_segment segments ->
  (sof = 192 \/ sof = 194)%nat ->
  Z.of_nat height < 65536 -> Z.of_nat width < 65536 -> rest <> [] ->
  let stream := jpeg_stream segments sof lengthField precision height width rest in
  getImageDimensions stream ".jpg" = Some (Z.of_nat width, Z.of_nat height)
  /\ getImageDimensions stream ".jpeg" = Some (Z.of_nat width, Z.of_nat height).
Proof.
  intros Hvalid Hsof Hh Hw Hrest stream.
  assert (Hscan : jpeg_scan (List.length stream) stream 2
                  = Some (Dimensions (Z.of_nat width) (Z.of_nat height))).
  { unfold stream, jpeg_stream.
    change 2%nat with (List.length [byte_of 255; byte_of 216]) at 2.
    apply jpeg_scan_segments; auto.
    rewrite length_app. cbn [List.length].
    rewrite length_app.
    assert (Hsegs : (List.length segments
                     <= List.length (List.concat (map segment segments)))%nat).
    { clear. induction segments as [|s l IH]; cbn [map List.concat List.length]; auto.
      rewrite length_app, segment_length. lia. }
    lia. }
  unfold getImageDimensions, try_block. cbn [String.eqb Ascii.eqb Bool.eqb orb].
  rewrite Hscan. split; reflexivity.
Qed.

Lemma getImageDimensions_jpeg_stream_witness :
  getImageDimensions
    (jpeg_stream [(224%nat, map byte_of [74; 70; 255; 192; 0]%nat); (219%nat, [])]
       192 17 8 480 640 [byte_of 3])
    ".jpg"
  = Some (640, 480).
Proof.
  refine (proj1 (getImageDimensions_jpeg_stream
                   [(224%nat, map byte_of [74; 70; 255; 192; 0]%nat); (219%nat, [])]
                   192 17 8 480 640 [byte_of 3] _ _ _ _ _)).
  - repeat constructor; cbn; lia.
  - now left.
  - reflexivity.
  - reflexivity.
  - discriminate.
Defined.

End ImageFacts.

(* ================================================================== *)
(** ** What a rename run does to the files and to its job *)
(* ================================================================== *)

Module RenameRunFacts.
Import JsString JsMap JsMapFacts Storage RenamePipeline RenameFacts.

Lemma probe_free fuel disk dir newName ext : forall finalName newPath counter r,
  probe fuel disk dir newName ext finalName newPath counter = Some r ->
  access disk (snd r) = false.
Proof.
  induction fuel as [|fuel IH]; intros finalName newPath counter r H; [discriminate|].
  cbn [probe] in H. destruct (access disk newPath) eqn:E.
  - now apply IH in H.
  - inversion H; subst. exact E.
Qed.

Lemma filter_out_absent (x : string) l :
  ~ In x l -> filter (fun p => negb (String.eqb p x)) l = l.
Proof.
  induction l as [|y l IH]; intros Hx; [reflexivity|].
  cbn [filter]. destruct (String.eqb y x) eqn:E.
  - apply String.eqb_eq in E. subst. exfalso. apply Hx. now left.
  - cbn [negb]. rewrite IH; auto. intros H. apply Hx. now right.
Qed.

Lemma filter_out_one (x : string) l :
  NoDup l -> In x l -> S (List.length (filter (fun p => negb (String.eqb p x)) l))
                       = List.length l.
Proof.
  induction l as [|y l IH]; intros Hnd Hx; [contradiction|].
  inversion Hnd as [|? ? Hy Hnd']; subst. cbn [filter].
  destruct (String.eqb y x) eqn:E.
  - apply String.eqb_eq in E. subst. cbn [negb List.length].
    now rewrite filter_out_absent.
  - cbn [negb List.length]. rewrite IH; auto.
    destruct Hx as [->|Hx]; auto. now rewrite String.eqb_refl in E.
Qed.

(** Renaming onto a path that is free keeps the number of files. *)
Lemma fs_rename_free oldPath newPath disk disk' :
  NoDup disk -> access disk newPath = false ->
  fs_rename oldPath newPath disk = Some disk' ->
  NoDup disk' /\ List.length disk' = List.length disk.
Proof.
  intros Hnd Hfree H. unfold fs_rename in H.
  destruct (access disk oldPath) eqn:Hold; [|discriminate].
  inversion H; subst disk'. clear H.
  apply access_In in Hold.
  assert (Hnew : ~ In newPath disk).
  { intros Hin. apply access_In in Hin. congruence. }
  assert (Hfilter : filter (fun p => negb (String.eqb p oldPath || String.eqb p newPath)) disk
                    = filter (fun p => negb (String.eqb p oldPath)) disk).
  { apply filter_ext_in. intros p Hp.
    destruct (String.eqb p newPath) eqn:E; [|now rewrite orb_false_r].
    apply String.eqb_eq in E. subst. contradiction. }
  rewrite Hfilter. split.
  - constructor; [|now apply NoDup_filter].
    intros Hin. apply filter_In in Hin. tauto.
  - cbn [List.length]. now apply filter_out_one.
Qed.

Lemma disk_updateJobProgress jobId u w :
  World.disk (World.updateJobProgress jobId u w) = World.disk w.
Proof. reflexivity. Qed.

Lemma rename_item_disk jobId ai pc total i imageId l w :
  NoDup (World.disk w) ->
  let w' := snd (rename_item jobId ai pc total i imageId (l, w)) in
  NoDup (World.disk w') /\ List.length (World.disk w') = List.length (World.disk w).
Proof.
  intros Hnd. unfold rename_item. cbv zeta.
  set (w1 := World.updateJobProgress jobId _ w).
  assert (Hd1 : World.disk w1 = World.disk w) by reflexivity.
  clearbody w1.
  destruct (ImageService.getImage imageId (World.images w1)) as [imageData|];
    [|cbn [snd]; rewrite Hd1; auto].
  destruct (choose_name ai pc imageData) as [newName|];
    [|cbn [snd]; rewrite Hd1; auto].
  destruct (findUniqueName (World.disk w1) (JsPath.dirname (path imageData)) newName
              (extension imageData)) as [[finalName newPath]|] eqn:F;
    [|cbn [snd]; rewrite disk_updateJobProgress, Hd1; auto].
  pose proof (probe_free _ _ _ _ _ _ _ _ _ F) as Hfree. cbn [snd] in Hfree.
  destruct (fs_rename (path imageData) newPath (World.disk w1)) as [disk'|] eqn:R;
    [|cbn [snd]; rewrite disk_updateJobProgress, Hd1; auto].
  rewrite Hd1 in *.
  destruct (fs_rename_free _ _ _ _ Hnd Hfree R) as [Hnd' Hlen].
  cbn [snd]. cbn. auto.
Qed.

Lemma rename_loop_disk jobId ai pc env total ids :
  (forall i w, World.disk (env i w) = World.disk w) ->
  forall i l w,
    NoDup (World.disk w) ->
    let w' := snd (rename_loop jobId ai pc env total i ids (l, w)) in
    NoDup (World.disk w') /\ List.length (World.disk w') = List.length (World.disk w).
Proof.
  intros Henv. induction ids as [|imageId ids IH]; intros i l w Hnd;
    cbn [rename_loop fst snd]; [auto|].
  assert (Hnd0 : NoDup (World.disk (env i w))) by now rewrite Henv.
  pose proof (rename_item_disk jobId ai pc total i imageId l (env i w) Hnd0)
    as [Hnd1 Hlen1].
  destruct (rename_item jobId ai pc total i imageId (l, env i w)) as [l1 w1] eqn:E.
  cbn [snd] in Hnd1, Hlen1.
  destruct (IH (S i) l1 w1 Hnd1) as [Hnd2 Hlen2].
  split; [exact Hnd2|]. rewrite Hlen2, Hlen1. now rewrite Henv.
Qed.

(** X24: A rename run never overwrites and never loses a file: when the files
    on disk are distinct paths and no other request touches the disk during
    the run, the paths are still distinct afterwards and their number is
    the same, whatever response the run gives. *)
Theorem rename_batch_keeps_every_file
  (pid newJobId : string) (imageIds : list string) (ai pc : bool)
  (env : nat -> World.t -> World.t) (w : World.t) :
  NoDup (World.disk w) ->
  (forall i w0, World.disk (env i w0) = World.disk w0) ->
  let w' := snd (rename_batch pid newJobId imageIds ai pc env w) in
  NoDup (World.disk w') /\ List.length (World.disk w') = List.length (World.disk w).
Proof.
  intros Hnd Henv. unfold rename_batch.
  destruct (ProjectService.getProject pid (World.projects w)) as [project|];
    [|cbn [snd]; auto].
  set (targetIds := match imageIds with [] => _ | _ => imageIds end).
  destruct targetIds as [|t ts] eqn:Et; [cbn [snd]; auto|].
  set (w0 := World.startJob newJobId (World.createJob newJobId _ w)).
  assert (Hd0 : World.disk w0 = World.disk w) by reflexivity.
  clearbody w0.
  assert (Hnd0 : NoDup (World.disk w0)) by now rewrite Hd0.
  pose proof (rename_loop_disk newJobId ai pc env (List.length (t :: ts)) (t :: ts)
                Henv 0 (mkLoop [] 0 0) w0 Hnd0) as [Hnd1 Hlen1].
  destruct (rename_loop newJobId ai pc env (List.length (t :: ts)) 0 (t :: ts)
              (mkLoop [] 0 0, w0)) as [l1 w1] eqn:E.
  cbn [snd] in Hnd1, Hlen1. cbn [snd].
  destruct (0 <? successCount l1); cbn; rewrite Hlen1, Hd0; auto.
Qed.

Lemma rename_batch_keeps_every_file_witness :
  World.disk (snd (rename_batch "p1" "job_1" [] true false Samples.no_interference
                     MoreSamples.world_same_names))
  = ["/pics/beach_1.jpg"; "/pics/beach.jpg"]
  /\ List.length
       (World.disk (snd (rename_batch "p1" "job_1" [] true false
                           Samples.no_interference MoreSamples.world_same_names)))
     = 2.
Proof.
  split; [vm_compute; reflexivity|].
  assert (Hnd : NoDup (World.disk MoreSamples.world_same_names)).
  { cbn. repeat constructor; cbn; intuition discriminate. }
  exact (proj2 (rename_batch_keeps_every_file "p1" "job_1" [] true false
                  Samples.no_interference MoreSamples.world_same_names Hnd
                  (fun _ _ => eq_refl))).
Defined.

Lemma updated_counters now u j :
  Jobs.successCount (Jobs.updated now u j)
  = match Jobs.u_successCount u with Some n => n | None => Jobs.successCount j end
  /\ Jobs.errorCount (Jobs.updated now u j)
     = match Jobs.u_errorCount u with Some n => n | None => Jobs.errorCount j end.
Proof.
  unfold Jobs.updated.
  destruct (Jobs.u_processedItems u), (Jobs.u_successCount u), (Jobs.u_errorCount u),
    (Jobs.u_statusMessage u) as [[|? ?]|], (Jobs.u_currentTarget u) as [c|]; simpl;
    try (split; reflexivity);
    destruct (Jobs.Current.error c) as [[|? ?]|]; split; reflexivity.
Qed.

(** What the tracker holds for the job after a progress report. *)
Lemma getJob_World_update jobId u w job :
  Jobs.getJob jobId (World.jobs w) = Some job ->
  Jobs.getJob jobId (World.jobs (World.updateJobProgress jobId u w))
  = Some (Jobs.updated (World.clock w) u job).
Proof.
  intros H. unfold World.updateJobProgress. cbn [World.tick World.with_jobs World.jobs].
  now rewrite JobsFacts.getJob_updateJobProgress, String.eqb_refl, H.
Qed.

Lemma rename_item_job jobId ai pc total i imageId l w job :
  Jobs.getJob jobId (World.jobs w) = Some job ->
  Jobs.totalItems job = total ->
  let st := rename_item jobId ai pc total i imageId (l, w) in
  RunInvariants.job_follows jobId total (fst st) i (snd st).
Proof.
  intros Hjob Htotal. unfold rename_item. cbv zeta.
  set (u1 := Jobs.mkUpdate (Some i) (Some (successCount l)) (Some (errorCount l)) _ _).
  pose proof (getJob_World_update jobId u1 w job Hjob) as H1.
  set (w1 := World.updateJobProgress jobId u1 w) in *.
  set (job1 := Jobs.updated (World.clock w) u1 job) in *.
  assert (Hc1 : Jobs.successCount job1 = successCount l
                /\ Jobs.errorCount job1 = errorCount l
                /\ Jobs.processedItems job1 = i
                /\ Jobs.totalItems job1 = total).
  { unfold job1. destruct (updated_counters (World.clock w) u1 job) as [-> ->].
    rewrite JobsFacts.updated_processedItems, JobsFacts.updated_totalItems.
    now rewrite Htotal. }
  destruct Hc1 as (Hs1 & He1 & Hp1 & Ht1).
  clearbody w1 job1.
  assert (Hstay : RunInvariants.job_follows jobId total l i w1).
  { exists job1. repeat split; auto. lia. }
  assert (Hfail : forall message,
             RunInvariants.job_follows jobId total (failure imageId message l) i w1).
  { intros message. exists job1. cbn [failure successCount errorCount].
    repeat split; auto. lia. }
  assert (Hthrown : forall message,
             RunInvariants.job_follows jobId total (failure imageId message l) i
               (World.updateJobProgress jobId
                  (Jobs.mkUpdate None None (Some (S (errorCount l))) None
                     (Some (Jobs.Current.mk imageId Jobs.failed (Some message) None)))
                  w1)).
  { intros message. eexists. split; [eapply getJob_World_update; exact H1|].
    destruct (updated_counters (World.clock w1)
                (Jobs.mkUpdate None None (Some (S (errorCount l))) None
                   (Some (Jobs.Current.mk imageId Jobs.failed (Some message) None)))
                job1) as [-> ->].
    rewrite JobsFacts.updated_processedItems, JobsFacts.updated_totalItems.
    cbn [Jobs.u_successCount Jobs.u_errorCount Jobs.u_processedItems
           failure successCount errorCount].
    repeat split; auto. }
  destruct (ImageService.getImage imageId (World.images w1)) as [imageData|];
    [|apply Hfail].
  destruct (choose_name ai pc imageData) as [newName|]; [|apply Hfail].
  destruct (findUniqueName (World.disk w1) (JsPath.dirname (path imageData)) newName
              (extension imageData)) as [[finalName newPath]|]; [|apply Hthrown].
  destruct (fs_rename (path imageData) newPath (World.disk w1)) as [disk'|];
    [|apply Hthrown].
  cbn [fst snd].
  eexists. split.
  - apply getJob_World_update. cbn [World.jobs World.with_images World.tick World.with_disk].
    exact H1.
  - match goal with
    | |- context [Jobs.updated ?n ?u job1] =>
        destruct (updated_counters n u job1) as [-> ->];
        rewrite JobsFacts.updated_processedItems, JobsFacts.updated_totalItems
    end.
    cbn [Jobs.u_successCount Jobs.u_errorCount Jobs.u_processedItems
           successCount errorCount].
    repeat split; auto. lia.
Qed.

Lemma job_follows_present jobId total l i w :
  RunInvariants.job_follows jobId total l i w ->
  exists job, Jobs.getJob jobId (World.jobs w) = Some job /\ Jobs.totalItems job = total.
Proof. intros (job & H & _ & _ & _ & Ht). now exists job. Qed.

Lemma rename_loop_job jobId ai pc env total ids :
  (forall i w, World.jobs (env i w) = World.jobs w) ->
  forall i l w job,
    Jobs.getJob jobId (World.jobs w) = Some job ->
    Jobs.totalItems job = total ->
    ids <> [] ->
    let st := rename_loop jobId ai pc env total i ids (l, w) in
    RunInvariants.job_follows jobId total (fst st) (i + List.length ids - 1) (snd st).
Proof.
  intros Henv. induction ids as [|imageId ids IH]; intros i l w job Hjob Htotal Hne;
    [contradiction|].
  cbn [rename_loop fst snd].
  assert (Hjob' : Jobs.getJob jobId (World.jobs (env i w)) = Some job)
    by now rewrite Henv.
  pose proof (rename_item_job jobId ai pc total i imageId l (env i w) job Hjob' Htotal)
    as Hitem.
  destruct (rename_item jobId ai pc total i imageId (l, env i w)) as [l1 w1] eqn:E.
  cbn [fst snd] in Hitem.
  destruct ids as [|imageId' ids'].
  - cbn [rename_loop List.length fst snd].
    now replace (i + 1 - 1) with i by lia.
  - destruct (job_follows_present _ _ _ _ _ Hitem) as (job1 & Hjob1 & Ht1).
    specialize (IH (S i) l1 w1 job1 Hjob1 Ht1).
    cbn [List.length] in *.
    replace (i + S (S (List.length ids')) - 1) with (S i + S (List.length ids') - 1)
      by lia.
    apply IH. discriminate.
Qed.

(** X25: the job of a rename run against its response, when no other request
    touches the tracker during the run: [renamed] and [errors] add up to
    the number of results, the job ends failed exactly when every item
    failed, with progress 100 and the success counter of the response.
    Its [processedItems] stays at the index of the last item, one below
    [totalItems], and its [errorCount] can be below the [errors] of the
    response, since an item that fails before the rename is attempted is
    not reported to the tracker. *)
Theorem rename_batch_job_and_response
  (pid newJobId : string) (imageIds : list string) (ai pc : bool)
  (env : nat -> World.t -> World.t) (w : World.t)
  (listed : list Result) (renamed errors : nat) (jobId : string) :
  (forall i w0, World.jobs (env i w0) = World.jobs w0) ->
  fst (rename_batch pid newJobId imageIds ai pc env w)
  = Done listed renamed errors jobId ->
  let w' := snd (rename_batch pid newJobId imageIds ai pc env w) in
  jobId = newJobId
  /\ renamed + errors = List.length listed
  /\ renamed = List.length (filter r_success listed)
  /\ exists job,
       Jobs.getJob newJobId (World.jobs w') = Some job
       /\ Jobs.status job
          = (if errors =? List.length listed then Jobs.failed else Jobs.completed)
       /\ Jobs.progress job = JsNumber.int 100
       /\ Jobs.totalItems job = List.length listed
       /\ Jobs.processedItems job = List.length listed - 1
       /\ Jobs.successCount job = renamed
       /\ Jobs.errorCount job <= errors.
Proof.
  intros Henv. unfold rename_batch.
  destruct (ProjectService.getProject pid (World.projects w)) as [project|];
    [|discriminate].
  set (targetIds := match imageIds with [] => _ | _ => imageIds end).
  destruct targetIds as [|t ts] eqn:Et; [discriminate|].
  set (total := List.length (t :: ts)).
  set (params := Jobs.mkCreate pid (name project) Jobs.rename total _).
  set (w0 := World.startJob newJobId (World.createJob newJobId params w)).
  assert (Hjob0 : exists job0, Jobs.getJob newJobId (World.jobs w0) = Some job0
                               /\ Jobs.totalItems job0 = total).
  { eexists. split.
    - unfold w0, World.startJob, World.createJob.
      cbn [World.jobs World.tick World.with_jobs World.clock].
      rewrite JobsFacts.getJob_startJob, String.eqb_refl.
      unfold Jobs.createJob, Jobs.getJob. cbn [snd Jobs.id].
      rewrite get_set_same. reflexivity.
    - reflexivity. }
  destruct Hjob0 as (job0 & Hjob0 & Ht0). clearbody w0.
  pose proof (rename_loop_job newJobId ai pc env total (t :: ts) Henv 0
                (mkLoop [] 0 0) w0 job0 Hjob0 Ht0) as Hloop.
  destruct (LoopFacts.rename_loop_results newJobId ai pc env total (t :: ts) 0
              (mkLoop [] 0 0) w0) as [Hids Hok].
  destruct (rename_loop newJobId ai pc env total 0 (t :: ts) (mkLoop [] 0 0, w0))
    as [l1 w1] eqn:E.
  cbn [fst snd] in Hloop, Hids, Hok.
  specialize (Hloop ltac:(discriminate)).
  destruct Hok as [Hs He]; [split; reflexivity|].
  assert (Hlen : List.length (RenamePipeline.results l1) = total).
  { apply (f_equal (@List.length _)) in Hids. now rewrite !length_map in Hids. }
  cbn [fst snd]. intros Hdone. inversion Hdone; subst listed renamed errors jobId.
  clear Hdone.
  split; [reflexivity|]. split.
  { rewrite Hs, He, Nat.add_comm. apply StoreFacts.filter_split_length. }
  split; [exact Hs|].
  destruct Hloop as (job1 & Hjob1 & Hsc & Hec & Hpi & Hti).
  set (w2 := if 0 <? successCount l1 then _ else w1).
  assert (Hjobs2 : World.jobs w2 = World.jobs w1)
    by (unfold w2; destruct (0 <? successCount l1); reflexivity).
  clearbody w2.
  eexists. split.
  - unfold World.completeJob. cbn [World.jobs World.tick World.with_jobs].
    rewrite JobsFacts.getJob_completeJob, String.eqb_refl, Hjobs2, Hjob1. reflexivity.
  - rewrite JobsFacts.finished_status, JobsFacts.finished_progress.
    unfold final_outcome. rewrite Hlen.
    split; [now destruct (errorCount l1 =? total)|]. split; [reflexivity|].
    unfold Jobs.finished. cbn.
    destruct (Jobs.startedAt job1); cbn; repeat split; auto; lia.
Qed.

Lemma rename_batch_job_and_response_witness :
  fst (rename_batch "p1" "job_1" ["no-such-image"] true false
         Samples.no_interference Samples.world3)
  = Done [mkResult "no-such-image" None None false (Some "Image not found")]
      0 1 "job_1"
  /\ option_map Jobs.errorCount
       (Jobs.getJob "job_1"
          (World.jobs (snd (rename_batch "p1" "job_1" ["no-such-image"] true false
                              Samples.no_interference Samples.world3))))
     = Some 0
  /\ exists job,
       Jobs.getJob "job_1"
         (World.jobs (snd (rename_batch "p1" "job_1" ["no-such-image"] true false
                             Samples.no_interference Samples.world3)))
       = Some job
       /\ Jobs.status job = Jobs.failed /\ Jobs.errorCount job <= 1.
Proof.
  assert (Hresp : fst (rename_batch "p1" "job_1" ["no-such-image"] true false
                         Samples.no_interference Samples.world3)
                  = Done [mkResult "no-such-image" None None false
                            (Some "Image not found")] 0 1 "job_1")
    by (vm_compute; reflexivity).
  split; [exact Hresp|]. split; [vm_compute; reflexivity|].
  destruct (rename_batch_job_and_response "p1" "job_1" ["no-such-image"] true false
              Samples.no_interference Samples.world3 _ _ _ _
              (fun _ _ => eq_refl) Hresp)
    as (_ & _ & _ & job & Hjob & Hstatus & _ & _ & _ & _ & Herr).
  exists job. split; [exact Hjob|]. split; [exact Hstatus|exact Herr].
Defined.

End RenameRunFacts.

(* ================================================================== *)
(** ** Duplicate cleanup *)
(* ================================================================== *)

Module CleanupFacts.
Import JsString JsMap JsMapFacts Storage CleanupPipeline StoreShape StoreFacts.

Lemma insert_sorted_perm lc x l : Permutation (insert_sorted lc x l) (x :: l).
Proof.
  induction l as [|y l IH]; simpl; auto.
  destruct (lc (originalName x) (originalName y) <=? 0)%Z; auto.
  rewrite IH. apply perm_swap.
Qed.

Lemma sort_by_name_perm lc l : Permutation (sort_by_name lc l) l.
Proof.
  induction l as [|x l IH]; simpl; auto.
  rewrite insert_sorted_perm. now constructor.
Qed.

Lemma split_groups_acc lc groups : forall acc,
  fold_left
    (fun (acc : list ImageData * list ImageData) (entry : string * list ImageData) =>
       let (primaries, duplicatesToDelete) := acc in
       if List.length (snd entry) <=? 1 then acc
       else
         match sort_by_name lc (snd entry) with
         | primary :: dups => (primaries ++ [primary], duplicatesToDelete ++ dups)
         | [] => acc
         end)
    groups acc
  = (fst acc ++ flat_map (kept_of lc) groups, snd acc ++ flat_map (deleted_of lc) groups).
Proof.
  induction groups as [|e groups IH]; intros [ps ds]; cbn [fold_left flat_map fst snd].
  - now rewrite !app_nil_r.
  - rewrite IH. unfold kept_of, deleted_of.
    destruct (List.length (snd e) <=? 1); cbn [fst snd]; [reflexivity|].
    destruct (sort_by_name lc (snd e)) as [|p rest]; cbn [fst snd firstn List.tl List.app].
    + reflexivity.
    + now rewrite <- !app_assoc.
Qed.

Lemma split_groups_spec lc groups :
  split_groups lc groups
  = (flat_map (kept_of lc) groups, flat_map (deleted_of lc) groups).
Proof. unfold split_groups. now rewrite split_groups_acc. Qed.


(** *** The hash index *)

Lemma index_by_hash_falsy imgs h :
  truthy h = false -> get h (ScanPipeline.index_by_hash imgs) = None.
Proof.
  intros Hh. destruct (get h (ScanPipeline.index_by_hash imgs)) as [l|] eqn:G; auto.
  exfalso. revert G. unfold ScanPipeline.index_by_hash.
  assert (Hgen : forall m, get h m = None ->
            get h (fold_left
                     (fun m img =>
                        if negb (truthy (hash img)) then m
                        else
                          let m := if has (hash img) m then m
                                   else set (hash img) [] m in
                          match get (hash img) m with
                          | Some l => set (hash img) (l ++ [img]) m
                          | None => m
                          end) imgs m) = None).
  { induction imgs as [|img imgs IH]; intros m Hm; cbn [fold_left]; auto.
    apply IH. destruct (truthy (hash img)) eqn:T; cbn [negb]; auto.
    assert (Hne : hash img <> h) by (intros Heq; congruence).
    unfold has. destruct (get (hash img) m) eqn:G.
    - rewrite G. now rewrite (get_set_other _ _ _ _ Hne).
    - rewrite get_set_same. now rewrite !(get_set_other _ _ _ _ Hne). }
  rewrite Hgen; [discriminate|reflexivity].
Qed.

Lemma index_by_hash_NoDup imgs : NoDup (keys (ScanPipeline.index_by_hash imgs)).
Proof.
  unfold ScanPipeline.index_by_hash.
  assert (Hgen : forall m : JsMap.t (list ImageData), NoDup (keys m) ->
            NoDup (keys (fold_left
                     (fun m img =>
                        if negb (truthy (hash img)) then m
                        else
                          let m := if has (hash img) m then m
                                   else set (hash img) [] m in
                          match get (hash img) m with
                          | Some l => set (hash img) (l ++ [img]) m
                          | None => m
                          end) imgs m))).
  { induction imgs as [|img imgs IH]; intros m Hm; cbn [fold_left]; auto.
    apply IH. destruct (negb (truthy (hash img))); auto.
    cbv zeta. destruct (has (hash img) m).
    - destruct (get (hash img) m); auto. now apply NoDup_keys_set.
    - rewrite get_set_same. now apply NoDup_keys_set, NoDup_keys_set. }
  apply Hgen. constructor.
Qed.

(** Every entry of the index is the list of all records with its hash. *)
Lemma index_by_hash_entry imgs h g :
  In (h, g) (ScanPipeline.index_by_hash imgs) ->
  g = filter (fun img => String.eqb (hash img) h) imgs /\ g <> [].
Proof.
  intros Hin. apply In_get in Hin; [|apply index_by_hash_NoDup].
  destruct (truthy h) eqn:Hh.
  - rewrite ScanFacts.get_index_by_hash in Hin by assumption.
    destruct (filter _ imgs) as [|x l]; [discriminate|].
    inversion Hin. split; [reflexivity|discriminate].
  - now rewrite index_by_hash_falsy in Hin.
Qed.

(** *** Records filed under their ids *)

Lemma keyed_ids m : keyed_by_id m -> map id (values m) = keys m.
Proof.
  intros [_ H]. unfold values, keys. rewrite map_map.
  apply map_ext_in. intros [k r] Hin. cbn. now apply H.
Qed.

Lemma NoDup_map_same {A B : Type} (f : A -> B) l a b :
  NoDup (map f l) -> In a l -> In b l -> f a = f b -> a = b.
Proof.
  induction l as [|x l IH]; cbn; intros H Ha Hb E; [contradiction|].
  inversion H as [|? ? Hn Hl]; subst.
  destruct Ha as [Ha|Ha], Hb as [Hb|Hb]; subst; auto.
  - exfalso. apply Hn. rewrite E. now apply in_map.
  - exfalso. apply Hn. rewrite <- E. now apply in_map.
Qed.

Lemma NoDup_map_NoDup {A B : Type} (f : A -> B) l : NoDup (map f l) -> NoDup l.
Proof.
  induction l as [|x l IH]; cbn; intros H; constructor; inversion H; subst; auto.
  intros Hin. apply H2. now apply in_map.
Qed.

Lemma project_ids_NoDup pid m :
  keyed_by_id m -> NoDup (map id (ImageService.getProjectImages pid m)).
Proof.
  intros K. unfold ImageService.getProjectImages, getProjectImages.
  apply ScanFacts.NoDup_map_filter. rewrite keyed_ids by assumption. apply K.
Qed.

Lemma In_project_images pid m r :
  In r (ImageService.getProjectImages pid m)
  <-> projectId r = pid /\ exists k, In (k, r) m.
Proof.
  unfold ImageService.getProjectImages, getProjectImages, values.
  rewrite filter_In, in_map_iff, String.eqb_eq. split.
  - intros [[[k r'] [E Hin]] Hp]. cbn in E. subst r'. eauto.
  - intros [Hp [k Hin]]. split; auto. exists (k, r). auto.
Qed.

Lemma keyed_get m k r : keyed_by_id m -> In (k, r) m -> get (id r) m = Some r.
Proof.
  intros [Hn Hk] Hin. apply In_get; auto. now rewrite (Hk _ _ Hin).
Qed.


(** [saveImages] keeps the store keyed by id. *)
Lemma saveImages_keyed pid imgs : forall m,
  keyed_by_id m -> keyed_by_id (ImageService.saveImages pid imgs m).
Proof.
  unfold ImageService.saveImages.
  induction imgs as [|img imgs IH]; intros m K; cbn [fold_left]; auto.
  apply IH. destruct K as [Hn Hk]. split.
  - now apply NoDup_keys_set.
  - intros k r Hin. apply ScanStoreFacts.In_set in Hin. destruct Hin as [[E1 E2]|Hin].
    + now subst.
    + now apply Hk.
Qed.

(** *** What the handler does to the store *)

Lemma cleanup_item_images jobId rejects total i img l w :
  World.images (snd (cleanup_item jobId rejects total i img (l, w)))
  = match rejects (id img) with
    | Some _ => World.images w
    | None => delete (id img) (World.images w)
    end.
Proof.
  unfold cleanup_item, deleteImage.
  cbn [World.updateJobProgress World.tick World.with_jobs World.images
       World.with_images World.disk World.with_disk].
  destruct (rejects (id img)); [reflexivity|].
  destruct (ImageService.getImage (id img) (World.images w)); reflexivity.
Qed.

Lemma cleanup_loop_images jobId rejects total k : forall dups i st,
  ~ In k (map id dups) ->
  get k (World.images (snd (cleanup_loop jobId rejects total i dups st)))
  = get k (World.images (snd st)).
Proof.
  induction dups as [|d dups IH]; intros i [l w] Hk; cbn [cleanup_loop]; auto.
  cbn [map] in Hk. rewrite IH by (intros H; apply Hk; now right).
  rewrite cleanup_item_images. cbn [snd].
  destruct (rejects (id d)); auto.
  apply get_delete_other. intros E. apply Hk. now left.
Qed.

Lemma cleanup_loop_deletes jobId rejects total k :
  (forall x, rejects x = None) ->
  forall dups i st,
  In k (map id dups) ->
  get k (World.images (snd (cleanup_loop jobId rejects total i dups st)))
  = None.
Proof.
  intros Hrej.
  induction dups as [|d dups IH]; intros i [l w] Hk; cbn [cleanup_loop]; [contradiction|].
  destruct (in_dec string_dec k (map id dups)) as [Hin|Hout].
  - now apply IH.
  - rewrite cleanup_loop_images by assumption.
    rewrite cleanup_item_images. cbn [snd]. rewrite Hrej.
    destruct Hk as [E|Hk]; [|contradiction]. rewrite E. apply get_delete_same.
Qed.

Lemma clear_flags_images now k : forall primaries w r,
  get k (World.images w) = Some r ->
  exists r',
    get k (World.images
             (fold_left
                (fun w primary =>
                   World.with_images
                     (snd (ImageService.updateImage (id primary)
                             (clear_flags_patch primary now) (World.images w))) w)
                primaries w)) = Some r'
    /\ hash r' = hash r /\ projectId r' = projectId r /\ id r' = id r.
Proof.
  induction primaries as [|p ps IH]; intros w r G; cbn [fold_left]; eauto.
  unfold ImageService.updateImage at 2, updateImage.
  destruct (get (id p) (World.images w)) as [image|] eqn:Gp; cbn [snd].
  - destruct (string_dec (id p) k) as [E|E].
    + assert (image = r) by congruence. subst image.
      destruct (IH (World.with_images
                      (set (id p) (clear_flags_patch p now r) (World.images w)) w)
                   (clear_flags_patch p now r)) as [r' [G' [H1 [H2 H3]]]].
      { cbn [World.images World.with_images]. rewrite E. apply get_set_same. }
      exists r'. split; [exact G'|]. rewrite H1, H2, H3. now cbn.
    + apply IH. cbn [World.images World.with_images].
      now rewrite get_set_other.
  - apply IH. now destruct w.
Qed.

Lemma clear_flags_absent now k : forall primaries w,
  get k (World.images w) = None ->
  get k (World.images
           (fold_left
              (fun w primary =>
                 World.with_images
                   (snd (ImageService.updateImage (id primary)
                           (clear_flags_patch primary now) (World.images w))) w)
              primaries w)) = None.
Proof.
  induction primaries as [|p ps IH]; intros w G; cbn [fold_left]; auto.
  apply IH. unfold ImageService.updateImage, updateImage.
  destruct (get (id p) (World.images w)) as [image|] eqn:Gp; cbn [snd].
  - cbn [World.images World.with_images].
    rewrite get_set_other; auto. intros E. congruence.
  - now destruct w.
Qed.


Lemma clear_flags_other now k : forall primaries w,
  ~ In k (map id primaries) ->
  get k (World.images
           (fold_left
              (fun w primary =>
                 World.with_images
                   (snd (ImageService.updateImage (id primary)
                           (clear_flags_patch primary now) (World.images w))) w)
              primaries w)) = get k (World.images w).
Proof.
  induction primaries as [|p ps IH]; intros w Hk; cbn [fold_left]; auto.
  cbn [map] in Hk. rewrite IH by (intros H; apply Hk; now right).
  unfold ImageService.updateImage, updateImage.
  destruct (get (id p) (World.images w)) as [image|] eqn:Gp; cbn [snd].
  - cbn [World.images World.with_images].
    apply get_set_other. intros E. apply Hk. now left.
  - now destruct w.
Qed.

Lemma cleanup_loop_only_deletes jobId rejects total k a : forall dups i st,
  get k (World.images (snd (cleanup_loop jobId rejects total i dups st))) = Some a ->
  get k (World.images (snd st)) = Some a.
Proof.
  induction dups as [|d dups IH]; intros i [l w] G; cbn [cleanup_loop] in G; auto.
  apply IH in G. rewrite cleanup_item_images in G. cbn [snd] in *.
  destruct (rejects (id d)); auto.
  destruct (string_dec (id d) k) as [E|E].
  - rewrite E, get_delete_same in G. discriminate.
  - now rewrite get_delete_other in G.
Qed.

(** The store the handler leaves, record by record. *)
Lemma cleanup_result_images pid newJobId localeCompare rejects w :
  let imgs := ImageService.getProjectImages pid (World.images w) in
  let dups := flat_map (deleted_of localeCompare) (ScanPipeline.index_by_hash imgs) in
  let primaries := flat_map (kept_of localeCompare) (ScanPipeline.index_by_hash imgs) in
  let w' := snd (cleanup_duplicates pid newJobId localeCompare rejects w) in
  (forall k r, get k (World.images w) = Some r -> ~ In k (map id dups) ->
     exists r', get k (World.images w') = Some r'
       /\ hash r' = hash r /\ projectId r' = projectId r /\ id r' = id r)
  /\ (forall k, ~ In k (map id dups) -> ~ In k (map id primaries) ->
        get k (World.images w') = get k (World.images w))
  /\ (forall k a, get k (World.images w') = Some a ->
        exists a0, get k (World.images w) = Some a0
          /\ hash a = hash a0 /\ projectId a = projectId a0 /\ id a = id a0)
  /\ ((forall x, rejects x = None) ->
      ProjectService.getProject pid (World.projects w) <> None ->
      forall k, In k (map id dups) -> get k (World.images w') = None).
Proof.
  intros imgs dups primaries w'. unfold w', primaries, dups, imgs.
  clear w' primaries dups imgs.
  unfold cleanup_duplicates.
  destruct (ProjectService.getProject pid (World.projects w)) as [project|] eqn:P.
  2:{ cbn [snd]. split; [intros k r G _; exists r; auto|split; [auto|split; [intros k a G; exists a; auto|]]]. intros _ H. now contradiction H. }
  remember (ImageService.getProjectImages pid (World.images w)) as imgs eqn:Himgs.
  destruct imgs as [|x imgs0] eqn:I.
  { cbn [snd]. split; [intros k r G _; exists r; auto|split; [auto|split; [intros k a G; exists a; auto|]]]. intros _ _ k Hk. contradiction Hk. }
  rewrite <- I. clear I Himgs. rewrite split_groups_spec. cbv beta iota zeta.
  remember (flat_map (deleted_of localeCompare) (ScanPipeline.index_by_hash imgs))
    as dups eqn:Hdups.
  destruct dups as [|d dups0] eqn:D.
  { cbn [snd]. split; [intros k r G _; exists r; auto|split; [auto|split; [intros k a G; exists a; auto|]]]. intros _ _ k Hk. contradiction Hk. }
  rewrite <- D. clear D Hdups.
  set (w0 := World.startJob newJobId (World.createJob newJobId _ w)).
  assert (Hw0 : World.images w0 = World.images w) by reflexivity.
  clearbody w0.
  destruct (cleanup_loop newJobId rejects (List.length dups) 0 dups
              ({| successCount := 0; errorCount := 0 |}, w0)) as [l w1] eqn:L.
  assert (Hw1 : w1 = snd (cleanup_loop newJobId rejects (List.length dups) 0 dups
              ({| successCount := 0; errorCount := 0 |}, w0))) by now rewrite L.
  cbn [snd].
  cbn [World.completeJob World.tick World.with_jobs World.with_projects World.images].
  set (primaries := flat_map (kept_of localeCompare) _).
  assert (Hfold : forall ps w2,
    World.images
      (fold_left
         (fun w3 primary =>
            World.with_images
              (snd (ImageService.updateImage (id primary)
                      (clear_flags_patch primary (World.clock w1)) (World.images w3))) w3)
         ps (World.tick w2))
    = World.images
      (fold_left
         (fun w3 primary =>
            World.with_images
              (snd (ImageService.updateImage (id primary)
                      (clear_flags_patch primary (World.clock w1)) (World.images w3))) w3)
         ps w2)).
  { induction ps as [|p ps IH]; intros w2; cbn [fold_left]; [reflexivity|].
    change (World.with_images ?m (World.tick w2)) with (World.tick (World.with_images m w2)).
    apply IH. }
  rewrite Hfold. clear Hfold.
  split; [|split; [|split]].
  - intros k r G Hk.
    apply clear_flags_images. rewrite Hw1, cleanup_loop_images by assumption.
    cbn [snd]. now rewrite Hw0.
  - intros k Hk Hp. rewrite clear_flags_other by assumption.
    rewrite Hw1, cleanup_loop_images by assumption. cbn [snd]. now rewrite Hw0.
  - intros k a G.
    destruct (get k (World.images w1)) as [a0|] eqn:G1.
    + destruct (clear_flags_images (World.clock w1) k primaries w1 a0 G1)
        as [r' [G' [H1 [H2 H3]]]].
      rewrite G' in G. inversion G; subst r'.
      exists a0. split; [|auto].
      rewrite Hw1 in G1. apply cleanup_loop_only_deletes in G1.
      cbn [snd] in G1. now rewrite <- Hw0.
    + rewrite clear_flags_absent in G by assumption. discriminate.
  - intros Hrej _ k Hk. apply clear_flags_absent.
    rewrite Hw1. now apply cleanup_loop_deletes.
Qed.


(** *** Which records are deleted *)

Lemma In_tl {A : Type} (x : A) l : In x (List.tl l) -> In x l.
Proof. destruct l; cbn; auto. Qed.

Lemma In_deleted lc imgs d :
  In d (flat_map (deleted_of lc) (ScanPipeline.index_by_hash imgs)) ->
  In d imgs
  /\ 1 < List.length (filter (fun img => String.eqb (hash img) (hash d)) imgs)
  /\ In d (List.tl (sort_by_name lc
                      (filter (fun img => String.eqb (hash img) (hash d)) imgs))).
Proof.
  intros H. apply in_flat_map in H. destruct H as [[h g] [He Hd]].
  apply index_by_hash_entry in He. destruct He as [Hg _].
  unfold deleted_of in Hd. cbn [snd] in Hd.
  destruct (List.length g <=? 1) eqn:L; [contradiction|].
  apply Nat.leb_gt in L.
  assert (Hin : In d g).
  { eapply Permutation_in; [apply sort_by_name_perm|]. apply In_tl, Hd. }
  rewrite Hg in Hin. apply filter_In in Hin. destruct Hin as [Hin E].
  apply String.eqb_eq in E. rewrite E. rewrite <- Hg. auto.
Qed.

Lemma In_kept lc imgs p :
  In p (flat_map (kept_of lc) (ScanPipeline.index_by_hash imgs)) -> In p imgs.
Proof.
  intros H. apply in_flat_map in H. destruct H as [[h g] [He Hd]].
  apply index_by_hash_entry in He. destruct He as [Hg _].
  unfold kept_of in Hd. cbn [snd] in Hd.
  destruct (List.length g <=? 1); [contradiction|].
  assert (Hin : In p g).
  { eapply Permutation_in; [apply (sort_by_name_perm lc)|].
    destruct (sort_by_name lc g) as [|q rest]; [contradiction|].
    change (In p [q]) in Hd. destruct Hd as [Hd|Hd]; [now left|contradiction]. }
  rewrite Hg in Hin. now apply filter_In in Hin.
Qed.

Lemma deleted_In lc imgs d :
  truthy (hash d) = true ->
  1 < List.length (filter (fun img => String.eqb (hash img) (hash d)) imgs) ->
  In d (List.tl (sort_by_name lc
                   (filter (fun img => String.eqb (hash img) (hash d)) imgs))) ->
  In d (flat_map (deleted_of lc) (ScanPipeline.index_by_hash imgs)).
Proof.
  intros Ht L Hd. apply in_flat_map.
  set (g := filter (fun img => String.eqb (hash img) (hash d)) imgs) in *.
  exists (hash d, g). split.
  - apply get_In. rewrite ScanFacts.get_index_by_hash by assumption. fold g.
    destruct g; [cbn in L; lia|reflexivity].
  - unfold deleted_of. cbn [snd].
    destruct (List.length g <=? 1) eqn:E; [apply Nat.leb_le in E; lia|exact Hd].
Qed.

(** Of every hash held by the project, one record is outside the list of
    records to delete. *)
Lemma survivor lc imgs r :
  NoDup (map id imgs) -> In r imgs ->
  exists p, In p imgs /\ hash p = hash r
    /\ ~ In (id p) (map id (flat_map (deleted_of lc) (ScanPipeline.index_by_hash imgs))).
Proof.
  intros Hn Hr.
  set (g := filter (fun img => String.eqb (hash img) (hash r)) imgs).
  assert (Hrg : In r g) by (apply filter_In; split; [auto|apply String.eqb_refl]).
  destruct (le_lt_dec (List.length g) 1) as [L|L].
  - exists r. split; [auto|split; [auto|]].
    intros Hin. apply in_map_iff in Hin. destruct Hin as [d [E Hd]].
    apply In_deleted in Hd. destruct Hd as [Hd [L' _]].
    assert (d = r) by (eapply NoDup_map_same; eauto). subst d. fold g in L'. lia.
  - destruct (sort_by_name lc g) as [|p rest] eqn:S.
    { pose proof (Permutation_length (sort_by_name_perm lc g)) as Hl.
      rewrite S in Hl. cbn in Hl. lia. }
    assert (Hp : In p g).
    { eapply Permutation_in; [apply (sort_by_name_perm lc)|]. rewrite S. now left. }
    pose proof Hp as Hp'. apply filter_In in Hp'. destruct Hp' as [Hpi E].
    apply String.eqb_eq in E.
    exists p. split; [auto|split; [auto|]].
    intros Hin. apply in_map_iff in Hin. destruct Hin as [d [Ed Hd]].
    apply In_deleted in Hd. destruct Hd as [Hd [_ Ht]].
    assert (d = p) by (eapply NoDup_map_same; eauto). subst d.
    rewrite E in Ht. fold g in Ht. rewrite S in Ht. cbn [List.tl] in Ht.
    assert (Hnd : NoDup (p :: rest)).
    { rewrite <- S. eapply Permutation_NoDup; [symmetry; apply sort_by_name_perm|].
      apply NoDup_filter. eapply NoDup_map_NoDup; eauto. }
    inversion Hnd; contradiction.
Qed.

(** X26: in a store keyed by id, whatever deletes fail, the cleanup keeps
    a record of every hash the project held, records of other projects
    stay as they are, and no record appears that was not there. *)
Theorem cleanup_keeps_one_copy pid newJobId localeCompare rejects w :
  keyed_by_id (World.images w) ->
  let w' := snd (cleanup_duplicates pid newJobId localeCompare rejects w) in
  (forall r, In r (ImageService.getProjectImages pid (World.images w)) ->
     exists r', In r' (ImageService.getProjectImages pid (World.images w'))
       /\ hash r' = hash r)
  /\ (forall k r, get k (World.images w) = Some r -> projectId r <> pid ->
        get k (World.images w') = Some r)
  /\ (forall k, get k (World.images w) = None -> get k (World.images w') = None).
Proof.
  intros K w'.
  destruct (cleanup_result_images pid newJobId localeCompare rejects w)
    as [Hkeep [Hsame [Hback _]]].
  fold w' in Hkeep, Hsame, Hback.
  pose proof (project_ids_NoDup pid _ K) as Hn.
  split; [|split].
  - intros r Hr.
    destruct (survivor localeCompare _ r Hn Hr) as [p [Hp [Hh Hout]]].
    pose proof Hp as Hp'. apply In_project_images in Hp'.
    destruct Hp' as [Hpid [k Hin]].
    pose proof (keyed_get _ _ _ K Hin) as G.
    destruct (Hkeep _ _ G Hout) as [r' [G' [H1 [H2 _]]]].
    exists r'. split; [|congruence].
    apply In_project_images. split; [congruence|].
    exists (id p). now apply get_In.
  - intros k r G Hp.
    assert (Hout : forall l, (forall d, In d l ->
                In d (ImageService.getProjectImages pid (World.images w))) ->
              ~ In k (map id l)).
    { intros l Hl Hin. apply in_map_iff in Hin. destruct Hin as [d [E Hd]].
      apply Hl, In_project_images in Hd. destruct Hd as [Hpid [k' Hin]].
      pose proof (keyed_get _ _ _ K Hin) as G'. rewrite E in G'. congruence. }
    rewrite Hsame; auto.
    + apply Hout. intros d Hd. now apply In_deleted in Hd.
    + apply Hout. intros d Hd. now apply In_kept in Hd.
  - intros k G. destruct (get k (World.images w')) as [a|] eqn:G'; auto.
    apply Hback in G'. destruct G' as [a0 [G0 _]]. congruence.
Qed.


Lemma cleanup_keeps_one_copy_witness :
  let w' := snd Samples.cleanup_run in
  keyed_by_id (World.images Samples.world_dups) /\
  (forall r, In r (ImageService.getProjectImages "p1" (World.images Samples.world_dups)) ->
     exists r', In r' (ImageService.getProjectImages "p1" (World.images w'))
       /\ hash r' = hash r)
  /\ (forall k r, get k (World.images Samples.world_dups) = Some r ->
        projectId r <> "p1"%string -> get k (World.images w') = Some r)
  /\ (forall k, get k (World.images Samples.world_dups) = None ->
        get k (World.images w') = None).
Proof.
  assert (K : keyed_by_id (World.images Samples.world_dups)).
  { split.
    - vm_compute. repeat constructor; cbn; intuition discriminate.
    - intros k r H. vm_compute in H.
      destruct H as [H|[H|[H|[]]]]; inversion H; reflexivity. }
  split; [exact K|].
  apply (cleanup_keeps_one_copy "p1" "job_2" Samples.codeUnitCompare
           Samples.rejects_z Samples.world_dups K).
Defined.

(** X27: in a store keyed by id, when the project exists and no delete
    fails, no two records of the project share a non-empty hash
    afterwards. *)
Theorem cleanup_leaves_distinct_hashes pid newJobId localeCompare rejects w :
  keyed_by_id (World.images w) ->
  (forall x, rejects x = None) ->
  ProjectService.getProject pid (World.projects w) <> None ->
  one_record_per_hash pid
    (World.images (snd (cleanup_duplicates pid newJobId localeCompare rejects w))).
Proof.
  intros K Hrej Hproj ka kb a b Ga Gb Pa Pb Ht Hh.
  set (w' := snd (cleanup_duplicates pid newJobId localeCompare rejects w)) in *.
  destruct (cleanup_result_images pid newJobId localeCompare rejects w)
    as [_ [_ [Hback Hdel]]].
  fold w' in Hback, Hdel. specialize (Hdel Hrej Hproj).
  pose proof (project_ids_NoDup pid _ K) as Hn.
  set (imgs := ImageService.getProjectImages pid (World.images w)) in *.
  assert (Horig : forall k x, get k (World.images w') = Some x ->
            projectId x = pid ->
            exists x0, In x0 imgs /\ hash x0 = hash x /\ id x0 = k
              /\ ~ In x0 (flat_map (deleted_of localeCompare)
                            (ScanPipeline.index_by_hash imgs))).
  { intros k x G Hp. destruct (Hback _ _ G) as [x0 [G0 [H1 [H2 H3]]]].
    exists x0. pose proof (get_In _ _ _ G0) as Hin.
    split; [|split; [auto|split]].
    - apply In_project_images. split; [congruence|eauto].
    - now apply K in Hin.
    - intros Hd. assert (Hk : In k (map id (flat_map (deleted_of localeCompare)
                            (ScanPipeline.index_by_hash imgs)))).
      { apply in_map_iff. exists x0. split; [now apply K in Hin|auto]. }
      apply Hdel in Hk. congruence. }
  destruct (Horig _ _ Ga Pa) as [a0 [Hia [Hha [Eka Hna]]]].
  destruct (Horig _ _ Gb Pb) as [b0 [Hib [Hhb [Ekb Hnb]]]].
  assert (Hsame : hash b0 = hash a0) by congruence.
  assert (Hta : truthy (hash a0) = true) by congruence.
  assert (Htb : truthy (hash b0) = true) by congruence.
  set (g := filter (fun img => String.eqb (hash img) (hash a0)) imgs).
  assert (Hag : In a0 g) by (apply filter_In; split; [auto|apply String.eqb_refl]).
  assert (Hbg : In b0 g)
    by (apply filter_In; split; [auto|rewrite Hsame; apply String.eqb_refl]).
  assert (E : a0 = b0); [|congruence].
  destruct (le_lt_dec (List.length g) 1) as [L|L].
  - destruct g as [|x [|y g']]; cbn in L; [contradiction| |lia].
    destruct Hag as [<-|[]], Hbg as [<-|[]]. reflexivity.
  - assert (Hhead : forall x, In x g -> hash x = hash a0 ->
              ~ In x (flat_map (deleted_of localeCompare)
                        (ScanPipeline.index_by_hash imgs)) ->
              In x (firstn 1 (sort_by_name localeCompare g))).
    { intros x Hx Ex Hnx.
      assert (Hs : In x (sort_by_name localeCompare g)).
      { eapply Permutation_in; [symmetry; apply (sort_by_name_perm localeCompare)|auto]. }
      destruct (sort_by_name localeCompare g) as [|p rest] eqn:S; [contradiction|].
      destruct Hs as [Hs|Hs]; [now left|].
      exfalso. apply Hnx. apply deleted_In.
      - congruence.
      - rewrite Ex. exact L.
      - rewrite Ex. fold g. rewrite S. exact Hs. }
    pose proof (Hhead a0 Hag eq_refl Hna) as Ha.
    pose proof (Hhead b0 Hbg Hsame Hnb) as Hb.
    destruct (sort_by_name localeCompare g) as [|p rest]; [contradiction|].
    change (In a0 [p]) in Ha. change (In b0 [p]) in Hb.
    destruct Ha as [<-|[]], Hb as [<-|[]]. reflexivity.
Qed.

Lemma cleanup_leaves_distinct_hashes_witness :
  keyed_by_id (World.images Samples.world_dups)
  /\ ~ one_record_per_hash "p1" (World.images Samples.world_dups)
  /\ one_record_per_hash "p1"
       (World.images
          (snd (cleanup_duplicates "p1" "job_2" Samples.codeUnitCompare
                  (fun _ => None) Samples.world_dups))).
Proof.
  assert (K : keyed_by_id (World.images Samples.world_dups)).
  { split.
    - vm_compute. repeat constructor; cbn; intuition discriminate.
    - intros k r H. vm_compute in H.
      destruct H as [H|[H|[H|[]]]]; inversion H; reflexivity. }
  split; [exact K|split].
  - intros H.
    specialize (H (id Samples.dupX) (id Samples.dupY) Samples.dupX Samples.dupY).
    vm_compute in H. discriminate H; reflexivity.
  - apply (cleanup_leaves_distinct_hashes "p1" "job_2" Samples.codeUnitCompare
             (fun _ => None) Samples.world_dups).
    + exact K.
    + reflexivity.
    + vm_compute. discriminate.
Defined.

End CleanupFacts.

(* ================================================================== *)
(** ** [path.join] where it has nothing to normalise *)
(* ================================================================== *)

Module PosixPathFacts.
Import JsString Chars PosixPath.

Lemma plain_name_spec name :
  plain_name name = true ->
  name <> "" /\ name <> "." /\ name <> ".." /\ all_chars no_sep name = true.
Proof.
  unfold plain_name. intros H. apply andb_true_iff in H. destruct H as [H1 H2].
  apply negb_true_iff in H1. apply orb_false_iff in H1. destruct H1 as [H1 H3].
  apply orb_false_iff in H1. destruct H1 as [H0 H1].
  repeat split; auto; intros E; subst; discriminate.
Qed.

Lemma split_sep_nonempty s : split_sep s <> [].
Proof.
  induction s as [|c s IH]; cbn; [discriminate|].
  destruct (Ascii.eqb c "/"); [discriminate|].
  destruct (split_sep s); discriminate.
Qed.

Lemma split_sep_plain name : all_chars no_sep name = true -> split_sep name = [name].
Proof.
  induction name as [|c name IH]; cbn; auto.
  intros H. apply andb_true_iff in H. destruct H as [Hc Hn].
  unfold no_sep in Hc. apply negb_true_iff in Hc. rewrite Hc, (IH Hn). reflexivity.
Qed.

Lemma split_sep_app a b :
  all_chars no_sep a = true ->
  split_sep (a ++ String "/" b) = a :: split_sep b.
Proof.
  induction a as [|c a IH]; cbn; auto.
  intros H. apply andb_true_iff in H. destruct H as [Hc Ha].
  unfold no_sep in Hc. apply negb_true_iff in Hc. rewrite Hc, (IH Ha). reflexivity.
Qed.

Lemma split_sep_concat segs :
  segs <> [] -> Forall (fun s => all_chars no_sep s = true) segs ->
  split_sep (String.concat "/" segs) = segs.
Proof.
  induction segs as [|a segs IH]; [congruence|]. intros _ H.
  inversion H as [|? ? Ha Hs]; subst.
  destruct segs as [|b segs]; [now apply split_sep_plain|].
  change (String.concat "/" (a :: b :: segs))
    with (a ++ String "/" (String.concat "/" (b :: segs)))%string.
  rewrite split_sep_app by assumption. f_equal. apply IH; [discriminate|assumption].
Qed.

Lemma push_plain allow res seg :
  plain_name seg = true -> push_segment allow res seg = res ++ [seg].
Proof.
  intros H. destruct (plain_name_spec _ H) as (H0 & H1 & H2 & _).
  unfold push_segment.
  apply String.eqb_neq in H0, H1, H2. now rewrite H0, H1, H2.
Qed.

Lemma fold_push_plain allow segs : forall res,
  Forall (fun s => plain_name s = true) segs ->
  fold_left (push_segment allow) segs res = res ++ segs.
Proof.
  induction segs as [|a segs IH]; intros res H; cbn [fold_left].
  - now rewrite app_nil_r.
  - inversion H; subst. rewrite push_plain by assumption.
    rewrite IH by assumption. now rewrite <- app_assoc.
Qed.

Lemma concat_snoc segs name :
  segs <> [] ->
  String.concat "/" (segs ++ [name]) = (String.concat "/" segs ++ "/" ++ name)%string.
Proof.
  induction segs as [|a segs IH]; [congruence|]. intros _.
  destruct segs as [|b segs]; [reflexivity|].
  change (String.concat "/" ((a :: b :: segs) ++ [name]))
    with (a ++ "/" ++ String.concat "/" ((b :: segs) ++ [name]))%string.
  rewrite IH by discriminate.
  change (String.concat "/" (a :: b :: segs))
    with (a ++ "/" ++ String.concat "/" (b :: segs))%string.
  now rewrite <- !JsStringFacts.append_assoc.
Qed.

Lemma trailing_separator_app x name :
  plain_name name = true -> trailing_separator (x ++ name) = false.
Proof.
  intros H. destruct (plain_name_spec _ H) as (H0 & _ & _ & Hn).
  assert (Hname : trailing_separator name = false).
  { clear H H0. induction name as [|c name IH]; auto.
    cbn in Hn. apply andb_true_iff in Hn. destruct Hn as [Hc Hn].
    unfold no_sep in Hc. apply negb_true_iff in Hc.
    cbn. destruct name; [exact Hc|]. now apply IH. }
  induction x as [|c x IH]; [exact Hname|].
  cbn [String.append trailing_separator].
  destruct (x ++ name)%string eqn:E; [|exact IH].
  destruct x; cbn in E; [congruence|discriminate].
Qed.

Lemma truthy_concat_plain segs :
  segs <> [] -> Forall (fun s => plain_name s = true) segs ->
  truthy (String.concat "/" segs) = true
  /\ is_absolute (String.concat "/" segs) = false.
Proof.
  destruct segs as [|a segs]; [congruence|]. intros _ H.
  inversion H as [|? ? Ha _]; subst.
  destruct (plain_name_spec _ Ha) as (H0 & _ & _ & Hn).
  destruct a as [|c a]; [congruence|].
  cbn in Hn. apply andb_true_iff in Hn. destruct Hn as [Hc _].
  unfold no_sep in Hc. apply negb_true_iff in Hc.
  destruct segs; cbn; auto.
Qed.

(** On a directory made of plain segments and a plain file name,
    [path.join] is the concatenation with one separator. *)
Lemma join_plain (absolute : bool) (segs : list string) (name : string) :
  segs <> [] -> Forall (fun s => plain_name s = true) segs ->
  plain_name name = true ->
  PosixPath.join (of_segments absolute segs) name
  = JsPath.join (of_segments absolute segs) name.
Proof.
  intros Hne Hsegs Hname.
  destruct (plain_name_spec _ Hname) as (H0 & _ & _ & _).
  assert (Hall : Forall (fun s => plain_name s = true) (segs ++ [name]))
    by (apply Forall_app; split; [assumption|now constructor]).
  assert (Hne' : segs ++ [name] <> []) by (destruct segs; discriminate).
  destruct (truthy_concat_plain _ Hne Hsegs) as [Ht _].
  destruct (truthy_concat_plain _ Hne' Hall) as [Ht' Ha'].
  assert (Hsplit : split_sep (String.concat "/" (segs ++ [name])) = segs ++ [name]).
  { apply split_sep_concat; [assumption|].
    revert Hall. apply Forall_impl. intros s Hs. now apply plain_name_spec in Hs. }
  assert (Hp : JsPath.join (of_segments absolute segs) name
               = of_segments absolute (segs ++ [name])).
  { unfold JsPath.join, of_segments. rewrite concat_snoc by assumption.
    now rewrite <- !JsStringFacts.append_assoc. }
  rewrite Hp. unfold PosixPath.join.
  assert (Hd : truthy (of_segments absolute segs) = true)
    by (unfold of_segments; destruct absolute; [reflexivity|exact Ht]).
  assert (Hn : truthy name = true) by (destruct name; [congruence|reflexivity]).
  rewrite Hd, Hn.
  change (of_segments absolute segs ++ "/" ++ name)%string
    with (JsPath.join (of_segments absolute segs) name).
  rewrite Hp. unfold normalize, normalizeString, of_segments.
  assert (Htrail : trailing_separator
                     ((if absolute then "/" else "")
                        ++ String.concat "/" (segs ++ [name])) = false).
  { rewrite concat_snoc by assumption.
    replace ((if absolute then "/" else "") ++ String.concat "/" segs ++ "/" ++ name)%string
      with (((if absolute then "/" else "") ++ String.concat "/" segs ++ "/") ++ name)%string
      by (now rewrite !JsStringFacts.append_assoc).
    now apply trailing_separator_app. }
  rewrite Htrail. destruct absolute.
  - cbn [String.append truthy negb is_absolute]. rewrite Ascii.eqb_refl.
    cbn [negb split_sep]. rewrite Ascii.eqb_refl, Hsplit.
    cbn [fold_left]. change (push_segment false [] "") with (@nil string).
    rewrite fold_push_plain by assumption.
    cbn [app]. now rewrite Ht'.
  - cbn [String.append]. rewrite Ht', Ha'. cbn [negb].
    rewrite Hsplit, fold_push_plain by assumption. cbn [app]. now rewrite Ht'.
Qed.

(** Where the directory is not of that form the two differ: [path.join]
    leaves one separator. *)
Lemma join_normalises :
  PosixPath.join "/pics/" "a.jpg" = "/pics/a.jpg"
  /\ JsPath.join "/pics/" "a.jpg" = "/pics//a.jpg"
  /\ PosixPath.join "/" "photo.jpg" = "/photo.jpg"
  /\ JsPath.join "/" "photo.jpg" = "//photo.jpg"
  /\ PosixPath.join "/pics" "a.jpg" = "/pics/a.jpg"
  /\ PosixPath.join "pics/2024/../." "a.jpg" = "pics/a.jpg".
Proof. repeat split; vm_compute; reflexivity. Qed.

End PosixPathFacts.
